(* ===== verification/_CoqProject ===== *)
-Q . S2P
Prelude.v
Heaps.v
Posix.v
Pager.v
PageCache.v
PageStore.v
BTree.v
Wal.v
CString.v
Protocol.v
Security.v
Double.v
Lexer.v
LexerMem.v
Ast.v
Parser.v
ParserSpec.v
ParserTotal.v
Expression.v
Fields.v
Errors.v
Schema.v
Catalog.v
Executor.v
ResultSet.v
ValueMem.v
Storage.v
Memory.v
Auxiliary.v
Teardown.v
AstMem.v
ParserMem.v
StatementMem.v
Stats.v
Log.v
Server.v
Startup.v
Cli.v
ClientServer.v
CliFormat.v
