(* ===== verification/Prelude.v ===== *)
(** Verification of TinyDB: storage engine, SQL front end, executor, server, client.

    * The program

    TinyDB keeps a database in one file of 4096-byte pages. The pager
    (src/src/storage/pager.c) reads and writes pages, keeps a 48-byte header and a
    freelist threaded through the free pages. The page cache
    (src/src/storage/page_cache.c) keeps pages in memory in a chained hash table
    with an LRU list, pins them for its clients and writes dirty ones back. A
    B-tree (src/src/storage/btree.c) stores 64-bit keys with byte values in leaf
    pages it gets from the cache. The write-ahead log (src/src/storage/wal.c) is a
    separate file of entries.
    SQL text goes through the lexer (src/src/sql/lexer.c) and the parser
    (parser.c), which builds statements out of reference-counted nodes (ast.c);
    expressions are evaluated by expression.c. The executor (executor.c) runs
    statements on a storage handle (storage.c): the catalog (catalog.c), a B-tree of
    table and index entries, over cache and pager. schema.c describes tables.
    The server (src/src/server/server.c, main.c) accepts clients on a Unix socket
    one after the other, parses their queries and answers them; it does not reach
    the executor yet. protocol.c is a framing layer that it does not use. The
    command line client (src/src/cli) sends statements and prints replies. log.c and
    stats.c (src/src/observability) log and count; security.c validates and escapes
    text; error.c and string.c (src/src/util) are utilities.

    * The files

    - Prelude: outcomes of C code, byte buffers, machine integers, encodings.
    - Heaps: a heap of objects of any type with malloc and free, what a function
      releases ([releases]) and what it adds ([extends]). AstMem, ParserMem,
      StatementMem, ValueMem, LexerMem and Teardown put their objects on it.
    - Posix: a file, its offset, and read/write/lseek/ftruncate/fsync/fstat with a
      script of kernel events (short transfers, EINTR, failures), and the
      read_exact/write_exact loops that pager.c and wal.c share.
    - Pager: all of pager.c. State: [Pager]; the file is inside it.
    - PageCache: page_cache.c. The pages are a heap ([gmap] from addresses to
      [Page]), so that the hash chains, the LRU links and freed pages are modelled
      as pointers; reading a freed page is undefined.
    - PageStore: the interface between the cache and its clients, a class of
      operations [PageStore] with its laws [PageStoreLaws], and the instance for the
      cache over the pager.
    - BTree: all of btree.c over any [PageStore].
    - Wal: all of wal.c.
    - CString: C strings, the str_* and list_* functions of string.c. Memory: its
      mem_* functions over a heap of blocks.
    - Protocol: server/protocol.c. Security: security.c.
    - Double: C doubles on SpecFloat, atof, atoll, "%lld" and "%.15g".
    - Lexer: sql/token.h and lexer.c. LexerMem: the memory of lexer.c, and of the
      parser's use of it.
    - Ast: expressions and statements of ast.h as values, which the parser, the
      evaluator and the executor share. AstMem: ast.c, the same as nodes on a heap.
    - Parser: parser.c, over a class of token sources [TokenSource] that the lexer
      implements. ParserSpec: a printer, and parsing undoes it. ParserTotal: the
      parser on any input. ParserMem, StatementMem: the parse functions of
      expressions and of statements with their nodes, strings, lists and arrays on
      the heap of AstMem.
    - Expression: expression.c. ValueMem: the memory of its values and of its
      evaluation, and of the result sets of executor.c.
    - Fields: fixed-size arrays and integers inside records. Errors: error.c.
    - Schema, Catalog, Executor, ResultSet, Storage: the files of these names in
      src/src/sql (ResultSet is the second half of executor.c).
    - Auxiliary: the files that only forward (page.c, file.c) or do nothing yet, and
      the functions that print. Teardown: the functions of the other files that only
      free their handle.
    - Stats, Log: stats.c and log.c.
    - Server: requests, clients and the accept loop of server.c. Startup: its files
      (run directory, lock, pid, socket) and main.c.
    - Cli: cli.c and cli/main.c. CliFormat: commands.c. ClientServer: client and
      server put together.

    * How C is modelled

    A function becomes a Gallina function on the state it changes, in the
    [outcome] monad: [Done] for a result, [Undef] where C leaves the behaviour open
    (out-of-bounds access, use after free, signed overflow, a value that depends on
    an address or on bytes never written), [NoFuel] for a loop that used up its
    fuel. Theorems that a call succeeds are stated as [= Done ...], for fuels at or
    above a stated bound: the number of cached pages for the cache's chains, one
    step per remaining byte for the scanners, twice the number of tokens and more
    for the parser, the depth for expressions, one step per line or read for the
    loops of the client. A loop that never ends is shown as [NoFuel] for every fuel.
    Integers are [Z] with wrap-around written out at the type's width; the host is
    little-endian, int is 32 and size_t 64 bits. Byte buffers are [list Z] with
    checked accesses, and an argument gives what an array on the stack holds before.
    Structures written to disk are encoded field by field.
    The kernel is a script: file operations take their events from a list ([benign]
    lists hold no failure but any interruptions and short transfers, the empty list
    is an undisturbed run); the server gets what select, accept and read return; the
    client gets the chunks that its reads return, and whether connect and write work.
    The file system of Startup maps paths to directories, files and sockets, with
    the permission to create a path as an argument. Clock, getpid, fopen, malloc and
    formatted messages are arguments in the same way.

    * What the theorems show

    - Pager: an opened file is well formed and every operation keeps it so; create,
      close and open agree; reads return what was written; the freelist is a stack
      and no page in use is handed out twice within a session, but a page popped off
      the freelist is handed out again after a reopen.
    - Page cache: with room, the cache is transparent (reads see the latest write,
      no other page changes), a flush followed by a reopen preserves every page, and
      eviction leaves the LRU list dangling or cyclic.
    - B-tree: created trees refine a finite map with a byte budget under insertion
      and lookup; scans return every pair, in the order of insertion (not of the keys,
      as the design has it); the contents survive close and reopen;
      updates do nothing, and a long value wraps the 16-bit size check.
    - Log file: the checksum detects any single-byte change; what is appended can be
      read back from the file by an independent reader, but the program's recovery
      scan starts inside the header and loses it; reopening overwrites the log,
      truncation can destroy it, frames contain stack bytes.
    - Text: bounded copies stay in bounds, the list keeps its items, escapes round
      trip, requests are framed by newlines, validators accept exactly the stated
      language; overlong lines and one-character statements break their loops.
    - Lexer: lexing terminates, lookahead is transparent, string and integer
      literals round trip, keywords are found except the two out of order. Its
      memory: every use is safe, buffers are never overrun, destruction frees all
      but the contents of string literals.
    - Parser: every printable statement is read back from its text; parsing ends
      for the inputs in scope, and the shape of what it returns is stated; operators
      associate to the right whatever their precedence; three shapes make it run for
      ever; some documented statements are rejected.
    - Nodes: parsing on the heap refines parsing on values: the statement is made of
      new objects that parser_free_ast frees, all once, but for the column names of
      expressions; error paths leak. A copy of literals, columns and operators is
      independent; other copies share children and are freed twice.
    - Expressions: values are totally ordered, evaluation terminates without '%',
      LIKE agrees with SQL without '%' and never returns behind one, integer
      operators are exact below 2^53, and operators as the parser stores them are
      not the ones the evaluator tests. Evaluation on the heap refines evaluation on
      values: it frees all it makes but the result, and nothing of the caller's.
    - Schema, catalog: records round trip (a schema without its root page),
      comparison is an equivalence, the catalog is a list of at most six entries as
      long as no two tables have names of equal length, and loses entries otherwise;
      large schemas overrun their buffer.
    - Executor: transactions are a two-state automaton; CREATE TABLE and SELECT;
      INSERT of one row of literals on every branch, and that several rows become
      one record; DISTINCT, LIMIT and the projection against reference
      functions; opening a database forgets or erases what it held. A result set
      grows and is freed with its rows, unless it has columns: then it cannot be.
    - Server: the dialogue with a client is a function of each read; a printed
      statement is understood through reading, trimming, lexing and parsing; the
      accept loop serves its clients in order until one asks for a shutdown, and
      signals do not reach it; from start to stop the three files
      come and go; a second start removes them; one statement can stop it.
    - Client: replies of any cut are read to their end; the interactive loop executes
      exactly the statements typed, over any number of lines; CSV output is read
      back (it has no header record); a box is the picture of its table; a statement
      goes from the client to the server's parser whole, and an error message comes
      back whole.
    - Counters and logging: counters are sums modulo 2^64, table statistics a map,
      categories a set, a message is written once, whole, where it should be.

    Where the code does something else than its design documents, specifications or
    comments say, the theorem's comment says so, and the theorem states what the
    code does or leaves that part out.

    * Not modelled

    Some ints that only count are integers without a bound, so that their overflow
    (after 2^31 steps of one run, undefined in C) is not modelled: hits, misses, pins
    and reference counts of the page cache, reference counts of nodes, line and
    column of the lexer, client_count of the server; and a length that C keeps in an
    int is a nat in the widths of a box. memcmp gives -1, 0 or 1, where C gives some
    int of that sign. A write to a closed socket returns -1 to the client, which
    stands for SIGPIPE being ignored; with its default action the process ends. The
    statements on the heap (StatementMem) leave out the flags that are no pointers.
    The database file that main creates through tinydb_open is not in the file map
    of Startup, which holds lock, pid file, socket and directories.
    Threads, mutexes and atomicity (the page cache's locks are no-ops in one thread,
    and everything else runs in one); NULL where an object is required; failing
    allocation outside Memory. Reading signals into handlers
    (sigaction: server_setup_signals, stats_register_sigusr1), closing of
    descriptors, the splitting of argv by getopt_long, strftime and printf of
    formatted arguments are the C library's and appear as arguments. DEFAULT_CACHE_SIZE
    comes from a generated header and is an argument. *)
From Stdlib Require Import ZArith Lia.
From stdpp Require Import base numbers option list.

#[global] Open Scope Z_scope.

(** ** Outcomes of C code *)

(** [Done] is normal termination, [Undef] an execution that the C standard
    leaves undefined (out-of-bounds access, use after free, null dereference),
    [NoFuel] a loop that did not finish within the fuel it was given. *)
Inductive outcome (A : Type) : Type :=
  | Done (a : A)
  | Undef
  | NoFuel.
Arguments Done {A} a.
Arguments Undef {A}.
Arguments NoFuel {A}.

Definition obind {A B} (m : outcome A) (f : A -> outcome B) : outcome B :=
  match m with Done a => f a | Undef => Undef | NoFuel => NoFuel end.

Declare Scope outcome_scope.
#[global] Open Scope outcome_scope.
Notation "'let*' x := m 'in' k" := (obind m (fun x => k))
  (at level 10, x binder, m at level 100, k at level 200)
  : outcome_scope.

Definition outcome_of_option {A} (o : option A) : outcome A :=
  match o with Some a => Done a | None => Undef end.

Lemma bind_Done {A B} (f : A -> outcome B) (a : A) : obind (Done a) f = f a.
Proof. reflexivity. Qed.

Lemma bind_Done_inv {A B} (m : outcome A) (f : A -> outcome B) (b : B) :
  obind m f = Done b -> exists a, m = Done a /\ f a = Done b.
Proof. destruct m; simpl; intros H; try discriminate; eauto. Qed.

Lemma bind_assoc {A B C} (m : outcome A) (f : A -> outcome B) (g : B -> outcome C) :
  obind (obind m f) g = obind m (fun a => obind (f a) g).
Proof. by destruct m. Qed.

Lemma obind_ext {A B} (m : outcome A) (f g : A -> outcome B) : (forall a, f a = g a) -> obind m f = obind m g.
Proof. intros Hfg. destruct m; simpl; auto. Qed.

(** Two computations with the same outcome and related results. *)
Definition agrees {A B} (R : A -> B -> Prop) (m : outcome A) (o : outcome B) : Prop :=
  match o with
  | Done b => exists a, m = Done a /\ R a b
  | Undef => m = Undef
  | NoFuel => m = NoFuel
  end.

Lemma agrees_Done {A B} (R : A -> B -> Prop) a b : R a b -> agrees R (Done a) (Done b).
Proof. intros HR. by exists a. Qed.

Lemma agrees_bind {A B C D} (R : A -> B -> Prop) (S : C -> D -> Prop) m o f g :
  agrees R m o -> (forall a b, R a b -> agrees S (f a) (g b)) -> agrees S (obind m f) (obind o g).
Proof. destruct o as [b| |]; cbn; [intros (a & -> & Hab) H; by apply H|by intros -> _|by intros -> _]. Qed.

(** The same step on both sides. *)
Lemma agrees_same {A C D} (S : C -> D -> Prop) (m : outcome A) f g :
  (forall a, agrees S (f a) (g a)) -> agrees S (obind m f) (obind m g).
Proof. intros H. by destruct m; cbn; [apply H|..]. Qed.

(** Inverts a chain of monadic binds that ends in [Done]. *)
Ltac outcome_inv :=
  repeat match goal with
  | H : obind _ _ = Done _ |- _ =>
      let a := fresh "a" in let E := fresh "E" in
      apply bind_Done_inv in H as (a & E & H)
  | H : Done _ = Done _ |- _ => injection H; clear H; intros; subst
  | H : (let '(_, _) := ?p in _) = Done _ |- _ => destruct p
  | H : Undef = Done _ |- _ => discriminate H
  | H : NoFuel = Done _ |- _ => discriminate H
  end.

(** [m] does not run out of fuel, and a result satisfies [P]. *)
Definition terminates {A} (m : outcome A) (P : A -> Prop) : Prop :=
  match m with Done a => P a | Undef => True | NoFuel => False end.

Lemma terminates_bind {A B} (m : outcome A) (f : A -> outcome B) (P : A -> Prop) (Q : B -> Prop) :
  terminates m P -> (forall a, P a -> terminates (f a) Q) -> terminates (obind m f) Q.
Proof. destruct m; simpl; auto. Qed.

Lemma terminates_mono {A} (m : outcome A) (P Q : A -> Prop) :
  terminates m P -> (forall a, P a -> Q a) -> terminates m Q.
Proof. destruct m; simpl; auto. Qed.

Lemma terminates_Done {A} (m : outcome A) (P : A -> Prop) a : terminates m P -> m = Done a -> P a.
Proof. by intros Hm ->. Qed.

(** ** Machine integers *)

Definition u8 (z : Z) : Z := z mod 2 ^ 8.
Definition u16 (z : Z) : Z := z mod 2 ^ 16.
Definition u32 (z : Z) : Z := z mod 2 ^ 32.
Definition u64 (z : Z) : Z := z mod 2 ^ 64.

(** Two's complement reading of a [w]-bit pattern. *)
Definition signed (w z : Z) : Z :=
  let m := z mod 2 ^ w in if m <? 2 ^ (w - 1) then m else m - 2 ^ w.
Definition i32 (z : Z) : Z := signed 32 z.
Definition i64 (z : Z) : Z := signed 64 z.

Definition is_byte (z : Z) : Prop := 0 <= z < 256.

Lemma u32_id z : 0 <= z < 2 ^ 32 -> u32 z = z.
Proof. apply Z.mod_small. Qed.
Lemma u64_id z : 0 <= z < 2 ^ 64 -> u64 z = z.
Proof. apply Z.mod_small. Qed.
Lemma u16_id z : 0 <= z < 2 ^ 16 -> u16 z = z.
Proof. apply Z.mod_small. Qed.
Lemma u32_bound z : 0 <= u32 z < 2 ^ 32.
Proof. apply Z.mod_pos_bound; lia. Qed.
Lemma u8_bound z : is_byte (u8 z).
Proof. apply (Z.mod_pos_bound z 256); lia. Qed.

Lemma i64_id z : - 2 ^ 63 <= z < 2 ^ 63 -> i64 z = z.
Proof.
  intros H. unfold i64, signed.
  assert (2 ^ 64 = 2 * 2 ^ 63) by reflexivity.
  destruct (Z.ltb_spec z 0).
  - assert (E : z mod 2 ^ 64 = z + 2 ^ 64).
    { symmetry. apply (Z.mod_unique_pos _ _ (-1)); lia. }
    rewrite E. destruct (Z.ltb_spec (z + 2 ^ 64) (2 ^ (64 - 1))); simpl in *; lia.
  - rewrite Z.mod_small by lia.
    destruct (Z.ltb_spec z (2 ^ (64 - 1))); simpl in *; lia.
Qed.

(** ** Lists as byte buffers *)

Abbreviation len l := (Z.of_nat (length l)).

Lemma len_app {A} (l k : list A) : len (l ++ k) = len l + len k.
Proof. rewrite length_app. lia. Qed.

(** [slice o n l] is the [n] elements of [l] from index [o]. *)
Definition slice {A} (o n : nat) (l : list A) : list A := take n (drop o l).

(** [splice o s l] overwrites [l] from index [o] with [s]. *)
Definition splice {A} (o : nat) (s l : list A) : list A :=
  take o l ++ s ++ drop (o + length s) l.

Section slices.
Context {A : Type}.
Implicit Types l s k : list A.

Lemma length_slice o n l : (o + n <= length l)%nat -> length (slice o n l) = n.
Proof. intros. unfold slice. rewrite length_take, length_drop. lia. Qed.

Lemma length_splice o s l :
  (o + length s <= length l)%nat -> length (splice o s l) = length l.
Proof.
  intros. unfold splice. rewrite !length_app, length_take, length_drop. lia.
Qed.

Lemma slice_all l : slice 0 (length l) l = l.
Proof. unfold slice. rewrite drop_0. apply take_ge. lia. Qed.

Lemma slice_app_l o n l k :
  (o + n <= length l)%nat -> slice o n (l ++ k) = slice o n l.
Proof.
  intros. unfold slice. rewrite drop_app_le by lia.
  rewrite take_app_le; [done|]. rewrite length_drop. lia.
Qed.

Lemma slice_app_r o n l k :
  (length l <= o)%nat -> slice o n (l ++ k) = slice (o - length l) n k.
Proof. intros. unfold slice. by rewrite drop_app_ge by lia. Qed.

Lemma slice_app_exact l k : slice (length l) (length k) (l ++ k) = k.
Proof.
  rewrite slice_app_r, Nat.sub_diag by lia. apply slice_all.
Qed.

Lemma slice_take o n m l : (o + n <= m)%nat -> slice o n (take m l) = slice o n l.
Proof.
  intros. unfold slice. rewrite skipn_firstn_comm, take_take.
  f_equal. lia.
Qed.

Lemma slice_drop o n m l : slice o n (drop m l) = slice (m + o) n l.
Proof. unfold slice. by rewrite drop_drop. Qed.

Lemma slice_slice o n p m l :
  (p + m <= n)%nat -> slice p m (slice o n l) = slice (o + p) m l.
Proof. intros. unfold slice at 2. rewrite slice_take by lia. apply slice_drop. Qed.

Lemma slice_split o n m l :
  slice o (n + m) l = slice o n l ++ slice (o + n) m l.
Proof.
  unfold slice. rewrite <- (take_drop n (take (n + m) (drop o l))).
  rewrite take_take, skipn_firstn_comm, drop_drop. f_equal; f_equal; lia.
Qed.

Lemma slice_splice_inside o n p s l :
  (p <= length l)%nat -> (p <= o)%nat -> (o + n <= p + length s)%nat ->
  slice o n (splice p s l) = slice (o - p) n s.
Proof.
  intros. unfold splice.
  assert (length (take p l) = p) as Hp by (rewrite length_take; lia).
  rewrite slice_app_r by lia. rewrite Hp. apply slice_app_l. lia.
Qed.

Lemma slice_splice_same p s l :
  (p <= length l)%nat -> slice p (length s) (splice p s l) = s.
Proof. intros. rewrite slice_splice_inside, Nat.sub_diag by lia. apply slice_all. Qed.

Lemma slice_splice_before o n p s l :
  (p <= length l)%nat -> (o + n <= p)%nat ->
  slice o n (splice p s l) = slice o n l.
Proof.
  intros. unfold splice. rewrite slice_app_l by (rewrite length_take; lia).
  apply slice_take. lia.
Qed.

Lemma slice_splice_after o n p s l :
  (p + length s <= length l)%nat -> (p + length s <= o)%nat ->
  slice o n (splice p s l) = slice o n l.
Proof.
  intros. unfold splice. rewrite app_assoc, slice_app_r.
  - rewrite length_app, length_take, slice_drop. f_equal. lia.
  - rewrite length_app, length_take. lia.
Qed.

(** Overwriting a range with what it already holds changes nothing. *)
Lemma splice_slice_id o n l :
  (o + n <= length l)%nat -> splice o (slice o n l) l = l.
Proof.
  intros. unfold splice. rewrite length_slice by lia. unfold slice.
  rewrite <- drop_drop, (take_drop n (drop o l)). apply take_drop.
Qed.

(** Two adjacent overwrites are one. *)
Lemma splice_app o s k l :
  (o <= length l)%nat -> splice (o + length s) k (splice o s l) = splice o (s ++ k) l.
Proof.
  intros Ho. unfold splice. assert (length (take o l) = o) as Ht by (rewrite length_take; lia).
  set (a := take o l) in *. set (r := drop (o + length s) l).
  rewrite !(app_assoc a s r). rewrite take_app_length' by (rewrite length_app; lia).
  rewrite drop_app_ge by (rewrite length_app; lia).
  replace (o + length s + length k - length (a ++ s))%nat with (length k)
    by (rewrite length_app; lia).
  unfold r. rewrite drop_drop, length_app, <- !app_assoc. do 4 f_equal. lia.
Qed.
End slices.

(** Bounds-checked access, with C offsets: out of range is undefined. *)
Definition buf_read {A} (off n : Z) (b : list A) : outcome (list A) :=
  if (0 <=? off) && (0 <=? n) && (off + n <=? len b)
  then Done (slice (Z.to_nat off) (Z.to_nat n) b) else Undef.

Definition buf_write {A} (off : Z) (s b : list A) : outcome (list A) :=
  if (0 <=? off) && (off + len s <=? len b)
  then Done (splice (Z.to_nat off) s b) else Undef.

Section buffers.
Context {A : Type}.
Implicit Types b s : list A.

Lemma buf_read_Done off n b :
  0 <= off -> 0 <= n -> off + n <= len b ->
  buf_read off n b = Done (slice (Z.to_nat off) (Z.to_nat n) b).
Proof.
  intros. unfold buf_read.
  by rewrite (proj2 (Z.leb_le 0 off)), (proj2 (Z.leb_le 0 n)),
    (proj2 (Z.leb_le (off + n) (len b))) by lia.
Qed.

Lemma buf_read_inv off n b r :
  buf_read off n b = Done r ->
  0 <= off /\ 0 <= n /\ off + n <= len b /\ r = slice (Z.to_nat off) (Z.to_nat n) b.
Proof.
  unfold buf_read. destruct (_ && _ && _) eqn:E; [|discriminate].
  intros [= <-]. apply andb_prop in E as [E1 E2]. apply andb_prop in E1 as [E0 E1].
  repeat split; try apply Z.leb_le; done.
Qed.

Lemma buf_read_len off n b r : buf_read off n b = Done r -> len r = n.
Proof. intros (?&?&?&->)%buf_read_inv. rewrite length_slice by lia. lia. Qed.

Lemma buf_write_Done off s b :
  0 <= off -> off + len s <= len b ->
  buf_write off s b = Done (splice (Z.to_nat off) s b).
Proof.
  intros. unfold buf_write.
  by rewrite (proj2 (Z.leb_le 0 off)), (proj2 (Z.leb_le (off + len s) (len b))) by lia.
Qed.

Lemma buf_write_inv off s b r :
  buf_write off s b = Done r ->
  0 <= off /\ off + len s <= len b /\ r = splice (Z.to_nat off) s b.
Proof.
  unfold buf_write. destruct (_ && _) eqn:E; [|discriminate].
  intros [= <-]. apply andb_prop in E as [E0 E1].
  repeat split; try apply Z.leb_le; done.
Qed.

Lemma buf_write_len off s b r : buf_write off s b = Done r -> len r = len b.
Proof. intros (?&?&->)%buf_write_inv. rewrite length_splice by lia. lia. Qed.

Lemma buf_read_write_same off s b r :
  buf_write off s b = Done r -> buf_read off (len s) r = Done s.
Proof.
  intros H. pose proof (buf_write_len _ _ _ _ H) as HL.
  apply buf_write_inv in H as (?&?&->). rewrite buf_read_Done by lia.
  by rewrite Nat2Z.id, slice_splice_same by lia.
Qed.

Lemma buf_read_write_disj off n off' s b r :
  buf_write off' s b = Done r ->
  off + n <= off' \/ off' + len s <= off ->
  buf_read off n r = buf_read off n b.
Proof.
  intros H Hd. pose proof (buf_write_len _ _ _ _ H) as HL.
  apply buf_write_inv in H as (?&?&->). unfold buf_read. rewrite HL.
  destruct (_ && _ && _) eqn:E; [|done]. f_equal.
  apply andb_prop in E as [E1 E2]. apply andb_prop in E1 as [E0 E1].
  apply Z.leb_le in E0, E1, E2.
  destruct Hd; [apply slice_splice_before|apply slice_splice_after]; lia.
Qed.
End buffers.

(** ** Integer encodings *)

Fixpoint le_bytes (n : nat) (z : Z) : list Z :=
  match n with
  | O => []
  | S n' => z mod 256 :: le_bytes n' (z / 256)
  end.

Fixpoint le_val (l : list Z) : Z :=
  match l with
  | [] => 0
  | b :: l' => b + 256 * le_val l'
  end.

Lemma length_le_bytes n z : length (le_bytes n z) = n.
Proof. revert z. induction n; simpl; auto. Qed.

Lemma le_bytes_byte n z : Forall is_byte (le_bytes n z).
Proof.
  revert z. induction n; intros z; simpl; constructor; auto.
  apply (Z.mod_pos_bound z 256); lia.
Qed.

Lemma le_val_bytes n z : 0 <= z < 256 ^ Z.of_nat n -> le_val (le_bytes n z) = z.
Proof.
  revert z. induction n; intros z Hz; simpl.
  - change (256 ^ Z.of_nat 0) with 1 in Hz. lia.
  - rewrite IHn.
    + rewrite (Z.div_mod z 256) at 3 by lia. lia.
    + rewrite Nat2Z.inj_succ, Z.pow_succ_r in Hz by lia.
      split; [apply Z.div_pos; lia | apply Z.div_lt_upper_bound; lia].
Qed.

Lemma le_bytes_val l : Forall is_byte l -> le_bytes (length l) (le_val l) = l.
Proof.
  induction 1 as [|b l Hb Hl IH]; simpl; [done|]. unfold is_byte in Hb.
  replace (b + 256 * le_val l) with (le_val l * 256 + b) by lia.
  rewrite Z.div_add_l, (Z.div_small b), Z.add_0_r, IH by lia. f_equal.
  rewrite Z.add_comm, Z.mod_add by lia. by apply Z.mod_small.
Qed.

Lemma le_val_bound l : Forall is_byte l -> 0 <= le_val l < 256 ^ len l.
Proof.
  induction 1 as [|b l Hb Hl IH]; cbn [le_val length].
  - change (256 ^ len (@nil Z)) with 1. lia.
  - unfold is_byte in Hb. rewrite Nat2Z.inj_succ, Z.pow_succ_r by lia. lia.
Qed.

(** The automation shared by the component files. *)
Create HintDb tinydb.
#[export] Hint Resolve u8_bound u32_bound le_bytes_byte : tinydb.
Create Rewrite HintDb blen.
#[export] Hint Rewrite @length_app @length_take @length_drop @length_slice
  @length_splice length_le_bytes @length_replicate @length_insert : blen.

(** Length goals over buffers. *)
Ltac blen := autorewrite with blen; try lia.

(** Case analysis on the boolean comparisons of [Z]. *)
Ltac zcase :=
  repeat match goal with
  | |- context [Z.eqb ?a ?b] => destruct (Z.eqb_spec a b); try lia
  | |- context [Z.ltb ?a ?b] => destruct (Z.ltb_spec a b); try lia
  | |- context [Z.leb ?a ?b] => destruct (Z.leb_spec a b); try lia
  end.
