(* ===== verification/Heaps.v ===== *)
(** Heaps: finite maps from addresses to objects, with allocation and release, for
    the components whose memory is modelled. The allocator never fails and never
    reuses an address, 0 is NULL, and freeing what is not allocated is undefined.
    What a function frees is stated by [releases], which composes. *)
From Stdlib Require Import ZArith Lia.
From stdpp Require Import base numbers option list gmap.
From S2P Require Import Prelude.

(** Addresses. *)
Notation loc := Z (only parsing).

Section heaps.
Context {O : Type}.

Record Heap : Type := mkHeap { cells : gmap Z O; brk : Z }.

Implicit Types h : Heap.

Definition put h (l : loc) (o : O) : Heap := mkHeap (<[l := o]> (cells h)) (brk h).

Definition alloc h (o : O) : loc * Heap := (brk h, mkHeap (<[brk h := o]> (cells h)) (brk h + 1)).

(** free: nothing for NULL. *)
Definition free h (l : loc) : outcome Heap :=
  if l =? 0 then Done h else
  match cells h !! l with
  | Some _ => Done (mkHeap (delete l (cells h)) (brk h))
  | None => Undef
  end.

(** Frees one after the other. *)
Fixpoint free_all h (ls : list loc) : outcome Heap :=
  match ls with [] => Done h | l :: ls => let* h := free h l in free_all h ls end.

(** The heap without some addresses. *)
Definition del (ls : list loc) h : Heap := mkHeap (foldr delete (cells h) ls) (brk h).

Definition present h (x : loc * O) : Prop := fst x <> 0 /\ cells h !! fst x = Some (snd x).

(** The heap's allocator is ahead of every address in use. *)
Definition heap_ok h : Prop := 0 < brk h /\ forall l, brk h <= l -> cells h !! l = None.

(** ** Laws *)

Lemma heap_eq h1 h2 : cells h1 = cells h2 -> brk h1 = brk h2 -> h1 = h2.
Proof. destruct h1, h2. simpl. by intros -> ->. Qed.

Lemma del_lookup ls h k : cells (del ls h) !! k = if decide (k ∈ ls) then None else cells h !! k.
Proof.
  unfold del. simpl. induction ls as [|l ls IH]; simpl; [done|].
  destruct (decide (k = l)) as [->|Hn].
  - rewrite lookup_delete_eq, decide_True; [done|by left].
  - rewrite lookup_delete_ne, IH by done. destruct (decide (k ∈ ls)).
    + rewrite decide_True; [done|by right].
    + rewrite decide_False; [done|]. by rewrite not_elem_of_cons.
Qed.

Lemma del_keep ls h k : k ∉ ls -> cells (del ls h) !! k = cells h !! k.
Proof. intros Hk. rewrite del_lookup. by rewrite decide_False. Qed.

Lemma del_ext ls1 ls2 h1 h2 :
  brk h1 = brk h2 -> (forall k, k ∈ ls1 <-> k ∈ ls2) -> (forall k, k ∉ ls1 -> cells h1 !! k = cells h2 !! k) ->
  del ls1 h1 = del ls2 h2.
Proof.
  intros Hb Hl Hk. apply heap_eq; [|done]. apply map_eq. intros k. rewrite !del_lookup.
  destruct (decide (k ∈ ls1)) as [H1|H1].
  - rewrite decide_True; [done|by apply Hl].
  - rewrite decide_False; [by apply Hk|by rewrite <- Hl].
Qed.

Lemma del_app ls1 ls2 h : del ls1 (del ls2 h) = del (ls1 ++ ls2) h.
Proof. apply heap_eq; [|done]. simpl. by rewrite foldr_app. Qed.

Lemma free_ok h l o : l <> 0 -> cells h !! l = Some o -> free h l = Done (del [l] h).
Proof. intros Hl Ho. unfold free. rewrite (proj2 (Z.eqb_neq _ _) Hl), Ho. done. Qed.

Lemma present_frame h h' bs :
  Forall (present h) bs -> (forall a, a ∈ map fst bs -> cells h' !! a = cells h !! a) -> Forall (present h') bs.
Proof.
  intros Hb Hs. rewrite Forall_forall in Hb |- *. intros x Hin. destruct (Hb x Hin) as [H1 H2].
  split; [done|]. rewrite Hs; [done|]. apply list_elem_of_fmap. by exists x.
Qed.

Lemma free_all_ok h (bs : list (loc * O)) :
  Forall (present h) bs -> NoDup (map fst bs) ->
  free_all h (map fst bs) = Done (del (map fst bs) h).
Proof.
  revert h. induction bs as [|[l o] bs IH]; intros h Hb Hd; [by destruct h|]. cbn [map free_all fst].
  apply Forall_cons in Hb as [[Hl Ho] Hb]. cbn [map fst snd] in *. apply NoDup_cons in Hd as [Hn Hd].
  rewrite (free_ok h l o Hl Ho), bind_Done, IH; [|..|done].
  - f_equal. rewrite del_app. apply del_ext; [done| |done]. intros k. set_solver.
  - apply (present_frame h); [done|]. intros a Ha. apply del_keep. by intros ->%list_elem_of_singleton.
Qed.

Lemma heap_ok_alloc h o : heap_ok h -> heap_ok (snd (alloc h o)).
Proof.
  intros [H1 H2]. unfold alloc. split; simpl; [lia|]. intros l Hl. rewrite lookup_insert_ne by lia. apply H2. lia.
Qed.

Lemma alloc_frame h o l : l < brk h -> cells (snd (alloc h o)) !! l = cells h !! l.
Proof. intros Hl. simpl. apply lookup_insert_ne. lia. Qed.

Lemma heap_ok_put h l o : heap_ok h -> l < brk h -> heap_ok (put h l o).
Proof.
  intros [H1 H2] Hl. split; [done|]. intros k Hk. cbn [put cells brk] in *. rewrite lookup_insert_ne by lia. by apply H2.
Qed.

Lemma put_other h l o k : k <> l -> cells (put h l o) !! k = cells h !! k.
Proof. intros Hk. by apply lookup_insert_ne. Qed.

(** ** Ownership *)

(** [f] frees exactly the objects [img], when they are there. *)
Definition releases (f : Heap -> outcome Heap) (img : list (loc * O)) : Prop :=
  forall h, Forall (present h) img -> NoDup (map fst img) -> f h = Done (del (map fst img) h).

Lemma releases_ext f g img : (forall h, f h = g h) -> releases g img -> releases f img.
Proof. intros Hfg Hg h Hp Hd. by rewrite Hfg, Hg. Qed.

Lemma releases_nothing : releases Done [].
Proof. intros h _ _. by destruct h. Qed.

Lemma releases_seq f g i1 i2 :
  releases f i1 -> releases g i2 -> releases (fun h => let* h := f h in g h) (i1 ++ i2).
Proof.
  intros Hf Hg h Hp Hd. apply Forall_app in Hp as [Hp1 Hp2]. rewrite map_app in Hd |- *.
  apply NoDup_app in Hd as (Hd1 & Hdis & Hd2). rewrite Hf, bind_Done, Hg; [|..|done|done|done].
  - f_equal. rewrite del_app. apply del_ext; [done| |done]. intros k. rewrite !elem_of_app. tauto.
  - apply (present_frame h); [done|]. intros a Ha. apply del_keep. intros Ha'. by apply (Hdis a).
Qed.

Lemma releases_seq_r f g i1 i2 img :
  releases f i1 -> releases g i2 -> img = i1 ++ i2 -> releases (fun h => let* h := f h in g h) img.
Proof. intros Hf Hg ->. by apply releases_seq. Qed.

(** A node that is read first and freed last. *)
Lemma releases_node F body l o img :
  releases body img -> (forall h, cells h !! l = Some o -> l <> 0 -> F h = let* h := body h in free h l) ->
  releases F ((l, o) :: img).
Proof.
  intros Hbody HF h Hp Hd. apply Forall_cons in Hp as [[Hl Ho] Hp]. cbn [map fst snd] in *.
  apply NoDup_cons in Hd as [Hn Hd]. rewrite (HF h Ho Hl), Hbody, bind_Done by done.
  rewrite (free_ok _ l o Hl) by (by rewrite del_keep). done.
Qed.

Lemma releases_block l o : releases (fun h => free h l) [(l, o)].
Proof. intros h Hp _. apply Forall_cons in Hp as [[Hl Ho] _]. by apply (free_ok h l o). Qed.
(** ** Growth *)

(** [h'] is [h] and the new objects [img], nothing else. *)
Record extends (h h' : Heap) (img : list (loc * O)) : Prop := {
  ex_ok : heap_ok h';
  ex_brk : brk h <= brk h';
  ex_fresh : Forall (fun k => brk h <= k < brk h') (map fst img);
  ex_nodup : NoDup (map fst img);
  ex_present : Forall (present h') img;
  ex_frame k : k ∉ map fst img -> cells h' !! k = cells h !! k }.

Lemma below h l o : heap_ok h -> cells h !! l = Some o -> l < brk h.
Proof. intros [_ Hok] Hl. destruct (Z.lt_ge_cases l (brk h)); [done|]. by rewrite Hok in Hl. Qed.

Lemma extends_refl h : heap_ok h -> extends h h [].
Proof. intros Hok. split; [done|lia|constructor|constructor|constructor|done]. Qed.

Lemma extends_alloc h o : heap_ok h -> extends h (snd (alloc h o)) [(brk h, o)].
Proof.
  intros Hok. pose proof (proj1 Hok). split.
  - by apply heap_ok_alloc.
  - simpl. lia.
  - repeat constructor; simpl; lia.
  - apply NoDup_singleton.
  - repeat constructor; simpl; [lia|by apply lookup_insert_eq].
  - intros k Hk. simpl. apply lookup_insert_ne. intros <-. apply Hk. left.
Qed.

(** An old object is still there. *)
Lemma extends_old h h' img l o : heap_ok h -> extends h h' img -> cells h !! l = Some o -> cells h' !! l = Some o.
Proof.
  intros Hok He Hl. rewrite (ex_frame _ _ _ He); [done|]. intros Hin. pose proof (ex_fresh _ _ _ He) as Hf.
  rewrite Forall_forall in Hf. specialize (Hf l Hin). pose proof (below h l o Hok Hl). cbn in Hf. lia.
Qed.

Lemma extends_trans h h1 h2 i1 i2 : extends h h1 i1 -> extends h1 h2 i2 -> extends h h2 (i1 ++ i2).
Proof.
  intros H1 H2. pose proof (ex_brk _ _ _ H1). pose proof (ex_brk _ _ _ H2).
  pose proof (ex_fresh _ _ _ H1) as F1. pose proof (ex_fresh _ _ _ H2) as F2. rewrite Forall_forall in F1, F2.
  assert (forall k, k ∈ map fst i1 -> k ∉ map fst i2) as Hdis.
  { intros k K1 K2. specialize (F1 k K1). specialize (F2 k K2). cbn in F1, F2. lia. }
  split.
  - apply H2.
  - lia.
  - rewrite map_app. apply Forall_app. split; apply Forall_forall; intros k Hk;
      [specialize (F1 k Hk)|specialize (F2 k Hk)]; cbn in *; lia.
  - rewrite map_app. apply NoDup_app. split_and!; [apply H1|done|apply H2].
  - apply Forall_app. split; [|apply H2]. apply (present_frame h1); [apply H1|].
    intros k Hk. apply H2. by apply Hdis.
  - intros k. rewrite map_app, not_elem_of_app. intros [K1 K2]. rewrite (ex_frame _ _ _ H2) by done. by apply H1.
Qed.

Lemma extends_perm h h' i1 i2 : extends h h' i1 -> i1 ≡ₚ i2 -> extends h h' i2.
Proof.
  intros [H1 H2 H3 H4 H5 H6] Hp. assert (map fst i1 ≡ₚ map fst i2) as Hm by (by apply fmap_Permutation).
  split; [done|done|by rewrite <- Hm|by rewrite <- Hm|by rewrite <- Hp|]. intros k. rewrite <- Hm. apply H6.
Qed.

#[export] Instance extends_proper h h' : Proper ((≡ₚ) ==> iff) (extends h h').
Proof. intros i1 i2 Hi. by split; intros He; eapply extends_perm. Qed.

(** Part of what was added is released again. *)
Lemma extends_release f h h' i1 i2 :
  heap_ok h -> extends h h' (i1 ++ i2) -> releases f i1 -> exists h'', f h' = Done h'' /\ extends h h'' i2.
Proof.
  intros Hok [H1 H2 H3 H4 H5 H6] Hf. rewrite map_app in H3, H4, H6. apply Forall_app in H3 as [F1 F2], H5 as [P1 P2].
  apply NoDup_app in H4 as (D1 & Hdis & D2). eexists. split; [by apply Hf|]. split.
  - destruct H1 as [B1 B2]. split; [done|]. intros l Hl. rewrite del_lookup. case_decide; [done|]. by apply B2.
  - done.
  - done.
  - done.
  - apply (present_frame h'); [done|]. intros k Hk. apply del_keep. intros Hk'. by apply (Hdis k).
  - intros k Hk. rewrite del_lookup. case_decide as Hin.
    + rewrite Forall_forall in F1. specialize (F1 k Hin). cbn in F1. symmetry. apply (proj2 Hok). lia.
    + apply H6. by rewrite not_elem_of_app.
Qed.

(** A new object is overwritten. *)
Lemma extends_put h h' l o o' img : extends h h' ((l, o) :: img) -> extends h (put h' l o') ((l, o') :: img).
Proof.
  intros [H1 H2 H3 H4 H5 H6]. cbn [map fst] in *. pose proof (Forall_inv H3) as Hl. cbn in Hl.
  apply NoDup_cons in H4 as [Hn Hd]. split.
  - apply heap_ok_put; [done|lia].
  - done.
  - done.
  - by apply NoDup_cons.
  - apply Forall_cons in H5 as [[Hz _] H5]. constructor; [split; [done|by apply lookup_insert_eq]|].
    apply (present_frame h'); [done|]. intros k Hk. apply put_other. by intros ->.
  - intros k Hk. cbn [map fst] in Hk. apply not_elem_of_cons in Hk as [Hk1 Hk2].
    rewrite put_other by done. apply H6. by apply not_elem_of_cons.
Qed.
(** An object, another one, and the first completed. *)
Lemma extends_pair h (o o' b : O) :
  heap_ok h ->
  extends h (put (snd (alloc (snd (alloc h o)) b)) (brk h) o') [(brk h, o'); (brk h + 1, b)].
Proof.
  intros Hok. apply (extends_put _ _ _ o). apply (extends_trans _ (snd (alloc h o)) _ [_] [_]).
  - by apply extends_alloc.
  - apply (extends_alloc (snd (alloc h o))). by apply heap_ok_alloc.
Qed.

End heaps.

Arguments Heap O : clear implicits.
