(* ===== verification/Posix.v ===== *)
(** Model of the POSIX file operations the storage layer uses (lseek, read,
    write, ftruncate, fsync, fstat on one regular file), with a script of I/O
    events that makes calls fail, be interrupted or transfer fewer bytes than
    asked, and the read_exact/write_exact loops of pager.c and wal.c above it. *)
From Stdlib Require Import ZArith Lia.
From stdpp Require Import base numbers option list.
From S2P Require Import Prelude.

(** What the kernel does on the next call: transfer everything it can, at most
    [S n] bytes, return EINTR, or fail with another error. A call made after
    the script is used up behaves as [IoFull]. *)
Inductive io_event : Type :=
  | IoFull
  | IoShort (n : nat)
  | IoIntr
  | IoFail.

(** An open regular file: its contents, the descriptor's offset, whether it was
    opened for writing, and the events still to come. *)
Record file : Type := File {
  f_bytes : list Z;
  f_pos : nat;
  f_writable : bool;
  f_script : list io_event }.

Definition benign (s : list io_event) : Prop := Forall (fun e => e <> IoFail) s.

Definition next_event (f : file) : io_event * file :=
  match f_script f with
  | [] => (IoFull, f)
  | e :: s => (e, File (f_bytes f) (f_pos f) (f_writable f) s)
  end.

(** Contents after writing [d] at offset [p]: a gap before [p] reads as zeros. *)
Definition write_at (p : nat) (d b : list Z) : list Z :=
  take p (b ++ replicate (p - length b) 0) ++ d ++ drop (p + length d) b.

Definition truncate_to (n : nat) (b : list Z) : list Z :=
  take n b ++ replicate (n - length b) 0.

Inductive rw_result (A : Type) : Type :=
  | RwOk (a : A)
  | RwIntr
  | RwErr.
Arguments RwOk {A} a.
Arguments RwIntr {A}.
Arguments RwErr {A}.

Definition sys_lseek (f : file) (off : Z) : Z * file :=
  let '(e, f) := next_event f in
  match e with
  | IoFail => (-1, f)
  | _ => if off <? 0 then (-1, f)
         else (off, File (f_bytes f) (Z.to_nat off) (f_writable f) (f_script f))
  end.

Definition sys_read (f : file) (count : nat) : rw_result (list Z) * file :=
  let '(e, f) := next_event f in
  let transfer n :=
    let d := slice (f_pos f) n (f_bytes f) in
    (RwOk d, File (f_bytes f) (f_pos f + length d) (f_writable f) (f_script f)) in
  match e with
  | IoFail => (RwErr, f)
  | IoIntr => (RwIntr, f)
  | IoFull => transfer count
  | IoShort n => transfer (Nat.min count (S n))
  end.

Definition sys_write (f : file) (d : list Z) : rw_result nat * file :=
  if negb (f_writable f) then (RwErr, f) else
  let '(e, f) := next_event f in
  let transfer n :=
    let d := take n d in
    (RwOk (length d), File (write_at (f_pos f) d (f_bytes f)) (f_pos f + length d)
                           (f_writable f) (f_script f)) in
  match e with
  | IoFail => (RwErr, f)
  | IoIntr => (RwIntr, f)
  | IoFull => transfer (length d)
  | IoShort n => transfer (Nat.min (length d) (S n))
  end.

Definition sys_ftruncate (f : file) (size : Z) : Z * file :=
  if negb (f_writable f) then (-1, f) else
  let '(e, f) := next_event f in
  match e with
  | IoFail => (-1, f)
  | _ => if size <? 0 then (-1, f)
         else (0, File (truncate_to (Z.to_nat size) (f_bytes f)) (f_pos f)
                       (f_writable f) (f_script f))
  end.

Definition sys_fsync (f : file) : Z * file :=
  let '(e, f) := next_event f in
  match e with IoFail => (-1, f) | _ => (0, f) end.

(** fstat's st_size, or [None] when the call fails. *)
Definition sys_fstat_size (f : file) : option Z * file :=
  let '(e, f) := next_event f in
  match e with IoFail => (None, f) | _ => (Some (len (f_bytes f)), f) end.

(** ** The loops of pager.c and wal.c *)

Fixpoint read_exact_loop (fuel : nat) (f : file) (acc : list Z) (todo : nat)
    : outcome (option (list Z) * file) :=
  match todo with
  | O => Done (Some acc, f)
  | _ =>
    match fuel with
    | O => NoFuel
    | S fuel =>
      match sys_read f todo with
      | (RwIntr, f) => read_exact_loop fuel f acc todo
      | (RwErr, f) => Done (None, f)
      | (RwOk d, f) =>
          match d with
          | [] => Done (None, f)
          | _ => read_exact_loop fuel f (acc ++ d) (todo - length d)
          end
      end
    end
  end.

(** [read_exact]: [Some] the bytes for the C function's 0, [None] for -1. Every
    iteration uses up one event, and with none left one read gets all there is
    and a second sees end of file, so this fuel always suffices. *)
Definition read_exact (f : file) (count : nat) : outcome (option (list Z) * file) :=
  read_exact_loop (S (S (length (f_script f)))) f [] count.

Fixpoint write_exact_loop (fuel : nat) (f : file) (d : list Z) : outcome (Z * file) :=
  match d with
  | [] => Done (0, f)
  | _ =>
    match fuel with
    | O => NoFuel
    | S fuel =>
      match sys_write f d with
      | (RwIntr, f) => write_exact_loop fuel f d
      | (RwErr, f) => Done (-1, f)
      | (RwOk n, f) => write_exact_loop fuel f (drop n d)
      end
    end
  end.

Definition write_exact (f : file) (d : list Z) : outcome (Z * file) :=
  write_exact_loop (S (length (f_script f))) f d.

(** ** Facts *)

Lemma length_write_at p d b :
  length (write_at p d b) = Nat.max (length b) (p + length d).
Proof. unfold write_at. blen. Qed.

Lemma length_truncate_to n b : length (truncate_to n b) = n.
Proof. unfold truncate_to. blen. Qed.

Lemma write_at_nil p b : (p <= length b)%nat -> write_at p [] b = b.
Proof.
  intros. unfold write_at. simpl. replace (p - length b)%nat with 0%nat by lia.
  rewrite app_nil_r, Nat.add_0_r. apply take_drop.
Qed.

Lemma write_at_splice p d b :
  (p + length d <= length b)%nat -> write_at p d b = splice p d b.
Proof.
  intros. unfold write_at, splice. replace (p - length b)%nat with 0%nat by lia.
  by rewrite app_nil_r.
Qed.

(** Two consecutive writes are one. *)
Lemma write_at_app p d e b :
  write_at (p + length d) e (write_at p d b) = write_at p (d ++ e) b.
Proof.
  unfold write_at at 1. rewrite length_write_at.
  replace (p + length d - Nat.max (length b) (p + length d))%nat with 0%nat by lia.
  rewrite app_nil_r. unfold write_at.
  set (pre := take p (b ++ replicate (p - length b) 0)).
  assert (length pre = p) as Hp by (subst pre; blen).
  rewrite (app_assoc pre d), take_app_le, take_ge by blen.
  rewrite <- !app_assoc. do 3 f_equal. rewrite !drop_app_ge by blen.
  rewrite drop_drop. f_equal. blen.
Qed.

Lemma slice_write_at_same p d b :
  slice p (length d) (write_at p d b) = d.
Proof.
  unfold write_at. rewrite slice_app_r by blen. rewrite slice_app_l by blen.
  replace (p - _)%nat with 0%nat by blen. apply slice_all.
Qed.

Lemma slice_write_at_inside o n p d b :
  (p <= o)%nat -> (o + n <= p + length d)%nat ->
  slice o n (write_at p d b) = slice (o - p) n d.
Proof.
  intros. rewrite <- (slice_write_at_same p d b) at 2.
  rewrite slice_slice by lia. f_equal. lia.
Qed.

Lemma slice_write_at_before o n p d b :
  (o + n <= p)%nat -> (o + n <= length b)%nat ->
  slice o n (write_at p d b) = slice o n b.
Proof.
  intros. unfold write_at. rewrite slice_app_l by blen.
  rewrite slice_take by lia. apply slice_app_l. lia.
Qed.

Lemma slice_write_at_after o n p d b :
  (p + length d <= o)%nat -> slice o n (write_at p d b) = slice o n b.
Proof.
  intros. unfold write_at. rewrite app_assoc, slice_app_r by blen.
  rewrite slice_drop. destruct (decide (length b <= o)%nat) as [H1|H1].
  - unfold slice. rewrite !drop_ge; [done|lia|blen].
  - f_equal. blen.
Qed.

Lemma slice_truncate_to o n m b :
  (o + n <= m)%nat -> (o + n <= length b)%nat ->
  slice o n (truncate_to m b) = slice o n b.
Proof.
  intros. unfold truncate_to. rewrite slice_app_l by blen. by apply slice_take.
Qed.

(** One [read] call, whatever the event. *)
Lemma sys_read_cases f n r g :
  (0 < n)%nat -> sys_read f n = (r, g) ->
  f_bytes g = f_bytes f /\ f_writable g = f_writable f /\
  f_script g = tail (f_script f) /\
  match r with
  | RwErr => exists s, f_script f = IoFail :: s
  | RwIntr => f_pos g = f_pos f /\ f_script f <> []
  | RwOk d =>
      d = slice (f_pos f) (length d) (f_bytes f) /\
      f_pos g = (f_pos f + length d)%nat /\ (length d <= n)%nat /\
      (d = [] -> (length (f_bytes f) <= f_pos f)%nat) /\
      (length d <= length (f_bytes f) - f_pos f)%nat /\
      (f_script f = [] -> length d = Nat.min n (length (f_bytes f) - f_pos f))
  end.
Proof.
  intros Hn. unfold sys_read, next_event.
  assert (forall m, (0 < m <= n)%nat ->
    let d := slice (f_pos f) m (f_bytes f) in
    d = slice (f_pos f) (length d) (f_bytes f) /\
    (length d <= n)%nat /\ (d = [] -> (length (f_bytes f) <= f_pos f)%nat) /\
    (length d <= length (f_bytes f) - f_pos f)%nat /\
    length d = Nat.min m (length (f_bytes f) - f_pos f)) as Hslice.
  { intros m Hm d.
    assert (length d = Nat.min m (length (f_bytes f) - f_pos f)) as Hl
      by (subst d; unfold slice; blen).
    repeat split; try lia.
    - subst d. unfold slice in *. rewrite Hl.
      destruct (decide (m <= length (f_bytes f) - f_pos f)%nat).
      + f_equal. lia.
      + rewrite !take_ge; [done|blen|blen].
    - intros E. rewrite E in Hl. simpl in Hl. lia. }
  destruct (f_script f) as [|e scr] eqn:Es.
  - intros [= <- <-]; simpl. destruct (Hslice n) as (?&?&?&?&?); [lia|].
    rewrite Es. repeat split; auto.
  - destruct e; intros [= <- <-]; simpl; repeat split; eauto; try discriminate;
      try (apply (Hslice n); lia);
      try (apply (Hslice (Nat.min n (S n0))); lia).
Qed.

(** [read_exact] never runs out of fuel, leaves the contents alone, and when it
    answers it answers with the bytes at the offset; a script without hard
    failures can only make it fail at end of file. *)
Lemma read_exact_loop_spec fuel f acc todo :
  (todo = 0 \/ length (f_script f) +
   (if decide (length (f_bytes f) <= f_pos f \/ f_pos f + todo <= length (f_bytes f))%nat
    then 1 else 2) <= fuel)%nat ->
  exists r g, read_exact_loop fuel f acc todo = Done (r, g) /\
    f_bytes g = f_bytes f /\ f_writable g = f_writable f /\
    f_script g `suffix_of` f_script f /\
    (forall d, r = Some d ->
       d = acc ++ slice (f_pos f) todo (f_bytes f) /\
       f_pos g = (f_pos f + todo)%nat /\
       (todo = 0 \/ f_pos f + todo <= length (f_bytes f))%nat) /\
    (benign (f_script f) -> (f_pos f + todo <= length (f_bytes f))%nat -> r <> None).
Proof.
  revert f acc todo. induction fuel as [|fuel IH]; intros f acc [|todo'] Hf.
  1, 3: exists (Some acc), f; rewrite Nat.add_0_r; unfold slice; simpl;
    repeat split; auto; intros; simplify_eq; rewrite ?app_nil_r; auto.
  { case_decide; lia. }
  cbn [read_exact_loop]. 
  set (todo := S todo') in *. assert (0 < todo)%nat as Htodo by lia. clearbody todo.
  destruct (sys_read f todo) as [r g] eqn:Er.
  apply sys_read_cases in Er as (Hb & Hw & Hs & Hr); [|lia].
  assert (f_script g `suffix_of` f_script f) as Hsuf.
  { rewrite Hs. destruct (f_script f); [done|]. by apply suffix_cons_r. }
  assert (benign (f_script f) -> benign (f_script g)) as Hben.
  { rewrite Hs. destruct (f_script f); [done|]. unfold benign. rewrite Forall_cons_iff. tauto. }
  destruct r as [d| |].
  - destruct Hr as (Hd & Hp & Hle & Hnil & Hav & Hall).
    destruct d as [|d0 d'].
    { exists None, g. repeat split; auto; intros; try discriminate.
      specialize (Hnil eq_refl). lia. }
    remember (d0 :: d') as d eqn:Ed.
    assert (0 < length d)%nat by (subst d; simpl; lia).
    destruct (IH g (acc ++ d) (todo - length d)%nat) as (r & h & E & Hb' & Hw' & Hs' & Hd' & Hok).
    { rewrite Hs, Hb, Hp. destruct (f_script f); simpl in *; [specialize (Hall eq_refl)|];
        repeat case_decide; lia. }
    exists r, h. repeat split; try congruence; auto.
    + by etrans.
    + destruct (Hd' _ H0) as (-> & _ & _). rewrite <- app_assoc. f_equal.
      rewrite Hp, Hb, Hd at 1. rewrite <- slice_split. f_equal. lia.
    + destruct (Hd' _ H0) as (_ & -> & _). lia.
    + destruct (Hd' _ H0) as (_ & _ & [?|?]); rewrite ?Hb, ?Hp in *; lia.
    + intros. apply Hok; auto. rewrite Hb, Hp. lia.
  - destruct Hr as [Hp Hne].
    destruct (IH g acc todo) as (r & h & E & Hb' & Hw' & Hs' & Hd' & Hok).
    { rewrite Hs, Hb, Hp. destruct (f_script f); [done|]. simpl in *. case_decide; lia. }
    exists r, h. rewrite ?Hb, ?Hp in *.
    split_and!; try congruence; auto; by etrans.
  - exists None, g. repeat split; auto; try discriminate.
    destruct Hr as [s Hr]. unfold benign. rewrite Hr, Forall_cons_iff. by intros [].
Qed.

(** [read_exact] in full: it terminates, only the offset and the script change,
    and what it returns is the range it was asked for. *)
Lemma read_exact_spec f n :
  exists r g, read_exact f n = Done (r, g) /\
    f_bytes g = f_bytes f /\ f_writable g = f_writable f /\
    f_script g `suffix_of` f_script f /\
    (forall d, r = Some d -> d = slice (f_pos f) n (f_bytes f) /\
       f_pos g = (f_pos f + n)%nat /\ (n = 0 \/ f_pos f + n <= length (f_bytes f))%nat) /\
    (benign (f_script f) -> (f_pos f + n <= length (f_bytes f))%nat -> r <> None).
Proof. apply read_exact_loop_spec. case_decide; lia. Qed.

Lemma benign_suffix s t : s `suffix_of` t -> benign t -> benign s.
Proof. intros [k ->]. unfold benign. rewrite Forall_app. tauto. Qed.

(** Interruptions and short reads are invisible to the caller. *)
Lemma read_exact_benign f n :
  benign (f_script f) -> (f_pos f + n <= length (f_bytes f))%nat ->
  exists s, benign s /\ read_exact f n =
    Done (Some (slice (f_pos f) n (f_bytes f)),
          File (f_bytes f) (f_pos f + n) (f_writable f) s).
Proof.
  intros Hb Hl. destruct (read_exact_spec f n) as (r & g & E & H1 & H2 & H3 & H4 & H5).
  specialize (H5 Hb Hl). destruct r as [d|]; [|done].
  destruct (H4 d eq_refl) as (-> & Hp & _). destruct g; simpl in *; subst.
  eexists. split; [by eapply benign_suffix|done].
Qed.

(** Reading past the end of the file fails, whatever the events. *)
Lemma read_exact_eof f n :
  (0 < n)%nat -> (length (f_bytes f) < f_pos f + n)%nat ->
  exists g, read_exact f n = Done (None, g) /\
    f_bytes g = f_bytes f /\ f_writable g = f_writable f.
Proof.
  intros Hn Hl. destruct (read_exact_spec f n) as (r & g & E & H1 & H2 & _ & H4 & _).
  destruct r as [d|]; [destruct (H4 d eq_refl) as (_ & _ & ?); lia|eauto].
Qed.

Lemma write_exact_loop_benign fuel f d :
  (length (f_script f) < fuel)%nat -> benign (f_script f) -> f_writable f = true ->
  ((f_pos f <= length (f_bytes f))%nat \/ d <> []) ->
  exists s, benign s /\ write_exact_loop fuel f d =
    Done (0, File (write_at (f_pos f) d (f_bytes f)) (f_pos f + length d) true s).
Proof.
  revert f d. induction fuel as [|fuel IH]; intros [b p w s] d Hf Hb Hw Hp; simpl in *; [lia|].
  subst w. destruct d as [|d0 d'].
  { destruct Hp; [|done]. exists s. split; [done|].
    by rewrite write_at_nil, Nat.add_0_r by lia. }
  unfold sys_write, next_event. cbn [f_writable f_script f_bytes f_pos negb].
  set (d := d0 :: d') in *. clearbody d.
  assert (forall n s', (length s' < fuel)%nat -> benign s' ->
    exists s'', benign s'' /\
      write_exact_loop fuel
        (File (write_at p (take n d) b) (p + length (take n d)) true s')
        (drop (length (take n d)) d) =
      Done (0, File (write_at p d b) (p + length d) true s'')) as Hstep.
  { intros n s' Hl' Hb'. edestruct (IH (File (write_at p (take n d) b)
      (p + length (take n d)) true s') (drop (length (take n d)) d)) as (s'' & Hs'' & E);
      simpl; auto; [left; rewrite length_write_at; lia|].
    exists s''. split; [done|]. rewrite E. simpl. rewrite write_at_app.
    replace (take n d ++ drop (length (take n d)) d) with d; [do 3 f_equal; blen|].
    rewrite length_take. destruct (decide (n <= length d)%nat).
    - rewrite Nat.min_l, take_drop by lia. done.
    - by rewrite take_ge, drop_ge, app_nil_r by lia. }
  destruct s as [|e s'].
  - exists []. split; [done|]. rewrite take_ge, drop_ge by lia.
    by destruct fuel.
  - unfold benign in Hb. rewrite Forall_cons_iff in Hb. destruct Hb as [He Hb].
    destruct e; [apply Hstep; simpl in *; [lia|done] ..| | done].
    apply (IH (File b p true s')); simpl in *; auto; lia.
Qed.

(** With no hard failure the whole buffer reaches the file, at the offset. *)
Lemma write_exact_benign f d :
  benign (f_script f) -> f_writable f = true ->
  (f_pos f <= length (f_bytes f))%nat \/ d <> [] ->
  exists s, benign s /\ write_exact f d =
    Done (0, File (write_at (f_pos f) d (f_bytes f)) (f_pos f + length d) true s).
Proof. intros. apply write_exact_loop_benign; auto. Qed.

Lemma sys_lseek_benign f off :
  benign (f_script f) -> 0 <= off ->
  exists s, benign s /\ sys_lseek f off =
    (off, File (f_bytes f) (Z.to_nat off) (f_writable f) s).
Proof.
  intros Hb Ho. unfold sys_lseek, next_event, benign in *.
  destruct f as [b p w [|e s]]; simpl in *.
  - zcase. exists []. done.
  - rewrite Forall_cons_iff in Hb. destruct Hb as [He Hb]. exists s.
    split; [done|]. destruct e; try done; zcase; done.
Qed.

Lemma sys_ftruncate_benign f size :
  benign (f_script f) -> f_writable f = true -> 0 <= size ->
  exists s, benign s /\ sys_ftruncate f size =
    (0, File (truncate_to (Z.to_nat size) (f_bytes f)) (f_pos f) true s).
Proof.
  intros Hb Hw Ho. unfold sys_ftruncate, next_event, benign in *.
  destruct f as [b p w [|e s]]; simpl in *; subst w; simpl.
  - zcase. exists []. done.
  - rewrite Forall_cons_iff in Hb. destruct Hb as [He Hb]. exists s.
    split; [done|]. destruct e; try done; zcase; done.
Qed.

Lemma sys_fsync_benign f :
  benign (f_script f) ->
  exists s, benign s /\ sys_fsync f = (0, File (f_bytes f) (f_pos f) (f_writable f) s).
Proof.
  intros Hb. unfold sys_fsync, next_event, benign in *.
  destruct f as [b p w [|e s]]; simpl in *; [by exists []|].
  rewrite Forall_cons_iff in Hb. destruct Hb as [He Hb]. exists s. by destruct e.
Qed.

Lemma sys_fstat_size_benign f :
  benign (f_script f) ->
  exists s, benign s /\ sys_fstat_size f =
    (Some (len (f_bytes f)), File (f_bytes f) (f_pos f) (f_writable f) s).
Proof.
  intros Hb. unfold sys_fstat_size, next_event, benign in *.
  destruct f as [b p w [|e s]]; simpl in *; [by exists []|].
  rewrite Forall_cons_iff in Hb. destruct Hb as [He Hb]. exists s. by destruct e.
Qed.
