(* ===== verification/Pager.v ===== *)
(** Model of src/storage/pager.c: the database header, page I/O, page
    allocation and the on-disk freelist, over the file model of [Posix]. *)
From Stdlib Require Import ZArith Lia.
From stdpp Require Import base numbers option list gmap.
From S2P Require Import Prelude Posix.

(** ** Constants and data *)

Definition PAGE_SIZE : Z := 4096.
Definition PAGER_MAGIC : Z := 0x54494E59.
Definition CURRENT_FORMAT_VERSION : Z := 1.
Definition HEADER_SIZE : nat := 48.

(** The twelve 32-bit fields of the packed on-disk header. *)
Record DatabaseHeader : Type := mkHeader {
  h_magic : Z; h_version : Z; h_format_version : Z; h_reserved : Z;
  h_page_count : Z; h_first_free_page : Z; h_free_page_count : Z;
  h_schema_root : Z; h_wal_frame_count : Z; h_wal_checksum_1 : Z;
  h_wal_checksum_2 : Z; h_database_size : Z }.

Definition header_fields (h : DatabaseHeader) : list Z :=
  [h_magic h; h_version h; h_format_version h; h_reserved h; h_page_count h;
   h_first_free_page h; h_free_page_count h; h_schema_root h; h_wal_frame_count h;
   h_wal_checksum_1 h; h_wal_checksum_2 h; h_database_size h].

(** The header's bytes in memory and in the file (packed, little-endian). *)
Definition header_bytes (h : DatabaseHeader) : list Z :=
  header_fields h ≫= le_bytes 4.

Definition header_of_bytes (b : list Z) : DatabaseHeader :=
  let w i := le_val (slice (4 * i) 4 b) in
  mkHeader (w 0%nat) (w 1%nat) (w 2%nat) (w 3%nat) (w 4%nat) (w 5%nat)
           (w 6%nat) (w 7%nat) (w 8%nat) (w 9%nat) (w 10%nat) (w 11%nat).

#[global] Arguments header_of_bytes : simpl never.
#[global] Arguments header_bytes : simpl never.

(** The pager; the descriptor is the open file itself. *)
Record Pager : Type := mkPager {
  fd : file;
  page_count : Z;
  first_free_page : Z;
  free_page_count : Z;
  file_size : Z;
  is_open : bool }.

Record PagerStats : Type := mkPagerStats {
  st_page_count : Z; st_first_free_page : Z; st_free_page_count : Z; st_file_size : Z }.

(** What the path names before it is opened. *)
Inductive fs_node : Type :=
  | FsAbsent
  | FsNoAccess
  | FsReadOnly (b : list Z)
  | FsReadWrite (b : list Z).

Definition set_fd (p : Pager) (f : file) : Pager :=
  mkPager f (page_count p) (first_free_page p) (free_page_count p) (file_size p) (is_open p).
Definition set_file_size (p : Pager) (n : Z) : Pager :=
  mkPager (fd p) (page_count p) (first_free_page p) (free_page_count p) n (is_open p).
Definition set_page_count (p : Pager) (n : Z) : Pager :=
  mkPager (fd p) n (first_free_page p) (free_page_count p) (file_size p) (is_open p).
Definition set_freelist (p : Pager) (first count : Z) : Pager :=
  mkPager (fd p) (page_count p) first count (file_size p) (is_open p).

Definition header_set_page_count (h : DatabaseHeader) (n : Z) : DatabaseHeader :=
  mkHeader (h_magic h) (h_version h) (h_format_version h) (h_reserved h) n
    (h_first_free_page h) (h_free_page_count h) (h_schema_root h)
    (h_wal_frame_count h) (h_wal_checksum_1 h) (h_wal_checksum_2 h) (h_database_size h).
Definition header_set_freelist (h : DatabaseHeader) (first count : Z) : DatabaseHeader :=
  mkHeader (h_magic h) (h_version h) (h_format_version h) (h_reserved h) (h_page_count h)
    first count (h_schema_root h)
    (h_wal_frame_count h) (h_wal_checksum_1 h) (h_wal_checksum_2 h) (h_database_size h).

(** ** Helpers *)

Definition get_page_offset (page_num : Z) : Z := page_num * PAGE_SIZE.

Definition read_header (f : file) : outcome (option DatabaseHeader * file) :=
  let '(r, f) := sys_lseek f 0 in
  if r <? 0 then Done (None, f) else
  let* '(d, f) := read_exact f HEADER_SIZE in
  Done (header_of_bytes <$> d, f).

Definition write_header (f : file) (h : DatabaseHeader) : outcome (Z * file) :=
  let '(r, f) := sys_lseek f 0 in
  if r <? 0 then Done (-1, f) else
  let* '(r, f) := write_exact f (header_bytes h) in
  Done (if r <? 0 then -1 else 0, f).

Definition init_header : DatabaseHeader :=
  mkHeader PAGER_MAGIC 1 CURRENT_FORMAT_VERSION 0 1 0 0 0 0 0 0 1.

(** ** Lifecycle *)

Definition pager_open (node : fs_node) (script : list io_event) : outcome (option Pager) :=
  let opened :=
    match node with
    | FsReadWrite b => Some (File b 0 true script)
    | FsReadOnly b => Some (File b 0 false script)
    | FsAbsent | FsNoAccess => None
    end in
  match opened with
  | None => Done None
  | Some f =>
    let '(st, f) := sys_fstat_size f in
    match st with
    | None => Done None
    | Some size =>
      let* '(h, f) := read_header f in
      match h with
      | None => Done None
      | Some h =>
        if h_magic h =? PAGER_MAGIC
        then Done (Some (mkPager f (h_page_count h) (h_first_free_page h)
                           (h_free_page_count h) size true))
        else Done None
      end
    end
  end.

Definition pager_create (node : fs_node) (script : list io_event) : outcome (option Pager) :=
  match node with
  | FsNoAccess | FsReadOnly _ => Done None
  | FsAbsent | FsReadWrite _ =>
    let* '(r, f) := write_header (File [] 0 true script) init_header in
    if r <? 0 then Done None else
    let '(r, f) := sys_fsync f in
    if r <? 0 then Done None else
    Done (Some (mkPager f 1 0 0 PAGE_SIZE true))
  end.

(** Closing leaves the contents that the next open of the path finds. *)
Definition pager_close (p : Pager) : list Z :=
  if is_open p
  then f_bytes (if 0 <? file_size p then snd (sys_fsync (fd p)) else fd p)
  else f_bytes (fd p).

Definition pager_flush (p : Pager) : Z * Pager :=
  let '(r, f) := sys_fsync (fd p) in (r, set_fd p f).

Definition pager_stats (p : Pager) : PagerStats :=
  mkPagerStats (page_count p) (first_free_page p) (free_page_count p) (file_size p).

(** ** Page I/O *)

(** The lseek-then-read_exact sequence of [pager_read_page] and of the freelist
    branch of [pager_allocate_page]. *)
Definition read_page_at (f : file) (page_num : Z) : outcome (option (list Z) * file) :=
  let '(r, f) := sys_lseek f (get_page_offset page_num) in
  if r <? 0 then Done (None, f) else read_exact f (Z.to_nat PAGE_SIZE).

Definition write_page_at (f : file) (page_num : Z) (d : list Z) : outcome (Z * file) :=
  let '(r, f) := sys_lseek f (get_page_offset page_num) in
  if r <? 0 then Done (-1, f) else
  let* '(r, f) := write_exact f d in
  Done (if r <? 0 then -1 else 0, f).

Definition pager_read_page (p : Pager) (page_num : Z) : outcome (option (list Z) * Pager) :=
  if (page_count p <=? page_num) && negb (page_num =? 0) then Done (None, p) else
  let* '(d, f) := read_page_at (fd p) page_num in
  Done (d, set_fd p f).

(** [buf] holds the PAGE_SIZE bytes the C function reads from its argument; a
    shorter buffer is an out-of-bounds read. *)
Definition pager_write_page (p : Pager) (page_num : Z) (buf : list Z) : outcome (Z * Pager) :=
  let* d := buf_read 0 PAGE_SIZE buf in
  let* '(r, f) := write_page_at (fd p) page_num d in
  let p := set_fd p f in
  if r <? 0 then Done (-1, p) else
  let new_size := get_page_offset page_num + PAGE_SIZE in
  Done (0, if file_size p <? new_size then set_file_size p new_size else p).

(** ** Allocation *)

Definition pager_allocate_page (p : Pager) : outcome (option Z * Pager) :=
  if negb (first_free_page p =? 0) then
    let new_page := first_free_page p in
    let* '(d, f) := read_page_at (fd p) new_page in
    let p := set_fd p f in
    match d with
    | None => Done (None, p)
    | Some buf =>
        let* next := buf_read 0 4 buf in
        Done (Some new_page, set_freelist p (le_val next) (u32 (free_page_count p - 1)))
    end
  else
    let new_page := page_count p in
    let p := set_page_count p (u32 (page_count p + 1)) in
    let* '(h, f) := read_header (fd p) in
    let p := set_fd p f in
    match h with
    | None => Done (None, p)
    | Some h =>
        let* '(r, f) := write_header (fd p) (header_set_page_count h (page_count p)) in
        let p := set_fd p f in
        if r <? 0 then Done (None, p) else
        let new_size := get_page_offset (u32 (new_page + 1)) in
        let '(r, f) := sys_ftruncate (fd p) new_size in
        let p := set_fd p f in
        if r <? 0 then Done (None, p) else
        Done (Some new_page, set_file_size p new_size)
    end.

Definition pager_free_page (p : Pager) (page_num : Z) : outcome (Z * Pager) :=
  if page_num =? 0 then Done (-1, p) else
  let buf := le_bytes 4 (first_free_page p) ++ replicate (Z.to_nat PAGE_SIZE - 4) 0 in
  let* '(r, f) := write_page_at (fd p) page_num buf in
  let p := set_fd p f in
  if r <? 0 then Done (-1, p) else
  let p := set_freelist p page_num (u32 (free_page_count p + 1)) in
  let* '(h, f) := read_header (fd p) in
  let p := set_fd p f in
  match h with
  | None => Done (-1, p)
  | Some h =>
      let* '(r, f) := write_header (fd p)
        (header_set_freelist h (first_free_page p) (free_page_count p)) in
      Done (if r <? 0 then -1 else 0, set_fd p f)
  end.

Definition pager_sync (p : Pager) : Z * Pager :=
  let '(r, f) := sys_fsync (fd p) in (r, set_fd p f).

(** ** Header page operations *)

Definition pager_read_header (p : Pager) : outcome (option (list Z) * Pager) :=
  pager_read_page p 0.

Definition pager_write_header (p : Pager) (buf : list Z) : outcome (Z * Pager) :=
  pager_write_page p 0 buf.

Definition pager_validate_magic (p : Pager) : outcome (Z * Pager) :=
  let* '(h, f) := read_header (fd p) in
  let p := set_fd p f in
  match h with
  | None => Done (-1, p)
  | Some h => Done (if h_magic h =? PAGER_MAGIC then 0 else -1, p)
  end.

Definition pager_update_page_count (p : Pager) (count : Z) : outcome (Z * Pager) :=
  let* '(h, f) := read_header (fd p) in
  let p := set_fd p f in
  match h with
  | None => Done (-1, p)
  | Some h =>
      let p := set_page_count p count in
      let* '(r, f) := write_header (fd p) (header_set_page_count h count) in
      Done (if r <? 0 then -1 else 0, set_fd p f)
  end.

Definition pager_update_freelist (p : Pager) (first count : Z) : outcome (Z * Pager) :=
  let* '(h, f) := read_header (fd p) in
  let p := set_fd p f in
  match h with
  | None => Done (-1, p)
  | Some h =>
      let p := set_freelist p first count in
      let* '(r, f) := write_header (fd p) (header_set_freelist h first count) in
      Done (if r <? 0 then -1 else 0, set_fd p f)
  end.

(** ** Utilities *)

Definition pager_is_valid_page (p : Pager) (page_num : Z) : bool :=
  (page_num <? page_count p) || (page_num =? 0).

Definition pager_get_page_offset (page_num : Z) : Z := get_page_offset page_num.

Definition pager_truncate (p : Pager) (size : Z) : Z * Pager :=
  let '(ret, f) := sys_ftruncate (fd p) size in
  let p := set_fd p f in
  (ret, if ret =? 0 then set_file_size p size else p).

(** ** Facts about the file-level steps *)

Definition page_off (n : Z) : nat := Z.to_nat (get_page_offset n).

(** The bytes of page [n] in a file. *)
Definition page_bytes (n : Z) (b : list Z) : list Z :=
  slice (page_off n) (Z.to_nat PAGE_SIZE) b.

Definition header_wf (h : DatabaseHeader) : Prop :=
  Forall (fun z => 0 <= z < 2 ^ 32) (header_fields h).

Lemma length_header_bytes h : length (header_bytes h) = HEADER_SIZE.
Proof. reflexivity. Qed.

(** What the header structure holds after being written and read back. *)
Lemma header_of_header_bytes h : header_wf h -> header_of_bytes (header_bytes h) = h.
Proof.
  intros H. unfold header_wf, header_fields in H. repeat rewrite Forall_cons_iff in H.
  destruct_and!. destruct h; simpl in *.
  unfold header_of_bytes. f_equal;
    match goal with |- _ = ?z => change (le_val (le_bytes 4 z) = z) end;
    apply le_val_bytes; simpl; lia.
Qed.

Lemma header_of_bytes_slice b b' :
  slice 0 HEADER_SIZE b = slice 0 HEADER_SIZE b' -> header_of_bytes b = header_of_bytes b'.
Proof.
  intros H.
  assert (forall i, (i < 12)%nat -> slice (4 * i) 4 b = slice (4 * i) 4 b') as Hi.
  { intros i Hi. change (4 * i)%nat with (0 + 4 * i)%nat.
    rewrite <- (slice_slice 0 HEADER_SIZE (4 * i) 4 b) by (unfold HEADER_SIZE; lia).
    rewrite <- (slice_slice 0 HEADER_SIZE (4 * i) 4 b') by (unfold HEADER_SIZE; lia).
    by rewrite H. }
  unfold header_of_bytes. f_equal; f_equal; apply Hi; lia.
Qed.

Lemma header_of_write_at h b :
  header_wf h -> header_of_bytes (write_at 0 (header_bytes h) b) = h.
Proof.
  intros H. rewrite <- (header_of_header_bytes h H) at 2.
  apply header_of_bytes_slice. rewrite <- (length_header_bytes h).
  rewrite slice_write_at_same. symmetry. apply slice_all.
Qed.

Lemma read_header_benign f :
  benign (f_script f) -> (HEADER_SIZE <= length (f_bytes f))%nat ->
  exists s, benign s /\ read_header f =
    Done (Some (header_of_bytes (f_bytes f)),
          File (f_bytes f) HEADER_SIZE (f_writable f) s).
Proof.
  intros Hb Hl. unfold read_header.
  destruct (sys_lseek_benign f 0) as (s & Hs & ->); [done|lia|]. simpl.
  destruct (read_exact_benign (File (f_bytes f) 0 (f_writable f) s) HEADER_SIZE)
    as (s' & Hs' & E); simpl; auto.
  change (Z.to_nat 0) with 0%nat. rewrite E. exists s'. split; [done|]. simpl.
  do 3 f_equal. apply header_of_bytes_slice. by rewrite slice_slice.
Qed.

Lemma write_header_benign f h :
  benign (f_script f) -> f_writable f = true ->
  exists s, benign s /\ write_header f h =
    Done (0, File (write_at 0 (header_bytes h) (f_bytes f)) HEADER_SIZE true s).
Proof.
  intros Hb Hw. unfold write_header.
  destruct (sys_lseek_benign f 0) as (s & Hs & ->); [done|lia|]. simpl.
  destruct (write_exact_benign (File (f_bytes f) 0 (f_writable f) s) (header_bytes h))
    as (s' & Hs' & E); simpl; auto with lia.
  change (Z.to_nat 0) with 0%nat. rewrite E. by exists s'.
Qed.

Lemma page_off_nonneg n : 0 <= n -> Z.of_nat (page_off n) = n * 4096.
Proof. unfold page_off, get_page_offset, PAGE_SIZE. lia. Qed.

Lemma read_page_at_benign f n :
  benign (f_script f) -> 0 <= n -> (n + 1) * 4096 <= len (f_bytes f) ->
  exists s, benign s /\ read_page_at f n =
    Done (Some (page_bytes n (f_bytes f)),
          File (f_bytes f) (page_off n + Z.to_nat PAGE_SIZE) (f_writable f) s).
Proof.
  intros Hb Hn Hl. unfold read_page_at. pose proof (page_off_nonneg n Hn).
  destruct (sys_lseek_benign f (get_page_offset n)) as (s & Hs & ->);
    [done|unfold get_page_offset, PAGE_SIZE; lia|].
  replace (get_page_offset n <? 0) with false by (unfold get_page_offset, PAGE_SIZE; zcase).
  destruct (read_exact_benign (File (f_bytes f) (page_off n) (f_writable f) s)
    (Z.to_nat PAGE_SIZE)) as (s' & Hs' & E);
    [done|simpl; unfold PAGE_SIZE; lia|]. exists s'. split; [done|]. apply E.
Qed.

Lemma write_page_at_benign f n d :
  benign (f_script f) -> f_writable f = true -> 0 <= n -> len d = PAGE_SIZE ->
  exists s, benign s /\ write_page_at f n d =
    Done (0, File (write_at (page_off n) d (f_bytes f)) (page_off n + length d) true s).
Proof.
  intros Hb Hw Hn Hl. unfold write_page_at. pose proof (page_off_nonneg n Hn).
  destruct (sys_lseek_benign f (get_page_offset n)) as (s & Hs & ->);
    [done|unfold get_page_offset, PAGE_SIZE; lia|].
  replace (get_page_offset n <? 0) with false by (unfold get_page_offset, PAGE_SIZE; zcase).
  destruct (write_exact_benign (File (f_bytes f) (page_off n) (f_writable f) s) d)
    as (s' & Hs' & E); simpl; auto.
  { right. intros ->. discriminate. }
  fold (page_off n). rewrite E. by exists s'.
Qed.

(** Pages do not overlap. *)
Lemma page_bytes_write_at_ne n m d b :
  0 <= n -> 0 <= m -> n <> m -> len d = PAGE_SIZE -> (n + 1) * 4096 <= len b ->
  page_bytes n (write_at (page_off m) d b) = page_bytes n b.
Proof.
  intros. pose proof (page_off_nonneg n). pose proof (page_off_nonneg m).
  unfold PAGE_SIZE in *. unfold page_bytes.
  destruct (decide (n < m)).
  - apply slice_write_at_before; unfold PAGE_SIZE; lia.
  - apply slice_write_at_after; lia.
Qed.

Lemma page_bytes_write_at_eq n d b :
  len d = PAGE_SIZE -> page_bytes n (write_at (page_off n) d b) = d.
Proof.
  intros H. unfold page_bytes. replace (Z.to_nat PAGE_SIZE) with (length d) by lia.
  apply slice_write_at_same.
Qed.

(** The header lies within page 0. *)
Lemma page_bytes_write_header n h b :
  0 < n -> page_bytes n (write_at 0 (header_bytes h) b) = page_bytes n b.
Proof.
  intros. pose proof (page_off_nonneg n). unfold page_bytes.
  apply slice_write_at_after. rewrite length_header_bytes. unfold HEADER_SIZE. lia.
Qed.

Lemma header_of_write_page n d b :
  0 < n -> len d = PAGE_SIZE -> (HEADER_SIZE <= length b)%nat ->
  header_of_bytes (write_at (page_off n) d b) = header_of_bytes b.
Proof.
  intros. pose proof (page_off_nonneg n). apply header_of_bytes_slice.
  apply slice_write_at_before; unfold HEADER_SIZE in *; lia.
Qed.

(** Reduces the pager's and the file's records without unfolding the header. *)
Ltac psimpl := cbn [fd page_count first_free_page free_page_count file_size is_open
  f_bytes f_pos f_writable f_script set_fd set_file_size set_page_count set_freelist
  fst snd obind negb].

(** ** Invariant *)

(** A writable, open database file whose header agrees with the pager and whose
    length never exceeds the counted pages. *)
Record pager_wf (p : Pager) : Prop := {
  wf_benign : benign (f_script (fd p));
  wf_writable : f_writable (fd p) = true;
  wf_header : (HEADER_SIZE <= length (f_bytes (fd p)))%nat;
  wf_bytes : Forall is_byte (f_bytes (fd p));
  wf_count : 1 <= page_count p < 2 ^ 32;
  wf_length : len (f_bytes (fd p)) <= page_count p * PAGE_SIZE;
  wf_magic : h_magic (header_of_bytes (f_bytes (fd p))) = PAGER_MAGIC;
  wf_disk_count : h_page_count (header_of_bytes (f_bytes (fd p))) = page_count p;
  wf_first_free : 0 <= first_free_page p < 2 ^ 32;
  wf_free_count : 0 <= free_page_count p < 2 ^ 32 }.

Lemma Forall_slice {A} (P : A -> Prop) o n (b : list A) : Forall P b -> Forall P (slice o n b).
Proof. intros. unfold slice. by apply Forall_take, Forall_drop. Qed.

Lemma le_val_slice_bound o b :
  Forall is_byte b -> 0 <= le_val (slice o 4 b) < 2 ^ 32.
Proof.
  intros H. pose proof (le_val_bound _ (Forall_slice _ o 4 b H)) as Hb.
  assert (256 ^ len (slice o 4 b) <= 256 ^ 4).
  { apply Z.pow_le_mono_r; [lia|]. unfold slice. blen. }
  change (256 ^ 4) with (2 ^ 32) in *. lia.
Qed.

Lemma header_of_bytes_wf b : Forall is_byte b -> header_wf (header_of_bytes b).
Proof.
  intros H. unfold header_wf, header_of_bytes, header_fields. simpl.
  repeat constructor; try apply le_val_slice_bound; auto.
Qed.

Lemma header_bytes_byte h : Forall is_byte (header_bytes h).
Proof.
  unfold header_bytes. induction (header_fields h); [constructor|].
  rewrite bind_cons. apply Forall_app. auto with tinydb.
Qed.

Lemma Forall_write_at p d b :
  Forall is_byte d -> Forall is_byte b -> Forall is_byte (write_at p d b).
Proof.
  intros. unfold write_at. rewrite !Forall_app. repeat split; auto.
  - apply Forall_take, Forall_app. split; [done|]. by apply Forall_replicate.
  - by apply Forall_drop.
Qed.

Lemma Forall_truncate_to n b : Forall is_byte b -> Forall is_byte (truncate_to n b).
Proof.
  intros. unfold truncate_to. apply Forall_app.
  split; [by apply Forall_take|by apply Forall_replicate].
Qed.

#[export] Hint Resolve header_bytes_byte header_of_bytes_wf Forall_write_at
  Forall_truncate_to : tinydb.

(** Reading a page of a well-formed pager that lies in the file. *)
Lemma pager_read_page_ok p n :
  pager_wf p -> 0 <= n -> (n + 1) * 4096 <= len (f_bytes (fd p)) ->
  exists p', pager_read_page p n = Done (Some (page_bytes n (f_bytes (fd p))), p') /\
    pager_wf p' /\ f_bytes (fd p') = f_bytes (fd p) /\ page_count p' = page_count p /\
    first_free_page p' = first_free_page p /\ free_page_count p' = free_page_count p.
Proof.
  intros [] Hn Hl. unfold pager_read_page.
  destruct (read_page_at_benign (fd p) n) as (s & Hs & E); auto.
  replace (page_count p <=? n) with false by (unfold PAGE_SIZE in *; zcase). simpl.
  rewrite E. psimpl. eexists. split; [done|].
  split; [constructor; psimpl; auto|done].
Qed.

(** Writing a page. *)
Lemma pager_write_page_ok p n d :
  pager_wf p -> 0 < n < page_count p -> len d = PAGE_SIZE -> Forall is_byte d ->
  exists p', pager_write_page p n d = Done (0, p') /\ pager_wf p' /\
    f_bytes (fd p') = write_at (page_off n) d (f_bytes (fd p)) /\
    page_count p' = page_count p /\
    first_free_page p' = first_free_page p /\ free_page_count p' = free_page_count p.
Proof.
  intros [] Hn Hl Hd. unfold pager_write_page. pose proof (page_off_nonneg n).
  rewrite buf_read_Done by (unfold PAGE_SIZE in *; lia). simpl.
  change (Z.to_nat 0) with 0%nat. replace (Z.to_nat PAGE_SIZE) with (length d) by lia.
  rewrite slice_all.
  destruct (write_page_at_benign (fd p) n d) as (s & Hs & E); auto; [lia|].
  rewrite E. psimpl. eexists. split; [done|].
  assert (HL : length (write_at (page_off n) d (f_bytes (fd p))) =
    Nat.max (length (f_bytes (fd p))) (page_off n + length d)) by apply length_write_at.
  assert (HB : header_of_bytes (write_at (page_off n) d (f_bytes (fd p))) =
    header_of_bytes (f_bytes (fd p))) by (apply header_of_write_page; auto; lia).
  unfold PAGE_SIZE in *.
  destruct (_ <? _); psimpl; split_and!; auto;
    (constructor; psimpl; unfold PAGE_SIZE; rewrite ?HB, ?HL; auto with tinydb; lia).
Qed.

Lemma header_set_page_count_wf h n :
  header_wf h -> 0 <= n < 2 ^ 32 -> header_wf (header_set_page_count h n).
Proof.
  unfold header_wf, header_fields. simpl. repeat rewrite Forall_cons_iff. tauto.
Qed.

Lemma header_set_freelist_wf h a b :
  header_wf h -> 0 <= a < 2 ^ 32 -> 0 <= b < 2 ^ 32 -> header_wf (header_set_freelist h a b).
Proof.
  unfold header_wf, header_fields. simpl. repeat rewrite Forall_cons_iff. tauto.
Qed.
#[export] Hint Resolve header_set_page_count_wf header_set_freelist_wf : tinydb.

Lemma header_of_truncate n b :
  (HEADER_SIZE <= n)%nat -> (HEADER_SIZE <= length b)%nat ->
  header_of_bytes (truncate_to n b) = header_of_bytes b.
Proof. intros. apply header_of_bytes_slice. by apply slice_truncate_to. Qed.

(** Extending the file with a fresh page. *)
Lemma pager_allocate_extend p :
  pager_wf p -> first_free_page p = 0 -> page_count p + 1 < 2 ^ 32 ->
  exists p', pager_allocate_page p = Done (Some (page_count p), p') /\ pager_wf p' /\
    page_count p' = page_count p + 1 /\
    first_free_page p' = 0 /\ free_page_count p' = free_page_count p /\
    f_bytes (fd p') =
      truncate_to (Z.to_nat ((page_count p + 1) * PAGE_SIZE))
        (write_at 0 (header_bytes (header_set_page_count
           (header_of_bytes (f_bytes (fd p))) (page_count p + 1))) (f_bytes (fd p))).
Proof.
  intros [] Hff Hc. unfold pager_allocate_page. rewrite Hff. psimpl.
  change (negb (0 =? 0)) with false. cbv iota.
  rewrite u32_id by lia.
  destruct (read_header_benign (fd p)) as (s1 & Hs1 & E1); auto.
  rewrite E1. psimpl.
  set (h := header_set_page_count (header_of_bytes (f_bytes (fd p))) (page_count p + 1)).
  destruct (write_header_benign (File (f_bytes (fd p)) HEADER_SIZE (f_writable (fd p)) s1) h)
    as (s2 & Hs2 & E2); auto.
  rewrite E2. psimpl. change (0 <? 0) with false. cbv iota.
  set (b1 := write_at 0 (header_bytes h) (f_bytes (fd p))).
  destruct (sys_ftruncate_benign (File b1 HEADER_SIZE true s2)
    (get_page_offset (page_count p + 1))) as (s3 & Hs3 & E3); auto;
    [unfold get_page_offset, PAGE_SIZE; lia|].
  rewrite E3. psimpl. change (0 <? 0) with false. cbv iota.
  eexists. split; [done|]. psimpl.
  assert (HB : header_of_bytes b1 = h).
  { apply header_of_write_at. subst h. auto with tinydb lia. }
  assert (HL : (HEADER_SIZE <= length b1)%nat).
  { subst b1. rewrite length_write_at. lia. }
  assert (HT : header_of_bytes (truncate_to (Z.to_nat (get_page_offset (page_count p + 1))) b1) = h).
  { rewrite <- HB. apply header_of_truncate; [|done].
    unfold HEADER_SIZE, get_page_offset, PAGE_SIZE. lia. }
  split_and!; auto. constructor; psimpl; rewrite ?HT, ?length_truncate_to; auto; try lia.
  - unfold HEADER_SIZE, get_page_offset, PAGE_SIZE. lia.
  - subst b1. auto with tinydb.
  - unfold get_page_offset, PAGE_SIZE. lia.
Qed.

(** ** The freelist on disk *)

(** [chain b head l]: following the next pointers stored in the first four bytes
    of free pages from [head] visits exactly [l]. *)
Fixpoint chain (b : list Z) (head : Z) (l : list Z) : Prop :=
  match l with
  | [] => head = 0
  | n :: l' => head = n /\ 0 < n /\ (n + 1) * PAGE_SIZE <= len b /\
               chain b (le_val (slice (page_off n) 4 b)) l'
  end.

(** The pager's freelist holds exactly the pages [l], in the order in which they
    will be handed out. *)
Record freelist (p : Pager) (l : list Z) : Prop := {
  fl_chain : chain (f_bytes (fd p)) (first_free_page p) l;
  fl_nodup : NoDup l;
  fl_count : free_page_count p = len l }.

Lemma chain_mono b b' head l :
  chain b head l ->
  (forall n, n ∈ l -> (n + 1) * PAGE_SIZE <= len b' /\
     slice (page_off n) 4 b' = slice (page_off n) 4 b) ->
  chain b' head l.
Proof.
  revert head. induction l as [|n l IH]; simpl; [done|].
  intros head (-> & Hn & _ & Hc) H.
  destruct (H n) as [H1 H2]; [left|]. split_and!; auto.
  rewrite H2. apply IH; auto. intros m Hm. apply H. by right.
Qed.

Lemma chain_in b head l n :
  chain b head l -> n ∈ l -> 0 < n /\ (n + 1) * PAGE_SIZE <= len b.
Proof.
  revert head. induction l as [|m l IH]; simpl; intros head Hc Hn.
  - by apply not_elem_of_nil in Hn.
  - destruct Hc as (_ & ? & ? & ?). apply elem_of_cons in Hn as [->|]; eauto.
Qed.

Lemma slice_page_off_write_ne n m d b :
  0 <= n -> 0 <= m -> n <> m -> len d = PAGE_SIZE -> (n + 1) * PAGE_SIZE <= len b ->
  slice (page_off n) 4 (write_at (page_off m) d b) = slice (page_off n) 4 b.
Proof.
  intros. pose proof (page_off_nonneg n). pose proof (page_off_nonneg m).
  unfold PAGE_SIZE in *. destruct (decide (n < m)).
  - apply slice_write_at_before; lia.
  - apply slice_write_at_after; lia.
Qed.

Lemma slice_page_off_write_header n h b :
  0 < n -> slice (page_off n) 4 (write_at 0 (header_bytes h) b) = slice (page_off n) 4 b.
Proof.
  intros. pose proof (page_off_nonneg n). apply slice_write_at_after.
  rewrite length_header_bytes. unfold HEADER_SIZE. lia.
Qed.

(** Allocation from a non-empty freelist pops its first page. *)
Lemma pager_allocate_pop p n l :
  pager_wf p -> freelist p (n :: l) ->
  exists p', pager_allocate_page p = Done (Some n, p') /\ pager_wf p' /\ freelist p' l /\
    f_bytes (fd p') = f_bytes (fd p) /\ page_count p' = page_count p.
Proof.
  intros [] [(Hf & Hn & Hl & Hc) Hnd Hcnt]. unfold pager_allocate_page.
  rewrite Hf. replace (n =? 0) with false by zcase. psimpl. cbv iota.
  destruct (read_page_at_benign (fd p) n) as (s & Hs & E); auto; [lia|].
  rewrite E. psimpl. unfold page_bytes.
  assert (length (slice (page_off n) (Z.to_nat PAGE_SIZE) (f_bytes (fd p))) = 4096%nat) as HL.
  { pose proof (page_off_nonneg n). unfold PAGE_SIZE in *. rewrite length_slice; lia. }
  rewrite buf_read_Done by lia. psimpl.
  change (Z.to_nat 0) with 0%nat. change (Z.to_nat 4) with 4%nat.
  rewrite slice_slice by (unfold PAGE_SIZE; lia). rewrite Nat.add_0_r.
  eexists. split; [done|]. rewrite Hcnt. cbn [length] in *.
  rewrite u32_id by lia. apply NoDup_cons in Hnd as [? ?].
  split_and!; auto; constructor; psimpl; auto; try lia.
  by apply le_val_slice_bound.
Qed.

(** Freeing a page pushes it. *)
Lemma pager_free_push p n l :
  pager_wf p -> freelist p l -> 0 < n < page_count p -> n ∉ l ->
  len l + 1 < 2 ^ 32 ->
  exists p', pager_free_page p n = Done (0, p') /\ pager_wf p' /\ freelist p' (n :: l) /\
    page_count p' = page_count p /\
    h_first_free_page (header_of_bytes (f_bytes (fd p'))) = n /\
    h_free_page_count (header_of_bytes (f_bytes (fd p'))) = len l + 1 /\
    (forall m, 0 < m -> m <> n -> (m + 1) * PAGE_SIZE <= len (f_bytes (fd p)) ->
       page_bytes m (f_bytes (fd p')) = page_bytes m (f_bytes (fd p))).
Proof.
  intros [] [Hc Hnd Hcnt] Hn Hnin Hlen. unfold pager_free_page.
  replace (n =? 0) with false by zcase. cbv iota. cbv zeta.
  set (buf := le_bytes 4 (first_free_page p) ++ _).
  assert (Hbuf : len buf = PAGE_SIZE) by (subst buf; rewrite len_app; reflexivity).
  assert (Hbb : Forall is_byte buf).
  { subst buf. apply Forall_app. split; [auto with tinydb|by apply Forall_replicate]. }
  destruct (write_page_at_benign (fd p) n buf) as (s1 & Hs1 & E1); auto; [lia|].
  rewrite E1. psimpl. change (0 <? 0) with false. cbv iota.
  set (b1 := write_at (page_off n) buf (f_bytes (fd p))).
  pose proof (page_off_nonneg n ltac:(lia)) as Ho.
  assert (HL1 : length b1 = Nat.max (length (f_bytes (fd p))) (page_off n + length buf))
    by apply length_write_at.
  destruct (read_header_benign (File b1 (page_off n + length buf) true s1))
    as (s2 & Hs2 & E2); auto; [psimpl; lia|].
  rewrite E2. psimpl.
  assert (HH1 : header_of_bytes b1 = header_of_bytes (f_bytes (fd p)))
    by (apply header_of_write_page; auto; lia).
  rewrite HH1, Hcnt, u32_id by lia.
  set (h := header_set_freelist (header_of_bytes (f_bytes (fd p))) n (len l + 1)).
  destruct (write_header_benign (File b1 HEADER_SIZE true s2) h) as (s3 & Hs3 & E3); auto.
  rewrite E3. psimpl. change (0 <? 0) with false. cbv iota.
  set (b2 := write_at 0 (header_bytes h) b1).
  assert (HL2 : length b2 = Nat.max (length b1) HEADER_SIZE)
    by (subst b2; rewrite length_write_at; reflexivity).
  assert (HH2 : header_of_bytes b2 = h)
    by (apply header_of_write_at; subst h; auto with tinydb lia).
  assert (Hrest : forall m, 0 < m -> m <> n ->
    (m + 1) * PAGE_SIZE <= len (f_bytes (fd p)) ->
    slice (page_off m) 4 b2 = slice (page_off m) 4 (f_bytes (fd p))).
  { intros m ? ? ?. subst b2 b1. rewrite slice_page_off_write_header by lia.
    apply slice_page_off_write_ne; lia. }
  unfold PAGE_SIZE in *.
  eexists. split; [done|]. psimpl. rewrite HH2. split_and!; auto.
  - constructor; psimpl; rewrite ?HH2, ?HL2; unfold PAGE_SIZE; auto; try lia.
    subst b2 b1. auto with tinydb.
  - constructor; psimpl; [|by constructor|simpl; lia].
    cbn [chain]. unfold PAGE_SIZE. split_and!; auto; try lia.
    assert (le_val (slice (page_off n) 4 b2) = first_free_page p) as ->.
    { subst b2 b1. rewrite slice_page_off_write_header by lia.
      rewrite slice_write_at_inside by lia. rewrite Nat.sub_diag.
      subst buf. rewrite slice_app_l by done. apply (le_val_bytes 4). simpl. lia. }
    eapply chain_mono; [exact Hc|]. intros m Hm.
    destruct (chain_in _ _ _ _ Hc Hm). unfold PAGE_SIZE in *.
    split; [lia|]. apply Hrest; try lia. by intros ->.
  - intros m ? ? ?. subst b2 b1. rewrite page_bytes_write_header by lia.
    apply page_bytes_write_at_ne; unfold PAGE_SIZE; lia.
Qed.

(** ** Reopening *)

Lemma pager_close_bytes p : pager_close p = f_bytes (fd p).
Proof.
  unfold pager_close, sys_fsync, next_event. destruct (is_open p); [|done].
  destruct (0 <? file_size p); [|done]. by destruct (f_script (fd p)) as [|[]].
Qed.

(** Closing and opening again finds the counts stored in the header. *)
Lemma pager_reopen p s :
  pager_wf p -> benign s ->
  exists q, pager_open (FsReadWrite (pager_close p)) s = Done (Some q) /\ pager_wf q /\
    f_bytes (fd q) = f_bytes (fd p) /\ page_count q = page_count p /\
    first_free_page q = h_first_free_page (header_of_bytes (f_bytes (fd p))) /\
    free_page_count q = h_free_page_count (header_of_bytes (f_bytes (fd p))) /\
    file_size q = len (f_bytes (fd p)).
Proof.
  intros [] Hs. rewrite pager_close_bytes. unfold pager_open.
  destruct (sys_fstat_size_benign (File (f_bytes (fd p)) 0 true s)) as (s1 & Hs1 & E1); auto.
  rewrite E1. psimpl.
  destruct (read_header_benign (File (f_bytes (fd p)) 0 true s1)) as (s2 & Hs2 & E2); auto.
  rewrite E2. psimpl. rewrite wf_magic0, Z.eqb_refl.
  eexists. split; [done|]. psimpl. split_and!; auto.
  pose proof (header_of_bytes_wf _ wf_bytes0) as Hwf.
  unfold header_wf, header_fields in Hwf. repeat rewrite Forall_cons_iff in Hwf. destruct_and!.
  constructor; psimpl; rewrite ?wf_disk_count0; auto.
Qed.

(** A freshly created pager. *)
Lemma pager_create_ok node s :
  (node = FsAbsent \/ exists b, node = FsReadWrite b) -> benign s ->
  exists p, pager_create node s = Done (Some p) /\ pager_wf p /\ freelist p [] /\
    page_count p = 1 /\ f_bytes (fd p) = header_bytes init_header.
Proof.
  intros Hnode Hs.
  destruct (write_header_benign (File [] 0 true s) init_header) as (s1 & Hs1 & E1); auto.
  assert (E0 : pager_create node s =
    let* '(r, f) := write_header (File [] 0 true s) init_header in
    if r <? 0 then Done None else
    let '(r, f) := sys_fsync f in
    if r <? 0 then Done None else
    Done (Some (mkPager f 1 0 0 PAGE_SIZE true)))
    by (destruct Hnode as [->|[b ->]]; reflexivity).
  rewrite E0, E1. psimpl. change (0 <? 0) with false. cbv iota.
  match goal with |- context [sys_fsync ?f] =>
    destruct (sys_fsync_benign f) as (s2 & Hs2 & E2); auto end.
  rewrite E2. psimpl. change (0 <? 0) with false. cbv iota.
  change (write_at 0 (header_bytes init_header) []) with (header_bytes init_header).
  eexists. split; [done|]. psimpl.
  assert (HH : header_of_bytes (header_bytes init_header) = init_header) by reflexivity.
  split_and!; auto.
  - constructor; psimpl; rewrite ?HH; auto with tinydb; try done.
  - constructor; psimpl; try done. constructor.
Qed.

(** ** Properties *)

(** Creating a database file, closing it and opening it again succeeds and
    finds one page and an empty freelist, whatever interruptions and short
    transfers the two sessions meet. *)
Theorem pager_create_then_open node s1 s2 :
  (node = FsAbsent \/ exists b, node = FsReadWrite b) -> benign s1 -> benign s2 ->
  exists p q, pager_create node s1 = Done (Some p) /\ pager_wf p /\
    pager_open (FsReadWrite (pager_close p)) s2 = Done (Some q) /\ pager_wf q /\
    pager_stats q = mkPagerStats 1 0 0 48.
Proof.
  intros Hn H1 H2. destruct (pager_create_ok node s1 Hn H1) as (p & E & Hp & _ & Hc & Hb).
  destruct (pager_reopen p s2 Hp H2) as (q & E2 & Hq & _ & Hcq & Hf & Hfc & Hsz).
  exists p, q. split_and!; auto. unfold pager_stats.
  rewrite Hcq, Hc, Hf, Hfc, Hsz, Hb. reflexivity.
Qed.

Lemma pager_create_then_open_witness :
  exists p q, pager_create FsAbsent [IoShort 6; IoIntr; IoShort 0] = Done (Some p) /\ pager_wf p /\
    pager_open (FsReadWrite (pager_close p)) [IoIntr; IoShort 3; IoIntr] = Done (Some q) /\
    pager_wf q /\ pager_stats q = mkPagerStats 1 0 0 48.
Proof.
  apply (pager_create_then_open FsAbsent [IoShort 6; IoIntr; IoShort 0]
    [IoIntr; IoShort 3; IoIntr]); [by left| |]; repeat constructor; discriminate.
Defined.

(** With no free page to reuse, allocation hands out the page number after
    the last one; the new page is all zeros, every other page keeps its
    contents, and the new page count is in the header that a later open reads. *)
Theorem pager_allocate_fresh p s :
  pager_wf p -> first_free_page p = 0 -> page_count p + 1 < 2 ^ 32 -> benign s ->
  exists p', pager_allocate_page p = Done (Some (page_count p), p') /\ pager_wf p' /\
    page_bytes (page_count p) (f_bytes (fd p')) = replicate (Z.to_nat PAGE_SIZE) 0 /\
    (forall m, 0 < m -> (m + 1) * PAGE_SIZE <= len (f_bytes (fd p)) ->
       page_bytes m (f_bytes (fd p')) = page_bytes m (f_bytes (fd p))) /\
    exists q, pager_open (FsReadWrite (pager_close p')) s = Done (Some q) /\
      page_count q = page_count p + 1.
Proof.
  intros Hwf Hff Hc Hs.
  destruct (pager_allocate_extend p Hwf Hff Hc) as (p' & E & Hp' & Hcnt & _ & _ & Hb).
  destruct (pager_reopen p' s Hp' Hs) as (q & Eq & _ & _ & Hq & _).
  destruct Hwf. pose proof (page_off_nonneg (page_count p)). unfold PAGE_SIZE in *.
  set (h := header_set_page_count _ _) in *.
  assert (HL : length (write_at 0 (header_bytes h) (f_bytes (fd p))) =
    length (f_bytes (fd p))).
  { rewrite length_write_at, length_header_bytes. lia. }
  exists p'. split_and!; auto.
  - rewrite Hb. unfold page_bytes, truncate_to. rewrite HL.
    destruct (decide (len (f_bytes (fd p)) = page_count p * 4096)) as [He|He].
    + rewrite take_ge by (rewrite HL; lia). rewrite slice_app_r by (rewrite HL; lia).
      rewrite HL. replace (page_off (page_count p) - _)%nat with 0%nat by lia.
      unfold slice, PAGE_SIZE. rewrite drop_0, take_ge; [f_equal; lia|blen].
    + rewrite take_ge by (rewrite HL; lia). rewrite slice_app_r by (rewrite HL; lia).
      rewrite HL. unfold slice, PAGE_SIZE. rewrite drop_replicate, take_replicate.
      f_equal. lia.
  - intros m Hm Hl. rewrite Hb. unfold page_bytes. pose proof (page_off_nonneg m).
    unfold PAGE_SIZE. rewrite slice_truncate_to by (rewrite ?HL; lia).
    apply (page_bytes_write_header m). lia.
  - exists q. split; [done|]. lia.
Qed.

Definition demo_pager : Pager :=
  mkPager (File (header_bytes (mkHeader PAGER_MAGIC 1 1 0 2 0 0 0 0 0 0 1) ++
                 replicate (Z.to_nat 8144) 0) 0 true [])
          2 0 0 8192 true.

Lemma demo_pager_wf : pager_wf demo_pager.
Proof.
  constructor; try (vm_compute; split; congruence); try (vm_compute; congruence).
  - constructor.
  - apply Nat.leb_le. vm_compute. reflexivity.
  - apply Forall_app. split; [apply header_bytes_byte|by apply Forall_replicate].
Qed.

Lemma len_replicate_page (z : Z) : len (replicate (Z.to_nat PAGE_SIZE) z) = PAGE_SIZE.
Proof. rewrite length_replicate. by apply Z2Nat.id. Qed.

Lemma demo_pager_freelist : freelist demo_pager [].
Proof. constructor; [reflexivity|constructor|reflexivity]. Qed.

Lemma pager_allocate_fresh_witness :
  exists p', pager_allocate_page demo_pager = Done (Some 2, p') /\ pager_wf p' /\
    page_bytes 2 (f_bytes (fd p')) = replicate (Z.to_nat PAGE_SIZE) 0 /\
    (forall m, 0 < m -> (m + 1) * PAGE_SIZE <= len (f_bytes (fd demo_pager)) ->
       page_bytes m (f_bytes (fd p')) = page_bytes m (f_bytes (fd demo_pager))) /\
    exists q, pager_open (FsReadWrite (pager_close p')) [IoIntr] = Done (Some q) /\
      page_count q = 3.
Proof.
  apply (pager_allocate_fresh demo_pager [IoIntr] demo_pager_wf);
    [reflexivity|reflexivity|repeat constructor; discriminate].
Defined.

(** A page that was written reads back as written, and every other page that
    lies in the file reads back as before. *)
Theorem pager_write_then_read p n d p' :
  pager_wf p -> 0 < n < page_count p -> len d = PAGE_SIZE -> Forall is_byte d ->
  pager_write_page p n d = Done (0, p') ->
  (exists p'', pager_read_page p' n = Done (Some d, p'')) /\
  (forall m, 0 <= m -> m <> n -> (m + 1) * 4096 <= len (f_bytes (fd p)) ->
     exists p'', pager_read_page p' m = Done (Some (page_bytes m (f_bytes (fd p))), p'')).
Proof.
  intros Hwf Hn Hl Hd E.
  destruct (pager_write_page_ok p n d) as (q & E' & Hq & Hb & Hc & _); auto.
  rewrite E in E'. simplify_eq. pose proof (page_off_nonneg n).
  assert (HL : length (f_bytes (fd q)) =
    Nat.max (length (f_bytes (fd p))) (page_off n + length d))
    by (rewrite Hb; apply length_write_at).
  unfold PAGE_SIZE in *. split.
  - destruct (pager_read_page_ok q n) as (r & Er & _); auto; [lia|lia|].
    exists r. rewrite Er. rewrite Hb, page_bytes_write_at_eq; done.
  - intros m Hm Hne Hlm.
    destruct (pager_read_page_ok q m) as (r & Er & _); auto; [lia|].
    exists r. rewrite Er. rewrite Hb, page_bytes_write_at_ne by (unfold PAGE_SIZE; lia). done.
Qed.

Lemma pager_write_then_read_witness :
  exists p', pager_write_page demo_pager 1 (replicate (Z.to_nat PAGE_SIZE) 7) = Done (0, p') /\
  (exists p'', pager_read_page p' 1 = Done (Some (replicate (Z.to_nat PAGE_SIZE) 7), p'')) /\
  (forall m, 0 <= m -> m <> 1 -> (m + 1) * 4096 <= len (f_bytes (fd demo_pager)) ->
     exists p'', pager_read_page p' m =
       Done (Some (page_bytes m (f_bytes (fd demo_pager))), p'')).
Proof.
  destruct (pager_write_page_ok demo_pager 1 (replicate (Z.to_nat PAGE_SIZE) 7) demo_pager_wf)
    as (p' & E & _); [vm_compute; split; congruence|apply len_replicate_page|by apply Forall_replicate|].
  exists p'. split; [exact E|].
  apply (pager_write_then_read demo_pager 1 (replicate (Z.to_nat PAGE_SIZE) 7) p' demo_pager_wf);
    [vm_compute; split; congruence|apply len_replicate_page|by apply Forall_replicate|exact E].
Defined.

(** The freelist is last-in first-out: freeing a page and allocating gives
    that page back, leaves the freelist as it was and touches no other page. *)
Theorem pager_free_then_allocate p n l :
  pager_wf p -> freelist p l -> 0 < n < page_count p -> n ∉ l -> len l + 1 < 2 ^ 32 ->
  exists p1 p2, pager_free_page p n = Done (0, p1) /\
    pager_allocate_page p1 = Done (Some n, p2) /\ pager_wf p2 /\ freelist p2 l /\
    page_count p2 = page_count p /\
    (forall m, 0 < m -> m <> n -> (m + 1) * PAGE_SIZE <= len (f_bytes (fd p)) ->
       page_bytes m (f_bytes (fd p2)) = page_bytes m (f_bytes (fd p))).
Proof.
  intros Hwf Hfl Hn Hnin Hlen.
  destruct (pager_free_push p n l) as (p1 & E1 & Hp1 & Hf1 & Hc1 & _ & _ & Hm); auto.
  destruct (pager_allocate_pop p1 n l) as (p2 & E2 & Hp2 & Hf2 & Hb2 & Hc2); auto.
  exists p1, p2. split_and!; auto; [congruence|].
  intros. rewrite Hb2. auto.
Qed.

Lemma pager_free_then_allocate_witness :
  exists p1 p2, pager_free_page demo_pager 1 = Done (0, p1) /\
    pager_allocate_page p1 = Done (Some 1, p2) /\ pager_wf p2 /\ freelist p2 [] /\
    page_count p2 = page_count demo_pager /\
    (forall m, 0 < m -> m <> 1 -> (m + 1) * PAGE_SIZE <= len (f_bytes (fd demo_pager)) ->
       page_bytes m (f_bytes (fd p2)) = page_bytes m (f_bytes (fd demo_pager))).
Proof.
  apply (pager_free_then_allocate demo_pager 1 [] demo_pager_wf demo_pager_freelist);
    [vm_compute; split; congruence|apply not_elem_of_nil|reflexivity].
Defined.

(** Popping the freelist is not recorded in the file header (pager.c 310-333
    returns without write_header, unlike pager_free_page): after a page is
    freed and allocated again, closing and reopening the file puts the page in
    use back at the head of the freelist, and the next allocation hands the
    same page out a second time. *)
Theorem pager_reallocates_live_page p n l s :
  pager_wf p -> freelist p l -> 0 < n < page_count p -> n ∉ l -> len l + 1 < 2 ^ 32 ->
  benign s ->
  exists p1 p2 q q', pager_free_page p n = Done (0, p1) /\
    pager_allocate_page p1 = Done (Some n, p2) /\
    pager_open (FsReadWrite (pager_close p2)) s = Done (Some q) /\
    pager_allocate_page q = Done (Some n, q').
Proof.
  intros Hwf Hfl Hn Hnin Hlen Hs.
  destruct (pager_free_push p n l) as (p1 & E1 & Hp1 & Hf1 & Hc1 & Hh1 & Hh2 & _); auto.
  destruct (pager_allocate_pop p1 n l) as (p2 & E2 & Hp2 & Hf2 & Hb2 & Hc2); auto.
  destruct (pager_reopen p2 s Hp2 Hs) as (q & Eq & Hq & Hbq & Hcq & Hfq & Hfcq & _).
  rewrite Hb2 in *.
  destruct (pager_allocate_pop q n l Hq) as (q' & Eq' & _).
  { destruct Hf1 as [Hch Hnd Hcnt]. constructor.
    - rewrite Hbq, Hfq, Hh1. destruct Hch as [<- ?]. by split.
    - done.
    - rewrite Hfcq, Hh2. simpl. lia. }
  by exists p1, p2, q, q'.
Qed.

Lemma pager_reallocates_live_page_witness :
  exists p1 p2 q q', pager_free_page demo_pager 1 = Done (0, p1) /\
    pager_allocate_page p1 = Done (Some 1, p2) /\
    pager_open (FsReadWrite (pager_close p2)) [] = Done (Some q) /\
    pager_allocate_page q = Done (Some 1, q').
Proof.
  apply (pager_reallocates_live_page demo_pager 1 [] [] demo_pager_wf demo_pager_freelist);
    [vm_compute; split; congruence|apply not_elem_of_nil|reflexivity|constructor].
Defined.

(** ** Allocation traces within one session *)

(** A client of one open pager: allocate, free a page it holds, or write one. *)
Inductive pager_step : Pager * gset Z -> Pager * gset Z -> Prop :=
  | step_allocate p L n p' :
      page_count p + 1 < 2 ^ 32 ->
      pager_allocate_page p = Done (Some n, p') ->
      pager_step (p, L) (p', {[n]} ∪ L)
  | step_free p L n p' :
      n ∈ L -> pager_free_page p n = Done (0, p') ->
      pager_step (p, L) (p', L ∖ {[n]})
  | step_write p L n d p' :
      n ∈ L -> Forall is_byte d -> len d = PAGE_SIZE ->
      pager_write_page p n d = Done (0, p') ->
      pager_step (p, L) (p', L).

(** What holds between the pager and the set of pages its client holds. *)
Definition alloc_inv (st : Pager * gset Z) : Prop :=
  let '(p, L) := st in
  pager_wf p /\ exists l, freelist p l /\
    (forall n, n ∈ l -> 0 < n < page_count p) /\
    (forall n, n ∈ L -> 0 < n < page_count p /\ n ∉ l).

Lemma NoDup_range_length (l : list Z) c :
  NoDup l -> (forall n, n ∈ l -> 0 < n < c) -> len l < Z.max 1 c.
Proof.
  intros Hnd Hl.
  assert (l ⊆+ seqZ 1 (c - 1)) as Hs.
  { apply NoDup_submseteq; [done|]. intros n Hn. apply elem_of_seqZ. specialize (Hl n Hn). lia. }
  apply submseteq_length in Hs. rewrite length_seqZ in Hs. lia.
Qed.

Lemma pager_step_inv st st' : alloc_inv st -> pager_step st st' -> alloc_inv st'.
Proof.
  intros Hinv Hstep.
  destruct Hstep as [p L n p' Hc E|p L n p' Hin E|p L n d p' Hin Hd Hl E];
    destruct Hinv as (Hwf & l & Hfl & Hin_l & Hin_L).
  - destruct l as [|m l].
    + destruct (pager_allocate_extend p) as (q & E' & Hq & Hcq & Hffq & Hfcq & _); auto.
      { by destruct Hfl. }
      rewrite E in E'. simplify_eq. split; [done|]. exists []. split_and!.
      * destruct Hfl. constructor; [by rewrite Hffq|done|congruence].
      * set_solver.
      * intros k Hk. apply elem_of_union in Hk as [Hk|Hk].
        -- apply elem_of_singleton in Hk as ->. destruct Hwf. split; [lia|set_solver].
        -- apply Hin_L in Hk as [? ?]. split; [lia|set_solver].
    + destruct (pager_allocate_pop p m l) as (q & E' & Hq & Hflq & _ & Hcq); auto.
      rewrite E in E'. simplify_eq. split; [done|]. exists l.
      destruct Hfl as [_ [Hm ?]%NoDup_cons _]. rewrite Hcq. split_and!; [done|set_solver|].
      intros k Hk. apply elem_of_union in Hk as [Hk|Hk].
      * apply elem_of_singleton in Hk as ->. set_solver.
      * apply Hin_L in Hk. set_solver.
  - destruct (Hin_L n Hin) as [Hn Hnl].
    pose proof (NoDup_range_length (n :: l) (page_count p)) as Hlen.
    destruct (pager_free_push p n l) as (q & E' & Hq & Hflq & Hcq & _); auto.
    { destruct Hfl as [_ Hnd _]. destruct Hwf. cbn [length] in Hlen.
      enough (Z.of_nat (S (length l)) < Z.max 1 (page_count p)) by lia.
      apply Hlen; [by apply NoDup_cons|]. intros k [->|?]%elem_of_cons; auto. }
    rewrite E in E'. simplify_eq. split; [done|]. exists (n :: l). rewrite Hcq. split_and!.
    + done.
    + intros k [->|?]%elem_of_cons; auto.
    + intros k [Hk Hne]%elem_of_difference. destruct (Hin_L k Hk). set_solver.
  - destruct (Hin_L n Hin) as [Hn Hnl].
    destruct (pager_write_page_ok p n d) as (q & E' & Hq & Hb & Hcq & Hffq & Hfcq); auto.
    rewrite E in E'. simplify_eq. split; [done|]. exists l. rewrite Hcq. split_and!; auto.
    destruct Hfl as [Hch Hnd Hcnt]. constructor; [|done|congruence].
    rewrite Hffq, Hb. eapply chain_mono; [exact Hch|]. intros k Hk.
    destruct (chain_in _ _ _ _ Hch Hk). specialize (Hin_l k Hk).
    split; [rewrite length_write_at; lia|].
    apply slice_page_off_write_ne; auto; try lia. by intros ->.
Qed.

(** C2: within a session no page is ever handed out while its holder still has
    it: after any sequence of allocations, frees and page writes starting from
    a new database, the next page allocated is not among the pages in use, is
    not the header page, and the pager stays well formed. *)
Theorem pager_never_double_allocates node s p L p' n st :
  (node = FsAbsent \/ exists b, node = FsReadWrite b) -> benign s ->
  pager_create node s = Done (Some p) ->
  rtc pager_step (p, ∅) (st, L) ->
  page_count st + 1 < 2 ^ 32 ->
  pager_allocate_page st = Done (Some n, p') ->
  n ∉ L /\ 0 < n /\ pager_wf p'.
Proof.
  intros Hnode Hs E0 Hrtc Hc E.
  destruct (pager_create_ok node s Hnode Hs) as (p0 & E0' & Hwf & Hfl & Hcnt & _).
  rewrite E0 in E0'. simplify_eq.
  assert (alloc_inv (st, L)) as Hinv.
  { revert Hrtc. apply (rtc_ind_r alloc_inv).
    - split; [done|]. exists []. split_and!; [done|set_solver..].
    - intros y z _ ? ?. by eapply pager_step_inv. }
  assert (alloc_inv (p', {[n]} ∪ L)) as Hinv'
    by (eapply pager_step_inv; [exact Hinv|by constructor]).
  destruct Hinv as (Hwf' & l & Hfl' & Hl & HL). destruct Hinv' as (Hwf'' & l' & _ & _ & HL').
  destruct (HL' n) as [[? _] _]; [set_solver|]. split_and!; auto. intros Hn.
  destruct (HL n Hn) as [? Hnl]. destruct l as [|m l].
  - destruct (pager_allocate_extend st) as (q & E' & _); auto; [by destruct Hfl'|].
    rewrite E in E'. simplify_eq. lia.
  - destruct (pager_allocate_pop st m l) as (q & E' & _); auto.
    rewrite E in E'. simplify_eq. set_solver.
Qed.

Definition demo_created : Pager :=
  match pager_create FsAbsent [] with Done (Some p) => p | _ => demo_pager end.
Definition demo_after_alloc : Pager :=
  match pager_allocate_page demo_created with Done (_, p) => p | _ => demo_pager end.
Definition demo_after_two : Pager :=
  match pager_allocate_page demo_after_alloc with Done (_, p) => p | _ => demo_pager end.

Lemma pager_never_double_allocates_witness :
  pager_allocate_page demo_after_alloc = Done (Some 2, demo_after_two) /\
  2 ∉ ({[1]} ∪ ∅ : gset Z) /\ 0 < 2 /\ pager_wf demo_after_two.
Proof.
  assert (pager_allocate_page demo_after_alloc = Done (Some 2, demo_after_two)) as E
    by (vm_compute; reflexivity).
  split; [exact E|].
  apply (pager_never_double_allocates FsAbsent [] demo_created ({[1]} ∪ ∅)
    demo_after_two 2 demo_after_alloc).
  - by left.
  - constructor.
  - vm_compute. reflexivity.
  - apply rtc_once. apply step_allocate; [vm_compute; reflexivity|].
    vm_compute. reflexivity.
  - vm_compute. reflexivity.
  - exact E.
Defined.
