(* ===== verification/PageCache.v ===== *)
(** Model of src/storage/page_cache.c: the hash table and LRU list are kept as
    the C code keeps them, as pointer links between heap-allocated pages, so
    that dangling pointers and cyclic lists are visible. *)
From Stdlib Require Import ZArith Lia.
From stdpp Require Import base numbers option list gmap.
From S2P Require Import Prelude Posix Pager.

(** ** Data *)

(** Addresses of Page objects; 0 is NULL. *)
Abbreviation ptr := Z.
Abbreviation NULL := 0.

Record Page : Type := mkPage {
  data : list Z;
  id : Z;
  refcount : Z;
  is_dirty : bool;
  is_wal : bool;
  lru_next : ptr;
  lru_prev : ptr;
  hash_next : ptr;
  hash_prev : ptr }.

(** The cache together with the heap its pages live in; [fresh] is the next
    address the allocator returns. A pointer that is not in [heap] (NULL or
    freed) cannot be dereferenced. *)
Record PageCache : Type := mkCache {
  pages : list ptr;
  table_size : Z;
  lru_head : ptr;
  lru_tail : ptr;
  count : Z;
  max_pages : Z;
  hit_count : Z;
  miss_count : Z;
  pager : option Pager;
  pin_count : Z;
  evict_count : Z;
  heap : gmap Z Page;
  fresh : Z }.

Definition PAGER_MAX_PAGES : Z := 65536.

Definition set_heap (c : PageCache) (h : gmap Z Page) : PageCache :=
  mkCache (pages c) (table_size c) (lru_head c) (lru_tail c) (count c) (max_pages c)
    (hit_count c) (miss_count c) (pager c) (pin_count c) (evict_count c) h (fresh c).
Definition set_pages (c : PageCache) (b : list ptr) : PageCache :=
  mkCache b (table_size c) (lru_head c) (lru_tail c) (count c) (max_pages c)
    (hit_count c) (miss_count c) (pager c) (pin_count c) (evict_count c) (heap c) (fresh c).
Definition set_lru_head (c : PageCache) (p : ptr) : PageCache :=
  mkCache (pages c) (table_size c) p (lru_tail c) (count c) (max_pages c)
    (hit_count c) (miss_count c) (pager c) (pin_count c) (evict_count c) (heap c) (fresh c).
Definition set_lru_tail (c : PageCache) (p : ptr) : PageCache :=
  mkCache (pages c) (table_size c) (lru_head c) p (count c) (max_pages c)
    (hit_count c) (miss_count c) (pager c) (pin_count c) (evict_count c) (heap c) (fresh c).
Definition set_pager (c : PageCache) (p : option Pager) : PageCache :=
  mkCache (pages c) (table_size c) (lru_head c) (lru_tail c) (count c) (max_pages c)
    (hit_count c) (miss_count c) p (pin_count c) (evict_count c) (heap c) (fresh c).
(** The five counters: count, hits, misses, pins, evictions. *)
Definition set_counts (c : PageCache) (n hits misses pins evicts : Z) : PageCache :=
  mkCache (pages c) (table_size c) (lru_head c) (lru_tail c) n (max_pages c)
    hits misses (pager c) pins evicts (heap c) (fresh c).
Definition set_fresh (c : PageCache) (p : ptr) : PageCache :=
  mkCache (pages c) (table_size c) (lru_head c) (lru_tail c) (count c) (max_pages c)
    (hit_count c) (miss_count c) (pager c) (pin_count c) (evict_count c) (heap c) p.

(** Loads and stores through a Page pointer. *)
Definition deref (c : PageCache) (p : ptr) : outcome Page :=
  outcome_of_option (heap c !! p).

Definition store (c : PageCache) (p : ptr) (f : Page -> Page) : outcome PageCache :=
  let* pg := deref c p in Done (set_heap c (<[p := f pg]> (heap c))).

Definition with_data (d : list Z) (g : Page) : Page :=
  mkPage d (id g) (refcount g) (is_dirty g) (is_wal g) (lru_next g) (lru_prev g)
    (hash_next g) (hash_prev g).
Definition with_refcount (n : Z) (g : Page) : Page :=
  mkPage (data g) (id g) n (is_dirty g) (is_wal g) (lru_next g) (lru_prev g)
    (hash_next g) (hash_prev g).
Definition with_dirty (b : bool) (g : Page) : Page :=
  mkPage (data g) (id g) (refcount g) b (is_wal g) (lru_next g) (lru_prev g)
    (hash_next g) (hash_prev g).
Definition with_lru_next (p : ptr) (g : Page) : Page :=
  mkPage (data g) (id g) (refcount g) (is_dirty g) (is_wal g) p (lru_prev g)
    (hash_next g) (hash_prev g).
Definition with_lru_prev (p : ptr) (g : Page) : Page :=
  mkPage (data g) (id g) (refcount g) (is_dirty g) (is_wal g) (lru_next g) p
    (hash_next g) (hash_prev g).
Definition with_hash_next (p : ptr) (g : Page) : Page :=
  mkPage (data g) (id g) (refcount g) (is_dirty g) (is_wal g) (lru_next g) (lru_prev g)
    p (hash_prev g).
Definition with_hash_prev (p : ptr) (g : Page) : Page :=
  mkPage (data g) (id g) (refcount g) (is_dirty g) (is_wal g) (lru_next g) (lru_prev g)
    (hash_next g) p.

(** ** Hash function *)

Definition hash_page_id (page_id tsize : Z) : Z :=
  Z.land (u32 (page_id * 31)) (tsize - 1).

(** ** LRU list *)

Definition lru_remove (c : PageCache) (page : ptr) : outcome PageCache :=
  let* g := deref c page in
  let* c := if lru_prev g =? NULL then Done c
            else store c (lru_prev g) (with_lru_next (lru_next g)) in
  let* g := deref c page in
  let* c := if lru_next g =? NULL then Done c
            else store c (lru_next g) (with_lru_prev (lru_prev g)) in
  let* c := store c page (with_lru_prev NULL) in
  store c page (with_lru_next NULL).

Definition lru_add_front (c : PageCache) (page : ptr) : outcome PageCache :=
  let* c := store c page (with_lru_next (lru_head c)) in
  let* c := store c page (with_lru_prev NULL) in
  let* c := if lru_head c =? NULL then Done c
            else store c (lru_head c) (with_lru_prev page) in
  let c := set_lru_head c page in
  Done (if lru_tail c =? NULL then set_lru_tail c page else c).

Definition lru_add_back (c : PageCache) (page : ptr) : outcome PageCache :=
  let* c := store c page (with_lru_prev (lru_tail c)) in
  let* c := store c page (with_lru_next NULL) in
  let* c := if lru_tail c =? NULL then Done c
            else store c (lru_tail c) (with_lru_next page) in
  let c := set_lru_tail c page in
  Done (if lru_head c =? NULL then set_lru_head c page else c).

Definition lru_mru (c : PageCache) (page : ptr) : outcome PageCache :=
  let* c := lru_remove c page in lru_add_front c page.

Definition lru_lru (c : PageCache) (page : ptr) : outcome PageCache :=
  let* c := lru_remove c page in lru_add_back c page.

(** ** Hash table *)

Definition bucket_get (c : PageCache) (idx : Z) : outcome ptr :=
  outcome_of_option (pages c !! Z.to_nat idx).

Definition bucket_set (c : PageCache) (idx : Z) (p : ptr) : outcome PageCache :=
  if decide (Z.to_nat idx < length (pages c))%nat
  then Done (set_pages c (<[Z.to_nat idx := p]> (pages c))) else Undef.

Definition hash_insert (c : PageCache) (page : ptr) : outcome PageCache :=
  let* g := deref c page in
  let idx := hash_page_id (id g) (table_size c) in
  let* b := bucket_get c idx in
  let* c := store c page (with_hash_next b) in
  let* c := store c page (with_hash_prev NULL) in
  let* c := if b =? NULL then Done c else store c b (with_hash_prev page) in
  bucket_set c idx page.

Definition hash_remove (c : PageCache) (page : ptr) : outcome PageCache :=
  let* g := deref c page in
  let idx := hash_page_id (id g) (table_size c) in
  let* c := if hash_prev g =? NULL then bucket_set c idx (hash_next g)
            else store c (hash_prev g) (with_hash_next (hash_next g)) in
  let* g := deref c page in
  let* c := if hash_next g =? NULL then Done c
            else store c (hash_next g) (with_hash_prev (hash_prev g)) in
  let* c := store c page (with_hash_next NULL) in
  store c page (with_hash_prev NULL).

Fixpoint hash_find_loop (fuel : nat) (c : PageCache) (p : ptr) (page_id : Z) : outcome ptr :=
  match fuel with
  | O => NoFuel
  | S fuel =>
      if p =? NULL then Done NULL else
      let* g := deref c p in
      if id g =? page_id then Done p else hash_find_loop fuel c (hash_next g) page_id
  end.

Definition hash_find (fuel : nat) (c : PageCache) (page_id : Z) : outcome ptr :=
  let* p := bucket_get c (hash_page_id page_id (table_size c)) in
  hash_find_loop fuel c p page_id.

(** ** Page allocation *)

Definition page_alloc (c : PageCache) (page_id : Z) : ptr * PageCache :=
  let p := fresh c in
  let g := mkPage (replicate (Z.to_nat PAGE_SIZE) 0) page_id 0 false false
             NULL NULL NULL NULL in
  (p, set_fresh (set_heap c (<[p := g]> (heap c))) (p + 1)).

Definition page_free (c : PageCache) (p : ptr) : outcome PageCache :=
  if p =? NULL then Done c else
  let* _ := deref c p in Done (set_heap c (delete p (heap c))).

(** ** Eviction *)

Fixpoint find_victim (fuel : nat) (c : PageCache) (victim : ptr) : outcome ptr :=
  match fuel with
  | O => NoFuel
  | S fuel =>
      if victim =? NULL then Done NULL else
      let* g := deref c victim in
      if refcount g =? 0 then Done victim else find_victim fuel c (lru_prev g)
  end.

(** The "flush if dirty" step that eviction performs before unlinking. *)
Definition writeback (c : PageCache) (g : Page) : outcome (Z * PageCache) :=
  match pager c with
  | Some pgr =>
      if is_dirty g
      then let* '(r, pgr) := pager_write_page pgr (id g) (data g) in
           Done (r, set_pager c (Some pgr))
      else Done (0, c)
  | None => Done (0, c)
  end.

Definition unlink_and_free (c : PageCache) (page : ptr) : outcome PageCache :=
  let* c := lru_remove c page in
  let* c := hash_remove c page in
  let c := set_counts c (count c - 1) (hit_count c) (miss_count c) (pin_count c)
             (evict_count c + 1) in
  page_free c page.

Definition evict_lru_page (fuel : nat) (c : PageCache) : outcome (Z * PageCache) :=
  let* victim := find_victim fuel c (lru_tail c) in
  if victim =? NULL then Done (-1, c) else
  let* g := deref c victim in
  let* '(r, c) := writeback c g in
  if r <? 0 then Done (-1, c) else
  let* c := unlink_and_free c victim in
  Done (0, c).

(** ** Lifecycle *)

Fixpoint grow_table (fuel : nat) (tsize limit : Z) : outcome Z :=
  match fuel with
  | O => NoFuel
  | S fuel => if tsize <? limit then grow_table fuel (tsize * 2) limit else Done tsize
  end.

(** [default_cache_size] stands for DEFAULT_CACHE_SIZE of the generated config.h. *)
Definition page_cache_create (default_cache_size : Z) (max : Z) (pgr : option Pager)
    : outcome PageCache :=
  let max := if max <=? 0 then default_cache_size else max in
  let max := if PAGER_MAX_PAGES <? max then PAGER_MAX_PAGES else max in
  let* tsize := grow_table 16 16 (max * 2) in
  Done (mkCache (replicate (Z.to_nat tsize) NULL) tsize NULL NULL 0 max 0 0 pgr 0 0 ∅ 1).

(** ** Pinning *)

(** The cache-hit branch of [page_cache_get]. *)
Definition cache_hit (c : PageCache) (page : ptr) : outcome (option ptr * PageCache) :=
  let c := set_counts c (count c) (hit_count c + 1) (miss_count c) (pin_count c)
             (evict_count c) in
  let* c := lru_mru c page in
  let* g := deref c page in
  let* c := store c page (with_refcount (refcount g + 1)) in
  Done (Some page, set_counts c (count c) (hit_count c) (miss_count c)
                     (pin_count c + 1) (evict_count c)).

Fixpoint evict_while_full (fuel : nat) (c : PageCache) : outcome (Z * PageCache) :=
  if count c <? max_pages c then Done (0, c) else
  match fuel with
  | O => NoFuel
  | S fuel' =>
      let* '(r, c) := evict_lru_page fuel c in
      if r <? 0 then Done (-1, c) else evict_while_full fuel' c
  end.

(** The end of the miss branch: allocate, read from disk, link in, pin. *)
Definition load_page (c : PageCache) (page_id : Z) : outcome (option ptr * PageCache) :=
  let '(page, c) := page_alloc c page_id in
  match pager c with
  | None => Undef
  | Some pgr =>
    let* '(d, pgr) := pager_read_page pgr page_id in
    let c := set_pager c (Some pgr) in
    match d with
    | None => let* c := page_free c page in Done (None, c)
    | Some d =>
      let* c := store c page (with_data d) in
      let* c := hash_insert c page in
      let* c := lru_add_front c page in
      let c := set_counts c (count c + 1) (hit_count c) (miss_count c) (pin_count c)
                 (evict_count c) in
      let* c := store c page (with_refcount 1) in
      Done (Some page, set_counts c (count c) (hit_count c) (miss_count c)
                         (pin_count c + 1) (evict_count c))
    end
  end.

Definition page_cache_get (fuel : nat) (c : PageCache) (page_id : Z)
    : outcome (option ptr * PageCache) :=
  let* page := hash_find fuel c page_id in
  if negb (page =? NULL) then cache_hit c page else
  let c := set_counts c (count c) (hit_count c) (miss_count c + 1) (pin_count c)
             (evict_count c) in
  match pager c with
  | None => Done (None, c)
  | Some _ =>
    let* page := hash_find fuel c page_id in
    if negb (page =? NULL) then cache_hit c page else
    let* '(r, c) := evict_while_full fuel c in
    if r <? 0 then Done (None, c) else load_page c page_id
  end.

Definition page_cache_get_exclusive (fuel : nat) (c : PageCache) (page_id : Z) :=
  page_cache_get fuel c page_id.

Definition page_pin (fuel : nat) (c : PageCache) (page_id : Z) :=
  page_cache_get fuel c page_id.

Definition page_unpin (c : PageCache) (page : ptr) : outcome PageCache :=
  if page =? NULL then Done c else
  let* g := deref c page in
  if 0 <? refcount g then store c page (with_refcount (refcount g - 1)) else Done c.

Definition page_mark_dirty (c : PageCache) (page : ptr) : outcome PageCache :=
  if page =? NULL then Done c else store c page (with_dirty true).

Definition page_cache_release (c : PageCache) (page : ptr) : outcome PageCache :=
  page_unpin c page.

(** ** Cache management *)

Fixpoint flush_chain (fuel : nat) (c : PageCache) (p : ptr) (flushed : Z)
    : outcome (Z * PageCache) :=
  match fuel with
  | O => NoFuel
  | S fuel =>
      if p =? NULL then Done (flushed, c) else
      let* g := deref c p in
      let* '(flushed, c) :=
        match pager c with
        | Some pgr =>
            if is_dirty g then
              let* '(r, pgr) := pager_write_page pgr (id g) (data g) in
              let c := set_pager c (Some pgr) in
              if r =? 0
              then let* c := store c p (with_dirty false) in Done (flushed + 1, c)
              else Done (flushed, c)
            else Done (flushed, c)
        | None => Done (flushed, c)
        end in
      let* g := deref c p in
      flush_chain fuel c (hash_next g) flushed
  end.

Fixpoint flush_buckets (fuel : nat) (c : PageCache) (bs : list ptr) (flushed : Z)
    : outcome (Z * PageCache) :=
  match bs with
  | [] => Done (flushed, c)
  | p :: bs =>
      let* '(flushed, c) := flush_chain fuel c p flushed in
      flush_buckets fuel c bs flushed
  end.

(** The loop over the table: it never changes the bucket heads. *)
Definition page_cache_flush (fuel : nat) (c : PageCache) : outcome (Z * PageCache) :=
  flush_buckets fuel c (pages c) 0.

Definition page_cache_flush_page (fuel : nat) (c : PageCache) (page_id : Z)
    : outcome (Z * PageCache) :=
  let* page := hash_find fuel c page_id in
  if page =? NULL then Done (-1, c) else
  let* g := deref c page in
  match pager c with
  | Some pgr =>
      if is_dirty g then
        let* '(ret, pgr) := pager_write_page pgr (id g) (data g) in
        let c := set_pager c (Some pgr) in
        if ret =? 0 then let* c := store c page (with_dirty false) in Done (0, c)
        else Done (-1, c)
      else Done (0, c)
  | None => Done (0, c)
  end.

Definition page_cache_evict (fuel : nat) (c : PageCache) (page_id : Z)
    : outcome (Z * PageCache) :=
  let* page := hash_find fuel c page_id in
  if page =? NULL then Done (-1, c) else
  let* g := deref c page in
  if 0 <? refcount g then Done (-1, c) else
  let* '(r, c) := writeback c g in
  if r <? 0 then Done (-1, c) else
  let* c := unlink_and_free c page in
  Done (0, c).

Fixpoint clear_chain (fuel : nat) (c : PageCache) (p : ptr) : outcome PageCache :=
  match fuel with
  | O => NoFuel
  | S fuel =>
      if p =? NULL then Done c else
      let* g := deref c p in
      let next := hash_next g in
      let* '(_, c) := writeback c g in
      let* c := lru_remove c p in
      let* c := page_free c p in
      clear_chain fuel c next
  end.

Fixpoint clear_buckets (fuel : nat) (c : PageCache) (i : nat) (n : nat) : outcome PageCache :=
  match n with
  | O => Done c
  | S n =>
      let* p := bucket_get c (Z.of_nat i) in
      let* c := clear_chain fuel c p in
      let* c := bucket_set c (Z.of_nat i) NULL in
      clear_buckets fuel c (S i) n
  end.

Definition page_cache_clear (fuel : nat) (c : PageCache) : outcome PageCache :=
  let* c := clear_buckets fuel c 0 (Z.to_nat (table_size c)) in
  let c := set_counts c 0 (hit_count c) (miss_count c) (pin_count c) (evict_count c) in
  Done (set_lru_tail (set_lru_head c NULL) NULL).

Fixpoint free_chain (fuel : nat) (c : PageCache) (p : ptr) : outcome PageCache :=
  match fuel with
  | O => NoFuel
  | S fuel =>
      if p =? NULL then Done c else
      let* g := deref c p in
      let next := hash_next g in
      let* c := page_free c p in
      free_chain fuel c next
  end.

Fixpoint free_buckets (fuel : nat) (c : PageCache) (bs : list ptr) : outcome PageCache :=
  match bs with
  | [] => Done c
  | p :: bs => let* c := free_chain fuel c p in free_buckets fuel c bs
  end.

(** What is left after destruction is the pager. *)
Definition page_cache_destroy (fuel : nat) (c : PageCache) : outcome (option Pager) :=
  let* '(_, c) := page_cache_flush fuel c in
  let* c := free_buckets fuel c (pages c) in
  Done (pager c).

(** ** Statistics *)

Definition page_cache_stats (c : PageCache) : Z * Z * Z * Z :=
  (hit_count c, miss_count c, count c, pin_count c).

Definition page_cache_reset_stats (c : PageCache) : PageCache :=
  set_counts c (count c) 0 0 0 0.

(** ** Basic facts about loads and stores *)

Lemma deref_Some c p g : heap c !! p = Some g -> deref c p = Done g.
Proof. intros H. unfold deref. by rewrite H. Qed.

Lemma deref_Done c p g : deref c p = Done g -> heap c !! p = Some g.
Proof. unfold deref. destruct (heap c !! p); simpl; congruence. Qed.

Lemma store_Some c p g f :
  heap c !! p = Some g -> store c p f = Done (set_heap c (<[p := f g]> (heap c))).
Proof. intros H. unfold store. by rewrite (deref_Some c p g H). Qed.

Lemma store_Done c p f c' :
  store c p f = Done c' ->
  exists g, heap c !! p = Some g /\ c' = set_heap c (<[p := f g]> (heap c)).
Proof.
  unfold store. intros H. apply bind_Done_inv in H as (g & E & H).
  apply deref_Done in E. exists g. split; [done|congruence].
Qed.

(** Reduces the projections of the updated cache records. *)
Ltac csimpl := cbn [pages table_size lru_head lru_tail count max_pages hit_count
  miss_count pager pin_count evict_count heap fresh set_heap set_pages set_lru_head
  set_lru_tail set_pager set_counts set_fresh obind fst snd
  data id refcount is_dirty is_wal lru_next lru_prev hash_next hash_prev
  with_data with_refcount with_dirty with_lru_next with_lru_prev with_hash_next
  with_hash_prev].
Ltac csimpl_in H := cbn [pages table_size lru_head lru_tail count max_pages hit_count
  miss_count pager pin_count evict_count heap fresh set_heap set_pages set_lru_head
  set_lru_tail set_pager set_counts set_fresh obind fst snd
  data id refcount is_dirty is_wal lru_next lru_prev hash_next hash_prev
  with_data with_refcount with_dirty with_lru_next with_lru_prev with_hash_next
  with_hash_prev] in H.

(** What neither the LRU operations nor stores to page fields change. *)
Definition same_table (c c' : PageCache) : Prop :=
  pages c' = pages c /\ table_size c' = table_size c /\ count c' = count c /\
  max_pages c' = max_pages c /\ pager c' = pager c /\ fresh c' = fresh c.

Lemma same_table_refl c : same_table c c.
Proof. done. Qed.
Lemma same_table_trans a b c : same_table a b -> same_table b c -> same_table a c.
Proof. unfold same_table. intuition congruence. Qed.
#[export] Hint Resolve same_table_refl : tinydb.

(** A page with its LRU links (resp. hash links) forgotten. *)
Definition erase_lru (g : Page) : Page := with_lru_next 0 (with_lru_prev 0 g).
Definition erase_hash (g : Page) : Page := with_hash_next 0 (with_hash_prev 0 g).

Lemma fmap_store {B} (e : Page -> B) (h : gmap Z Page) p g g' :
  h !! p = Some g -> e g' = e g -> e <$> <[p := g']> h = e <$> h.
Proof.
  intros H E. rewrite fmap_insert, E. apply insert_id. by rewrite lookup_fmap, H.
Qed.

Lemma fmap_eq_dom {B} (e : Page -> B) (h h' : gmap Z Page) p :
  e <$> h' = e <$> h -> is_Some (h' !! p) <-> is_Some (h !! p).
Proof.
  intros E. assert (e <$> h' !! p = e <$> h !! p) as Hp by (rewrite <- !lookup_fmap; by rewrite E).
  destruct (h' !! p), (h !! p); simpl in Hp; try discriminate; split; eauto.
  all: intros [? ?]; discriminate.
Qed.

Lemma fmap_eq_lookup {B} (e : Page -> B) (h h' : gmap Z Page) p g' :
  e <$> h' = e <$> h -> h' !! p = Some g' -> exists g, h !! p = Some g /\ e g = e g'.
Proof.
  intros E H. assert (e <$> h' !! p = e <$> h !! p) as Hp by (rewrite <- !lookup_fmap; by rewrite E).
  rewrite H in Hp. destruct (h !! p) as [g|]; simpl in Hp; [|done].
  exists g. split; congruence.
Qed.

(** ** LRU links stay inside the heap *)

Definition in_heap (h : gmap Z Page) (p : ptr) : Prop := p = NULL \/ is_Some (h !! p).

(** Every LRU link points to a live page or is NULL. *)
Record lru_closed (c : PageCache) : Prop := {
  lru_closed_head : in_heap (heap c) (lru_head c);
  lru_closed_links : forall p g, heap c !! p = Some g ->
    in_heap (heap c) (lru_next g) /\ in_heap (heap c) (lru_prev g) }.

(** [c'] differs from [c] in LRU links only. *)
Definition lru_only (c c' : PageCache) : Prop :=
  same_table c c' /\ erase_lru <$> heap c' = erase_lru <$> heap c.

Lemma lru_only_trans a b c : lru_only a b -> lru_only b c -> lru_only a c.
Proof.
  intros [H1 E1] [H2 E2]. split; [by eapply same_table_trans|congruence].
Qed.

Lemma lru_only_dom a b p : lru_only a b -> is_Some (heap b !! p) <-> is_Some (heap a !! p).
Proof. intros [_ E]. by apply (fmap_eq_dom erase_lru). Qed.

Lemma in_heap_insert (h : gmap Z Page) p g g' q :
  h !! p = Some g -> in_heap (<[p := g']> h) q <-> in_heap h q.
Proof.
  intros H. unfold in_heap. destruct (decide (p = q)) as [->|Hne].
  - rewrite lookup_insert_eq, H. split; intros [?|?]; eauto.
  - by rewrite lookup_insert_ne.
Qed.

(** Storing a live pointer (or NULL) in an LRU field of a live page. *)
Lemma store_lru_closed c p g (f : Page -> Page) :
  lru_closed c -> heap c !! p = Some g -> erase_lru (f g) = erase_lru g ->
  in_heap (heap c) (lru_next (f g)) -> in_heap (heap c) (lru_prev (f g)) ->
  exists c', store c p f = Done c' /\ lru_closed c' /\ lru_only c c' /\
    lru_head c' = lru_head c /\ lru_tail c' = lru_tail c.
Proof.
  intros [Hh Hl] Hg He Hn Hp. rewrite (store_Some c p g f Hg).
  eexists. split; [done|]. csimpl. split_and!; try done.
  - constructor; csimpl.
    + by apply (in_heap_insert _ _ _ _ _ Hg).
    + intros q g'. destruct (decide (p = q)) as [->|Hne].
      * rewrite lookup_insert_eq. intros [= <-].
        by rewrite !(in_heap_insert _ _ _ _ _ Hg).
      * rewrite lookup_insert_ne by done. intros H.
        rewrite !(in_heap_insert _ _ _ _ _ Hg). by apply Hl in H.
  - split; [done|]. csimpl. by apply (fmap_store _ _ _ g).
Qed.

Lemma in_heap_lru_only a b p : lru_only a b -> in_heap (heap a) p -> in_heap (heap b) p.
Proof. intros H [->|Hp]; [by left|right]. by apply (lru_only_dom a b). Qed.

Lemma cond_store_lru c q (f : Page -> Page) :
  lru_closed c -> in_heap (heap c) q ->
  (forall g, erase_lru (f g) = erase_lru g) ->
  (forall g, heap c !! q = Some g ->
     in_heap (heap c) (lru_next (f g)) /\ in_heap (heap c) (lru_prev (f g))) ->
  exists c', (if q =? NULL then Done c else store c q f) = Done c' /\
    lru_closed c' /\ lru_only c c' /\ lru_head c' = lru_head c /\ lru_tail c' = lru_tail c.
Proof.
  intros Hc Hq He Hf. destruct (Z.eqb_spec q NULL).
  - exists c. split_and!; auto with tinydb. by split; auto with tinydb.
  - destruct Hq as [|[g Hg]]; [done|]. destruct (Hf g Hg).
    by apply (store_lru_closed c q g).
Qed.

Lemma lru_remove_closed c p :
  lru_closed c -> p <> NULL -> is_Some (heap c !! p) ->
  exists c', lru_remove c p = Done c' /\ lru_closed c' /\ lru_only c c' /\
    lru_head c' = lru_head c /\ lru_tail c' = lru_tail c.
Proof.
  intros Hc Hp0 [g Hg]. unfold lru_remove. rewrite (deref_Some c p g Hg). csimpl.
  destruct (lru_closed_links c Hc p g Hg) as [Hn Hp].
  destruct (cond_store_lru c (lru_prev g) (with_lru_next (lru_next g)))
    as (c1 & -> & Hc1 & H1 & Hh1 & Ht1); auto.
  { intros g' Hg'. split; [done|]. by destruct (lru_closed_links c Hc _ g' Hg'). }
  csimpl. assert (is_Some (heap c1 !! p)) as [g1 Hg1] by (apply (lru_only_dom c c1); eauto).
  rewrite (deref_Some c1 p g1 Hg1). csimpl.
  destruct (lru_closed_links c1 Hc1 p g1 Hg1) as [Hn1 Hp1].
  destruct (cond_store_lru c1 (lru_next g1) (with_lru_prev (lru_prev g1)))
    as (c2 & -> & Hc2 & H2 & Hh2 & Ht2); auto.
  { intros g' Hg'. split; [|done]. by destruct (lru_closed_links c1 Hc1 _ g' Hg'). }
  csimpl. assert (is_Some (heap c2 !! p)) as [g2 Hg2] by (apply (lru_only_dom c1 c2); eauto).
  destruct (lru_closed_links c2 Hc2 p g2 Hg2) as [Hn2 Hp2].
  destruct (store_lru_closed c2 p g2 (with_lru_prev NULL))
    as (c3 & -> & Hc3 & H3 & Hh3 & Ht3); auto; [by left|].
  csimpl. assert (is_Some (heap c3 !! p)) as [g3 Hg3] by (apply (lru_only_dom c2 c3); eauto).
  destruct (lru_closed_links c3 Hc3 p g3 Hg3) as [Hn3 Hp3].
  destruct (store_lru_closed c3 p g3 (with_lru_next NULL))
    as (c4 & -> & Hc4 & H4 & Hh4 & Ht4); auto; [by left|].
  exists c4. split_and!; auto; try congruence.
  eauto using lru_only_trans.
Qed.

Lemma lru_add_front_closed c p :
  lru_closed c -> p <> NULL -> is_Some (heap c !! p) ->
  exists c', lru_add_front c p = Done c' /\ lru_closed c' /\ lru_only c c'.
Proof.
  intros Hc Hp0 [g Hg]. unfold lru_add_front.
  destruct (lru_closed_links c Hc p g Hg) as [Hn Hp].
  destruct (store_lru_closed c p g (with_lru_next (lru_head c)))
    as (c1 & -> & Hc1 & H1 & Hh1 & Ht1); auto; [apply Hc|].
  csimpl. assert (is_Some (heap c1 !! p)) as [g1 Hg1] by (apply (lru_only_dom c c1); eauto).
  destruct (lru_closed_links c1 Hc1 p g1 Hg1) as [Hn1 Hp1].
  destruct (store_lru_closed c1 p g1 (with_lru_prev NULL))
    as (c2 & -> & Hc2 & H2 & Hh2 & Ht2); auto; [by left|].
  csimpl. assert (is_Some (heap c2 !! p)) as Hs2 by (apply (lru_only_dom c1 c2); eauto).
  destruct (cond_store_lru c2 (lru_head c2) (with_lru_prev p))
    as (c3 & -> & Hc3 & H3 & Hh3 & Ht3); auto.
  { apply Hc2. }
  { intros g' Hg'. split; [by destruct (lru_closed_links c2 Hc2 _ g' Hg')|by right]. }
  csimpl. eexists. split; [done|].
  assert (is_Some (heap c3 !! p)) as Hs3 by (apply (lru_only_dom c2 c3); eauto).
  assert (lru_only c c3) as H03 by eauto using lru_only_trans.
  destruct (lru_tail c3 =? NULL); csimpl; (split; [|done]).
  all: constructor; csimpl; [by right|apply Hc3].
Qed.

Lemma lru_mru_closed c p :
  lru_closed c -> p <> NULL -> is_Some (heap c !! p) ->
  exists c', lru_mru c p = Done c' /\ lru_closed c' /\ lru_only c c'.
Proof.
  intros Hc Hp Hs. unfold lru_mru.
  destruct (lru_remove_closed c p) as (c1 & -> & Hc1 & H1 & _); auto. csimpl.
  destruct (lru_add_front_closed c1 p) as (c2 & -> & Hc2 & H2); auto.
  { by apply (lru_only_dom c c1). }
  exists c2. eauto using lru_only_trans.
Qed.

(** ** Hash chains *)

(** The part of a page that the hash table reads: id and chain links. *)
Definition hlinks (g : Page) : Z * ptr * ptr := (id g, hash_next g, hash_prev g).

(** [hchain v prev p l]: the chain starting at [p], whose predecessor is [prev],
    visits exactly the pages [l]. *)
Fixpoint hchain (v : gmap Z (Z * ptr * ptr)) (prev p : ptr) (l : list ptr) : Prop :=
  match l with
  | [] => p = NULL
  | q :: l' => p = q /\ p <> NULL /\
      exists i nxt, v !! p = Some (i, nxt, prev) /\ hchain v p nxt l'
  end.

Lemma hchain_ext v v' prev p l :
  (forall q, q ∈ l -> v' !! q = v !! q) -> hchain v prev p l -> hchain v' prev p l.
Proof.
  revert prev p. induction l as [|q l IH]; simpl; [done|].
  intros prev p Hv (-> & Hq & i & nxt & Hl & Hc). split_and!; auto.
  exists i, nxt. rewrite Hv by (by left). split; [done|].
  apply IH; [|done]. intros r Hr. apply Hv. by right.
Qed.

(** [hash_find_loop] finds the page with the given id on a chain. *)
Lemma hash_find_loop_spec fuel c prev p l n :
  hchain (hlinks <$> heap c) prev p l -> (length l < fuel)%nat ->
  exists r, hash_find_loop fuel c p n = Done r /\
    ((r = NULL /\ forall q g, q ∈ l -> heap c !! q = Some g -> id g <> n) \/
     (r <> NULL /\ r ∈ l /\ exists g, heap c !! r = Some g /\ id g = n)).
Proof.
  revert prev p l. induction fuel as [|fuel IH]; intros prev p l Hc Hf; [lia|].
  destruct l as [|q l]; simpl in Hc; cbn [hash_find_loop].
  - subst p. exists NULL. split; [done|]. left. split; [done|]. intros. set_solver.
  - destruct Hc as (-> & Hq & i & nxt & Hv & Hc). destruct (Z.eqb_spec q NULL); [done|].
    rewrite lookup_fmap in Hv. destruct (heap c !! q) as [g|] eqn:Hg; [|done].
    unfold hlinks in Hv; simpl in Hv. simplify_eq. rewrite (deref_Some c q g Hg). csimpl.
    destruct (Z.eqb_spec (id g) n) as [He|He].
    + exists q. split; [done|]. right. split_and!; [done|by left|eauto].
    + simpl in Hf. destruct (IH q (hash_next g) l) as (r & E & Hr); auto; [lia|].
      exists r. split; [done|]. destruct Hr as [[-> Hr]|(Hr & Hin & Hg')].
      * left. split; [done|]. intros q' g' [->|Hin]%elem_of_cons Hg'; [congruence|eauto].
      * right. split_and!; auto. by right.
Qed.

(** The hash table: one chain per bucket, no page twice, every page in the
    bucket its id hashes to. *)
Record table_inv (v : gmap Z (Z * ptr * ptr)) (pgs : list ptr) (tsize : Z)
    (bs : list (list ptr)) : Prop := {
  ti_pow : exists k, 0 <= k <= 31 /\ tsize = 2 ^ k;
  ti_len : len pgs = tsize;
  ti_chains : Forall2 (hchain v NULL) pgs bs;
  ti_nodup : NoDup (concat bs);
  ti_bucket : forall i l p x, bs !! i = Some l -> p ∈ l -> v !! p = Some x ->
    Z.of_nat i = hash_page_id (fst (fst x)) tsize }.

Lemma hash_page_id_range n tsize k :
  0 <= k -> tsize = 2 ^ k -> 0 <= hash_page_id n tsize < tsize.
Proof.
  intros Hk ->. unfold hash_page_id.
  replace (2 ^ k - 1) with (Z.ones k) by (rewrite Z.ones_equiv; apply Z.sub_1_r).
  rewrite Z.land_ones by done. apply Z.mod_pos_bound, Z.pow_pos_nonneg; lia.
Qed.

Lemma table_bucket v pgs tsize bs n :
  table_inv v pgs tsize bs ->
  exists p l, pgs !! Z.to_nat (hash_page_id n tsize) = Some p /\
    bs !! Z.to_nat (hash_page_id n tsize) = Some l /\ hchain v NULL p l.
Proof.
  intros [(k & Hk & Ht) Hlen Hch _ _].
  pose proof (hash_page_id_range n tsize k ltac:(lia) Ht) as Hr.
  destruct (lookup_lt_is_Some_2 pgs (Z.to_nat (hash_page_id n tsize))) as [p Hp]; [lia|].
  destruct (Forall2_lookup_l _ _ _ _ _ Hch Hp) as (l & Hl & Hc). eauto.
Qed.

Lemma elem_of_concat_bucket (bs : list (list ptr)) i l p :
  bs !! i = Some l -> p ∈ l -> p ∈ concat bs.
Proof.
  intros Hl Hp. apply list_elem_of_In, in_concat. exists l.
  split; apply list_elem_of_In; [|done]. by eapply list_elem_of_lookup_2.
Qed.

Lemma concat_elem_bucket (bs : list (list ptr)) p :
  p ∈ concat bs -> exists i l, bs !! i = Some l /\ p ∈ l.
Proof.
  intros H. apply list_elem_of_In, in_concat in H as (l & Hl & Hp).
  apply list_elem_of_In in Hl, Hp. apply list_elem_of_lookup in Hl as [i Hi]. eauto.
Qed.

Lemma bucket_length_concat (bs : list (list ptr)) i l :
  bs !! i = Some l -> (length l <= length (concat bs))%nat.
Proof.
  revert i. induction bs as [|b bs IH]; intros [|i] H; simpl in *; simplify_eq;
    rewrite length_app; [lia|]. specialize (IH i H). lia.
Qed.

Lemma concat_insert_perm (bs : list (list ptr)) i l p :
  bs !! i = Some l -> concat (<[i := p :: l]> bs) ≡ₚ p :: concat bs.
Proof.
  revert i. induction bs as [|b bs IH]; intros [|i] H; simpl in *; simplify_eq; [done|].
  rewrite (IH i H). symmetry. apply Permutation_middle.
Qed.

Lemma concat_bucket_ne (bs : list (list ptr)) i j l k p :
  NoDup (concat bs) -> bs !! i = Some l -> bs !! j = Some k -> i <> j ->
  p ∈ l -> p ∈ k -> False.
Proof.
  revert i j. induction bs as [|b bs IH]; intros i j Hnd Hi Hj Hne Hl Hk; [done|].
  simpl in Hnd. apply NoDup_app in Hnd as (Hb & Hd & Hn).
  destruct i as [|i], j as [|j]; simpl in *; simplify_eq.
  - apply (Hd p Hl). by eapply elem_of_concat_bucket.
  - apply (Hd p Hk). by eapply elem_of_concat_bucket.
  - apply (IH i j); auto.
Qed.

Lemma NoDup_bucket (bs : list (list ptr)) i l :
  NoDup (concat bs) -> bs !! i = Some l -> NoDup l.
Proof.
  revert i. induction bs as [|x bs IH]; intros [|i] Hnd Hl; simpl in *; simplify_eq;
    apply NoDup_app in Hnd as (? & _ & ?); eauto.
Qed.

Lemma hchain_nonnull v prev p l q : hchain v prev p l -> q ∈ l -> q <> NULL.
Proof.
  revert prev p. induction l as [|x l IH]; intros prev p Hc Hq.
  - by apply not_elem_of_nil in Hq.
  - destruct Hc as (-> & ? & ? & ? & _ & Hc). apply elem_of_cons in Hq as [->|Hq]; eauto.
Qed.

(** What [hash_insert] does to the heap: [p] becomes the head of its bucket. *)
Lemma hash_insert_exec c p g bs :
  table_inv (hlinks <$> heap c) (pages c) (table_size c) bs ->
  heap c !! p = Some g -> p <> NULL -> p ∉ concat bs ->
  let i := Z.to_nat (hash_page_id (id g) (table_size c)) in
  exists b l h', pages c !! i = Some b /\ bs !! i = Some l /\
    hchain (hlinks <$> heap c) NULL b l /\
    hash_insert c p = Done (set_pages (set_heap c h') (<[i := p]> (pages c))) /\
    h' !! p = Some (with_hash_prev NULL (with_hash_next b g)) /\
    (forall q, q <> p -> q <> b -> h' !! q = heap c !! q) /\
    (forall gb, b <> NULL -> heap c !! b = Some gb -> h' !! b = Some (with_hash_prev p gb)) /\
    erase_hash <$> h' = erase_hash <$> heap c.
Proof.
  intros Ht Hg Hp Hnin i.
  destruct (table_bucket _ _ _ _ (id g) Ht) as (b & l & Hb & Hl & Hch). fold i in Hb, Hl.
  assert (i < length (pages c))%nat as Hi by (by apply lookup_lt_Some in Hb).
  assert (p ∉ l) as Hpl by (intros ?; apply Hnin; by eapply elem_of_concat_bucket).
  exists b, l. set (g' := with_hash_prev NULL (with_hash_next b g)).
  unfold hash_insert. rewrite (deref_Some c p g Hg). csimpl.
  unfold bucket_get. fold i. rewrite Hb. csimpl.
  rewrite (store_Some c p g _ Hg). csimpl.
  erewrite store_Some by (csimpl; apply lookup_insert_eq). csimpl.
  rewrite insert_insert_eq. fold g'.
  assert (erase_hash <$> <[p:=g']> (heap c) = erase_hash <$> heap c) as He1
    by (by apply (fmap_store _ _ _ g)).
  destruct (Z.eqb_spec b NULL) as [Hb0|Hb0].
  - csimpl. unfold bucket_set. csimpl. fold i. rewrite decide_True by done.
    exists (<[p := g']> (heap c)). split_and!; auto; [apply lookup_insert_eq| |done].
    intros. by apply lookup_insert_ne.
  - destruct l as [|b' l']; [done|]. destruct Hch as (-> & ? & ib & nb & Hvb & ?).
    pose proof Hvb as Hvb'.
    rewrite lookup_fmap in Hvb'. destruct (heap c !! b') as [gb|] eqn:Hgb; [|done].
    assert (b' <> p) as Hbp by (intros ->; apply Hpl; by left).
    erewrite store_Some by (csimpl; rewrite lookup_insert_ne; [exact Hgb|done]).
    csimpl. unfold bucket_set. csimpl. fold i. rewrite decide_True by done.
    eexists. do 2 (split; [done|]). split; [cbn [hchain]; eauto 10|]. split; [done|].
    split_and!.
    + rewrite lookup_insert_ne by done. apply lookup_insert_eq.
    + intros q Hq1 Hq2. by rewrite !lookup_insert_ne by done.
    + intros gb' _ [= ->]. apply lookup_insert_eq.
    + rewrite <- He1. apply (fmap_store _ _ _ gb); [|done]. by rewrite lookup_insert_ne.
Qed.

(** [hash_insert] keeps the table well formed and adds [p] to its bucket. *)
Lemma hash_insert_table c p g bs :
  table_inv (hlinks <$> heap c) (pages c) (table_size c) bs ->
  heap c !! p = Some g -> p <> NULL -> p ∉ concat bs ->
  let i := Z.to_nat (hash_page_id (id g) (table_size c)) in
  exists l h', bs !! i = Some l /\
    hash_insert c p = Done (set_pages (set_heap c h') (<[i := p]> (pages c))) /\
    table_inv (hlinks <$> h') (<[i := p]> (pages c)) (table_size c) (<[i := p :: l]> bs) /\
    erase_hash <$> h' = erase_hash <$> heap c.
Proof.
  intros Ht Hg Hp Hnin i.
  destruct (hash_insert_exec c p g bs Ht Hg Hp Hnin)
    as (b & l & h' & Hb & Hl & Hch & E & Hhp & Hho & Hhb & Her). fold i in Hb, Hl, E.
  exists l, h'. split_and!; auto.
  destruct Ht as [Hpow Hlen Hchs Hnd Hbk].
  assert (i < length (pages c))%nat as Hi by (by apply lookup_lt_Some in Hb).
  assert (length bs = length (pages c)) as Hlb by (symmetry; by eapply Forall2_length).
  assert (forall q, q ∈ concat bs -> q <> b -> (hlinks <$> h') !! q = (hlinks <$> heap c) !! q)
    as Hvo.
  { intros q Hq Hqb. rewrite !lookup_fmap, Hho; [done| |done]. by intros ->. }
  constructor; auto.
  - by rewrite length_insert.
  - apply Forall2_same_length_lookup. split; [by rewrite !length_insert|].
    intros j x k Hx Hk. destruct (decide (i = j)) as [<-|Hne].
    + rewrite list_lookup_insert_eq in Hx by done. rewrite list_lookup_insert_eq in Hk by lia.
      simplify_eq. cbn [hchain]. split_and!; auto. exists (id g), b.
      rewrite lookup_fmap, Hhp. split; [done|].
      destruct l as [|b' l']; [done|].
      destruct Hch as (-> & Hb0 & ib & nb & Hvb & Hch). cbn [hchain]. split_and!; auto.
      rewrite lookup_fmap in Hvb. destruct (heap c !! b') as [gb|] eqn:Hgb; [|done].
      exists (id gb), (hash_next gb). rewrite lookup_fmap, (Hhb gb) by done.
      unfold hlinks in Hvb; simpl in Hvb; simplify_eq. split; [done|].
      apply (hchain_ext (hlinks <$> heap c)); [|done].
      intros q Hq. apply Hvo.
      * eapply elem_of_concat_bucket; [exact Hl|by right].
      * intros ->. pose proof (NoDup_bucket _ _ _ Hnd Hl) as Hndl.
        by apply NoDup_cons in Hndl as [? _].
    + rewrite list_lookup_insert_ne in Hx by done. rewrite list_lookup_insert_ne in Hk by done.
      assert (hchain (hlinks <$> heap c) NULL x k) as Hck
        by (eapply Forall2_lookup_lr; eauto).
      apply (hchain_ext (hlinks <$> heap c)); [|done]. intros q Hq. apply Hvo.
      * by eapply elem_of_concat_bucket.
      * intros ->. destruct l as [|b' l'].
        { simpl in Hch. by apply (hchain_nonnull _ _ _ _ _ Hck Hq). }
        destruct Hch as (-> & _). eapply (concat_bucket_ne bs i j); eauto. by left.
  - rewrite (concat_insert_perm bs i l p Hl). by apply NoDup_cons.
  - intros j k q x Hk Hq Hx. rewrite lookup_fmap in Hx.
    destruct (h' !! q) as [gq'|] eqn:Hgq'; [|done]. simpl in Hx. simplify_eq.
    destruct (fmap_eq_lookup erase_hash (heap c) h' q gq' Her Hgq') as (gq & Hgq & He).
    assert (id gq = id gq') as Hid by (by injection He).
    unfold hlinks. simpl. rewrite <- Hid.
    destruct (decide (i = j)) as [<-|Hne].
    + rewrite list_lookup_insert_eq in Hk by lia. simplify_eq.
      apply elem_of_cons in Hq as [->|Hq].
      * assert (gq = g) as -> by congruence. subst i.
        destruct Hpow as (k & ? & Hk).
        pose proof (hash_page_id_range (id g) _ k ltac:(lia) Hk). lia.
      * apply (Hbk i l q (hlinks gq)); auto. by rewrite lookup_fmap, Hgq.
    + rewrite list_lookup_insert_ne in Hk by done.
      apply (Hbk j k q (hlinks gq)); auto. by rewrite lookup_fmap, Hgq.
Qed.

(** ** Invariant of the cache while nothing has been evicted *)

Definition page_ok (g : Page) : Prop := len (data g) = PAGE_SIZE /\ Forall is_byte (data g).

(** What a client of the cache sees of a page. *)
Definition content (g : Page) : Z * list Z * bool := (id g, data g, is_dirty g).

Record cache_inv (c : PageCache) : Prop := {
  ci_table : exists bs, table_inv (hlinks <$> heap c) (pages c) (table_size c) bs /\
    (forall p, is_Some (heap c !! p) <-> p ∈ concat bs) /\ count c = len (concat bs);
  ci_ids : forall p q g g', heap c !! p = Some g -> heap c !! q = Some g' ->
    id g = id g' -> p = q;
  ci_fresh : 0 < fresh c /\ forall p, is_Some (heap c !! p) -> 0 < p < fresh c;
  ci_lru : lru_closed c;
  ci_pages : forall p g, heap c !! p = Some g -> page_ok g;
  ci_pager : exists pgr, pager c = Some pgr /\ pager_wf pgr /\
    forall p g, heap c !! p = Some g -> 0 < id g < page_count pgr;
  ci_count : 0 <= count c <= max_pages c }.

(** Changing page fields other than id and hash links keeps the invariant. *)
Lemma cache_inv_update c c' :
  cache_inv c -> same_table c c' -> hlinks <$> heap c' = hlinks <$> heap c ->
  lru_closed c' -> (forall p g, heap c' !! p = Some g -> page_ok g) -> cache_inv c'.
Proof.
  intros [(bs & Ht & Hdom & Hcnt) Hids [Hf0 Hf] _ _ (pgr & Hp & Hwf & Hd) Hmx]
    (E1 & E2 & E3 & E4 & E5 & E6) Hv Hl Hok.
  assert (forall p, is_Some (heap c' !! p) <-> is_Some (heap c !! p)) as Hdom'
    by (intros; by apply (fmap_eq_dom hlinks)).
  constructor; auto.
  - exists bs. rewrite E1, E2, E3, Hv. split_and!; auto. intros p. by rewrite Hdom'.
  - intros p q g g' Hg Hg' He.
    destruct (fmap_eq_lookup hlinks _ _ _ _ Hv Hg) as (g0 & Hg0 & Eg).
    destruct (fmap_eq_lookup hlinks _ _ _ _ Hv Hg') as (g0' & Hg0' & Eg').
    apply (Hids p q g0 g0'); auto. injection Eg as ? _ _. injection Eg' as ? _ _. congruence.
  - rewrite E6. split; [done|]. intros p. rewrite Hdom'. auto.
  - exists pgr. rewrite E5. split_and!; auto. intros p g Hg.
    destruct (fmap_eq_lookup hlinks _ _ _ _ Hv Hg) as (g0 & Hg0 & Eg).
    injection Eg as <- _ _. by apply (Hd p).
  - by rewrite E3, E4.
Qed.

Lemma hlinks_erase_lru (h h' : gmap Z Page) : erase_lru <$> h' = erase_lru <$> h -> hlinks <$> h' = hlinks <$> h.
Proof.
  intros E. assert (forall x, hlinks <$> x = (hlinks <$> (erase_lru <$> x)) :> gmap Z _) as H.
  { intros x. rewrite <- map_fmap_compose. by apply map_fmap_ext. }
  by rewrite (H h'), (H h), E.
Qed.

Lemma content_erase_lru (h h' : gmap Z Page) :
  erase_lru <$> h' = erase_lru <$> h -> content <$> h' = content <$> h.
Proof.
  intros E. assert (forall x, content <$> x = (content <$> (erase_lru <$> x)) :> gmap Z _) as H.
  { intros x. rewrite <- map_fmap_compose. by apply map_fmap_ext. }
  by rewrite (H h'), (H h), E.
Qed.

Lemma content_erase_hash (h h' : gmap Z Page) :
  erase_hash <$> h' = erase_hash <$> h -> content <$> h' = content <$> h.
Proof.
  intros E. assert (forall x, content <$> x = (content <$> (erase_hash <$> x)) :> gmap Z _) as H.
  { intros x. rewrite <- map_fmap_compose. by apply map_fmap_ext. }
  by rewrite (H h'), (H h), E.
Qed.

(** Page well-formedness only depends on the contents. *)
Lemma content_pages_ok (h h' : gmap Z Page) :
  content <$> h' = content <$> h -> (forall p g, h !! p = Some g -> page_ok g) ->
  forall p g, h' !! p = Some g -> page_ok g.
Proof.
  intros E H p g Hg. destruct (fmap_eq_lookup content _ _ _ _ E Hg) as (g0 & Hg0 & Ec).
  specialize (H p g0 Hg0). unfold page_ok in *. injection Ec as _ Ed _. by rewrite Ed in H.
Qed.

(** The same, for a step that keeps the contents of every page. *)
Lemma cache_inv_content c c' :
  cache_inv c -> same_table c c' -> hlinks <$> heap c' = hlinks <$> heap c ->
  lru_closed c' -> content <$> heap c' = content <$> heap c -> cache_inv c'.
Proof.
  intros Hc Hs Hv Hl Hcon. apply (cache_inv_update c); auto.
  eapply content_pages_ok; [exact Hcon|apply Hc].
Qed.

Lemma lru_closed_same c c' :
  lru_closed c -> heap c' = heap c -> lru_head c' = lru_head c -> lru_closed c'.
Proof. intros [H1 H2] E1 E2. constructor; by rewrite E1, ?E2. Qed.

(** Storing to a field that is not an LRU link. *)
Lemma lru_closed_store c p g g' :
  lru_closed c -> heap c !! p = Some g -> lru_next g' = lru_next g ->
  lru_prev g' = lru_prev g -> lru_closed (set_heap c (<[p := g']> (heap c))).
Proof.
  intros [H1 H2] Hg En Ep. constructor; csimpl.
  - by apply (in_heap_insert _ _ _ _ _ Hg).
  - intros q gq Hq. rewrite !(in_heap_insert _ _ _ _ _ Hg).
    destruct (decide (p = q)) as [->|Hne].
    + rewrite lookup_insert_eq in Hq. simplify_eq. rewrite En, Ep. by apply (H2 q).
    + rewrite lookup_insert_ne in Hq by done. by apply (H2 q).
Qed.

(** ** Lookup *)

Lemma hash_find_spec fuel c n :
  cache_inv c -> (Z.to_nat (count c) < fuel)%nat ->
  exists r, hash_find fuel c n = Done r /\
    ((r = NULL /\ forall q g, heap c !! q = Some g -> id g <> n) \/
     (r <> NULL /\ exists g, heap c !! r = Some g /\ id g = n)).
Proof.
  intros Hinv Hf. destruct (ci_table c Hinv) as (bs & Ht & Hdom & Hcnt).
  destruct (table_bucket _ _ _ _ n Ht) as (p & l & Hp & Hl & Hch).
  unfold hash_find, bucket_get. rewrite Hp. csimpl.
  pose proof (bucket_length_concat _ _ _ Hl).
  destruct (hash_find_loop_spec fuel c NULL p l n) as (r & E & Hr); auto; [lia|].
  simpl. exists r. split; [done|].
  destruct Hr as [[-> Hr]|(Hr & _ & Hg)]; [left; split; [done|]|by right].
  intros q g Hg Hid. apply (Hr q g); auto.
  assert (q ∈ concat bs) as Hq by (apply Hdom; eauto).
  destruct (concat_elem_bucket _ _ Hq) as (i & k & Hk & Hqk).
  assert (Z.of_nat i = hash_page_id n (table_size c)) as Hi.
  { rewrite <- Hid. apply (ti_bucket _ _ _ _ Ht i k q (hlinks g)); auto.
    by rewrite lookup_fmap, Hg. }
  rewrite <- Hi, Nat2Z.id in Hl. by simplify_eq.
Qed.

Lemma cache_inv_ptr c p : cache_inv c -> is_Some (heap c !! p) -> p <> NULL.
Proof. intros Hc Hp. pose proof (proj2 (ci_fresh c Hc) p Hp). lia. Qed.

(** Storing fields of a live page other than its links and id. *)
Lemma store_page_inv c p g f :
  cache_inv c -> heap c !! p = Some g -> hlinks (f g) = hlinks g ->
  lru_next (f g) = lru_next g -> lru_prev (f g) = lru_prev g -> page_ok (f g) ->
  exists c', store c p f = Done c' /\ cache_inv c' /\ same_table c c' /\
    heap c' = <[p := f g]> (heap c).
Proof.
  intros Hc Hg Hh Hn Hp Hok. rewrite (store_Some c p g f Hg).
  eexists. split; [done|]. split_and!; try done.
  apply (cache_inv_update c); csimpl; auto.
  - done.
  - by apply (fmap_store _ _ _ g).
  - by apply (lru_closed_store c p g); [apply Hc|..].
  - intros q gq. destruct (decide (p = q)) as [->|Hne].
    + rewrite lookup_insert_eq. by intros [= <-].
    + rewrite lookup_insert_ne by done. apply Hc.
Qed.

Lemma cache_hit_spec c p g :
  cache_inv c -> heap c !! p = Some g ->
  exists c', cache_hit c p = Done (Some p, c') /\ cache_inv c' /\ same_table c c' /\
    content <$> heap c' = content <$> heap c.
Proof.
  intros Hc Hg. unfold cache_hit.
  set (c0 := set_counts c (count c) (hit_count c + 1) (miss_count c) (pin_count c) (evict_count c)).
  assert (cache_inv c0) as Hc0.
  { apply (cache_inv_content c); try done. by apply (lru_closed_same c); [apply Hc|..]. }
  destruct (lru_mru_closed c0 p) as (c1 & -> & Hc1 & Hs1 & He1); try apply Hc0.
  { eapply cache_inv_ptr; eauto. } { by exists g. }
  csimpl. assert (cache_inv c1) as Hci1.
  { apply (cache_inv_content c0); auto using hlinks_erase_lru, content_erase_lru. }
  assert (is_Some (heap c1 !! p)) as [g1 Hg1].
  { apply (fmap_eq_dom erase_lru (heap c0)); [done|]. by exists g. }
  rewrite (deref_Some c1 p g1 Hg1). csimpl.
  destruct (store_page_inv c1 p g1 (with_refcount (refcount g1 + 1)))
    as (c2 & -> & Hc2 & Hs2 & Hh2); auto.
  { apply (ci_pages c1 Hci1 p g1 Hg1). }
  csimpl. eexists. split; [done|]. split_and!.
  - apply (cache_inv_content c2); try done. by apply (lru_closed_same c2); [apply Hc2|..].
  - unfold same_table in *. subst c0. csimpl. csimpl_in Hs1. intuition congruence.
  - csimpl. rewrite Hh2, (fmap_store _ _ _ g1) by done. by apply content_erase_lru in He1.
Qed.

Lemma table_inv_ext v v' pgs tsize bs :
  (forall q, q ∈ concat bs -> v' !! q = v !! q) ->
  table_inv v pgs tsize bs -> table_inv v' pgs tsize bs.
Proof.
  intros Hv [Hpow Hlen Hch Hnd Hbk]. constructor; auto.
  - apply Forall2_same_length_lookup. split; [by eapply Forall2_length|].
    intros i x l Hx Hl. apply (hchain_ext v); [|by eapply Forall2_lookup_lr].
    intros q Hq. apply Hv. by eapply elem_of_concat_bucket.
  - intros i l q x Hl Hq Hx. rewrite Hv in Hx by (by eapply elem_of_concat_bucket). eauto.
Qed.

(** A freshly allocated page has no links. *)
Lemma lru_closed_new c p g n :
  lru_closed c -> lru_next g = NULL -> lru_prev g = NULL ->
  lru_closed (set_fresh (set_heap c (<[p := g]> (heap c))) n).
Proof.
  intros [H1 H2] Hn Hp.
  assert (forall q, in_heap (heap c) q -> in_heap (<[p := g]> (heap c)) q) as Hm.
  { intros q [->|Hq]; [by left|right]. rewrite lookup_insert_is_Some'. by right. }
  constructor; csimpl; [auto|]. intros q gq. destruct (decide (p = q)) as [->|Hne].
  - rewrite lookup_insert_eq. intros [= <-]. rewrite Hn, Hp. by split; left.
  - rewrite lookup_insert_ne by done. intros Hq. destruct (H2 q gq Hq). auto.
Qed.

Lemma lru_closed_hash c c' :
  lru_closed c -> erase_hash <$> heap c' = erase_hash <$> heap c ->
  lru_head c' = lru_head c -> lru_closed c'.
Proof.
  intros [H1 H2] He Hh.
  assert (forall q, in_heap (heap c) q -> in_heap (heap c') q) as Hm.
  { intros q [->|Hq]; [by left|right]. by apply (fmap_eq_dom erase_hash _ _ q He). }
  constructor; [rewrite Hh; auto|]. intros p g Hg.
  destruct (fmap_eq_lookup erase_hash _ _ _ _ He Hg) as (g0 & Hg0 & E).
  destruct (H2 p g0 Hg0). unfold erase_hash, with_hash_next, with_hash_prev in E.
  injection E as _ _ _ _ _ <- <-. auto.
Qed.

(** The invariant after a page with a new id joined the table. *)
Lemma cache_inv_added c p g pgr c' bs :
  cache_inv c -> pager c = Some pgr -> 0 < id g < page_count pgr -> page_ok g ->
  (forall q g', heap c !! q = Some g' -> id g' <> id g) -> fresh c = p ->
  lru_closed c' -> content <$> heap c' = <[p := content g]> (content <$> heap c) ->
  table_inv (hlinks <$> heap c') (pages c') (table_size c') bs ->
  count c' = len (concat bs) -> (forall q, is_Some (heap c' !! q) <-> q ∈ concat bs) ->
  fresh c' = p + 1 -> pager c' = pager c -> 0 <= count c' <= max_pages c' ->
  cache_inv c'.
Proof.
  intros Hc Hpg Hid Hok Hnew Hfr Hl Hcont Ht Hcnt Hdom Hfr' Hpg' Hmax.
  assert (forall q gq, heap c' !! q = Some gq ->
    (q = p /\ content gq = content g) \/
    exists g0, heap c !! q = Some g0 /\ content gq = content g0) as Hlook.
  { intros q gq Hq. assert ((content <$> heap c') !! q = Some (content gq)) as E
      by (by rewrite lookup_fmap, Hq).
    rewrite Hcont in E. destruct (decide (p = q)) as [->|Hne].
    - rewrite lookup_insert_eq in E. left. split; congruence.
    - rewrite lookup_insert_ne, lookup_fmap in E by done.
      destruct (heap c !! q) as [g0|]; simpl in E; [|done]. right. exists g0. split; congruence. }
  constructor; auto.
  - by exists bs.
  - intros q r gq gr Hq Hr He.
    destruct (Hlook q gq Hq) as [[-> Eq]|(g0 & Hg0 & Eq)],
      (Hlook r gr Hr) as [[-> Er]|(g1 & Hg1 & Er)]; auto;
      injection Eq as Eq _ _; injection Er as Er _ _.
    + destruct (Hnew r g1 Hg1). congruence.
    + destruct (Hnew q g0 Hg0). congruence.
    + apply (ci_ids c Hc q r g0 g1); congruence.
  - destruct (ci_fresh c Hc) as [Hf0 Hf]. rewrite Hfr'. split; [lia|].
    intros q [gq Hq]. destruct (Hlook q gq Hq) as [[-> _]|(g0 & Hg0 & _)]; [lia|].
    specialize (Hf q ltac:(eauto)). lia.
  - intros q gq Hq. unfold page_ok.
    destruct (Hlook q gq Hq) as [[_ E]|(g0 & Hg0 & E)]; injection E as _ -> _; [apply Hok|].
    apply (ci_pages c Hc q g0 Hg0).
  - destruct (ci_pager c Hc) as (pgr' & Hp' & Hwf & Hr). simplify_eq. exists pgr.
    split_and!; auto; [congruence|]. intros q gq Hq.
    destruct (Hlook q gq Hq) as [[_ E]|(g0 & Hg0 & E)]; injection E as -> _ _; [done|].
    by apply (Hr q).
Qed.

(** The page just read joins the table: the steps of [page_cache_get] after a
    successful read. *)
Lemma cache_add_spec c p g pgr :
  cache_inv c -> pager c = Some pgr -> 0 < id g < page_count pgr -> page_ok g ->
  (forall q g', heap c !! q = Some g' -> id g' <> id g) ->
  lru_next g = NULL -> lru_prev g = NULL -> fresh c = p -> count c < max_pages c ->
  let c0 := set_fresh (set_heap c (<[p := g]> (heap c))) (p + 1) in
  exists c1 c2, hash_insert c0 p = Done c1 /\ lru_add_front c1 p = Done c2 /\
    let c3 := set_counts c2 (count c2 + 1) (hit_count c2) (miss_count c2) (pin_count c2)
                (evict_count c2) in
    cache_inv c3 /\ content <$> heap c3 = <[p := content g]> (content <$> heap c) /\
    pager c3 = pager c /\ count c3 = count c + 1 /\ max_pages c3 = max_pages c.
Proof.
  intros Hc Hpg Hid Hok Hnew Hn Hp Hfr Hcnt c0.
  destruct (ci_table c Hc) as (bs & Ht & Hdom & Hcount).
  destruct (ci_fresh c Hc) as [Hf0 Hf].
  assert (heap c !! p = None) as Hpn.
  { apply eq_None_not_Some. intros Hs. specialize (Hf p Hs). lia. }
  assert (p ∉ concat bs) as Hnin by (intros Hin; apply Hdom in Hin; rewrite Hpn in Hin; by destruct Hin).
  assert (table_inv (hlinks <$> heap c0) (pages c0) (table_size c0) bs) as Ht0.
  { subst c0. csimpl. apply (table_inv_ext (hlinks <$> heap c)); [|done].
    intros q Hq. rewrite !lookup_fmap, lookup_insert_ne; [done|]. by intros ->. }
  destruct (hash_insert_table c0 p g bs Ht0) as (l & h1 & Hl & E1 & Ht1 & He1); auto.
  { apply lookup_insert_eq. } { lia. }
  assert (forall q, is_Some (h1 !! q) <-> q = p \/ is_Some (heap c !! q)) as Hdom1.
  { intros q. rewrite (fmap_eq_dom erase_hash _ _ q He1). subst c0. csimpl.
    rewrite lookup_insert_is_Some. destruct (decide (p = q)); naive_solver. }
  set (i := Z.to_nat (hash_page_id (id g) (table_size c0))) in *. clearbody i.
  set (c1 := set_pages (set_heap c0 h1) (<[i := p]> (pages c0))) in E1.
  assert (lru_closed c1) as Hlc1.
  { apply (lru_closed_hash c0 c1); [|done..]. by apply lru_closed_new; [apply Hc|..]. }
  destruct (lru_add_front_closed c1 p) as (c2 & E2 & Hlc2 & (S1 & S2 & S3 & S4 & S5 & S6) & He2);
    [done|lia|by apply Hdom1; left|].
  exists c1, c2. split; [done|]. split; [done|]. intros c3.
  assert (content <$> heap c3 = <[p := content g]> (content <$> heap c)) as Hcont.
  { subst c3. csimpl. rewrite (content_erase_lru _ _ He2). subst c1. csimpl.
    rewrite (content_erase_hash _ _ He1). subst c0. csimpl. by rewrite fmap_insert. }
  split_and!; auto; subst c3; csimpl; rewrite ?S3, ?S4, ?S5; try done.
  apply (cache_inv_added c p g pgr _ (<[i := p :: l]> bs)); auto; csimpl.
  - by apply (lru_closed_same c2).
  - rewrite S1, S2, (hlinks_erase_lru _ _ He2). exact Ht1.
  - rewrite (concat_insert_perm _ _ _ _ Hl). cbn [length]. lia.
  - intros q. rewrite (concat_insert_perm _ _ _ _ Hl), elem_of_cons, <- Hdom.
    rewrite (fmap_eq_dom erase_lru _ _ q He2). subst c1. csimpl. apply Hdom1.
  - rewrite S4. subst c1 c0. csimpl. pose proof (ci_count c Hc). lia.
Qed.

(** ** What a client reads: the cached copy, else the page on disk *)

Definition disk (c : PageCache) : list Z :=
  match pager c with Some pgr => f_bytes (fd pgr) | None => [] end.

Abbreviation contents c := (content <$> heap c).

Definition cached (c : PageCache) (n : Z) : Prop :=
  exists p d b, contents c !! p = Some (n, d, b).

Definition on_disk (c : PageCache) (n : Z) (d : list Z) : Prop :=
  0 < n /\ (n + 1) * PAGE_SIZE <= len (disk c) /\ d = page_bytes n (disk c).

Definition view (c : PageCache) (n : Z) (d : list Z) : Prop :=
  (exists p b, contents c !! p = Some (n, d, b)) \/ (~ cached c n /\ on_disk c n d).

(** [page_cache_get] needs no eviction: the page is cached or there is room. *)
Definition cache_room (c : PageCache) (n : Z) : Prop :=
  count c < max_pages c \/ cached c n.

(** The parts of the pager that a read leaves alone. *)
Definition same_pager (p p' : Pager) : Prop :=
  f_bytes (fd p') = f_bytes (fd p) /\ page_count p' = page_count p /\
  first_free_page p' = first_free_page p /\ free_page_count p' = free_page_count p.

Lemma contents_lookup c p g :
  heap c !! p = Some g -> contents c !! p = Some (id g, data g, is_dirty g).
Proof. intros H. by rewrite lookup_fmap, H. Qed.

Lemma contents_inv c p n d b :
  contents c !! p = Some (n, d, b) ->
  exists g, heap c !! p = Some g /\ id g = n /\ data g = d /\ is_dirty g = b.
Proof.
  rewrite lookup_fmap. destruct (heap c !! p) as [g|]; simpl; [|done].
  intros [= <- <- <-]. eauto.
Qed.

Lemma hash_find_cached fuel c n :
  cache_inv c -> (Z.to_nat (max_pages c) < fuel)%nat ->
  (hash_find fuel c n = Done NULL /\ ~ cached c n) \/
  exists p g, hash_find fuel c n = Done p /\ p <> NULL /\ heap c !! p = Some g /\ id g = n.
Proof.
  intros Hc Hf. destruct (hash_find_spec fuel c n Hc) as (r & E & [[-> Hr]|(Hr & g & Hg & Hi)]).
  { pose proof (ci_count c Hc). lia. }
  - left. split; [done|]. intros (p & d & b & (g & Hg & Hi & _)%contents_inv).
    by apply (Hr p g).
  - right. eauto 10.
Qed.

Lemma cache_inv_counts c h m pn e :
  cache_inv c -> cache_inv (set_counts c (count c) h m pn e).
Proof.
  intros Hc. apply (cache_inv_content c); try done.
  by apply (lru_closed_same c); [apply Hc|..].
Qed.

(** Replacing the pager by one that sees the same database. *)
Lemma cache_inv_pager c pgr pgr' :
  cache_inv c -> pager c = Some pgr -> pager_wf pgr' -> page_count pgr' = page_count pgr ->
  cache_inv (set_pager c (Some pgr')).
Proof.
  intros [Ht Hi Hf Hl Hok (q & Hq & Hwf & Hr) Hm] Hp Hwf' Hcnt. simplify_eq.
  constructor; auto.
  - by apply (lru_closed_same c).
  - exists pgr'. rewrite Hcnt. auto.
Qed.

Lemma page_bytes_ok n b :
  Forall is_byte b -> 0 <= n -> (n + 1) * PAGE_SIZE <= len b ->
  len (page_bytes n b) = PAGE_SIZE /\ Forall is_byte (page_bytes n b).
Proof.
  intros Hb Hn Hl. pose proof (page_off_nonneg n). unfold page_bytes. split.
  - unfold PAGE_SIZE in *. rewrite length_slice by lia. lia.
  - by apply Forall_slice.
Qed.

(** Loading a page that is not cached, with room for it, adds a clean entry
    holding what is on disk. *)
Lemma load_page_spec c n pgr :
  cache_inv c -> pager c = Some pgr -> ~ cached c n -> count c < max_pages c -> 0 < n ->
  (n + 1) * PAGE_SIZE <= len (f_bytes (fd pgr)) ->
  exists p c' pgr', load_page c n = Done (Some p, c') /\ cache_inv c' /\
    contents c !! p = None /\
    contents c' = <[p := (n, page_bytes n (f_bytes (fd pgr)), false)]> (contents c) /\
    max_pages c' = max_pages c /\ pager c' = Some pgr' /\ same_pager pgr pgr'.
Proof.
  intros Hc Hp Hn Hroom Hn0 Hl. unfold load_page, page_alloc.
  generalize (replicate (Z.to_nat PAGE_SIZE) 0). intros zeros. csimpl. rewrite Hp.
  destruct (ci_pager c Hc) as (? & ? & Hwf & Hids). simplify_eq.
  destruct (pager_read_page_ok pgr n) as (pgr' & -> & Hwf' & Hs1 & Hs2 & Hs3 & Hs4); auto; [lia|].
  destruct (page_bytes_ok n (f_bytes (fd pgr))) as [Hdl Hdb]; [apply Hwf|lia|done|].
  generalize dependent (page_bytes n (f_bytes (fd pgr))). intros dta Hdl Hdb.
  rewrite bind_Done. erewrite store_Some by (csimpl; apply lookup_insert_eq). rewrite bind_Done.
  set (c2 := set_pager c (Some pgr')).
  assert (cache_inv c2) as Hc2 by (by apply (cache_inv_pager c pgr)).
  set (g := mkPage dta n 0 false false NULL NULL NULL NULL).
  assert (0 < n < page_count pgr') as Hnr.
  { rewrite Hs2. pose proof (wf_length pgr Hwf). unfold PAGE_SIZE in *. lia. }
  assert (forall q g', heap c !! q = Some g' -> id g' <> n) as Hnew.
  { intros q gq Hgq Hi. destruct Hn. exists q, (data gq), (is_dirty gq).
    rewrite (contents_lookup c _ _ Hgq). by rewrite Hi. }
  destruct (cache_add_spec c2 (fresh c) g pgr' Hc2 eq_refl Hnr (conj Hdl Hdb) Hnew
    eq_refl eq_refl eq_refl Hroom) as (c3 & c4 & E3 & E4 & Hc4 & Hcon & Hpg & Hcnt & Hmx).
  match type of E3 with hash_insert ?x _ = _ =>
    match goal with |- context [hash_insert ?y _] =>
      replace y with x by (subst c2 g; csimpl; by rewrite insert_insert_eq) end end.
  rewrite E3, bind_Done, E4, bind_Done.
  set (c5 := set_counts c4 (count c4 + 1) (hit_count c4) (miss_count c4) (pin_count c4) (evict_count c4)) in *.
  assert (contents c5 !! fresh c = Some (n, dta, false)) as Hlk
    by (rewrite Hcon; apply lookup_insert_eq).
  destruct (contents_inv _ _ _ _ _ Hlk) as (g5 & Hg5 & Hi5 & Hd5 & Hb5).
  destruct (store_page_inv c5 (fresh c) g5 (with_refcount 1)) as (c6 & E6 & Hc6 & (?&?&?&?&?&?) & Hh6);
    auto.
  { apply (ci_pages c5 Hc4 _ _ Hg5). }
  rewrite E6, bind_Done. eexists _, _, pgr'. split; [done|].
  split_and!; csimpl.
  - by apply cache_inv_counts.
  - rewrite lookup_fmap. destruct (heap c !! fresh c) eqn:Hx; [|done].
    destruct (ci_fresh c Hc) as [_ Hfr]. specialize (Hfr (fresh c) ltac:(eauto)). lia.
  - rewrite Hh6, (fmap_store _ _ _ g5) by done. apply Hcon.
  - transitivity (max_pages c5); [done|]. exact Hmx.
  - transitivity (pager c5); [done|]. exact Hpg.
  - done.
Qed.

Lemma cached_contents c c' n : contents c' = contents c -> cached c' n <-> cached c n.
Proof. intros E. unfold cached. by rewrite E. Qed.

Lemma view_ext c c' n d :
  contents c' = contents c -> disk c' = disk c -> view c' n d <-> view c n d.
Proof. intros E D. unfold view, on_disk. rewrite (cached_contents c c' n E). by rewrite E, D. Qed.

Lemma view_cached c p n d b : contents c !! p = Some (n, d, b) -> view c n d.
Proof. intros H. left. eauto. Qed.

(** The cached copy is unique. *)
Lemma contents_unique c p q n d e b b' :
  cache_inv c -> contents c !! p = Some (n, d, b) -> contents c !! q = Some (n, e, b') ->
  p = q /\ d = e.
Proof.
  intros Hc Hp Hq. destruct (contents_inv _ _ _ _ _ Hp) as (g & Hg & Hi & Hd & _).
  destruct (contents_inv _ _ _ _ _ Hq) as (g' & Hg' & Hi' & Hd' & _).
  assert (p = q) as -> by (apply (ci_ids c Hc p q g g'); congruence). split; congruence.
Qed.

Lemma view_of_cached c p n d e b :
  cache_inv c -> contents c !! p = Some (n, d, b) -> view c n e -> d = e.
Proof.
  intros Hc Hp [(q & b' & Hq)|[Hn _]].
  - by eapply contents_unique.
  - destruct Hn. exists p, d, b. done.
Qed.

(** A clean entry read from disk is invisible to clients. *)
Lemma view_load c c' p n :
  contents c !! p = None -> ~ cached c n -> 0 < n -> (n + 1) * PAGE_SIZE <= len (disk c) ->
  contents c' = <[p := (n, page_bytes n (disk c), false)]> (contents c) ->
  disk c' = disk c -> forall m e, view c' m e <-> view c m e.
Proof.
  intros Hp Hn Hn0 Hl E D m e. unfold view, on_disk, cached. rewrite E, D.
  destruct (decide (m = n)) as [->|Hne].
  - split.
    + intros [(q & b & Hq)|[Hc _]].
      * destruct (decide (p = q)) as [->|Hq']; [rewrite lookup_insert_eq in Hq|
          rewrite lookup_insert_ne in Hq by done].
        -- simplify_eq. right. done.
        -- left. eauto.
      * destruct Hc. exists p, (page_bytes n (disk c)), false. apply lookup_insert_eq.
    + intros [(q & b & Hq)|[_ (_ & _ & ->)]].
      * destruct Hn. by exists q, e, b.
      * left. exists p, false. apply lookup_insert_eq.
  - assert (forall q e' b, (<[p:=(n, page_bytes n (disk c), false)]> (contents c) : gmap Z _) !! q
       = Some (m, e', b) <-> contents c !! q = Some (m, e', b)) as Hq.
    { intros q e' b. destruct (decide (p = q)) as [->|Hq'].
      - rewrite lookup_insert_eq, Hp. split; intros; simplify_eq.
      - by rewrite lookup_insert_ne. }
    setoid_rewrite Hq. done.
Qed.

(** Clean pages agree with the disk, except the page at [o]. *)
Definition synced (o : ptr) (c : PageCache) : Prop :=
  forall p n d, p <> o -> contents c !! p = Some (n, d, false) -> on_disk c n d.

(** [page_cache_get] without eviction: it returns the page, pins it in the cache
    and changes nothing a client can read. *)
Lemma page_cache_get_spec fuel c n d pgr :
  cache_inv c -> (Z.to_nat (max_pages c) < fuel)%nat -> cache_room c n -> view c n d ->
  pager c = Some pgr ->
  exists p b c' pgr', page_cache_get fuel c n = Done (Some p, c') /\ cache_inv c' /\
    contents c' !! p = Some (n, d, b) /\ (forall m e, view c' m e <-> view c m e) /\
    max_pages c' = max_pages c /\ pager c' = Some pgr' /\ same_pager pgr pgr' /\
    (forall q x, contents c !! q = Some x -> contents c' !! q = Some x) /\
    (synced NULL c -> synced NULL c').
Proof.
  intros Hc Hf Hroom Hv Hp. assert (disk c = f_bytes (fd pgr)) as Hdk by (unfold disk; by rewrite Hp).
  unfold page_cache_get. destruct (hash_find_cached fuel c n Hc Hf) as [[-> Hn]|(q & g & -> & Hq & Hg & Hi)].
  - rewrite bind_Done. change (negb (NULL =? NULL)) with false. cbv iota.
    set (c1 := set_counts c _ _ _ _ _). assert (cache_inv c1) as Hc1 by by apply cache_inv_counts.
    change (pager c1) with (pager c). rewrite Hp.
    destruct Hroom as [Hroom|?]; [|done].
    destruct Hv as [(p & b & Hb)|[_ (Hn0 & Hl & ->)]]; [destruct Hn; by exists p, d, b|].
    destruct (hash_find_cached fuel c1 n Hc1 Hf) as [[-> _]|(q & g & _ & _ & Hg & Hi)].
    2: { destruct Hn. exists q, (data g), (is_dirty g). rewrite (contents_lookup c _ _ Hg). by rewrite Hi. }
    rewrite bind_Done. change (negb (NULL =? NULL)) with false. cbv iota.
    assert (evict_while_full fuel c1 = Done (0, c1)) as ->.
    { destruct fuel; [lia|]. cbn [evict_while_full]. change (count c1) with (count c).
      change (max_pages c1) with (max_pages c). by rewrite (proj2 (Z.ltb_lt _ _) Hroom). }
    rewrite bind_Done. change (0 <? 0) with false. cbv iota.
    destruct (load_page_spec c1 n pgr) as (p & c' & pgr' & E & Hc' & Hnew & Hcon & Hmx & Hpg & Hsm); auto.
    { by rewrite <- Hdk. }
    rewrite E. assert (disk c' = disk c) as Hdk'.
    { unfold disk at 1. rewrite Hpg, Hdk. by destruct Hsm as [? _]. }
    change (contents c1) with (contents c) in *. rewrite <- Hdk in Hcon.
    exists p, false, c', pgr'. split_and!; auto.
    + rewrite Hcon. apply lookup_insert_eq.
    + by apply (view_load c c' p n).
    + intros q x Hx. rewrite Hcon, lookup_insert_ne; [done|]. intros ->. congruence.
    + intros Hs q m e Hq. rewrite Hcon. destruct (decide (p = q)) as [->|Hne].
      * rewrite lookup_insert_eq. intros. simplify_eq. unfold on_disk. by rewrite Hdk'.
      * rewrite lookup_insert_ne by done. intros Hx. unfold on_disk. rewrite Hdk'. by apply (Hs q).
  - rewrite bind_Done. destruct (Z.eqb_spec q NULL); [done|]. cbn [negb].
    destruct (cache_hit_spec c q g Hc Hg) as (c' & -> & Hc' & (?&?&?&?&Hpg&?) & Hcon).
    pose proof (contents_lookup c q g Hg) as Hlk. rewrite Hi in Hlk.
    assert (disk c' = disk c) as Hdk' by (unfold disk; by rewrite Hpg).
    rewrite (view_of_cached c q n _ d _ Hc Hlk Hv) in Hlk.
    exists q, (is_dirty g), c', pgr. split_and!; auto; try congruence.
    + intros m e. by apply view_ext.
    + done.
    + intros Hs r m e Hr. rewrite Hcon. unfold on_disk. rewrite Hdk'. by apply (Hs r).
Qed.


(** The assignment [page->data[..] = ..] made by the clients of the cache. *)
Definition page_set_data (c : PageCache) (p : ptr) (d : list Z) : outcome PageCache :=
  store c p (with_data d).

Definition page_data (c : PageCache) (p : ptr) : outcome (list Z) :=
  let* g := deref c p in Done (data g).

Lemma page_data_spec c p n d b :
  contents c !! p = Some (n, d, b) -> page_data c p = Done d.
Proof.
  intros (g & Hg & _ & <- & _)%contents_inv. unfold page_data. by rewrite (deref_Some _ _ _ Hg).
Qed.

(** The effect of storing to one page on what clients read. *)
Lemma view_store c c' p n d b d' b' :
  cache_inv c -> contents c !! p = Some (n, d, b) ->
  contents c' = <[p := (n, d', b')]> (contents c) -> disk c' = disk c ->
  view c' n d' /\ forall m e, m <> n -> view c' m e <-> view c m e.
Proof.
  intros Hc Hp E D. split.
  { apply (view_cached c' p n d' b'). rewrite E. apply lookup_insert_eq. }
  intros m e Hm. assert (forall q e b0, contents c' !! q = Some (m, e, b0) <->
    contents c !! q = Some (m, e, b0)) as Hq.
  { intros q e' b0. rewrite E. destruct (decide (p = q)) as [->|Hne].
    - rewrite lookup_insert_eq, Hp. split; intros; simplify_eq.
    - by rewrite lookup_insert_ne. }
  unfold view, on_disk, cached. setoid_rewrite Hq. by rewrite D.
Qed.

Lemma page_set_data_spec c p n d b d' :
  cache_inv c -> contents c !! p = Some (n, d, b) -> len d' = PAGE_SIZE -> Forall is_byte d' ->
  exists c', page_set_data c p d' = Done c' /\ cache_inv c' /\ same_table c c' /\
    contents c' = <[p := (n, d', b)]> (contents c) /\ (synced NULL c \/ synced p c -> synced p c').
Proof.
  intros Hc Hp Hl Hd. destruct (contents_inv _ _ _ _ _ Hp) as (g & Hg & <- & <- & <-).
  destruct (store_page_inv c p g (with_data d')) as (c' & E & Hc' & Hs & Hh); auto.
  { by split. }
  assert (contents c' = <[p := (id g, d', is_dirty g)]> (contents c)) as Hcon
    by (by rewrite Hh, fmap_insert).
  exists c'. split; [exact E|]. split_and!; auto. intros Hy q n e Hq. rewrite Hcon.
  rewrite lookup_insert_ne by done. destruct Hs as (_ & _ & _ & _ & Hs & _).
  unfold on_disk, disk. rewrite Hs. intros Hx. destruct Hy as [Hy|Hy]; [|by apply (Hy q)].
  apply (Hy q); [|done]. apply contents_inv in Hx as (gq & Hgq & _). apply (cache_inv_ptr c); eauto.
Qed.

Lemma page_mark_dirty_spec c p n d b :
  cache_inv c -> contents c !! p = Some (n, d, b) ->
  exists c', page_mark_dirty c p = Done c' /\ cache_inv c' /\ same_table c c' /\
    contents c' = <[p := (n, d, true)]> (contents c) /\ (synced p c -> synced NULL c').
Proof.
  intros Hc Hp. destruct (contents_inv _ _ _ _ _ Hp) as (g & Hg & <- & <- & <-).
  unfold page_mark_dirty. destruct (Z.eqb_spec p NULL).
  { destruct (cache_inv_ptr c p Hc); eauto. }
  destruct (store_page_inv c p g (with_dirty true)) as (c' & E & Hc' & Hs & Hh); auto.
  { apply (ci_pages c Hc p g Hg). }
  assert (contents c' = <[p := (id g, data g, true)]> (contents c)) as Hcon
    by (by rewrite Hh, fmap_insert).
  exists c'. split_and!; auto. intros Hy q m e Hq. rewrite Hcon.
  destruct (decide (p = q)) as [->|Hne]; [by rewrite lookup_insert_eq|].
  rewrite lookup_insert_ne by done. destruct Hs as (_ & _ & _ & _ & Hs & _).
  unfold on_disk, disk. rewrite Hs. intros Hx. apply (Hy q); auto.
Qed.

Lemma page_unpin_spec c p n d b :
  cache_inv c -> contents c !! p = Some (n, d, b) ->
  exists c', page_unpin c p = Done c' /\ cache_inv c' /\ same_table c c' /\
    contents c' = contents c.
Proof.
  intros Hc Hp. destruct (contents_inv _ _ _ _ _ Hp) as (g & Hg & <- & <- & <-).
  unfold page_unpin. destruct (Z.eqb_spec p NULL).
  { destruct (cache_inv_ptr c p Hc); eauto. }
  rewrite (deref_Some c p g Hg), bind_Done.
  destruct (0 <? refcount g); [|exists c; auto with tinydb].
  destruct (store_page_inv c p g (with_refcount (refcount g - 1))) as (c' & E & Hc' & Hs & Hh); auto.
  { apply (ci_pages c Hc p g Hg). }
  exists c'. split_and!; auto. rewrite Hh. by apply (fmap_store _ _ _ g).
Qed.

(** ** Flushing *)

Definition dirty_count (c : PageCache) : Z :=
  Z.of_nat (size (filter (fun '(_, (_, _, b)) => b = true) (contents c))).

Lemma dirty_count_clean c p n d :
  contents c !! p = Some (n, d, true) ->
  forall c', contents c' = <[p := (n, d, false)]> (contents c) ->
  dirty_count c' + 1 = dirty_count c.
Proof.
  intros Hp c' E. unfold dirty_count. rewrite E, map_filter_insert_False by (by simpl).
  rewrite map_filter_delete. set (m := filter _ (contents c)).
  assert (m !! p = Some (n, d, true)) as Hm by (by apply map_lookup_filter_Some).
  rewrite <- (insert_delete_id m p _ Hm) at 2. rewrite map_size_insert_None; [lia|].
  apply lookup_delete_eq.
Qed.

Lemma on_disk_write c pgr pgr' c' n d :
  pager c = Some pgr -> pager c' = Some pgr' -> 0 < n -> len d = PAGE_SIZE ->
  f_bytes (fd pgr') = write_at (page_off n) d (f_bytes (fd pgr)) ->
  on_disk c' n d /\ forall m e, m <> n -> on_disk c m e -> on_disk c' m e.
Proof.
  intros Hp Hp' Hn Hl Hb. unfold on_disk, disk. rewrite Hp, Hp', Hb, length_write_at.
  pose proof (page_off_nonneg n). unfold PAGE_SIZE in *. split.
  - rewrite page_bytes_write_at_eq by done. split_and!; auto; lia.
  - intros m e Hm (Hm0 & Hml & ->).
    rewrite page_bytes_write_at_ne by (unfold PAGE_SIZE; lia). split_and!; auto; lia.
Qed.

(** The disk can only gain pages, and the pages a client reads stay readable. *)
Lemma view_written c c' p n d b b' :
  cache_inv c -> contents c !! p = Some (n, d, b) -> 
  contents c' = <[p := (n, d, b')]> (contents c) ->
  (forall m e, m <> n -> on_disk c m e -> on_disk c' m e) ->
  forall m e, view c m e -> view c' m e.
Proof.
  intros Hc Hp E D m e Hv. destruct (decide (m = n)) as [->|Hm].
  - rewrite <- (view_of_cached c p n d e b Hc Hp Hv).
    apply (view_cached c' p n d b'). rewrite E. apply lookup_insert_eq.
  - assert (forall q e b0, contents c' !! q = Some (m, e, b0) <->
      contents c !! q = Some (m, e, b0)) as Hq.
    { intros q e' b0. rewrite E. destruct (decide (p = q)) as [->|Hne].
      - rewrite lookup_insert_eq, Hp. split; intros; simplify_eq.
      - by rewrite lookup_insert_ne. }
    destruct Hv as [(q & b0 & Hx)|[Hn Hd]].
    + left. exists q, b0. by apply Hq.
    + right. split; [|auto]. intros (q & e' & b0 & Hx). apply Hn. exists q, e', b0. by apply Hq.
Qed.

(** What flushing preserves: the table, the counts, what clients read. *)
Record flushed (c c' : PageCache) : Prop := {
  fl_inv : cache_inv c';
  fl_links : hlinks <$> heap c' = hlinks <$> heap c;
  fl_table : pages c' = pages c;
  fl_max : max_pages c' = max_pages c;
  fl_pages : option_map page_count (pager c') = option_map page_count (pager c);
  fl_synced : synced NULL c';
  fl_view : forall m e, view c m e -> view c' m e;
  fl_dirty : forall p n d b, contents c !! p = Some (n, d, b) ->
    exists b', contents c' !! p = Some (n, d, b') /\ (b' = true -> b = true) }.

Lemma flushed_refl c : cache_inv c -> synced NULL c -> flushed c c.
Proof. intros. constructor; auto. intros. eauto. Qed.

Lemma flushed_trans a b c : flushed a b -> flushed b c -> flushed a c.
Proof.
  intros [] []. constructor; auto; try congruence.
  intros p n d x Hx. destruct (fl_dirty0 p n d x Hx) as (y & Hy & ?).
  destruct (fl_dirty1 p n d y Hy) as (z & Hz & ?). exists z. auto.
Qed.

(** Writing back one dirty page. *)
Lemma flush_one c p g pgr :
  cache_inv c -> synced NULL c -> heap c !! p = Some g -> pager c = Some pgr ->
  is_dirty g = true ->
  exists pgr' c', pager_write_page pgr (id g) (data g) = Done (0, pgr') /\
    store (set_pager c (Some pgr')) p (with_dirty false) = Done c' /\
    flushed c c' /\ contents c' !! p = Some (id g, data g, false) /\
    dirty_count c' + 1 = dirty_count c.
Proof.
  intros Hc Hs Hg Hp Hd. destruct (ci_pager c Hc) as (? & ? & Hwf & Hr). simplify_eq.
  destruct (ci_pages c Hc p g Hg) as [Hl Hb]. specialize (Hr p g Hg).
  destruct (pager_write_page_ok pgr (id g) (data g)) as (pgr' & E & Hwf' & Hby & Hpc & _); auto.
  assert (cache_inv (set_pager c (Some pgr'))) as Hc1 by by apply (cache_inv_pager c pgr).
  destruct (store_page_inv (set_pager c (Some pgr')) p g (with_dirty false))
    as (c' & E' & Hc' & (T1 & T2 & T3 & T4 & T5 & T6) & Hh); auto.
  { by split. }
  csimpl_in Hh. csimpl_in T1. csimpl_in T4. csimpl_in T5.
  pose proof (contents_lookup c p g Hg) as Hlk. rewrite Hd in Hlk.
  assert (contents c' = <[p := (id g, data g, false)]> (contents c)) as Hcon
    by (by rewrite Hh, fmap_insert).
  destruct (on_disk_write c pgr pgr' c' (id g) (data g)) as [Hd1 Hd2]; auto; [lia|].
  exists pgr', c'. split_and!; auto.
  - constructor; auto.
    + rewrite Hh. by apply (fmap_store _ _ _ g).
    + rewrite T5, Hp. simpl. by rewrite Hpc.
    + intros q m e Hq. rewrite Hcon. destruct (decide (p = q)) as [->|Hne].
      * rewrite lookup_insert_eq. intros. by simplify_eq.
      * rewrite lookup_insert_ne by done. intros Hx. apply Hd2; [|by apply (Hs q)].
        intros ->. apply Hne. by destruct (contents_unique c p q (id g) (data g) e true false).
    + by apply (view_written c c' p (id g) (data g) true false).
    + intros q m e b Hx. rewrite Hcon. destruct (decide (p = q)) as [->|Hne].
      * rewrite lookup_insert_eq. rewrite Hlk in Hx. simplify_eq. eauto.
      * rewrite lookup_insert_ne by done. eauto.
  - rewrite Hcon. apply lookup_insert_eq.
  - by apply (dirty_count_clean c p (id g) (data g)).
Qed.

Lemma flush_chain_spec fuel c prev p l k :
  cache_inv c -> synced NULL c -> hchain (hlinks <$> heap c) prev p l ->
  (length l < fuel)%nat ->
  exists c', flush_chain fuel c p k = Done (k + dirty_count c - dirty_count c', c') /\
    flushed c c' /\ forall q n d b, q ∈ l -> contents c' !! q = Some (n, d, b) -> b = false.
Proof.
  revert c prev p l k. induction fuel as [|fuel IH]; intros c prev p l k Hc Hs Hch Hf; [lia|].
  cbn [flush_chain]. destruct l as [|q l]; cbn [hchain] in Hch.
  { subst p. exists c. replace (k + _ - _) with k by lia. split_and!; auto using flushed_refl.
    intros ????. by rewrite elem_of_nil. }
  destruct Hch as (-> & Hq & i & nxt & Hv & Hch). destruct (Z.eqb_spec q NULL); [done|].
  rewrite lookup_fmap in Hv. destruct (heap c !! q) as [g|] eqn:Hg; [|done].
  simpl in Hv. unfold hlinks in Hv. simplify_eq.
  rewrite (deref_Some c q g Hg), bind_Done.
  destruct (ci_pager c Hc) as (pgr & Hp & _). rewrite Hp.
  assert (forall c1 g1, flushed c c1 -> heap c1 !! q = Some g1 -> hash_next g1 = hash_next g /\
    hchain (hlinks <$> heap c1) q (hash_next g1) l) as Hnext.
  { intros c1 g1 Hfl Hg1.
    destruct (fmap_eq_lookup hlinks _ _ _ _ (fl_links c c1 Hfl) Hg1) as (g' & Hg' & Eg).
    assert (g' = g) as -> by congruence. unfold hlinks in Eg. injection Eg as _ <- _.
    by rewrite (fl_links c c1 Hfl). }
  simpl in Hf. destruct (is_dirty g) eqn:Hd.
  - destruct (flush_one c q g pgr) as (pgr' & c1 & E1 & E2 & Hfl & Hlk & Hcnt); auto.
    rewrite E1, bind_Done. cbv iota zeta. change (0 =? 0) with true. cbv iota.
    rewrite E2, !bind_Done.
    destruct (contents_inv _ _ _ _ _ Hlk) as (g1 & Hg1 & _).
    rewrite (deref_Some c1 q g1 Hg1), bind_Done.
    destruct (Hnext c1 g1 Hfl Hg1) as [_ Hch1].
    destruct (IH c1 q (hash_next g1) l (k + 1)) as (c2 & E3 & Hfl2 & Hcl); auto;
      [apply Hfl|apply Hfl|lia|].
    exists c2. rewrite E3. split; [f_equal; f_equal; lia|].
    split; [by eapply flushed_trans|]. intros r m d b [->|Hr]%elem_of_cons Hx; [|eauto].
    destruct (fl_dirty c1 c2 Hfl2 _ _ _ _ Hlk) as (b' & Hb' & Himp).
    rewrite Hb' in Hx. simplify_eq. destruct b; [symmetry|]; auto.
  - rewrite !bind_Done, (deref_Some c q g Hg), bind_Done.
    destruct (IH c q (hash_next g) l k) as (c2 & E3 & Hfl2 & Hcl); auto; [lia|].
    exists c2. rewrite E3. split; [done|]. split; [done|].
    intros r n' d b [->|Hr]%elem_of_cons Hx; [|eauto].
    destruct (fl_dirty c c2 Hfl2 _ _ _ _ (contents_lookup c q g Hg)) as (b' & Hb' & Himp).
    rewrite Hb' in Hx. simplify_eq. rewrite Hd in Himp. destruct b; [symmetry|]; auto.
Qed.

Lemma flush_buckets_spec fuel c ps ls k :
  cache_inv c -> synced NULL c -> Forall2 (hchain (hlinks <$> heap c) NULL) ps ls ->
  Forall (fun l => length l < fuel)%nat ls ->
  exists c', flush_buckets fuel c ps k = Done (k + dirty_count c - dirty_count c', c') /\
    flushed c c' /\ forall q n d b, q ∈ concat ls -> contents c' !! q = Some (n, d, b) -> b = false.
Proof.
  intros Hc Hs Hch. revert c k Hc Hs Hch. revert ls.
  induction ps as [|p ps IH]; intros ls c k Hc Hs Hch Hf;
    inversion Hch as [|? l ? ls' Hpl Hch']; subst; cbn [flush_buckets].
  - exists c. replace (k + _ - _) with k by lia. split_and!; auto using flushed_refl.
    intros ????. by rewrite elem_of_nil.
  - apply Forall_cons_iff in Hf as [Hf1 Hf].
    destruct (flush_chain_spec fuel c NULL p l k) as (c1 & E1 & Hfl1 & Hcl1); auto.
    rewrite E1, bind_Done.
    destruct (IH ls' c1 (k + dirty_count c - dirty_count c1)) as (c2 & E2 & Hfl2 & Hcl2);
      [apply Hfl1|apply Hfl1|by rewrite (fl_links c c1 Hfl1)|done|].
    exists c2. rewrite E2. split; [f_equal; f_equal; lia|]. split; [by eapply flushed_trans|].
    intros q n d b [Hq|Hq]%elem_of_app Hx; [|eauto].
    destruct (contents c1 !! q) as [[[n1 d1] b1]|] eqn:H1.
    + destruct (fl_dirty c1 c2 Hfl2 _ _ _ _ H1) as (b2 & H2 & Himp). rewrite H2 in Hx.
      simplify_eq. rewrite (Hcl1 q n d b1 Hq H1) in Himp. destruct b; [symmetry|]; auto.
    + destruct (contents_inv _ _ _ _ _ Hx) as (g & Hg & _).
      destruct (fmap_eq_lookup hlinks _ _ _ _ (fl_links c1 c2 Hfl2) Hg) as (g1 & Hg1 & _).
      by rewrite (contents_lookup _ _ _ Hg1) in H1.
Qed.

Lemma dirty_count_0 c :
  (forall p n d b, contents c !! p = Some (n, d, b) -> b = false) -> dirty_count c = 0.
Proof.
  intros H. unfold dirty_count. rewrite map_empty_filter_2, map_size_empty; [done|].
  intros p [[n d] b] Hp. simpl. rewrite (H p n d b Hp). done.
Qed.

Lemma page_cache_flush_spec fuel c :
  cache_inv c -> synced NULL c -> (Z.to_nat (max_pages c) < fuel)%nat ->
  exists c', page_cache_flush fuel c = Done (dirty_count c, c') /\ flushed c c' /\
    (forall p n d b, contents c' !! p = Some (n, d, b) -> b = false) /\
    forall n d, view c n d -> on_disk c' n d.
Proof.
  intros Hc Hs Hf. destruct (ci_table c Hc) as (bs & Ht & Hdom & Hcnt).
  destruct (flush_buckets_spec fuel c (pages c) bs 0) as (c' & E & Hfl & Hcl); auto.
  { apply Ht. }
  { apply Forall_forall. intros l Hl. apply list_elem_of_lookup in Hl as [i Hi].
    pose proof (bucket_length_concat _ _ _ Hi). pose proof (ci_count c Hc). lia. }
  assert (forall p n d b, contents c' !! p = Some (n, d, b) -> b = false) as Hclean.
  { intros p n d b Hx. apply (Hcl p n d b); [|done]. apply Hdom.
    apply (fmap_eq_dom hlinks (heap c) (heap c')); [apply Hfl|].
    apply contents_inv in Hx as (g & Hg & _). eauto. }
  exists c'. unfold page_cache_flush. rewrite E. rewrite (dirty_count_0 c' Hclean).
  split_and!; auto.
  - do 2 f_equal. lia.
  - intros n d Hv. apply (fl_view c c' Hfl) in Hv as [(p & b & Hp)|[_ Hd]]; [|done].
    pose proof (Hclean _ _ _ _ Hp) as ->. apply (fl_synced c c' Hfl p); [|done].
    apply contents_inv in Hp as (g & Hg & _). eapply cache_inv_ptr; [apply Hfl|eauto].
Qed.

(** ** Creation *)

Lemma grow_table_spec fuel k limit :
  0 <= k -> limit <= 2 ^ (k + Z.of_nat fuel) ->
  exists j, grow_table (S fuel) (2 ^ k) limit = Done (2 ^ j) /\ k <= j <= k + Z.of_nat fuel.
Proof.
  revert k. induction fuel as [|fuel IH]; intros k Hk Hl.
  - exists k. cbn [grow_table]. rewrite Z.add_0_r in Hl. zcase. split; [done|lia].
  - cbn [grow_table]. destruct (Z.ltb_spec (2 ^ k) limit).
    + replace (2 ^ k * 2) with (2 ^ (k + 1)) by (rewrite Z.pow_add_r by lia; lia).
      destruct (IH (k + 1)) as (j & E & Hj); [lia| |].
      { replace (k + 1 + Z.of_nat fuel) with (k + Z.of_nat (S fuel)) by lia. done. }
      exists j. cbn [grow_table] in E. split; [exact E|lia].
    + exists k. split; [done|lia].
Qed.

(** The number of pages [page_cache_create] settles on. *)
Definition effective_max (dflt max : Z) : Z :=
  Z.min PAGER_MAX_PAGES (if max <=? 0 then dflt else max).

Lemma hchain_replicate_nil v (n : nat) :
  Forall2 (hchain v NULL) (replicate n NULL) (replicate n []).
Proof. induction n; simpl; constructor; done. Qed.

Lemma concat_replicate_nil (n : nat) : concat (replicate n ([] : list ptr)) = [].
Proof. induction n; simpl; auto. Qed.

Lemma page_cache_create_spec dflt max pgr :
  0 < dflt -> pager_wf pgr ->
  exists c, page_cache_create dflt max (Some pgr) = Done c /\ cache_inv c /\ heap c = ∅ /\
    pager c = Some pgr /\ max_pages c = effective_max dflt max /\ count c = 0.
Proof.
  intros Hd Hwf. unfold page_cache_create.
  assert ((if PAGER_MAX_PAGES <? (if max <=? 0 then dflt else max) then PAGER_MAX_PAGES
    else (if max <=? 0 then dflt else max)) = effective_max dflt max) as ->
    by (unfold effective_max; zcase; reflexivity || lia).
  assert (0 < effective_max dflt max <= 65536) as Hm
    by (unfold effective_max, PAGER_MAX_PAGES; zcase).
  destruct (grow_table_spec 15 4 (effective_max dflt max * 2)) as (j & E & Hj); [lia| |].
  { change (2 ^ (4 + Z.of_nat 15)) with 524288. lia. }
  change (2 ^ 4) with 16 in E. rewrite E, bind_Done. eexists. split; [done|]. csimpl.
  split_and!; auto. constructor; csimpl.
  - exists (replicate (Z.to_nat (2 ^ j)) []). rewrite concat_replicate_nil.
    rewrite fmap_empty. split_and!; [|split; [intros [? H]; by rewrite lookup_empty in H|
      by intros ?%elem_of_nil]|done].
    constructor.
    + exists j. split; [lia|done].
    + rewrite length_replicate, Z2Nat.id; [done|]. apply Z.pow_nonneg. lia.
    + apply hchain_replicate_nil.
    + rewrite concat_replicate_nil. constructor.
    + intros i l p x Hl. apply lookup_replicate_1 in Hl as [-> _]. by intros ?%elem_of_nil.
  - intros p q g g' H. by rewrite lookup_empty in H.
  - split; [lia|]. intros p [? H]. by rewrite lookup_empty in H.
  - constructor; csimpl; [by left|]. intros p g H. by rewrite lookup_empty in H.
  - intros p g H. by rewrite lookup_empty in H.
  - exists pgr. split_and!; auto. intros p g H. by rewrite lookup_empty in H.
  - lia.
Qed.

Lemma synced_empty c : heap c = ∅ -> synced NULL c.
Proof. intros E p n d _. by rewrite E, fmap_empty, lookup_empty. Qed.

Lemma view_empty c n d : heap c = ∅ -> view c n d <-> on_disk c n d.
Proof.
  intros E. unfold view, cached. rewrite E, fmap_empty. split.
  - intros [(p & b & H)|[_ H]]; [by rewrite lookup_empty in H|done].
  - intros H. right. split; [|done]. intros (p & e & b & Hx). by rewrite lookup_empty in Hx.
Qed.

(** ** Properties *)

(** C6: a page obtained from the cache, overwritten, marked dirty and released
    is found again at the same address with the new bytes by the next
    [page_cache_get]; no other page a client can read changes. (No eviction: the
    page is cached or there is room.) *)
Theorem cache_read_your_writes fuel c n d d' :
  cache_inv c -> (Z.to_nat (max_pages c) < fuel)%nat -> cache_room c n -> view c n d ->
  len d' = PAGE_SIZE -> Forall is_byte d' ->
  exists p c1 c2 c3 c4 c5,
    page_cache_get fuel c n = Done (Some p, c1) /\ page_data c1 p = Done d /\
    page_set_data c1 p d' = Done c2 /\ page_mark_dirty c2 p = Done c3 /\
    page_unpin c3 p = Done c4 /\ cache_inv c4 /\
    page_cache_get fuel c4 n = Done (Some p, c5) /\ page_data c5 p = Done d' /\
    forall m e, m <> n -> view c m e <-> view c5 m e.
Proof.
  intros Hc Hf Hr Hv Hl Hb. destruct (ci_pager c Hc) as (pgr & Hp & _).
  destruct (page_cache_get_spec fuel c n d pgr) as
    (p & b & c1 & pg1 & E1 & I1 & K1 & V1 & M1 & P1 & _); auto.
  destruct (page_set_data_spec c1 p n d b d') as (c2 & E2 & I2 & (?&?&?&?&Q2&?) & K2 & _); auto.
  destruct (view_store c1 c2 p n d b d' b) as [V2 W2]; auto; [unfold disk; by rewrite Q2|].
  assert (contents c2 !! p = Some (n, d', b)) as L2 by (rewrite K2; apply lookup_insert_eq).
  destruct (page_mark_dirty_spec c2 p n d' b) as (c3 & E3 & I3 & (?&?&?&?&Q3&?) & K3 & _); auto.
  destruct (view_store c2 c3 p n d' b d' true) as [V3 W3]; auto; [unfold disk; by rewrite Q3|].
  assert (contents c3 !! p = Some (n, d', true)) as L3 by (rewrite K3; apply lookup_insert_eq).
  destruct (page_unpin_spec c3 p n d' true) as (c4 & E4 & I4 & (?&?&?&?&Q4&?) & K4); auto.
  assert (disk c4 = disk c3) as D4 by (unfold disk; by rewrite Q4).
  destruct (page_cache_get_spec fuel c4 n d' pg1) as
    (p' & b' & c5 & pg5 & E5 & I5 & K5 & V5 & M5 & P5 & _ & C5 & _); auto.
  { replace (max_pages c4) with (max_pages c) by congruence. done. }
  { right. exists p, d', true. by rewrite K4. }
  { apply (view_cached c4 p n d' true). by rewrite K4. }
  { congruence. }
  rewrite <- K4 in L3. apply C5 in L3.
  destruct (contents_unique c5 p p' n d' d' true b') as [<- _]; auto.
  exists p, c1, c2, c3, c4, c5. split_and!; eauto using page_data_spec.
  intros m e Hm. rewrite V5, (view_ext c3 c4), W3, W2, V1 by done. done.
Qed.

Lemma demo_view c :
  heap c = ∅ -> pager c = Some demo_pager -> view c 1 (replicate (Z.to_nat PAGE_SIZE) 0).
Proof.
  intros Hh Hp. apply view_empty; [done|]. unfold on_disk, disk. rewrite Hp.
  split_and!; [lia|vm_compute; congruence|vm_compute; reflexivity].
Qed.

Lemma cache_read_your_writes_witness :
  exists c, page_cache_create 100 2 (Some demo_pager) = Done c /\
  exists p c1 c2 c3 c4 c5,
    page_cache_get 3 c 1 = Done (Some p, c1) /\
    page_data c1 p = Done (replicate (Z.to_nat PAGE_SIZE) 0) /\
    page_set_data c1 p (replicate (Z.to_nat PAGE_SIZE) 9) = Done c2 /\
    page_mark_dirty c2 p = Done c3 /\
    page_unpin c3 p = Done c4 /\ cache_inv c4 /\
    page_cache_get 3 c4 1 = Done (Some p, c5) /\
    page_data c5 p = Done (replicate (Z.to_nat PAGE_SIZE) 9) /\
    forall m e, m <> 1 -> view c m e <-> view c5 m e.
Proof.
  destruct (page_cache_create_spec 100 2 demo_pager) as (c & E & Hc & Hh & Hp & Hm & Hn);
    [lia|apply demo_pager_wf|].
  exists c. split; [exact E|]. apply cache_read_your_writes.
  - exact Hc.
  - rewrite Hm. unfold effective_max, PAGER_MAX_PAGES. simpl. lia.
  - left. rewrite Hm, Hn. reflexivity.
  - by apply demo_view.
  - apply len_replicate_page.
  - by apply Forall_replicate.
Defined.

(** C23: [page_cache_flush] writes back every dirty page and returns how many
    there were: after a flush, closing the pager, opening the file again and
    creating a new cache, every page reads as it did through the old cache. *)
Theorem flush_persists_across_reopen fuel c s dflt max :
  cache_inv c -> synced NULL c -> (Z.to_nat (max_pages c) < fuel)%nat -> benign s -> 0 < dflt ->
  exists c1 pgr1 q c2,
    page_cache_flush fuel c = Done (dirty_count c, c1) /\ dirty_count c1 = 0 /\
    pager c1 = Some pgr1 /\
    pager_open (FsReadWrite (pager_close pgr1)) s = Done (Some q) /\
    page_cache_create dflt max (Some q) = Done c2 /\ cache_inv c2 /\
    forall n d, view c n d -> view c2 n d.
Proof.
  intros Hc Hs Hf Hb Hd.
  destruct (page_cache_flush_spec fuel c) as (c1 & E1 & Hfl & Hcl & Hv); auto.
  destruct (ci_pager c1 (fl_inv c c1 Hfl)) as (pgr1 & Hp1 & Hwf1 & _).
  destruct (pager_reopen pgr1 s) as (q & E2 & Hq & Hby & _); auto.
  destruct (page_cache_create_spec dflt max q) as (c2 & E3 & Hc2 & Hh2 & Hp2 & _); auto.
  exists c1, pgr1, q, c2. split_and!; auto using dirty_count_0.
  intros n d Hn. apply view_empty; [done|]. specialize (Hv n d Hn).
  unfold on_disk, disk in *. by rewrite Hp2, Hby; rewrite Hp1 in Hv.
Qed.

(** A cache of two pages in which a client has overwritten page 1. *)
Definition demo_written : outcome PageCache :=
  let* c := page_cache_create 100 2 (Some demo_pager) in
  let* '(p, c) := page_cache_get 3 c 1 in
  match p with
  | None => Undef
  | Some p =>
      let* c := page_set_data c p (replicate (Z.to_nat PAGE_SIZE) 9) in
      let* c := page_mark_dirty c p in
      page_unpin c p
  end.

Lemma demo_written_ok :
  exists c, demo_written = Done c /\ cache_inv c /\ synced NULL c /\ max_pages c = 2 /\
    dirty_count c = 1 /\ view c 1 (replicate (Z.to_nat PAGE_SIZE) 9).
Proof.
  assert (match demo_written with Done c => dirty_count c = 1 /\ max_pages c = 2 | _ => False end) as Hd
    by (vm_compute; done).
  unfold demo_written in *.
  destruct (page_cache_create_spec 100 2 demo_pager) as (c & E & Hc & Hh & Hp & Hm & Hn);
    [lia|apply demo_pager_wf|].
  rewrite E, bind_Done in *.
  destruct (page_cache_get_spec 3 c 1 (replicate (Z.to_nat PAGE_SIZE) 0) demo_pager) as
    (p & b & c1 & pg & E1 & I1 & K1 & _ & _ & _ & _ & _ & S1); auto.
  { rewrite Hm. unfold effective_max, PAGER_MAX_PAGES. simpl. lia. }
  { left. rewrite Hm, Hn. reflexivity. } { by apply demo_view. }
  rewrite E1, bind_Done in *.
  destruct (page_set_data_spec c1 p 1 _ b (replicate (Z.to_nat PAGE_SIZE) 9) I1 K1)
    as (c2 & E2 & I2 & _ & K2 & S2); [apply len_replicate_page|by apply Forall_replicate|].
  rewrite E2, bind_Done in *.
  assert (contents c2 !! p = Some (1, replicate (Z.to_nat PAGE_SIZE) 9, b)) as L2
    by (rewrite K2; apply lookup_insert_eq).
  destruct (page_mark_dirty_spec c2 p 1 _ b I2 L2) as (c3 & E3 & I3 & _ & K3 & S3).
  rewrite E3, bind_Done in *.
  assert (contents c3 !! p = Some (1, replicate (Z.to_nat PAGE_SIZE) 9, true)) as L3
    by (rewrite K3; apply lookup_insert_eq).
  destruct (page_unpin_spec c3 p 1 _ true I3 L3) as (c4 & E4 & I4 & (?&?&?&?&Q4&?) & K4).
  rewrite E4 in *. destruct Hd as [Hd Hm4]. exists c4. split_and!; auto.
  - intros q n d Hq. rewrite K4. unfold on_disk, disk. rewrite Q4. apply S3; [|done].
    apply S2. left. apply S1. by apply synced_empty.
  - apply (view_cached c4 p 1 _ true). by rewrite K4.
Qed.

Lemma flush_persists_across_reopen_witness :
  exists c c1 pgr1 q c2, demo_written = Done c /\ dirty_count c = 1 /\
    page_cache_flush 3 c = Done (1, c1) /\ dirty_count c1 = 0 /\
    pager c1 = Some pgr1 /\
    pager_open (FsReadWrite (pager_close pgr1)) [IoIntr] = Done (Some q) /\
    page_cache_create 100 0 (Some q) = Done c2 /\
    view c2 1 (replicate (Z.to_nat PAGE_SIZE) 9).
Proof.
  destruct demo_written_ok as (c & E & Hc & Hs & Hm & Hd & Hv).
  destruct (flush_persists_across_reopen 3 c [IoIntr] 100 0) as (c1 & pgr1 & q & c2 & H1 & H2 & H3 & H4 & H5 & _ & H7).
  - exact Hc.
  - exact Hs.
  - rewrite Hm. simpl. lia.
  - repeat constructor; discriminate.
  - lia.
  - rewrite Hd in H1. exists c, c1, pgr1, q, c2. repeat split; auto.
Defined.

(** Pages that are in use are never evicted by name. *)
Lemma page_cache_evict_pinned fuel c p n d b g :
  cache_inv c -> (Z.to_nat (max_pages c) < fuel)%nat ->
  contents c !! p = Some (n, d, b) -> heap c !! p = Some g -> 0 < refcount g ->
  page_cache_evict fuel c n = Done (-1, c).
Proof.
  intros Hc Hf Hp Hg Hr. unfold page_cache_evict.
  destruct (hash_find_cached fuel c n Hc Hf) as [[_ Hn]|(q & g' & -> & Hq & Hg' & Hi)].
  { destruct Hn. by exists p, d, b. }
  rewrite bind_Done. destruct (Z.eqb_spec q NULL); [done|].
  assert (q = p) as ->.
  { destruct (contents_inv _ _ _ _ _ Hp) as (g0 & Hg0 & Hi0 & _).
    apply (ci_ids c Hc q p g' g0); congruence. }
  rewrite (deref_Some c p g Hg), bind_Done. zcase. done.
Qed.

Lemma lru_remove_tail c p c' : lru_remove c p = Done c' -> lru_tail c' = lru_tail c.
Proof.
  intros H. unfold lru_remove in H. outcome_inv.
  repeat match goal with
  | E : (if ?b then _ else _) = Done _ |- _ => destruct b; [injection E as <-|]
  | E : store _ _ _ = Done _ |- _ => apply store_Done in E as (? & _ & ->)
  end; reflexivity.
Qed.

Lemma hash_remove_tail c p c' : hash_remove c p = Done c' -> lru_tail c' = lru_tail c.
Proof.
  intros H. unfold hash_remove, bucket_set in H. outcome_inv.
  repeat match goal with
  | E : (if ?b then _ else _) = Done _ |- _ => destruct b
  | E : Done _ = Done _ |- _ => injection E as <-
  | E : Undef = Done _ |- _ => discriminate E
  | E : store _ _ _ = Done _ |- _ => apply store_Done in E as (? & _ & ->)
  end; reflexivity.
Qed.

Lemma unlink_and_free_tail c p c' :
  p <> NULL -> unlink_and_free c p = Done c' -> lru_tail c' = lru_tail c /\ heap c' !! p = None.
Proof.
  intros Hp H. unfold unlink_and_free in H. outcome_inv.
  apply lru_remove_tail in E. apply hash_remove_tail in E0.
  unfold page_free in H. destruct (Z.eqb_spec p NULL); [done|]. outcome_inv. csimpl.
  split; [congruence|apply lookup_delete_eq].
Qed.

(** Eviction frees the page the LRU tail points to but never moves the tail
    ([lru_remove] does not touch [lru_head] or [lru_tail]), so whenever an
    eviction takes the tail page, the next eviction reads freed memory. *)
Theorem evict_after_evict_undefined fuel fuel' c c' g :
  heap c !! lru_tail c = Some g -> refcount g = 0 ->
  evict_lru_page fuel c = Done (0, c') ->
  evict_lru_page (S fuel') c' = Undef.
Proof.
  intros Hg Hr H. unfold evict_lru_page in H. outcome_inv.
  destruct fuel as [|fuel]; [discriminate|]. cbn [find_victim] in E.
  destruct (Z.eqb_spec (lru_tail c) NULL) as [H0|H0].
  { by simplify_eq. }
  rewrite (deref_Some _ _ _ Hg), bind_Done, Hr in E. change (0 =? 0) with true in E.
  cbv iota in E. simplify_eq. destruct (Z.eqb_spec (lru_tail c) NULL); [done|].
  outcome_inv. destruct (z <? 0) eqn:Hz; [discriminate|]. outcome_inv.
  assert (lru_tail p = lru_tail c) as Ht.
  { unfold writeback in E0. destruct (pager c); [|by simplify_eq].
    destruct (is_dirty a); [|by simplify_eq]. outcome_inv. done. }
  destruct (unlink_and_free_tail p (lru_tail c) c') as [Ht' Hn]; auto.
  unfold evict_lru_page. cbn [find_victim]. rewrite Ht', Ht. 
  destruct (Z.eqb_spec (lru_tail c) NULL); [done|]. unfold deref at 1. by rewrite Hn.
Qed.

(** A cache of one page holding page 1, released. *)
Definition demo_full : PageCache :=
  match page_cache_create 100 1 (Some demo_pager) with
  | Done c =>
      match page_cache_get 4 c 1 with
      | Done (Some p, c) => match page_unpin c p with Done c => c | _ => c end
      | _ => c
      end
  | _ => mkCache [] 0 0 0 0 0 0 0 None 0 0 ∅ 1
  end.

Definition demo_evicted : PageCache :=
  match evict_lru_page 4 demo_full with Done (_, c) => c | _ => demo_full end.

Lemma evict_after_evict_undefined_witness :
  evict_lru_page 4 demo_full = Done (0, demo_evicted) /\
  evict_lru_page 4 demo_evicted = Undef.
Proof.
  assert (evict_lru_page 4 demo_full = Done (0, demo_evicted)) as E by (vm_compute; reflexivity).
  split; [exact E|].
  destruct (heap demo_full !! lru_tail demo_full) as [g|] eqn:Hg; [|vm_compute in Hg; discriminate].
  apply (evict_after_evict_undefined 4 3 demo_full demo_evicted g Hg); [|exact E].
  vm_compute in Hg. injection Hg as <-. reflexivity.
Defined.

(** Storing twice through the same pointer. *)
Lemma store_store c p g f f' :
  heap c !! p = Some g ->
  (let* c := store c p f in store c p f') = Done (set_heap c (<[p := f' (f g)]> (heap c))).
Proof.
  intros Hg. rewrite (store_Some c p g f Hg), bind_Done.
  erewrite store_Some by (csimpl; apply lookup_insert_eq). csimpl. by rewrite insert_insert_eq.
Qed.

(** A hit on the only page of the cache: [lru_remove] leaves [lru_head] in place,
    so [lru_add_front] links the page to itself. *)
Lemma lru_mru_self_loop c p g :
  heap c !! p = Some g -> p <> NULL -> lru_head c = p -> lru_tail c = p ->
  lru_prev g = NULL -> lru_next g = NULL ->
  exists c', lru_mru c p = Done c' /\ lru_tail c' = p /\
    heap c' !! p = Some (with_lru_prev p (with_lru_next p g)).
Proof.
  intros Hg Hp Hh Ht Hpr Hn. unfold lru_mru, lru_remove.
  rewrite (deref_Some c p g Hg), bind_Done, Hpr. change (NULL =? NULL) with true. cbv iota.
  rewrite bind_Done, (deref_Some c p g Hg), bind_Done, Hn. change (NULL =? NULL) with true. cbv iota.
  rewrite bind_Done, (store_store c p g _ _ Hg), bind_Done. unfold lru_add_front.
  rewrite store_Some with (g := with_lru_next NULL (with_lru_prev NULL g))
    by (csimpl; apply lookup_insert_eq).
  rewrite bind_Done. csimpl. rewrite Hh.
  erewrite store_Some by (csimpl; apply lookup_insert_eq). csimpl. rewrite Hh.
  destruct (Z.eqb_spec p NULL); [done|].
  erewrite store_Some by (csimpl; apply lookup_insert_eq). csimpl. rewrite Ht.
  destruct (Z.eqb_spec p NULL); [done|]. eexists. split; [done|]. csimpl. split; [done|].
  rewrite !insert_insert_eq, lookup_insert_eq. destruct g; csimpl. done.
Qed.

Lemma find_victim_self_loop fuel c p g :
  p <> NULL -> heap c !! p = Some g -> lru_prev g = p -> refcount g <> 0 ->
  find_victim fuel c p = NoFuel.
Proof.
  intros Hp Hg Hl Hr. induction fuel as [|fuel IH]; [done|]. cbn [find_victim].
  destruct (Z.eqb_spec p NULL); [done|]. rewrite (deref_Some c p g Hg), bind_Done.
  destruct (Z.eqb_spec (refcount g) 0); [done|]. by rewrite Hl.
Qed.

(** After a second hit on the only cached page, the page is its own LRU
    neighbour; while it is pinned, the eviction scan of the next miss runs for
    ever (no amount of fuel is enough). *)
Theorem evict_scan_diverges c p g :
  heap c !! p = Some g -> p <> NULL -> lru_head c = p -> lru_tail c = p ->
  lru_prev g = NULL -> lru_next g = NULL -> 0 <= refcount g ->
  exists c', cache_hit c p = Done (Some p, c') /\ forall fuel, evict_lru_page fuel c' = NoFuel.
Proof.
  intros Hg Hp Hh Ht Hpr Hn Hr. unfold cache_hit.
  set (c0 := set_counts c _ _ _ _ _).
  destruct (lru_mru_self_loop c0 p g) as (c1 & -> & Ht1 & Hg1); auto.
  rewrite bind_Done, (deref_Some _ _ _ Hg1), bind_Done, (store_Some _ _ _ _ Hg1), bind_Done.
  eexists. split; [done|]. intros fuel. unfold evict_lru_page. csimpl. rewrite Ht1.
  erewrite find_victim_self_loop; [done|done|csimpl; apply lookup_insert_eq|done|].
  csimpl. lia.
Qed.

Lemma evict_scan_diverges_witness :
  exists c', cache_hit demo_full 1 = Done (Some 1, c') /\
    forall fuel, evict_lru_page fuel c' = NoFuel.
Proof.
  destruct (heap demo_full !! 1) as [g|] eqn:Hg; [|vm_compute in Hg; discriminate].
  apply (evict_scan_diverges demo_full 1 g Hg); [lia|reflexivity|reflexivity|..].
  all: vm_compute in Hg; injection Hg as <-; vm_compute; congruence.
Defined.
