(* ===== verification/PageStore.v ===== *)
(** The interface between the page cache and its clients (the B+tree): the
    operations of page_cache.h and pager.h the clients call, what they promise
    in a session without eviction, and the proof that PageCache.v keeps the
    promise. *)
From Stdlib Require Import ZArith Lia.
From stdpp Require Import base numbers option list gmap.
From S2P Require Import Prelude Posix Pager PageCache.

(** The calls a client makes; [S] is the state behind them. *)
Class PageStore (S : Type) : Type := {
  ps_pin : nat -> S -> Z -> outcome (option Z * S);
  ps_data : S -> Z -> outcome (list Z);
  ps_set_data : S -> Z -> list Z -> outcome S;
  ps_mark_dirty : S -> Z -> outcome S;
  ps_unpin : S -> Z -> outcome S;
  ps_allocate : S -> outcome (option Z * S);
  ps_flush : nat -> S -> outcome (Z * S) }.

(** What the calls promise. [ps_inv o s]: [s] is well formed and every change is
    marked dirty, except possibly to the page at address [o]. [ps_reads s n d]:
    page [n] reads as [d]. [ps_holds s p n]: address [p] is page [n]. [ps_frame s s']:
    what every call leaves alone, the size of the store and the pages it holds.
    [ps_fresh s]: an allocation would take a page that was never used. *)
Class PageStoreLaws (S : Type) `{PageStore S} : Type := {
  ps_inv : Z -> S -> Prop;
  ps_reads : S -> Z -> list Z -> Prop;
  ps_holds : S -> Z -> Z -> Prop;
  ps_room : S -> Z -> Prop;
  ps_can_allocate : S -> Prop;
  ps_bound : S -> nat;
  ps_frame : S -> S -> Prop;
  ps_frame_refl s : ps_frame s s;
  ps_frame_trans s1 s2 s3 : ps_frame s1 s2 -> ps_frame s2 s3 -> ps_frame s1 s3;
  ps_frame_bound s s' : ps_frame s s' -> ps_bound s' = ps_bound s;
  ps_frame_holds s s' p n : ps_frame s s' -> ps_holds s p n -> ps_holds s' p n;
  ps_reads_page s n d o : ps_inv o s -> ps_reads s n d ->
    len d = PAGE_SIZE /\ Forall is_byte d;
  ps_reads_unique s n d e o : ps_inv o s -> ps_reads s n d -> ps_reads s n e -> d = e;
  ps_holds_room s p n : ps_holds s p n -> ps_room s n;
  ps_pin_ok fuel s n d : ps_inv 0 s -> (ps_bound s < fuel)%nat -> ps_room s n ->
    ps_reads s n d ->
    exists p s', ps_pin fuel s n = Done (Some p, s') /\ ps_inv 0 s' /\ ps_holds s' p n /\
      ps_frame s s' /\ forall m e, ps_reads s' m e <-> ps_reads s m e;
  ps_data_ok s p n d o : ps_inv o s -> ps_holds s p n -> ps_reads s n d -> ps_data s p = Done d;
  ps_set_data_ok s p n d o : ps_inv o s -> o = 0 \/ o = p -> ps_holds s p n ->
    len d = PAGE_SIZE -> Forall is_byte d ->
    exists s', ps_set_data s p d = Done s' /\ ps_inv p s' /\ ps_holds s' p n /\
      ps_frame s s' /\ ps_reads s' n d /\
      forall m e, m <> n -> ps_reads s' m e <-> ps_reads s m e;
  ps_mark_dirty_ok s p n : ps_inv p s -> ps_holds s p n ->
    exists s', ps_mark_dirty s p = Done s' /\ ps_inv 0 s' /\ ps_holds s' p n /\
      ps_frame s s' /\ forall m e, ps_reads s' m e <-> ps_reads s m e;
  ps_unpin_ok s p n : ps_inv 0 s -> ps_holds s p n ->
    exists s', ps_unpin s p = Done s' /\ ps_inv 0 s' /\ ps_holds s' p n /\
      ps_frame s s' /\ forall m e, ps_reads s' m e <-> ps_reads s m e;
  ps_allocate_ok s : ps_inv 0 s -> ps_can_allocate s ->
    exists n d s', ps_allocate s = Done (Some n, s') /\ ps_inv 0 s' /\ ps_reads s' n d /\
      ps_frame s s' /\ (forall m, ps_room s m -> ps_room s' m) /\
      forall m e, ps_reads s m e -> ps_reads s' m e;
  ps_fresh : S -> Prop;
  ps_fresh_allocate s : ps_fresh s -> ps_can_allocate s;
  ps_allocate_fresh s n s' : ps_inv 0 s -> ps_fresh s -> ps_allocate s = Done (Some n, s') ->
    0 < n < 2 ^ 32 /\ forall d, ~ ps_reads s n d;
  ps_flush_ok fuel s : ps_inv 0 s -> (ps_bound s < fuel)%nat ->
    exists k s', ps_flush fuel s = Done (k, s') /\ ps_inv 0 s' /\ ps_frame s s' /\
      forall m e, ps_reads s m e -> ps_reads s' m e }.

(** ** The page cache is a page store *)

(** [pager_allocate_page] on the pager that the cache and its clients share. *)
Definition cache_allocate (c : PageCache) : outcome (option Z * PageCache) :=
  match pager c with
  | None => Undef
  | Some pgr =>
      let* '(r, pgr) := pager_allocate_page pgr in Done (r, set_pager c (Some pgr))
  end.

#[export] Instance cache_store : PageStore PageCache := {
  ps_pin := page_pin;
  ps_data := page_data;
  ps_set_data := page_set_data;
  ps_mark_dirty := page_mark_dirty;
  ps_unpin := page_unpin;
  ps_allocate := cache_allocate;
  ps_flush := page_cache_flush }.

Definition cache_ok (o : Z) (c : PageCache) : Prop := cache_inv c /\ synced o c.

Definition cache_holds (c : PageCache) (p n : Z) : Prop :=
  exists d b, contents c !! p = Some (n, d, b).

Definition cache_can_allocate (c : PageCache) : Prop :=
  exists pgr l, pager c = Some pgr /\ freelist pgr l /\ page_count pgr + 1 < 2 ^ 32 /\
    forall n, n ∈ l -> n < page_count pgr.

Lemma disk_page_of_truncate m (b : list Z) h k :
  0 < m -> (m + 1) * PAGE_SIZE <= len b -> len b <= k ->
  page_bytes m (truncate_to (Z.to_nat k) (write_at 0 (header_bytes h) b)) = page_bytes m b.
Proof.
  intros. pose proof (page_off_nonneg m). unfold page_bytes, PAGE_SIZE in *.
  rewrite slice_truncate_to by (rewrite ?length_write_at, ?length_header_bytes; lia).
  apply slice_write_at_after. rewrite length_header_bytes. unfold HEADER_SIZE. lia.
Qed.

(** Allocation keeps every page that is on disk and yields a readable page. *)
Lemma pager_allocate_reads pgr l :
  pager_wf pgr -> freelist pgr l -> page_count pgr + 1 < 2 ^ 32 ->
  (forall n, n ∈ l -> n < page_count pgr) ->
  exists n pgr', pager_allocate_page pgr = Done (Some n, pgr') /\ pager_wf pgr' /\
    page_count pgr <= page_count pgr' /\ 0 < n < page_count pgr' /\
    (n + 1) * PAGE_SIZE <= len (f_bytes (fd pgr')) /\
    forall m, 0 < m -> (m + 1) * PAGE_SIZE <= len (f_bytes (fd pgr)) ->
      (m + 1) * PAGE_SIZE <= len (f_bytes (fd pgr')) /\
      page_bytes m (f_bytes (fd pgr')) = page_bytes m (f_bytes (fd pgr)).
Proof.
  intros Hwf Hfl Hc Hl. destruct l as [|n l].
  - destruct (pager_allocate_extend pgr) as (pgr' & E & Hwf' & Hcnt & _ & _ & Hb); auto.
    { apply Hfl. }
    exists (page_count pgr), pgr'. rewrite Hb, Hcnt, length_truncate_to.
    pose proof (wf_count pgr Hwf). pose proof (wf_length pgr Hwf). unfold PAGE_SIZE in *.
    split_and!; auto; try lia. intros m Hm Hlm. split; [lia|].
    apply disk_page_of_truncate; unfold PAGE_SIZE; lia.
  - destruct (pager_allocate_pop pgr n l) as (pgr' & E & Hwf' & Hfl' & Hb & Hcnt); auto.
    destruct (fl_chain _ _ Hfl) as (_ & Hn & Hlen & _). exists n, pgr'. rewrite Hb, Hcnt.
    split_and!; auto; try lia. apply Hl. by left.
Qed.

Lemma cache_allocate_ok c :
  cache_ok 0 c -> cache_can_allocate c ->
  exists n d c', cache_allocate c = Done (Some n, c') /\ cache_ok 0 c' /\ view c' n d /\
    max_pages c' = max_pages c /\ (forall m, cache_room c m -> cache_room c' m) /\
    (forall m e, view c m e -> view c' m e) /\ contents c' = contents c.
Proof.
  intros [Hc Hs] (pgr & l & Hp & Hfl & Hcnt & Hl).
  destruct (ci_pager c Hc) as (? & ? & Hwf & Hids). simplify_eq.
  destruct (pager_allocate_reads pgr l) as (n & pgr' & E & Hwf' & Hle & Hn & Hlen & Hpg); auto.
  unfold cache_allocate. rewrite Hp, E, bind_Done.
  set (c' := set_pager c (Some pgr')).
  assert (forall m e, on_disk c m e -> on_disk c' m e) as Hod.
  { intros m e. unfold on_disk, disk. subst c'; csimpl. rewrite Hp. intros (Hm & Hml & ->).
    destruct (Hpg m Hm Hml) as [? ->]. auto. }
  assert (cache_inv c') as Hc'.
  { destruct Hc. constructor; auto; [by apply (lru_closed_same c)|].
    exists pgr'. split_and!; auto. intros p g Hg. specialize (Hids p g Hg). lia. }
  assert (forall m e, view c m e -> view c' m e) as Hvw.
  { intros m e [Hv|[Hn' Hv]]; [by left|right]. split; [exact Hn'|auto]. }
  assert (exists d, view c' n d) as [d Hd].
  { destruct (hash_find_cached (S (Z.to_nat (max_pages c'))) c' n Hc') as [[_ Hn']|(q & g & _ & _ & Hg & Hi)];
      [lia| |].
    - exists (page_bytes n (disk c')). right. split; [done|]. split_and!; auto. lia.
    - exists (data g). left. exists q, (is_dirty g). by rewrite (contents_lookup _ _ _ Hg), Hi. }
  exists n, d, c'. split; [done|]. split_and!; auto.
  split; [done|]. intros p m e Hpn Hx. apply Hod. by apply (Hs p).
Qed.

(** No free page to reuse. *)
Definition cache_fresh (c : PageCache) : Prop :=
  exists pgr, pager c = Some pgr /\ freelist pgr [] /\ page_count pgr + 1 < 2 ^ 32.

Lemma cache_allocate_fresh c n c' :
  cache_ok 0 c -> cache_fresh c -> cache_allocate c = Done (Some n, c') ->
  0 < n < 2 ^ 32 /\ forall d, ~ view c n d.
Proof.
  intros [Hc _] (pgr & Hp & Hfl & Hcnt). destruct (ci_pager c Hc) as (? & ? & Hwf & Hids). simplify_eq.
  destruct (pager_allocate_extend pgr Hwf) as (pgr' & E & _); [apply Hfl|done|].
  unfold cache_allocate. rewrite Hp, E, bind_Done. intros [= <- _]. pose proof (wf_count pgr Hwf).
  split; [lia|]. intros d [(p & b & Hx)|[_ (_ & Hl & _)]].
  - apply contents_inv in Hx as (g & Hg & Hid & _ & _). specialize (Hids p g Hg). lia.
  - unfold disk in Hl. rewrite Hp in Hl. pose proof (wf_length pgr Hwf). unfold PAGE_SIZE in *. lia.
Qed.

Definition cache_frame (c c' : PageCache) : Prop :=
  max_pages c' = max_pages c /\ forall p n, cache_holds c p n -> cache_holds c' p n.

Lemma cache_frame_contents c c' :
  max_pages c' = max_pages c -> contents c' = contents c -> cache_frame c c'.
Proof. intros Hm K. split; [done|]. intros p n (d & b & Hp). exists d, b. by rewrite K. Qed.

Lemma cache_frame_insert c c' p n d b d' b' :
  max_pages c' = max_pages c -> contents c !! p = Some (n, d, b) ->
  contents c' = <[p := (n, d', b')]> (contents c) -> cache_frame c c'.
Proof.
  intros Hm Hp K. split; [done|]. intros q m (e & x & Hq). destruct (decide (q = p)) as [->|Hne].
  - rewrite Hp in Hq. injection Hq as <- <- <-. exists d', b'. rewrite K. apply lookup_insert_eq.
  - exists e, x. by rewrite K, lookup_insert_ne.
Qed.

(** The laws of the calls that change a held page. *)
Lemma cache_set_data_law c p n d o :
  cache_ok o c -> o = 0 \/ o = p -> cache_holds c p n -> len d = PAGE_SIZE -> Forall is_byte d ->
  exists c', page_set_data c p d = Done c' /\ cache_ok p c' /\ cache_holds c' p n /\
    cache_frame c c' /\ view c' n d /\ forall m e, m <> n -> view c' m e <-> view c m e.
Proof.
  intros [Hc Hs] Ho (e & b & Hp) Hl Hb.
  destruct (page_set_data_spec c p n e b d) as (c' & E & Hc' & (?&?&?&Hm&Q&?) & K & Hsy); auto.
  destruct (view_store c c' p n e b d b) as [V W]; auto; [unfold disk; by rewrite Q|].
  exists c'. split; [exact E|]. split_and!; auto.
  - split; [done|]. apply Hsy. destruct Ho as [->| ->]; auto.
  - exists d, b. rewrite K. apply lookup_insert_eq.
  - by apply (cache_frame_insert c c' p n e b d b).
Qed.

Lemma cache_mark_dirty_law c p n :
  cache_ok p c -> cache_holds c p n ->
  exists c', page_mark_dirty c p = Done c' /\ cache_ok 0 c' /\ cache_holds c' p n /\
    cache_frame c c' /\ forall m e, view c' m e <-> view c m e.
Proof.
  intros [Hc Hs] (e & b & Hp).
  destruct (page_mark_dirty_spec c p n e b) as (c' & E & Hc' & (?&?&?&Hm&Q&?) & K & Hsy); auto.
  destruct (view_store c c' p n e b e true) as [V W]; auto; [unfold disk; by rewrite Q|].
  exists c'. split; [exact E|]. split_and!; auto.
  - split; auto.
  - exists e, true. rewrite K. apply lookup_insert_eq.
  - by apply (cache_frame_insert c c' p n e b e true).
  - intros m x. destruct (decide (m = n)) as [->|Hne]; [|auto].
    pose proof (view_cached c p n e b Hp) as V0. split; intros Hx.
    + destruct V as [(q & b' & Hq)|[Hn _]].
      * rewrite <- (view_of_cached c' q n e x b' Hc' Hq Hx). done.
      * destruct Hn. exists p, e, true. rewrite K. apply lookup_insert_eq.
    + by rewrite <- (view_of_cached c p n e x b Hc Hp Hx).
Qed.

#[export] Instance cache_store_laws : PageStoreLaws PageCache.
Proof.
  refine {| ps_inv := cache_ok; ps_reads := view; ps_holds := cache_holds;
    ps_room := cache_room; ps_can_allocate := cache_can_allocate;
    ps_bound := fun c => Z.to_nat (max_pages c); ps_frame := cache_frame;
    ps_fresh := cache_fresh |}.
  - by split.
  - intros c1 c2 c3 [H1 K1] [H2 K2]. split; [congruence|auto].
  - by intros c c' [-> _].
  - intros c c' p n [_ K]. apply K.
  - intros c n d o [Hc _] [(p & b & Hp)|[_ (Hn & Hl & ->)]].
    + apply contents_inv in Hp as (g & Hg & _ & <- & _). apply (ci_pages c Hc p g Hg).
    + destruct (ci_pager c Hc) as (pgr & Hp & Hwf & _). unfold disk in *. rewrite Hp in *.
      apply page_bytes_ok; [apply Hwf|lia|done].
  - intros c n d e o [Hc _] [(p & b & Hp)|[Hn (_ & _ & ->)]] He.
    + by eapply view_of_cached.
    + destruct He as [(p & b & Hp)|[_ (_ & _ & ->)]]; [|done].
      destruct Hn. by exists p, e, b.
  - intros c p n (d & b & Hp). right. by exists p, d, b.
  - intros fuel c n d [Hc Hs] Hf Hr Hv. destruct (ci_pager c Hc) as (pgr & Hp & _).
    destruct (page_cache_get_spec fuel c n d pgr) as
      (p & b & c' & pgr' & E & Hc' & Hk & Hvw & Hm & _ & _ & Hq & Hsy); auto.
    exists p, c'. split; [exact E|]. split_and!; auto; [by split; auto|by exists d, b|].
    split; [done|]. intros q m (e & x & Hx). exists e, x. auto.
  - intros c p n d o [Hc _] (e & b & Hp) Hv. simpl.
    rewrite (page_data_spec c p n e b Hp). f_equal. by eapply view_of_cached.
  - apply cache_set_data_law.
  - apply cache_mark_dirty_law.
  - intros c p n [Hc Hs] (e & b & Hp).
    destruct (page_unpin_spec c p n e b) as (c' & E & Hc' & (?&?&?&Hm&Q&?) & K); auto.
    assert (disk c' = disk c) as D by (unfold disk; by rewrite Q).
    exists c'. split; [exact E|]. split_and!; auto.
    + split; [done|]. intros q m x Hq. rewrite K. unfold on_disk. rewrite D. by apply Hs.
    + exists e, b. by rewrite K.
    + by apply cache_frame_contents.
    + intros m x. by apply view_ext.
  - intros c Hok Hca. destruct (cache_allocate_ok c Hok Hca) as (n & d & c' & H).
    exists n, d, c'. destruct H as (? & ? & ? & ? & ? & ? & ?). split_and!; auto. by apply cache_frame_contents.
  - intros c (pgr & Hp & Hfl & Hcnt). exists pgr, []. split_and!; auto. by intros n ?%elem_of_nil.
  - intros c n c'. apply cache_allocate_fresh.
  - intros fuel c [Hc Hs] Hf.
    destruct (page_cache_flush_spec fuel c) as (c' & E & Hfl & _); auto.
    exists (dirty_count c), c'. split; [exact E|]. split_and!; [split; apply Hfl| |apply Hfl].
    split; [apply Hfl|]. intros p n (d & b & Hp). apply Hfl in Hp as (b' & Hp & _). by exists d, b'.
Defined.
