(* ===== verification/BTree.v ===== *)
(** Model of src/storage/btree.c over any page store: the byte layout of the
    node pages, search, cursors, insertion and range objects; then the leaf
    representation relation and the theorems about trees whose root is a leaf
    (the code never splits a node, so these are all the trees it builds). *)
From Stdlib Require Import ZArith Lia.
From stdpp Require Import base numbers option list gmap.
From S2P Require Import Prelude Posix Pager PageCache PageStore.

Definition BTREE_MAX_DEPTH : nat := 16.
Definition BTREE_LEAF_HEADER_SIZE : Z := 10.
Definition BTREE_CELL_POINTER_SIZE : Z := 2.
Definition BTREE_PAGE_TYPE_LEAF : Z := 13.
Definition BTREE_PAGE_TYPE_INTERNAL : Z := 10.

(** ** Bytes of a page *)

Definition read_u8 (d : list Z) (off : Z) : outcome Z :=
  if off <? 0 then Undef else outcome_of_option (d !! Z.to_nat off).

Definition write_u8 (d : list Z) (off v : Z) : outcome (list Z) :=
  buf_write off [u8 v] d.

Definition read_u16 (d : list Z) (off : Z) : outcome Z :=
  let* a := read_u8 d off in
  let* b := read_u8 d (off + 1) in
  Done (Z.lor (Z.shiftl a 8) b).

Definition write_u16 (d : list Z) (off v : Z) : outcome (list Z) :=
  let* d := write_u8 d off (Z.shiftr v 8) in
  write_u8 d (off + 1) (Z.land v 255).

Definition read_u32 (d : list Z) (off : Z) : outcome Z :=
  let* a := read_u8 d off in
  let* b := read_u8 d (off + 1) in
  let* e := read_u8 d (off + 2) in
  let* f := read_u8 d (off + 3) in
  Done (Z.lor (Z.lor (Z.lor (Z.shiftl a 24) (Z.shiftl b 16)) (Z.shiftl e 8)) f).

Definition write_u32 (d : list Z) (off v : Z) : outcome (list Z) :=
  let* d := write_u8 d off (Z.shiftr v 24) in
  let* d := write_u8 d (off + 1) (Z.shiftr v 16) in
  let* d := write_u8 d (off + 2) (Z.shiftr v 8) in
  write_u8 d (off + 3) (Z.land v 255).

(** A uint64_t loaded through a pointer into the page (little-endian host). *)
Definition load_u64 (d : list Z) (off : Z) : outcome Z :=
  let* b := buf_read off 8 d in Done (le_val b).

Record BTreeNodeHeader : Type := mkNodeHeader {
  page_type : Z;
  cell_count : Z;
  content_start : Z;
  fragmented_bytes : Z }.

Definition get_node_header (d : list Z) : outcome BTreeNodeHeader :=
  let* t := read_u8 d 0 in
  let* n := read_u16 d 1 in
  let* s := read_u16 d 3 in
  let* f := read_u8 d 5 in
  Done (mkNodeHeader t n s f).

Definition set_node_header (d : list Z) (h : BTreeNodeHeader) : outcome (list Z) :=
  let* d := write_u8 d 0 (page_type h) in
  let* d := write_u16 d 1 (cell_count h) in
  let* d := write_u16 d 3 (content_start h) in
  write_u8 d 5 (fragmented_bytes h).

Definition get_cell_pointer (d : list Z) (index : Z) : outcome Z :=
  read_u16 d (BTREE_LEAF_HEADER_SIZE + index * BTREE_CELL_POINTER_SIZE).

Definition set_cell_pointer (d : list Z) (index value : Z) : outcome (list Z) :=
  write_u16 d (BTREE_LEAF_HEADER_SIZE + index * BTREE_CELL_POINTER_SIZE) value.

(** Payload size, key size, and the offsets of key and value. *)
Definition get_leaf_cell (d : list Z) (off : Z) : outcome (Z * Z * Z * Z) :=
  let* payload_size := read_u32 d off in
  let* key_size := read_u32 d (off + 4) in
  Done (payload_size, key_size, off + 8, off + 8 + key_size).

Definition is_leaf_page (t : Z) : bool := t =? BTREE_PAGE_TYPE_LEAF.
Definition is_internal_page (t : Z) : bool := t =? BTREE_PAGE_TYPE_INTERNAL.
Definition get_right_child (d : list Z) : outcome Z := read_u32 d 6.
Definition set_right_child (d : list Z) (child : Z) : outcome (list Z) := write_u32 d 6 child.

(** ** Trees and cursors *)

Record BTree : Type := mkBTree { root_page : Z; tree_page_count : Z; is_open : bool }.

Record BTreeCursor : Type := mkCursor {
  cur_page : Z;
  cur_cell : Z;
  is_end : bool;
  depth : Z;
  stack : list (Z * Z);
  is_forward : bool }.

Definition empty_stack : list (Z * Z) := replicate BTREE_MAX_DEPTH (0, 0).

(** cursor->stack[i] = (page, cell) *)
Definition stack_set (st : list (Z * Z)) (i : nat) (x : Z * Z) : outcome (list (Z * Z)) :=
  if decide (i < length st)%nat then Done (<[i := x]> st) else Undef.

(** [find_cell_index]: binary search in a leaf; in an internal node every
    comparison moves right. *)
Fixpoint find_cell_index_loop (fuel : nat) (d : list Z) (key : Z) (leaf : bool)
    (left right : Z) : outcome Z :=
  match fuel with
  | O => NoFuel
  | S fuel =>
      if left <? right then
        let mid := (left + right) / 2 in
        if leaf then
          let* cell_offset := get_cell_pointer d mid in
          let* _ := read_u32 d (cell_offset + 4) in
          let* cell_key := load_u64 d (cell_offset + 8) in
          if cell_key <? key then find_cell_index_loop fuel d key leaf (mid + 1) right
          else find_cell_index_loop fuel d key leaf left mid
        else
          let o := BTREE_LEAF_HEADER_SIZE + mid * BTREE_CELL_POINTER_SIZE in
          let* _ := read_u32 d o in
          let* _ := read_u16 d (o + 4) in
          find_cell_index_loop fuel d key leaf (mid + 1) right
      else Done left
  end.

Definition find_cell_index (d : list Z) (key : Z) (leaf : bool) : outcome Z :=
  let* h := get_node_header d in
  find_cell_index_loop (S (Z.to_nat (cell_count h))) d key leaf 0 (cell_count h).

(** The linear search of [btree_find] in a leaf: [n] cells from index [i]. *)
Fixpoint find_in_leaf (n : nat) (d : list Z) (key i : Z) : outcome (option Z) :=
  match n with
  | O => Done None
  | S n =>
      let* cell_offset := get_cell_pointer d i in
      let* key_size := read_u32 d (cell_offset + 4) in
      if key_size =? 8 then
        let* cell_key := load_u64 d (cell_offset + 8) in
        if cell_key =? key then Done (Some i) else find_in_leaf n d key (i + 1)
      else find_in_leaf n d key (i + 1)
  end.

(** The choice of a child of an internal node: [target] is the value of
    target_cell so far. *)
Fixpoint find_in_internal (n : nat) (d : list Z) (key i target : Z) : outcome Z :=
  match n with
  | O => Done target
  | S n =>
      let* cell_offset := get_cell_pointer d i in
      let* key_size := read_u16 d (cell_offset + 4) in
      if key_size =? 8 then
        let* cell_key := load_u64 d (cell_offset + 8) in
        if key <=? cell_key then Done i else find_in_internal n d key (i + 1) (i + 1)
      else find_in_internal n d key (i + 1) (i + 1)
  end.

Section btree.
Context {S : Type} `{PageStore S}.

Definition btree_open (s : S) (root : Z) : BTree := mkBTree root 0 true.

(** memset and the four writes that make a page an empty leaf. *)
Definition init_leaf (d : list Z) : outcome (list Z) :=
  let d := replicate (Z.to_nat PAGE_SIZE) 0 in
  let* d := write_u8 d 0 BTREE_PAGE_TYPE_LEAF in
  let* d := write_u16 d 1 0 in
  let* d := write_u16 d 3 PAGE_SIZE in
  write_u8 d 5 0.

Definition btree_create (fuel : nat) (s : S) : outcome (option BTree * S) :=
  let* '(r, s) := ps_allocate s in
  match r with
  | None => Done (None, s)
  | Some root =>
    let* '(page, s) := ps_pin fuel s root in
    match page with
    | None => Done (None, s)
    | Some page =>
      let* d := ps_data s page in
      let* d := init_leaf d in
      let* s := ps_set_data s page d in
      let* s := ps_mark_dirty s page in
      let* s := ps_unpin s page in
      Done (Some (btree_open s root), s)
    end
  end.

Definition btree_close (fuel : nat) (s : S) (t : BTree) : outcome (Z * S) :=
  let* '(_, s) := ps_flush fuel s in Done (0, s).

(** The descent of [btree_find]; [levels] iterations are left at depth [dp]. *)
Fixpoint btree_find_loop (levels : nat) (fuel : nat) (s : S) (key page_num : Z) (dp : nat)
    (st : list (Z * Z)) : outcome (option BTreeCursor * S) :=
  match levels with
  | O => Done (None, s)
  | Datatypes.S levels =>
    let* '(page, s) := ps_pin fuel s page_num in
    match page with
    | None => Done (None, s)
    | Some page =>
      let* d := ps_data s page in
      let* header := get_node_header d in
      if is_leaf_page (page_type header) then
        let* st := stack_set st dp (page_num, 0) in
        let* found := find_in_leaf (Z.to_nat (cell_count header)) d key 0 in
        let cursor :=
          match found with
          | Some i => mkCursor page_num i false (Z.of_nat dp + 1) st true
          | None => mkCursor page_num (cell_count header) true (Z.of_nat dp + 1) st true
          end in
        let* s := ps_unpin s page in
        Done (Some cursor, s)
      else if is_internal_page (page_type header) then
        let* right_child := get_right_child d in
        let* target := find_in_internal (Z.to_nat (cell_count header)) d key 0 0 in
        let* child :=
          if target <? cell_count header
          then read_u32 d (BTREE_LEAF_HEADER_SIZE + target * BTREE_CELL_POINTER_SIZE + 2)
          else Done right_child in
        let* st := stack_set st dp (page_num, target) in
        let* s := ps_unpin s page in
        btree_find_loop levels fuel s key child (Datatypes.S dp) st
      else
        let* s := ps_unpin s page in
        Done (None, s)
    end
  end.

Definition btree_find (fuel : nat) (s : S) (t : BTree) (key : Z)
    : outcome (option BTreeCursor * S) :=
  if is_open t then btree_find_loop BTREE_MAX_DEPTH fuel s key (root_page t) 0 empty_stack
  else Done (None, s).

Fixpoint btree_first_loop (levels : nat) (fuel : nat) (s : S) (page_num : Z) (dp : nat)
    (st : list (Z * Z)) : outcome (option BTreeCursor * S) :=
  match levels with
  | O => Done (None, s)
  | Datatypes.S levels =>
    let* '(page, s) := ps_pin fuel s page_num in
    match page with
    | None => Done (None, s)
    | Some page =>
      let* d := ps_data s page in
      let* header := get_node_header d in
      if is_leaf_page (page_type header) then
        let* st := stack_set st dp (page_num, 0) in
        let* s := ps_unpin s page in
        Done (Some (mkCursor page_num 0 (cell_count header =? 0) (Z.of_nat dp + 1) st true), s)
      else if is_internal_page (page_type header) then
        let* right_child := get_right_child d in
        let* child :=
          if 0 <? cell_count header
          then let* cell_offset := get_cell_pointer d 0 in read_u32 d (cell_offset + 2)
          else Done right_child in
        let* st := stack_set st dp (page_num, 0) in
        let* s := ps_unpin s page in
        btree_first_loop levels fuel s child (Datatypes.S dp) st
      else
        let* s := ps_unpin s page in
        Done (None, s)
    end
  end.

Definition btree_first (fuel : nat) (s : S) (t : BTree) : outcome (option BTreeCursor * S) :=
  if is_open t then btree_first_loop BTREE_MAX_DEPTH fuel s (root_page t) 0 empty_stack
  else Done (None, s).

Fixpoint btree_last_loop (levels : nat) (fuel : nat) (s : S) (page_num : Z) (dp : nat)
    (st : list (Z * Z)) : outcome (option BTreeCursor * S) :=
  match levels with
  | O => Done (None, s)
  | Datatypes.S levels =>
    let* '(page, s) := ps_pin fuel s page_num in
    match page with
    | None => Done (None, s)
    | Some page =>
      let* d := ps_data s page in
      let* header := get_node_header d in
      if is_leaf_page (page_type header) then
        let cell := if 0 <? cell_count header then cell_count header - 1 else 0 in
        let* st := stack_set st dp (page_num, cell) in
        let* s := ps_unpin s page in
        Done (Some (mkCursor page_num cell (cell_count header =? 0) (Z.of_nat dp + 1) st false), s)
      else if is_internal_page (page_type header) then
        let* right_child := get_right_child d in
        let* st := stack_set st dp (page_num, cell_count header) in
        let* s := ps_unpin s page in
        btree_last_loop levels fuel s right_child (Datatypes.S dp) st
      else
        let* s := ps_unpin s page in
        Done (None, s)
    end
  end.

Definition btree_last (fuel : nat) (s : S) (t : BTree) : outcome (option BTreeCursor * S) :=
  if is_open t then btree_last_loop BTREE_MAX_DEPTH fuel s (root_page t) 0 empty_stack
  else Done (None, s).

(** ** Cursors *)

Definition btree_cursor_next (fuel : nat) (s : S) (c : BTreeCursor)
    : outcome (BTreeCursor * S) :=
  if is_end c then Done (c, s) else
  let* '(page, s) := ps_pin fuel s (cur_page c) in
  match page with
  | None => Done (c, s)
  | Some page =>
    let* d := ps_data s page in
    let* header := get_node_header d in
    let cell := cur_cell c + 1 in
    let c' :=
      if cell_count header <=? cell
      then mkCursor (cur_page c) (cell_count header) true (depth c) (stack c) (is_forward c)
      else mkCursor (cur_page c) cell false (depth c) (stack c) (is_forward c) in
    let* s := ps_unpin s page in
    Done (c', s)
  end.

Definition btree_cursor_prev (c : BTreeCursor) : BTreeCursor :=
  if is_end c then c else
  if 0 <? cur_cell c
  then mkCursor (cur_page c) (cur_cell c - 1) (is_end c) (depth c) (stack c) (is_forward c)
  else mkCursor (cur_page c) 0 (is_end c) (depth c) (stack c) (is_forward c).

Definition btree_cursor_valid (c : option BTreeCursor) : bool :=
  match c with None => false | Some c => negb (is_end c) end.

(** [btree_get] into the caller's buffer [buf]: return code, key, buffer, length. *)
Definition btree_get (fuel : nat) (s : S) (c : BTreeCursor) (buf : list Z)
    : outcome (option (Z * list Z * Z) * S) :=
  if is_end c then Done (None, s) else
  let* '(page, s) := ps_pin fuel s (cur_page c) in
  match page with
  | None => Done (None, s)
  | Some page =>
    let* d := ps_data s page in
    let* header := get_node_header d in
    if cell_count header <=? cur_cell c then
      let* s := ps_unpin s page in Done (None, s)
    else
      let* cell_offset := get_cell_pointer d (cur_cell c) in
      let* payload_size := read_u32 d cell_offset in
      let* key_size := read_u32 d (cell_offset + 4) in
      let* key := load_u64 d (cell_offset + 8) in
      let value_len := u32 (payload_size - key_size - 8) in
      let* buf :=
        if 0 <? value_len
        then let* v := buf_read (cell_offset + 8 + key_size) value_len d in buf_write 0 v buf
        else Done buf in
      let* s := ps_unpin s page in
      Done (Some (key, buf, value_len), s)
  end.

Definition btree_cursor_peek (fuel : nat) (s : S) (c : BTreeCursor) (buf : list Z) :=
  btree_get fuel s c buf.

(** ** Insertion *)

(** for (i = cell_count; i > insert_idx; i--): [n] steps down from [i]. *)
Fixpoint shift_pointers (n : nat) (d : list Z) (i : Z) : outcome (list Z) :=
  match n with
  | O => Done d
  | Datatypes.S n =>
      let* p := get_cell_pointer d (i - 1) in
      let* d := set_cell_pointer d i p in
      shift_pointers n d (i - 1)
  end.

(** The page update of [btree_insert]: [None] when the cell does not fit. *)
Definition insert_cell (d : list Z) (header : BTreeNodeHeader) (insert_idx key : Z)
    (value : list Z) (len : Z) : outcome (option (list Z)) :=
  let total_payload := u32 (8 + len + 8) in
  let cell_size := u16 (2 + total_payload) in
  let available_space := content_start header -
    (BTREE_LEAF_HEADER_SIZE + cell_count header * BTREE_CELL_POINTER_SIZE) in
  if available_space <? cell_size then Done None else
  let* d := shift_pointers (Z.to_nat (cell_count header - insert_idx)) d (cell_count header) in
  let cell_offset := u16 (content_start header - u16 total_payload) in
  let* d := set_cell_pointer d insert_idx cell_offset in
  let* d := write_u32 d cell_offset total_payload in
  let* d := write_u32 d (cell_offset + 4) 8 in
  let* d := buf_write (cell_offset + 8) (le_bytes 8 key) d in
  let* v := buf_read 0 len value in
  let* d := buf_write (cell_offset + 8 + 8) v d in
  let header := mkNodeHeader (page_type header) (u16 (cell_count header + 1)) cell_offset
                  (fragmented_bytes header) in
  let* d := set_node_header d header in
  Done (Some d).

Definition btree_insert (fuel : nat) (s : S) (t : BTree) (key : Z) (value : list Z) (len : Z)
    : outcome (Z * S) :=
  if negb (is_open t) then Done (-1, s) else
  let* '(cursor, s) := btree_find fuel s t key in
  match cursor with
  | None => Done (-1, s)
  | Some cursor =>
    if negb (is_end cursor) then
      let* '(page, s) := ps_pin fuel s (cur_page cursor) in
      let* s := match page with Some page => ps_unpin s page | None => Done s end in
      Done (0, s)
    else
    let* '(page, s) := ps_pin fuel s (cur_page cursor) in
    match page with
    | None => Done (-1, s)
    | Some page =>
      let* d := ps_data s page in
      let* header := get_node_header d in
      let* r := insert_cell d header (cur_cell cursor) key value len in
      match r with
      | None => let* s := ps_unpin s page in Done (-1, s)
      | Some d =>
        let* s := ps_set_data s page d in
        let* s := ps_mark_dirty s page in
        let* s := ps_unpin s page in
        Done (0, s)
      end
    end
  end.

Definition btree_delete (s : S) (t : BTree) (key : Z) : Z * S := (-1, s).

Definition btree_update (fuel : nat) (s : S) (t : BTree) (key : Z) (value : list Z) (len : Z) :=
  btree_insert fuel s t key value len.

(** ** Ranges and utilities *)

Record BTreeRange : Type := mkRange {
  start_key : Z;
  end_key : Z;
  range_start : option BTreeCursor;
  range_end : option BTreeCursor }.

Definition btree_range_new (fuel : nat) (s : S) (t : BTree) (k1 k2 : Z)
    : outcome (BTreeRange * S) :=
  let* '(a, s) := btree_find fuel s t k1 in
  let* '(b, s) := btree_find fuel s t k2 in
  Done (mkRange k1 k2 a b, s).

Definition btree_page_count (t : BTree) : Z := tree_page_count t.
Definition btree_verify (t : BTree) : Z := 0.
End btree.

(** ** Bytes at an offset *)

Definition bytes_at (d : list Z) (off : Z) (bs : list Z) : Prop :=
  0 <= off /\ off + len bs <= len d /\ slice (Z.to_nat off) (length bs) d = bs.

Lemma bytes_at_app d off a b :
  bytes_at d off (a ++ b) <-> bytes_at d off a /\ bytes_at d (off + len a) b.
Proof.
  unfold bytes_at. rewrite length_app. split.
  - intros (H1 & H2 & H3). rewrite slice_split in H3.
    apply app_inj_1 in H3 as [Ha Hb]; [|rewrite length_slice; lia].
    split_and!; try lia; auto. by replace (Z.to_nat (off + len a)) with (Z.to_nat off + length a)%nat by lia.
  - intros [(H1 & H2 & Ha) (H3 & H4 & Hb)]. split_and!; [lia|lia|].
    replace (Z.to_nat (off + len a)) with (Z.to_nat off + length a)%nat in Hb by lia.
    by rewrite slice_split, Ha, Hb.
Qed.

Lemma bytes_at_read d off bs : bytes_at d off bs -> buf_read off (len bs) d = Done bs.
Proof. intros (H1 & H2 & H3). rewrite buf_read_Done by lia. by rewrite Nat2Z.id, H3. Qed.

Lemma bytes_at_u8 d off b : bytes_at d off [b] -> read_u8 d off = Done b.
Proof.
  intros (H1 & H2 & H3). unfold read_u8. zcase. simpl in H2, H3.
  unfold slice in H3. apply (f_equal (fun l => l !! 0%nat)) in H3.
  rewrite lookup_take_lt, lookup_drop, Nat.add_0_r in H3 by lia. simpl in H3. by rewrite H3.
Qed.

(** [d'] is [d] with [bs] written at [off]. *)
Record wrote (d : list Z) (off : Z) (bs d' : list Z) : Prop := {
  wr_len : len d' = len d;
  wr_bytes : Forall is_byte d -> Forall is_byte bs -> Forall is_byte d';
  wr_at : bytes_at d' off bs;
  wr_other : forall o b, o + len b <= off \/ off + len bs <= o -> bytes_at d o b -> bytes_at d' o b }.

Lemma buf_write_wrote d off bs :
  0 <= off -> off + len bs <= len d ->
  exists d', buf_write off bs d = Done d' /\ wrote d off bs d'.
Proof.
  intros H1 H2. rewrite buf_write_Done by lia. eexists. split; [done|].
  assert (len (splice (Z.to_nat off) bs d) = len d) as HL by (rewrite length_splice; lia).
  constructor; [done| | |].
  - intros Hd Hb. unfold splice. rewrite !Forall_app. split_and!; auto using Forall_take, Forall_drop.
  - split_and!; [lia|lia|]. apply slice_splice_same. lia.
  - intros o b Ho (Ho1 & Ho2 & Hs). split_and!; [lia|lia|].
    rewrite <- Hs at 2. destruct Ho; [apply slice_splice_before|apply slice_splice_after]; lia.
Qed.

Lemma wrote_app d off a d1 b d2 :
  wrote d off a d1 -> wrote d1 (off + len a) b d2 -> wrote d off (a ++ b) d2.
Proof.
  intros [L1 B1 A1 O1] [L2 B2 A2 O2]. constructor.
  - lia.
  - intros Hd [Ha Hb]%Forall_app. auto.
  - apply bytes_at_app. split; [|done]. apply O2; [|done]. left. lia.
  - intros o x Ho Hx. rewrite length_app in Ho. apply O2; [lia|]. apply O1; [lia|done].
Qed.

(** ** Big-endian fields *)

Definition be16 (v : Z) : list Z := [u8 (Z.shiftr v 8); u8 (Z.land v 255)].
Definition be32 (v : Z) : list Z :=
  [u8 (Z.shiftr v 24); u8 (Z.shiftr v 16); u8 (Z.shiftr v 8); u8 (Z.land v 255)].

Lemma lor_low k a b : 0 <= k -> a mod 2 ^ k = 0 -> 0 <= b < 2 ^ k -> Z.lor a b = a + b.
Proof.
  intros Hk Ha Hb. rewrite <- Z.add_lor_land.
  assert (Z.land a b = 0) as ->; [|lia]. apply Z.bits_inj'. intros n Hn.
  rewrite Z.land_spec, Z.bits_0. destruct (decide (n < k)) as [Hlt|Hge].
  - rewrite <- (Z.mod_pow2_bits_low a k n) by lia. by rewrite Ha, Z.bits_0.
  - rewrite <- (Z.mod_small b (2 ^ k)) by lia. rewrite Z.mod_pow2_bits_high by lia.
    apply andb_false_r.
Qed.

Lemma be16_val v : 0 <= v < 2 ^ 16 -> 
  Z.lor (Z.shiftl (u8 (Z.shiftr v 8)) 8) (u8 (Z.land v 255)) = v.
Proof.
  intros Hv. rewrite Z.shiftl_mul_pow2, Z.shiftr_div_pow2 by lia.
  change 255 with (Z.ones 8). rewrite Z.land_ones by lia. unfold u8. rewrite Z.mod_mod by lia.
  rewrite (lor_low 8); change (2 ^ 8) with 256; change (2 ^ 16) with 65536 in *;
    Z.to_euclidean_division_equations; lia.
Qed.

Lemma be32_val v : 0 <= v < 2 ^ 32 ->
  Z.lor (Z.lor (Z.lor (Z.shiftl (u8 (Z.shiftr v 24)) 24) (Z.shiftl (u8 (Z.shiftr v 16)) 16))
    (Z.shiftl (u8 (Z.shiftr v 8)) 8)) (u8 (Z.land v 255)) = v.
Proof.
  intros Hv. rewrite !Z.shiftl_mul_pow2, !Z.shiftr_div_pow2 by lia.
  change 255 with (Z.ones 8). rewrite Z.land_ones by lia. unfold u8. rewrite Z.mod_mod by lia.
  change (2 ^ 8) with 256; change (2 ^ 16) with 65536; change (2 ^ 24) with 16777216;
    change (2 ^ 32) with 4294967296 in *.
  assert (v = (v / 16777216 mod 256) * 16777216 + (v / 65536 mod 256) * 65536
            + (v / 256 mod 256) * 256 + v mod 256) as E
    by (Z.to_euclidean_division_equations; lia).
  assert (forall x, 0 <= x mod 256 < 256) as B by (intros; apply Z.mod_pos_bound; lia).
  rewrite E at 5. pose proof (B v). pose proof (B (v / 256)). pose proof (B (v / 65536)).
  generalize dependent (v mod 256). generalize dependent (v / 256 mod 256).
  generalize dependent (v / 65536 mod 256). generalize dependent (v / 16777216 mod 256).
  intros x y ? z ? w ? ?.
  rewrite (lor_low 24 (x * 16777216) (y * 65536)), (lor_low 16 _ (z * 256)), (lor_low 8 _ w);
    change (2 ^ 8) with 256; change (2 ^ 16) with 65536; change (2 ^ 24) with 16777216;
    Z.to_euclidean_division_equations; lia.
Qed.

Lemma bytes_at_cons d off b bs :
  bytes_at d off (b :: bs) <-> bytes_at d off [b] /\ bytes_at d (off + 1) bs.
Proof. apply (bytes_at_app d off [b] bs). Qed.

Lemma bytes_at_u16 d off v : 0 <= v < 2 ^ 16 -> bytes_at d off (be16 v) -> read_u16 d off = Done v.
Proof.
  intros Hv [Ha Hb]%bytes_at_cons. unfold read_u16.
  rewrite (bytes_at_u8 _ _ _ Ha), bind_Done, (bytes_at_u8 _ _ _ Hb), bind_Done.
  by rewrite be16_val.
Qed.

Lemma bytes_at_u32 d off v : 0 <= v < 2 ^ 32 -> bytes_at d off (be32 v) -> read_u32 d off = Done v.
Proof.
  intros Hv H. apply bytes_at_cons in H as [Ha H]. apply bytes_at_cons in H as [Hb H].
  apply bytes_at_cons in H as [He Hf]. 
  replace (off + 1 + 1 + 1) with (off + 3) in Hf by lia.
  replace (off + 1 + 1) with (off + 2) in He by lia.
  unfold read_u32. rewrite (bytes_at_u8 _ _ _ Ha), bind_Done, (bytes_at_u8 _ _ _ Hb), bind_Done.
  rewrite (bytes_at_u8 _ _ _ He), bind_Done, (bytes_at_u8 _ _ _ Hf), bind_Done.
  by rewrite be32_val.
Qed.

Lemma write_u8_wrote d off v :
  0 <= off -> off + 1 <= len d -> exists d', write_u8 d off v = Done d' /\ wrote d off [u8 v] d'.
Proof. intros. apply buf_write_wrote; simpl; lia. Qed.

Lemma write_u16_wrote d off v :
  0 <= off -> off + 2 <= len d -> exists d', write_u16 d off v = Done d' /\ wrote d off (be16 v) d'.
Proof.
  intros. unfold write_u16.
  destruct (write_u8_wrote d off (Z.shiftr v 8)) as (d1 & -> & W1); [lia|lia|]. rewrite bind_Done.
  destruct (write_u8_wrote d1 (off + 1) (Z.land v 255)) as (d2 & -> & W2);
    [lia|destruct W1; lia|].
  exists d2. split; [done|]. by apply (wrote_app d off [_] d1 [_] d2).
Qed.

Lemma write_u32_wrote d off v :
  0 <= off -> off + 4 <= len d -> exists d', write_u32 d off v = Done d' /\ wrote d off (be32 v) d'.
Proof.
  intros. unfold write_u32.
  destruct (write_u8_wrote d off (Z.shiftr v 24)) as (d1 & -> & W1); [lia|lia|]. rewrite bind_Done.
  destruct (write_u8_wrote d1 (off + 1) (Z.shiftr v 16)) as (d2 & -> & W2);
    [lia|destruct W1; lia|]. rewrite bind_Done.
  pose proof (wrote_app _ _ [_] _ [_] _ W1 W2) as W12.
  destruct (write_u8_wrote d2 (off + 2) (Z.shiftr v 8)) as (d3 & -> & W3);
    [lia|destruct W12; lia|]. rewrite bind_Done.
  pose proof (wrote_app _ _ [_; _] _ [_] _ W12 W3) as W13.
  destruct (write_u8_wrote d3 (off + 3) (Z.land v 255)) as (d4 & -> & W4);
    [lia|destruct W13; lia|].
  exists d4. split; [done|]. exact (wrote_app _ _ [_; _; _] _ [_] _ W13 W4).
Qed.

Lemma be16_byte v : Forall is_byte (be16 v).
Proof. repeat constructor; apply u8_bound. Qed.
Lemma be32_byte v : Forall is_byte (be32 v).
Proof. repeat constructor; apply u8_bound. Qed.
#[export] Hint Resolve be16_byte be32_byte : tinydb.

(** ** Leaf pages as lists of key/value pairs *)

Definition hdr_bytes (h : BTreeNodeHeader) : list Z :=
  [u8 (page_type h)] ++ be16 (cell_count h) ++ be16 (content_start h) ++
  [u8 (fragmented_bytes h)].

Definition hdr_wf (h : BTreeNodeHeader) : Prop :=
  is_byte (page_type h) /\ 0 <= cell_count h < 2 ^ 16 /\ 0 <= content_start h < 2 ^ 16 /\
  is_byte (fragmented_bytes h).

Lemma u8_id z : is_byte z -> u8 z = z.
Proof. intros. by apply Z.mod_small. Qed.

Lemma get_node_header_ok d h :
  hdr_wf h -> bytes_at d 0 (hdr_bytes h) -> get_node_header d = Done h.
Proof.
  intros (Ht & Hn & Hs & Hf) H. unfold hdr_bytes in H.
  rewrite !bytes_at_app in H. destruct H as (H0 & H1 & H2 & H3).
  unfold get_node_header. rewrite (bytes_at_u8 _ _ _ H0), bind_Done.
  rewrite (bytes_at_u16 d 1 (cell_count h) Hn H1), bind_Done.
  rewrite (bytes_at_u16 d 3 (content_start h) Hs H2), bind_Done.
  rewrite (bytes_at_u8 d 5 _ H3), bind_Done, !u8_id by done. by destruct h.
Qed.

Lemma set_node_header_wrote d h :
  6 <= len d -> exists d', set_node_header d h = Done d' /\ wrote d 0 (hdr_bytes h) d'.
Proof.
  intros Hl. unfold set_node_header.
  destruct (write_u8_wrote d 0 (page_type h)) as (d1 & -> & W1); [lia|lia|]. rewrite bind_Done.
  pose proof (wr_len _ _ _ _ W1) as L1.
  destruct (write_u16_wrote d1 1 (cell_count h)) as (d2 & -> & W2); [lia|lia|]. rewrite bind_Done.
  pose proof (wr_len _ _ _ _ W2) as L2.
  destruct (write_u16_wrote d2 3 (content_start h)) as (d3 & -> & W3); [lia|lia|]. rewrite bind_Done.
  pose proof (wr_len _ _ _ _ W3) as L3.
  destruct (write_u8_wrote d3 5 (fragmented_bytes h)) as (d4 & -> & W4); [lia|lia|].
  exists d4. split; [done|].
  apply (wrote_app _ 0 _ _ _ _ W1). apply (wrote_app _ 1 _ _ _ _ W2).
  apply (wrote_app _ 3 _ _ _ _ W3). exact W4.
Qed.

Abbreviation kv := (Z * list Z)%type.

Definition cell_bytes (x : kv) : list Z :=
  be32 (16 + len (snd x)) ++ be32 8 ++ le_bytes 8 (fst x) ++ snd x.

Lemma len_cell_bytes x : len (cell_bytes x) = 16 + len (snd x).
Proof. unfold cell_bytes. rewrite !length_app, length_le_bytes. simpl. lia. Qed.

(** The bytes the cells take, and the room left between pointers and cells. *)
Definition content_size (kvs : list kv) : Z :=
  foldr (fun x a => 16 + len (snd x) + a) 0 kvs.
Definition leaf_space (kvs : list kv) : Z :=
  PAGE_SIZE - BTREE_LEAF_HEADER_SIZE - 2 * len kvs - content_size kvs.

Definition leaf_header (kvs : list kv) : BTreeNodeHeader :=
  mkNodeHeader BTREE_PAGE_TYPE_LEAF (len kvs) (PAGE_SIZE - content_size kvs) 0.

Lemma content_size_snoc kvs x : content_size (kvs ++ [x]) = content_size kvs + 16 + len (snd x).
Proof.
  unfold content_size. induction kvs as [|y kvs IH]; cbn [foldr app]; [lia|]. rewrite IH. lia.
Qed.

Lemma content_size_nonneg kvs : 0 <= content_size kvs.
Proof. unfold content_size. induction kvs as [|y kvs IH]; cbn [foldr]; lia. Qed.

(** Cell [i] of the page is the pair [x]. *)
Definition cell_at (d : list Z) (cs : Z) (i : Z) (x : kv) : Prop :=
  exists o, bytes_at d (BTREE_LEAF_HEADER_SIZE + i * BTREE_CELL_POINTER_SIZE) (be16 o) /\
    cs <= o < 2 ^ 16 /\ bytes_at d o (cell_bytes x) /\ 0 <= fst x < 2 ^ 64.

Record leaf_rep (d : list Z) (kvs : list kv) : Prop := {
  lr_len : len d = PAGE_SIZE;
  lr_bytes : Forall is_byte d;
  lr_header : bytes_at d 0 (hdr_bytes (leaf_header kvs));
  lr_space : 0 <= leaf_space kvs;
  lr_cells : forall i x, kvs !! i = Some x ->
    cell_at d (PAGE_SIZE - content_size kvs) (Z.of_nat i) x;
  lr_nodup : NoDup kvs.*1 }.

Lemma leaf_header_wf d kvs : leaf_rep d kvs -> hdr_wf (leaf_header kvs).
Proof.
  intros [_ _ _ Hs _ _]. pose proof (content_size_nonneg kvs).
  unfold leaf_space, PAGE_SIZE, BTREE_LEAF_HEADER_SIZE in Hs.
  unfold hdr_wf, leaf_header, is_byte, BTREE_PAGE_TYPE_LEAF, PAGE_SIZE. simpl. lia.
Qed.

Lemma leaf_get_header d kvs : leaf_rep d kvs -> get_node_header d = Done (leaf_header kvs).
Proof. intros H. apply get_node_header_ok; [by eapply leaf_header_wf|apply H]. Qed.

(** What the code reads of a cell. *)
Lemma read_cell d cs i x :
  len d = PAGE_SIZE -> cell_at d cs i x ->
  exists o, get_cell_pointer d i = Done o /\ read_u32 d o = Done (16 + len (snd x)) /\
    read_u32 d (o + 4) = Done 8 /\ load_u64 d (o + 8) = Done (fst x) /\
    bytes_at d (o + 16) (snd x).
Proof.
  intros Hl (o & Hp & Ho & Hc & Hk). exists o.
  pose proof Hc as (Ho0 & Hob & _). rewrite len_cell_bytes, Hl in Hob. unfold PAGE_SIZE in Hob.
  unfold cell_bytes in Hc. rewrite !bytes_at_app in Hc. destruct Hc as (H1 & H2 & H3 & H4).
  change (len (be32 _)) with 4 in *. rewrite length_le_bytes in H4.
  replace (o + 4 + 4) with (o + 8) in * by lia.
  replace (o + 8 + Z.of_nat 8) with (o + 16) in * by lia. split_and!; auto.
  - unfold get_cell_pointer. apply bytes_at_u16; [lia|done].
  - apply bytes_at_u32; [lia|done].
  - by apply bytes_at_u32.
  - unfold load_u64. pose proof (bytes_at_read _ _ _ H3) as E. rewrite length_le_bytes in E.
    change (Z.of_nat 8) with 8 in E. rewrite E, bind_Done. f_equal. by apply le_val_bytes.
Qed.

(** The index of the first pair with the given key, counting from [i]. *)
Fixpoint key_index (key : Z) (kvs : list kv) (i : Z) : option Z :=
  match kvs with
  | [] => None
  | x :: r => if fst x =? key then Some i else key_index key r (i + 1)
  end.

Lemma find_in_leaf_ok d kvs key r i :
  leaf_rep d kvs -> drop i kvs = r ->
  find_in_leaf (length r) d key (Z.of_nat i) = Done (key_index key r (Z.of_nat i)).
Proof.
  intros Hd. revert i. induction r as [|x r IH]; intros i Hr; [done|].
  cbn [length find_in_leaf key_index].
  assert (kvs !! i = Some x) as Hx.
  { rewrite <- (Nat.add_0_r i), <- lookup_drop, Hr. done. }
  destruct (read_cell d _ _ x (lr_len _ _ Hd) (lr_cells _ _ Hd i x Hx)) as (o & -> & _ & E2 & E3 & _).
  rewrite bind_Done, E2, bind_Done. change (8 =? 8) with true. cbv iota.
  rewrite E3, bind_Done. destruct (fst x =? key); [done|].
  replace (Z.of_nat i + 1) with (Z.of_nat (S i)) by lia. apply IH.
  apply (f_equal (drop 1)) in Hr. rewrite drop_drop in Hr. by rewrite Nat.add_comm in Hr.
Qed.

Lemma key_index_Some key kvs i j :
  key_index key kvs i = Some j ->
  exists n x, j = i + Z.of_nat n /\ kvs !! n = Some x /\ fst x = key.
Proof.
  revert i. induction kvs as [|x kvs IH]; intros i H; cbn [key_index] in H; [done|].
  destruct (Z.eqb_spec (fst x) key) as [E|E].
  - injection H as <-. exists 0%nat, x. split_and!; [lia|done|done].
  - destruct (IH _ H) as (n & y & -> & Hy & Hk). exists (S n), y. split_and!; [lia|done|done].
Qed.

Lemma key_index_None key kvs i : key_index key kvs i = None <-> key ∉ kvs.*1.
Proof.
  revert i. induction kvs as [|x kvs IH]; intros i; cbn [key_index fmap list_fmap].
  - split; [|done]. intros _ ?%elem_of_nil. done.
  - rewrite elem_of_cons. destruct (Z.eqb_spec (fst x) key) as [E|E].
    + split; [done|]. intros []. by left.
    + rewrite IH. split; [intros ? [?|?]; congruence|tauto].
Qed.

(** ** Updating a leaf page *)

Lemma init_leaf_ok d : exists d', init_leaf d = Done d' /\ leaf_rep d' [].
Proof.
  unfold init_leaf. set (z := replicate _ 0).
  assert (len z = PAGE_SIZE) as Hz by apply len_replicate_page.
  assert (Forall is_byte z) as Hb by (by apply Forall_replicate). clearbody z.
  destruct (set_node_header_wrote z (leaf_header [])) as (d' & E & W).
  { rewrite Hz. unfold PAGE_SIZE. lia. }
  exists d'. split; [exact E|]. constructor.
  - by rewrite (wr_len _ _ _ _ W).
  - apply (wr_bytes _ _ _ _ W); [done|]. repeat constructor; apply u8_bound.
  - apply W.
  - unfold leaf_space, PAGE_SIZE, BTREE_LEAF_HEADER_SIZE. simpl. lia.
  - intros i x Hx. by rewrite lookup_nil in Hx.
  - constructor.
Qed.

(** Cells survive a write that touches neither their pointer nor their bytes. *)
Lemma cell_at_wrote d off bs d' cs i x :
  cell_at d cs i x -> wrote d off bs d' ->
  (off + len bs <= BTREE_LEAF_HEADER_SIZE + i * BTREE_CELL_POINTER_SIZE \/
   BTREE_LEAF_HEADER_SIZE + i * BTREE_CELL_POINTER_SIZE + 2 <= off) ->
  off + len bs <= cs -> cell_at d' cs i x.
Proof.
  intros (o & Hp & Ho & Hc & Hk) W Hd Hcs. exists o. split_and!; try tauto; try lia.
  - apply (wr_other _ _ _ _ W); [simpl; lia|done].
  - apply (wr_other _ _ _ _ W); [lia|done].
Qed.

Lemma cell_at_mono d cs cs' i x : cell_at d cs i x -> cs' <= cs -> cell_at d cs' i x.
Proof. intros (o & ? & ? & ? & ?) ?. exists o. split_and!; auto; lia. Qed.

(** The pointer and cell writes of [insert_cell], as one write of each. *)
Lemma insert_cell_exec d kvs key v :
  leaf_rep d kvs -> 18 + len v <= leaf_space kvs -> Forall is_byte v ->
  let o := PAGE_SIZE - content_size kvs - (16 + len v) in
  exists d1 d2 d3, insert_cell d (leaf_header kvs) (len kvs) key v (len v) = Done (Some d3) /\
    wrote d (BTREE_LEAF_HEADER_SIZE + len kvs * BTREE_CELL_POINTER_SIZE) (be16 o) d1 /\
    wrote d1 o (cell_bytes (key, v)) d2 /\
    wrote d2 0 (hdr_bytes (leaf_header (kvs ++ [(key, v)]))) d3.
Proof.
  intros Hd Hsp Hv o. pose proof (lr_len _ _ Hd) as HL. pose proof (content_size_nonneg kvs).
  unfold leaf_space, BTREE_LEAF_HEADER_SIZE, PAGE_SIZE in *.
  unfold insert_cell. cbn [content_start cell_count page_type fragmented_bytes leaf_header].
  rewrite (u32_id (8 + len v + 8)) by lia.
  rewrite (u16_id (2 + _)) by lia. rewrite (u16_id (8 + len v + 8)) by lia.
  unfold BTREE_LEAF_HEADER_SIZE, BTREE_CELL_POINTER_SIZE, PAGE_SIZE.
  destruct (Z.ltb_spec (4096 - content_size kvs - (10 + len kvs * 2)) (2 + (8 + len v + 8))); [lia|].
  rewrite Z.sub_diag. change (shift_pointers (Z.to_nat 0) d (len kvs)) with (Done d).
  rewrite bind_Done.
  replace (4096 - content_size kvs - (8 + len v + 8)) with o by (unfold o; lia).
  rewrite (u16_id o) by (unfold o; lia).
  destruct (write_u16_wrote d (10 + len kvs * 2) o) as (d1 & E1 & W1); [lia|lia|].
  unfold set_cell_pointer, BTREE_LEAF_HEADER_SIZE, BTREE_CELL_POINTER_SIZE. rewrite E1, bind_Done.
  pose proof (wr_len _ _ _ _ W1) as L1.
  destruct (write_u32_wrote d1 o (8 + len v + 8)) as (d2 & E2 & W2); [lia|lia|].
  rewrite E2, bind_Done. pose proof (wr_len _ _ _ _ W2) as L2.
  destruct (write_u32_wrote d2 (o + 4) 8) as (d3 & E3 & W3); [lia|lia|].
  rewrite E3, bind_Done. pose proof (wr_len _ _ _ _ W3) as L3.
  destruct (buf_write_wrote d3 (o + 8) (le_bytes 8 key)) as (d4 & E4 & W4);
    [lia|rewrite length_le_bytes; lia|].
  rewrite E4, bind_Done. pose proof (wr_len _ _ _ _ W4) as L4.
  rewrite buf_read_Done, bind_Done by lia. rewrite Nat2Z.id. change (Z.to_nat 0) with 0%nat.
  rewrite slice_all.
  destruct (buf_write_wrote d4 (o + 16) v) as (d5 & E5 & W5); [lia|lia|].
  replace (o + 8 + 8) with (o + 16) by lia. rewrite E5, bind_Done.
  pose proof (wr_len _ _ _ _ W5) as L5.
  rewrite (u16_id (len kvs + 1)) by lia.
  destruct (set_node_header_wrote d5 (leaf_header (kvs ++ [(key, v)]))) as (d6 & E6 & W6); [lia|].
  exists d1, d5, d6. replace (mkNodeHeader BTREE_PAGE_TYPE_LEAF (len kvs + 1) o 0)
    with (leaf_header (kvs ++ [(key, v)])).
  2: { unfold leaf_header. rewrite content_size_snoc, length_app. cbn [length snd].
    unfold o, PAGE_SIZE. f_equal; lia. }
  rewrite E6, bind_Done. split_and!; auto. unfold cell_bytes. cbn [fst snd].
  replace (16 + len v) with (8 + len v + 8) by lia.
  apply (wrote_app _ _ _ _ _ _ W2). change (len (be32 _)) with 4.
  apply (wrote_app _ _ _ _ _ _ W3). change (len (be32 _)) with 4.
  replace (o + 4 + 4) with (o + 8) by lia. apply (wrote_app _ _ _ _ _ _ W4).
  rewrite length_le_bytes. replace (o + 8 + Z.of_nat 8) with (o + 16) by lia. exact W5.
Qed.

Lemma NoDup_fst_snoc (kvs : list kv) key v :
  NoDup kvs.*1 -> key ∉ kvs.*1 -> NoDup (kvs ++ [(key, v)]).*1.
Proof.
  intros H1 H2. rewrite fmap_app. apply NoDup_app. split_and!; [done| |apply NoDup_singleton].
  intros k Hk [->|Hx]%elem_of_cons; [done|]. by apply elem_of_nil in Hx.
Qed.

(** A cell that fits is appended. *)
Lemma insert_cell_ok d kvs key v :
  leaf_rep d kvs -> 18 + len v <= leaf_space kvs -> Forall is_byte v ->
  0 <= key < 2 ^ 64 -> key ∉ kvs.*1 ->
  exists d', insert_cell d (leaf_header kvs) (len kvs) key v (len v) = Done (Some d') /\
    leaf_rep d' (kvs ++ [(key, v)]).
Proof.
  intros Hd Hsp Hv Hk Hn.
  destruct (insert_cell_exec d kvs key v Hd Hsp Hv) as (d1 & d2 & d3 & E & W1 & W2 & W3).
  set (o := PAGE_SIZE - content_size kvs - (16 + len v)) in *.
  exists d3. split; [done|]. pose proof (content_size_nonneg kvs) as Hc0.
  pose proof (lr_len _ _ Hd) as HL.
  assert (PAGE_SIZE - content_size (kvs ++ [(key, v)]) = o) as Ho
    by (rewrite content_size_snoc; unfold o; simpl; lia).
  assert (leaf_space (kvs ++ [(key, v)]) = leaf_space kvs - (18 + len v)) as Hls
    by (unfold leaf_space; rewrite content_size_snoc, length_app; simpl; lia).
  assert (BTREE_LEAF_HEADER_SIZE + len kvs * BTREE_CELL_POINTER_SIZE + 2 <= o) as Hgap
    by (unfold leaf_space, o, BTREE_LEAF_HEADER_SIZE, BTREE_CELL_POINTER_SIZE in *; lia).
  pose proof (wr_len _ _ _ _ W1) as L1. pose proof (wr_len _ _ _ _ W2) as L2.
  pose proof (wr_len _ _ _ _ W3) as L3.
  constructor; try rewrite Ho.
  - lia.
  - apply (wr_bytes _ _ _ _ W3); [|repeat constructor; apply u8_bound].
    apply (wr_bytes _ _ _ _ W2); [apply (wr_bytes _ _ _ _ W1); [apply Hd|apply be16_byte]|].
    unfold cell_bytes. rewrite !Forall_app. auto using be32_byte, le_bytes_byte.
  - apply W3.
  - lia.
  - intros i x Hx. apply lookup_app_Some in Hx as [Hx|[Hi Hx]].
    + pose proof (lookup_lt_Some _ _ _ Hx) as Hi.
      unfold BTREE_LEAF_HEADER_SIZE, BTREE_CELL_POINTER_SIZE in *.
      assert (cell_at d2 (o + (16 + len v)) (Z.of_nat i) x) as H2.
      { apply (cell_at_wrote d1 o (cell_bytes (key, v)) d2);
          unfold BTREE_LEAF_HEADER_SIZE, BTREE_CELL_POINTER_SIZE; [|done|lia|rewrite len_cell_bytes; simpl; lia].
        apply (cell_at_wrote d _ _ d1 _ _ _ ) with (2 := W1);
          unfold BTREE_LEAF_HEADER_SIZE, BTREE_CELL_POINTER_SIZE; [|simpl; lia|simpl; lia].
        replace (o + (16 + len v)) with (PAGE_SIZE - content_size kvs) by (unfold o; lia).
        by apply Hd. }
      apply (cell_at_mono d3 (o + (16 + len v))); [|lia].
      apply (cell_at_wrote d2 _ _ d3 _ _ _ H2 W3);
        unfold BTREE_LEAF_HEADER_SIZE, BTREE_CELL_POINTER_SIZE; simpl; lia.
    + destruct (i - length kvs)%nat as [|j] eqn:Hij; simpl in Hx; [|done].
      injection Hx as <-. replace (Z.of_nat i) with (len kvs) by lia. exists o. split_and!.
      * apply (wr_other _ _ _ _ W3); [simpl; unfold BTREE_LEAF_HEADER_SIZE, BTREE_CELL_POINTER_SIZE; lia|].
        apply (wr_other _ _ _ _ W2); [simpl; lia|]. apply W1.
      * lia.
      * unfold o, PAGE_SIZE. lia.
      * apply (wr_other _ _ _ _ W3); [|apply W2]. right. simpl.
        unfold BTREE_LEAF_HEADER_SIZE, BTREE_CELL_POINTER_SIZE in *. lia.
      * simpl. lia.
      * simpl. lia.
  - apply NoDup_fst_snoc; [apply Hd|done].
Qed.

(** A cell that does not fit, of a size below the 16-bit wrap-around, is refused. *)
Lemma insert_cell_full d kvs key v :
  leaf_rep d kvs -> leaf_space kvs < 18 + len v -> len v <= 65517 ->
  insert_cell d (leaf_header kvs) (len kvs) key v (len v) = Done None.
Proof.
  intros Hd Hsp Hl. pose proof (content_size_nonneg kvs).
  unfold leaf_space, BTREE_LEAF_HEADER_SIZE, PAGE_SIZE in *.
  unfold insert_cell. cbn [content_start cell_count page_type fragmented_bytes leaf_header].
  rewrite (u32_id (8 + len v + 8)) by lia. rewrite (u16_id (2 + _)) by lia.
  unfold BTREE_LEAF_HEADER_SIZE, BTREE_CELL_POINTER_SIZE, PAGE_SIZE. zcase. done.
Qed.

(** A write either stays in the page or is undefined. *)
Definition in_page (d : list Z) (m : outcome (list Z)) : Prop :=
  m = Undef \/ exists d', m = Done d' /\ len d' = len d.

Lemma in_page_buf_write d off bs : in_page d (buf_write off bs d).
Proof.
  destruct (buf_write off bs d) as [d'| |] eqn:E; [right|by left|].
  - exists d'. split; [done|]. by apply buf_write_len in E.
  - unfold buf_write in E. by destruct (_ && _).
Qed.

Lemma in_page_bind d m (f : list Z -> outcome (list Z)) :
  in_page d m -> (forall d', in_page d' (f d')) -> in_page d (obind m f).
Proof.
  intros [->|(d' & -> & Hl)] Hf; [by left|]. rewrite bind_Done.
  destruct (Hf d') as [->|(d2 & -> & Hl2)]; [by left|]. right. exists d2. split; [done|lia].
Qed.

Lemma in_page_write_u32 d off v : in_page d (write_u32 d off v).
Proof. repeat first [apply in_page_buf_write | apply in_page_bind; [|intros]]. Qed.

Lemma in_page_write_u16 d off v : in_page d (write_u16 d off v).
Proof. repeat first [apply in_page_buf_write | apply in_page_bind; [|intros]]. Qed.

Lemma in_page_undef {A} d m (f : list Z -> outcome A) :
  in_page d m -> (forall d', len d' = len d -> f d' = Undef) -> obind m f = Undef.
Proof. intros [->|(d' & -> & Hl)] Hf; [done|]. rewrite bind_Done. auto. Qed.

(** A value of 65518 bytes makes the 16-bit cell size 0: the space check passes
    and the copy runs past the page. *)
Lemma insert_cell_overflow d kvs key v :
  leaf_rep d kvs -> len v = 65518 ->
  insert_cell d (leaf_header kvs) (len kvs) key v (len v) = Undef.
Proof.
  intros Hd Hl. pose proof (content_size_nonneg kvs). pose proof (lr_len _ _ Hd) as HL.
  pose proof (lr_space _ _ Hd).
  unfold leaf_space, BTREE_LEAF_HEADER_SIZE, PAGE_SIZE in *.
  unfold insert_cell. cbn [content_start cell_count page_type fragmented_bytes leaf_header].
  rewrite Hl. change (u32 (8 + 65518 + 8)) with 65534. change (u16 (2 + 65534)) with 0.
  unfold BTREE_LEAF_HEADER_SIZE, BTREE_CELL_POINTER_SIZE, PAGE_SIZE. zcase.
  rewrite Z.sub_diag. change (shift_pointers (Z.to_nat 0) d (len kvs)) with (Done d).
  rewrite bind_Done. generalize (u16 (4096 - content_size kvs - u16 65534)). intros o.
  apply (in_page_undef d); [apply in_page_write_u16|]. intros d1 L1.
  apply (in_page_undef d1); [apply in_page_write_u32|]. intros d2 L2.
  apply (in_page_undef d2); [apply in_page_write_u32|]. intros d3 L3.
  apply (in_page_undef d3); [apply in_page_buf_write|]. intros d4 L4.
  rewrite buf_read_Done, bind_Done by lia. change (Z.to_nat 0) with 0%nat.
  replace (Z.to_nat 65518) with (length v) by lia. rewrite slice_all.
  destruct (buf_write (o + 8 + 8) v d4) eqn:E; [|done|].
  - apply buf_write_inv in E as (? & ? & _). lia.
  - unfold buf_write in E. by destruct (_ && _).
Qed.

(** ** Trees over a page store *)

Section trees.
Context {S : Type} `{PageStoreLaws S}.
Implicit Types (s : S) (t : BTree) (kvs : list kv).

(** The store can serve the root page of [t]. *)
Record ready (fuel : nat) s t : Prop := {
  rd_inv : ps_inv 0 s;
  rd_fuel : (ps_bound s < fuel)%nat;
  rd_room : ps_room s (root_page t) }.

(** [t] is open and its root page is a leaf holding [kvs]. *)
Definition tree_rep s t kvs : Prop :=
  is_open t = true /\ exists d, ps_reads s (root_page t) d /\ leaf_rep d kvs.

(** Nothing that can be read has changed, and held pages are still held. *)
Definition same_reads s s' : Prop :=
  ps_frame s s' /\ forall m e, ps_reads s' m e <-> ps_reads s m e.

Lemma tree_rep_same s s' t kvs : same_reads s s' -> tree_rep s t kvs -> tree_rep s' t kvs.
Proof. intros Hs (Ho & d & Hr & Hl). split; [done|]. exists d. by rewrite (proj2 Hs (root_page t) d). Qed.

Lemma same_reads_trans s1 s2 s3 : same_reads s1 s2 -> same_reads s2 s3 -> same_reads s1 s3.
Proof.
  intros [F1 H1] [F2 H2]. split; [by apply (ps_frame_trans s1 s2)|]. intros m e. by rewrite (H2 m e), (H1 m e).
Qed.

Lemma same_reads_refl s : same_reads s s.
Proof. split; [apply ps_frame_refl|done]. Qed.

(** Calls leave a store that can serve a root page ready, if the page is held. *)
Definition cached s t : Prop := exists p, ps_holds s p (root_page t).

Lemma cached_frame s s' t : ps_frame s s' -> cached s t -> cached s' t.
Proof. intros F [p Hp]. exists p. by apply (ps_frame_holds s). Qed.

Lemma ready_cached fuel s t u : ready fuel s u -> cached s t -> ready fuel s t.
Proof. intros [Hi Hf _] [p Hp]. constructor; [done|done|]. by apply (ps_holds_room s p). Qed.

Lemma ready_frame fuel s s' t p :
  (ps_bound s < fuel)%nat -> ps_frame s s' -> ps_inv 0 s' -> ps_holds s' p (root_page t) -> ready fuel s' t.
Proof.
  intros Hf F Hi Hp. constructor; [done|by rewrite (ps_frame_bound s)|]. by apply (ps_holds_room s' p).
Qed.

(** Pinning the root page and reading it. *)
Lemma pin_root fuel s t kvs :
  ready fuel s t -> tree_rep s t kvs ->
  exists p s' d, ps_pin fuel s (root_page t) = Done (Some p, s') /\ ps_data s' p = Done d /\
    leaf_rep d kvs /\ ps_holds s' p (root_page t) /\ ready fuel s' t /\ same_reads s s' /\
    ps_reads s' (root_page t) d.
Proof.
  intros [Hi Hf Hr] (_ & d & Hd & Hl).
  destruct (ps_pin_ok fuel s (root_page t) d Hi Hf Hr Hd) as (p & s' & E & Hi' & Hh & Hb & Hs).
  exists p, s', d. assert (ps_reads s' (root_page t) d) as Hd' by (by apply Hs).
  split_and!; auto; [by apply (ps_data_ok s' p (root_page t) d 0)|by apply (ready_frame fuel s s' t p)|by split].
Qed.

Lemma unpin_root fuel s t p :
  ready fuel s t -> ps_holds s p (root_page t) ->
  exists s', ps_unpin s p = Done s' /\ ready fuel s' t /\ same_reads s s'.
Proof.
  intros [Hi Hf Hr] Hh. destruct (ps_unpin_ok s p (root_page t) Hi Hh) as (s' & E & Hi' & Hh' & Hb & Hs).
  exists s'. split_and!; [done|by apply (ready_frame fuel s s' t p)|by split].
Qed.

(** The cursor [btree_find] returns. *)
Definition find_cursor t key kvs (c : BTreeCursor) : Prop :=
  cur_page c = root_page t /\
  match key_index key kvs 0 with
  | Some i => cur_cell c = i /\ is_end c = false
  | None => cur_cell c = len kvs /\ is_end c = true
  end.

Lemma btree_find_ok fuel s t kvs key :
  ready fuel s t -> tree_rep s t kvs ->
  exists c s', btree_find fuel s t key = Done (Some c, s') /\ find_cursor t key kvs c /\
    ready fuel s' t /\ same_reads s s'.
Proof.
  intros Hrd Hrep. pose proof Hrep as [Ho _]. unfold btree_find. rewrite Ho.
  change BTREE_MAX_DEPTH with (Datatypes.S 15). cbn [btree_find_loop].
  destruct (pin_root fuel s t kvs Hrd Hrep) as (p & s1 & d & -> & E1 & Hl & Hh & Hrd1 & Hs1 & _).
  rewrite bind_Done, E1, bind_Done, (leaf_get_header d kvs Hl), bind_Done.
  change (is_leaf_page (page_type (leaf_header kvs))) with true. cbv iota.
  unfold stack_set. rewrite decide_True by (unfold empty_stack; rewrite length_replicate; unfold BTREE_MAX_DEPTH; lia).
  rewrite bind_Done. change (cell_count (leaf_header kvs)) with (len kvs). rewrite Nat2Z.id.
  pose proof (find_in_leaf_ok d kvs key kvs 0 Hl eq_refl) as F.
  change (Z.of_nat 0) with 0 in F. rewrite F, bind_Done.
  destruct (unpin_root fuel s1 t p Hrd1 Hh) as (s2 & -> & Hrd2 & Hs2). rewrite bind_Done.
  eexists _, s2. split; [reflexivity|]. split_and!; [|done|by apply (same_reads_trans s s1)].
  unfold find_cursor. change (Z.of_nat 0) with 0. by destruct (key_index key kvs 0).
Qed.

(** What the tree stores for a key: the first pair with that key. *)
Definition tree_map kvs : gmap Z (list Z) := list_to_map kvs.

Lemma tree_map_Some kvs key v :
  NoDup kvs.*1 -> tree_map kvs !! key = Some v ->
  exists i, key_index key kvs 0 = Some (Z.of_nat i) /\ kvs !! i = Some (key, v).
Proof.
  intros Hnd Hv. apply elem_of_list_to_map in Hv; [|done].
  destruct (key_index key kvs 0) as [j|] eqn:E.
  - destruct (key_index_Some _ _ _ _ E) as (n & x & -> & Hx & Hk). exists n. split; [done|].
    apply list_elem_of_lookup in Hv as [m Hm].
    assert (m = n) as ->.
    { apply (NoDup_lookup kvs.*1 m n key); rewrite ?list_lookup_fmap; [done|by rewrite Hm|].
      rewrite Hx. simpl. by rewrite Hk. }
    done.
  - apply key_index_None in E. destruct E. apply list_elem_of_fmap. by exists (key, v).
Qed.

Lemma tree_map_None kvs key : tree_map kvs !! key = None <-> key ∉ kvs.*1.
Proof. symmetry. apply not_elem_of_list_to_map. Qed.

(** [btree_get] at cell [i]. *)
Lemma btree_get_ok fuel s t kvs c i key v buf :
  ready fuel s t -> tree_rep s t kvs -> cur_page c = root_page t -> is_end c = false ->
  cur_cell c = Z.of_nat i -> kvs !! i = Some (key, v) -> len v <= len buf ->
  exists s', btree_get fuel s c buf = Done (Some (key, splice 0 v buf, len v), s') /\
    ready fuel s' t /\ same_reads s s'.
Proof.
  intros Hrd Hrep Hp He Hc Hi Hb. unfold btree_get. rewrite He, Hp.
  destruct (pin_root fuel s t kvs Hrd Hrep) as (p & s1 & d & -> & E1 & Hl & Hh & Hrd1 & Hs1 & _).
  rewrite bind_Done, E1, bind_Done, (leaf_get_header d kvs Hl), bind_Done.
  change (cell_count (leaf_header kvs)) with (len kvs). pose proof (lookup_lt_Some _ _ _ Hi).
  destruct (Z.leb_spec (len kvs) (cur_cell c)); [lia|]. rewrite Hc.
  destruct (read_cell d _ _ _ (lr_len _ _ Hl) (lr_cells _ _ Hl i _ Hi)) as (o & -> & E2 & E3 & E4 & E5).
  cbn [fst snd] in *. rewrite bind_Done, E2, bind_Done, E3, bind_Done, E4, bind_Done.
  pose proof E5 as (Ho & Hob & _). rewrite (lr_len _ _ Hl) in Hob. unfold PAGE_SIZE in Hob.
  replace (16 + len v - 8 - 8) with (len v) by lia. rewrite u32_id by lia.
  assert ((if 0 <? len v then let* v0 := buf_read (o + 8 + 8) (len v) d in buf_write 0 v0 buf
           else Done buf) = Done (splice 0 v buf)) as ->.
  { destruct (Z.ltb_spec 0 (len v)).
    - replace (o + 8 + 8) with (o + 16) by lia. rewrite (bytes_at_read _ _ _ E5), bind_Done.
      rewrite buf_write_Done by lia. done.
    - destruct v; [|simpl in *; lia]. by destruct buf. }
  rewrite bind_Done.
  destruct (unpin_root fuel s1 t p Hrd1 Hh) as (s2 & -> & Hrd2 & Hs2). rewrite bind_Done.
  exists s2. split_and!; [done|done|by apply (same_reads_trans s s1)].
Qed.

(** ** Insertion *)

Lemma find_cursor_absent t key kvs c :
  key ∉ kvs.*1 -> find_cursor t key kvs c ->
  cur_page c = root_page t /\ cur_cell c = len kvs /\ is_end c = true.
Proof. intros Hn [Hp Hc]. apply (key_index_None key kvs 0) in Hn. rewrite Hn in Hc. tauto. Qed.

Lemma find_cursor_present t key kvs c :
  key ∈ kvs.*1 -> find_cursor t key kvs c -> cur_page c = root_page t /\ is_end c = false.
Proof.
  intros Hin [Hp Hc]. destruct (key_index key kvs 0) eqn:E; [tauto|].
  by apply key_index_None in E.
Qed.

(** [btree_insert] of an absent key runs [insert_cell] on the pinned root. *)
Lemma btree_insert_absent fuel s t kvs key v n :
  ready fuel s t -> tree_rep s t kvs -> key ∉ kvs.*1 ->
  exists p s1 d, leaf_rep d kvs /\ ps_holds s1 p (root_page t) /\ ready fuel s1 t /\
    same_reads s s1 /\
    btree_insert fuel s t key v n =
      let* r := insert_cell d (leaf_header kvs) (len kvs) key v n in
      match r with
      | None => let* s := ps_unpin s1 p in Done (-1, s)
      | Some d =>
        let* s := ps_set_data s1 p d in
        let* s := ps_mark_dirty s p in
        let* s := ps_unpin s p in
        Done (0, s)
      end.
Proof.
  intros Hrd Hrep Hn. pose proof Hrep as [Ho _]. unfold btree_insert. rewrite Ho. cbn [negb].
  destruct (btree_find_ok fuel s t kvs key Hrd Hrep) as (c & s1 & -> & Hc & Hrd1 & Hs1).
  destruct (find_cursor_absent t key kvs c Hn Hc) as (Hp & Hcell & He).
  rewrite bind_Done, He. cbn [negb]. rewrite Hp.
  destruct (pin_root fuel s1 t kvs Hrd1 (tree_rep_same _ _ _ _ Hs1 Hrep))
    as (p & s2 & d & -> & E2 & Hl & Hh & Hrd2 & Hs2 & _).
  rewrite bind_Done, E2, bind_Done, (leaf_get_header d kvs Hl), bind_Done, Hcell.
  exists p, s2, d. split_and!; auto. by apply (same_reads_trans s s1).
Qed.

Lemma btree_insert_new fuel s t kvs key v :
  ready fuel s t -> tree_rep s t kvs -> key ∉ kvs.*1 -> 18 + len v <= leaf_space kvs ->
  Forall is_byte v -> 0 <= key < 2 ^ 64 ->
  exists s', btree_insert fuel s t key v (len v) = Done (0, s') /\ ready fuel s' t /\
    tree_rep s' t (kvs ++ [(key, v)]) /\ ps_frame s s' /\
    forall m e, m <> root_page t -> ps_reads s' m e <-> ps_reads s m e.
Proof.
  intros Hrd Hrep Hn Hsp Hv Hk.
  destruct (btree_insert_absent fuel s t kvs key v (len v) Hrd Hrep Hn)
    as (p & s1 & d & Hl & Hh & [Hi1 Hf1 Hr1] & [Hb1 Hs1] & ->).
  destruct (insert_cell_ok d kvs key v Hl Hsp Hv Hk Hn) as (d' & -> & Hl'). rewrite bind_Done.
  destruct (ps_set_data_ok s1 p (root_page t) d' 0 Hi1 (or_introl eq_refl) Hh (lr_len _ _ Hl') (lr_bytes _ _ Hl'))
    as (s2 & -> & Hi2 & Hh2 & Hb2 & Hd2 & Ho2). rewrite bind_Done.
  destruct (ps_mark_dirty_ok s2 p (root_page t) Hi2 Hh2) as (s3 & -> & Hi3 & Hh3 & Hb3 & Hs3).
  rewrite bind_Done.
  destruct (ps_unpin_ok s3 p (root_page t) Hi3 Hh3) as (s4 & -> & Hi4 & Hh4 & Hb4 & Hs4).
  assert (ps_frame s1 s4) as Hb by (eapply ps_frame_trans; [|exact Hb4]; by eapply ps_frame_trans).
  rewrite bind_Done. exists s4. split_and!; auto; [by apply (ready_frame fuel s1 s4 t p)| |by eapply ps_frame_trans|].
  - split; [apply Hrep|]. exists d'. split; [|done]. apply Hs4, Hs3. done.
  - intros m e Hm. by rewrite (Hs4 m e), (Hs3 m e), (Ho2 m e Hm).
Qed.

Lemma btree_insert_full fuel s t kvs key v :
  ready fuel s t -> tree_rep s t kvs -> key ∉ kvs.*1 -> leaf_space kvs < 18 + len v ->
  len v <= 65517 ->
  exists s', btree_insert fuel s t key v (len v) = Done (-1, s') /\ ready fuel s' t /\
    same_reads s s'.
Proof.
  intros Hrd Hrep Hn Hsp Hv.
  destruct (btree_insert_absent fuel s t kvs key v (len v) Hrd Hrep Hn)
    as (p & s1 & d & Hl & Hh & Hrd1 & Hs1 & ->).
  rewrite (insert_cell_full d kvs key v Hl Hsp Hv), bind_Done.
  destruct (unpin_root fuel s1 t p Hrd1 Hh) as (s2 & -> & Hrd2 & Hs2). rewrite bind_Done.
  exists s2. split_and!; auto. by apply (same_reads_trans s s1).
Qed.

Lemma btree_insert_present fuel s t kvs key v n :
  ready fuel s t -> tree_rep s t kvs -> key ∈ kvs.*1 ->
  exists s', btree_insert fuel s t key v n = Done (0, s') /\ ready fuel s' t /\ same_reads s s'.
Proof.
  intros Hrd Hrep Hn. pose proof Hrep as [Ho _]. unfold btree_insert. rewrite Ho. cbn [negb].
  destruct (btree_find_ok fuel s t kvs key Hrd Hrep) as (c & s1 & -> & Hc & Hrd1 & Hs1).
  destruct (find_cursor_present t key kvs c Hn Hc) as (Hp & He).
  rewrite bind_Done, He. cbn [negb]. rewrite Hp.
  destruct (pin_root fuel s1 t kvs Hrd1 (tree_rep_same _ _ _ _ Hs1 Hrep))
    as (p & s2 & d & -> & _ & _ & Hh & Hrd2 & Hs2 & _).
  rewrite bind_Done. destruct (unpin_root fuel s2 t p Hrd2 Hh) as (s3 & -> & Hrd3 & Hs3).
  rewrite !bind_Done. exists s3. split_and!; auto.
  apply (same_reads_trans s s1); [done|]. by apply (same_reads_trans s1 s2).
Qed.

(** Only the first [len v] bytes of the caller's buffer matter. *)
Lemma btree_insert_prefix fuel s t key (v r : list Z) :
  btree_insert fuel s t key (v ++ r) (len v) = btree_insert fuel s t key v (len v).
Proof.
  assert (forall l : list Z, buf_read 0 (len v) (v ++ l) = Done v) as E.
  { intros l. rewrite buf_read_Done by (rewrite ?length_app; lia). unfold slice.
    change (Z.to_nat 0) with 0%nat. by rewrite drop_0, Nat2Z.id, take_app_length. }
  pose proof (E []) as E0. rewrite app_nil_r in E0.
  unfold btree_insert, insert_cell. by rewrite E, E0.
Qed.

(** ** Creation *)

Lemma btree_create_ok fuel s :
  ps_inv 0 s -> (ps_bound s < fuel)%nat -> ps_can_allocate s -> (forall m, ps_room s m) ->
  exists t s', btree_create fuel s = Done (Some t, s') /\ ready fuel s' t /\ tree_rep s' t [] /\
    cached s' t /\ ps_frame s s' /\
    forall m e, m <> root_page t -> ps_reads s m e -> ps_reads s' m e.
Proof.
  intros Hi Hf Ha Hr. unfold btree_create.
  destruct (ps_allocate_ok s Hi Ha) as (n & d & s1 & -> & Hi1 & Hd1 & Hb1 & Hr1 & Hs1).
  rewrite bind_Done.
  destruct (ps_pin_ok fuel s1 n d Hi1 ltac:(by rewrite (ps_frame_bound _ _ Hb1)) (Hr1 n (Hr n)) Hd1)
    as (p & s2 & -> & Hi2 & Hh2 & Hb2 & Hs2).
  rewrite bind_Done. rewrite (ps_data_ok s2 p n d 0 Hi2 Hh2) by (by apply Hs2). rewrite bind_Done.
  destruct (init_leaf_ok d) as (d' & -> & Hl). rewrite bind_Done.
  destruct (ps_set_data_ok s2 p n d' 0 Hi2 (or_introl eq_refl) Hh2 (lr_len _ _ Hl) (lr_bytes _ _ Hl))
    as (s3 & -> & Hi3 & Hh3 & Hb3 & Hd3 & Ho3). rewrite bind_Done.
  destruct (ps_mark_dirty_ok s3 p n Hi3 Hh3) as (s4 & -> & Hi4 & Hh4 & Hb4 & Hs4). rewrite bind_Done.
  destruct (ps_unpin_ok s4 p n Hi4 Hh4) as (s5 & -> & Hi5 & Hh5 & Hb5 & Hs5). rewrite bind_Done.
  assert (ps_frame s s5) as Hb.
  { eapply ps_frame_trans; [|exact Hb5]. eapply ps_frame_trans; [|exact Hb4].
    eapply ps_frame_trans; [|exact Hb3]. by eapply ps_frame_trans. }
  exists (btree_open s5 n), s5. split; [done|]. split_and!; [by apply (ready_frame fuel s s5 _ p)| |by exists p|done|].
  - split; [done|]. exists d'. split; [|done]. by apply Hs5, Hs4.
  - intros m e Hm He. simpl in Hm. apply Hs5, Hs4, Ho3, Hs2; auto.
Qed.

(** Without free pages to reuse, the root page is a new one. *)
Lemma btree_create_fresh fuel s t s' :
  ps_inv 0 s -> ps_fresh s -> btree_create fuel s = Done (Some t, s') ->
  0 < root_page t < 2 ^ 32 /\ forall d, ~ ps_reads s (root_page t) d.
Proof.
  intros Hi Hf E. unfold btree_create in E. destruct (ps_allocate s) as [[[r|] s1]| |] eqn:Ea; try discriminate E.
  pose proof (ps_allocate_fresh s r s1 Hi Hf Ea). cbn [obind] in E. outcome_inv.
  destruct o; outcome_inv; [|discriminate]. done.
Qed.

(** ** The abstract specification: a map with a byte budget *)

(** Return code, map and remaining space after inserting. *)
Definition spec_insert (st : gmap Z (list Z) * Z) (key : Z) (v : list Z)
    : Z * (gmap Z (list Z) * Z) :=
  let '(m, space) := st in
  match m !! key with
  | Some _ => (0, (m, space))
  | None => if 18 + len v <=? space then (0, (<[key := v]> m, space - (18 + len v)))
            else (-1, (m, space))
  end.

Definition tree_abs s t (st : gmap Z (list Z) * Z) : Prop :=
  exists kvs, tree_rep s t kvs /\ st = (tree_map kvs, leaf_space kvs).

Lemma tree_rep_nodup s t kvs : tree_rep s t kvs -> NoDup kvs.*1.
Proof. intros (_ & d & _ & Hl). apply Hl. Qed.

Lemma tree_map_snoc kvs key v :
  key ∉ kvs.*1 -> tree_map (kvs ++ [(key, v)]) = <[key := v]> (tree_map kvs).
Proof.
  intros Hn. unfold tree_map. rewrite list_to_map_snoc; done.
Qed.

Lemma leaf_space_snoc kvs key v :
  leaf_space (kvs ++ [(key, v)]) = leaf_space kvs - (18 + len v).
Proof. unfold leaf_space. rewrite content_size_snoc, length_app. simpl. lia. Qed.

Lemma btree_insert_refines fuel s t st key v :
  ready fuel s t -> tree_abs s t st -> 0 <= key < 2 ^ 64 -> Forall is_byte v -> len v <= 65517 ->
  exists s', btree_insert fuel s t key v (len v) = Done (fst (spec_insert st key v), s') /\
    ready fuel s' t /\ tree_abs s' t (snd (spec_insert st key v)) /\ ps_frame s s' /\
    forall m e, m <> root_page t -> ps_reads s' m e <-> ps_reads s m e.
Proof.
  intros Hrd (kvs & Hrep & ->) Hk Hv Hl. unfold spec_insert.
  destruct (tree_map kvs !! key) as [w|] eqn:Hm.
  - apply elem_of_list_to_map in Hm; [|by eapply tree_rep_nodup].
    destruct (btree_insert_present fuel s t kvs key v (len v)) as (s' & E & Hrd' & Hs); auto.
    { apply list_elem_of_fmap. by exists (key, w). }
    exists s'. split_and!; auto; [|apply Hs|intros; apply Hs]. exists kvs. split; [|done]. by apply (tree_rep_same s).
  - apply tree_map_None in Hm. destruct (Z.leb_spec (18 + len v) (leaf_space kvs)).
    + destruct (btree_insert_new fuel s t kvs key v) as (s' & E & Hrd' & Hrep' & Hb & Ho); auto.
      exists s'. split_and!; auto. exists (kvs ++ [(key, v)]). split; [done|].
      by rewrite tree_map_snoc, leaf_space_snoc.
    + destruct (btree_insert_full fuel s t kvs key v) as (s' & E & Hrd' & Hs); auto.
      exists s'. split_and!; auto; [|apply Hs|intros; apply Hs]. exists kvs. split; [|done]. by apply (tree_rep_same s).
Qed.

(** ** Clients: sequences of insertions, lookup, full scan *)

Fixpoint insert_all (fuel : nat) s t (ops : list kv) : outcome (list Z * S) :=
  match ops with
  | [] => Done ([], s)
  | (key, v) :: ops =>
      let* '(r, s) := btree_insert fuel s t key v (len v) in
      let* '(rs, s) := insert_all fuel s t ops in
      Done (r :: rs, s)
  end.

Fixpoint spec_insert_all (st : gmap Z (list Z) * Z) (ops : list kv)
    : list Z * (gmap Z (list Z) * Z) :=
  match ops with
  | [] => ([], st)
  | (key, v) :: ops =>
      let '(r, st) := spec_insert st key v in
      let '(rs, st) := spec_insert_all st ops in
      (r :: rs, st)
  end.

(** [btree_find], then [btree_get] when the cursor is valid. *)
Definition btree_lookup (fuel : nat) s t key buf : outcome (option (Z * list Z * Z) * S) :=
  let* '(c, s) := btree_find fuel s t key in
  match c with
  | Some c => if btree_cursor_valid (Some c) then btree_get fuel s c buf else Done (None, s)
  | None => Done (None, s)
  end.

(** for (c = btree_first(t); btree_cursor_valid(c); btree_cursor_next(c)) btree_get(c, ..) *)
Fixpoint scan_loop (n : nat) (fuel : nat) s (c : BTreeCursor) buf
    : outcome (list (Z * list Z) * S) :=
  match n with
  | O => NoFuel
  | Datatypes.S n =>
      if btree_cursor_valid (Some c) then
        let* '(r, s) := btree_get fuel s c buf in
        let* '(c, s) := btree_cursor_next fuel s c in
        let* '(rest, s) := scan_loop n fuel s c buf in
        match r with
        | Some (key, b, n) => Done ((key, take (Z.to_nat n) b) :: rest, s)
        | None => Done (rest, s)
        end
      else Done ([], s)
  end.

Definition btree_scan (n : nat) (fuel : nat) s t buf : outcome (list (Z * list Z) * S) :=
  let* '(c, s) := btree_first fuel s t in
  match c with
  | Some c => scan_loop n fuel s c buf
  | None => Done ([], s)
  end.

Definition op_ok (x : kv) : Prop :=
  0 <= fst x < 2 ^ 64 /\ Forall is_byte (snd x) /\ len (snd x) <= 65517.

Lemma insert_all_refines fuel ops s t st :
  ready fuel s t -> tree_abs s t st -> Forall op_ok ops ->
  exists s', insert_all fuel s t ops = Done (fst (spec_insert_all st ops), s') /\
    ready fuel s' t /\ tree_abs s' t (snd (spec_insert_all st ops)) /\
    forall m e, m <> root_page t -> ps_reads s' m e <-> ps_reads s m e.
Proof.
  revert s st. induction ops as [|[key v] ops IH]; intros s st Hrd Hab Hok; cbn [insert_all spec_insert_all].
  - exists s. split_and!; try done; apply same_reads_refl.
  - apply Forall_cons_iff in Hok as [(Hk & Hb & Hl) Hok]. cbn [fst snd] in *.
    destruct (btree_insert_refines fuel s t st key v) as (s1 & -> & Hrd1 & Hab1 & _ & Ho1); auto.
    rewrite bind_Done. destruct (spec_insert st key v) as [r st1]. cbn [fst snd] in *.
    destruct (IH s1 st1) as (s2 & -> & Hrd2 & Hab2 & Ho2); auto. rewrite bind_Done.
    destruct (spec_insert_all st1 ops) as [rs st2]. exists s2. split_and!; auto.
    intros m e Hm. rewrite (Ho2 m e Hm). auto.
Qed.

Lemma btree_lookup_ok fuel s t m space key buf :
  ready fuel s t -> tree_abs s t (m, space) ->
  (forall v, m !! key = Some v -> len v <= len buf) ->
  exists s', btree_lookup fuel s t key buf =
      Done ((fun v => (key, splice 0 v buf, len v)) <$> m !! key, s') /\
    ready fuel s' t /\ same_reads s s'.
Proof.
  intros Hrd (kvs & Hrep & E) Hb. simplify_eq. unfold btree_lookup.
  destruct (btree_find_ok fuel s t kvs key Hrd Hrep) as (c & s1 & -> & Hc & Hrd1 & Hs1).
  rewrite bind_Done. destruct (tree_map kvs !! key) as [v|] eqn:Hm.
  - destruct (tree_map_Some kvs key v (tree_rep_nodup _ _ _ Hrep) Hm) as (i & Hi & Hx).
    unfold find_cursor in Hc. rewrite Hi in Hc. destruct Hc as (Hp & Hcell & He).
    unfold btree_cursor_valid. rewrite He. cbn [negb].
    destruct (btree_get_ok fuel s1 t kvs c i key v buf) as (s2 & -> & Hrd2 & Hs2); auto.
    { by apply (tree_rep_same s). }
    exists s2. split_and!; [done|done|by apply (same_reads_trans s s1)].
  - apply tree_map_None in Hm. destruct (find_cursor_absent t key kvs c Hm Hc) as (_ & _ & He).
    unfold btree_cursor_valid. rewrite He. cbn [negb]. exists s1. by split_and!.
Qed.

(** C1: the tree refines a map with a byte budget: after creating a tree and any
    sequence of insertions, every return code is the one the specification
    gives, a lookup of any key returns exactly the value the specification maps
    it to, and no other page has changed. *)
Theorem btree_refines_map fuel s ops :
  ps_inv 0 s -> (ps_bound s < fuel)%nat -> ps_can_allocate s -> (forall m, ps_room s m) ->
  Forall op_ok ops ->
  exists t s1 s2 codes m space,
    btree_create fuel s = Done (Some t, s1) /\
    insert_all fuel s1 t ops = Done (codes, s2) /\
    spec_insert_all (∅, 4086) ops = (codes, (m, space)) /\
    (forall key buf, (forall v, m !! key = Some v -> len v <= len buf) ->
       exists s3, btree_lookup fuel s2 t key buf =
         Done ((fun v => (key, splice 0 v buf, len v)) <$> m !! key, s3)) /\
    forall n e, n <> root_page t -> ps_reads s n e -> ps_reads s2 n e.
Proof.
  intros Hi Hf Ha Hr Hok.
  destruct (btree_create_ok fuel s Hi Hf Ha Hr) as (t & s1 & E1 & Hrd1 & Hrep1 & _ & _ & Ho1).
  destruct (insert_all_refines fuel ops s1 t (∅, 4086)) as (s2 & E2 & Hrd2 & Hab2 & Ho2); auto.
  { by exists []. }
  destruct (spec_insert_all (∅, 4086) ops) as [codes [m space]] eqn:E3.
  exists t, s1, s2, codes, m, space. split_and!; auto.
  - intros key buf Hb. destruct (btree_lookup_ok fuel s2 t m space key buf) as (s3 & E & _); eauto.
  - intros n e Hn He. apply Ho2; auto.
Qed.

(** [btree_update] of a key that is present reports success and leaves the
    stored value as it was (the code finds the key and returns 0). *)
Theorem btree_update_ineffective fuel s t m space key v w buf :
  ready fuel s t -> tree_abs s t (m, space) -> m !! key = Some v -> len v <= len buf ->
  exists s1 s2, btree_update fuel s t key w (len w) = Done (0, s1) /\
    btree_lookup fuel s1 t key buf = Done (Some (key, splice 0 v buf, len v), s2).
Proof.
  intros Hrd (kvs & Hrep & E) Hv Hb. simplify_eq. unfold btree_update.
  assert (key ∈ kvs.*1) as Hin.
  { destruct (tree_map_Some kvs key v (tree_rep_nodup _ _ _ Hrep) Hv) as (i & _ & Hx).
    apply list_elem_of_fmap. exists (key, v). split; [done|]. by eapply list_elem_of_lookup_2. }
  destruct (btree_insert_present fuel s t kvs key w (len w)) as (s1 & E1 & Hrd1 & Hs1); auto.
  destruct (btree_lookup_ok fuel s1 t (tree_map kvs) (leaf_space kvs) key buf) as (s2 & E2 & _); auto.
  - exists kvs. split; [|done]. by apply (tree_rep_same s).
  - intros v' Hv'. by simplify_eq.
  - exists s1, s2. by rewrite E2, Hv.
Qed.

(** A value of 65518 bytes passes the space check (the 16-bit cell size
    wraps to 0) and is copied past the end of the page. *)
Theorem btree_insert_oversized_undefined fuel s t m space key v :
  ready fuel s t -> tree_abs s t (m, space) -> m !! key = None -> len v = 65518 ->
  btree_insert fuel s t key v (len v) = Undef.
Proof.
  intros Hrd (kvs & Hrep & E) Hn Hl. simplify_eq. apply tree_map_None in Hn.
  destruct (btree_insert_absent fuel s t kvs key v (len v) Hrd Hrep Hn)
    as (p & s1 & d & Hd & _ & _ & _ & ->).
  by rewrite (insert_cell_overflow d kvs key v Hd Hl).
Qed.

(** ** Scanning *)

Lemma btree_first_ok fuel s t kvs :
  ready fuel s t -> tree_rep s t kvs ->
  exists c s', btree_first fuel s t = Done (Some c, s') /\ cur_page c = root_page t /\
    cur_cell c = 0 /\ is_end c = (len kvs =? 0) /\ ready fuel s' t /\ same_reads s s'.
Proof.
  intros Hrd Hrep. pose proof Hrep as [Ho _]. unfold btree_first. rewrite Ho.
  change BTREE_MAX_DEPTH with (Datatypes.S 15). cbn [btree_first_loop].
  destruct (pin_root fuel s t kvs Hrd Hrep) as (p & s1 & d & -> & E1 & Hl & Hh & Hrd1 & Hs1 & _).
  rewrite bind_Done, E1, bind_Done, (leaf_get_header d kvs Hl), bind_Done.
  change (is_leaf_page (page_type (leaf_header kvs))) with true. cbv iota.
  unfold stack_set. rewrite decide_True by (unfold empty_stack; rewrite length_replicate; unfold BTREE_MAX_DEPTH; lia).
  rewrite bind_Done. destruct (unpin_root fuel s1 t p Hrd1 Hh) as (s2 & -> & Hrd2 & Hs2).
  rewrite bind_Done. eexists _, s2. split; [reflexivity|].
  split_and!; try done. by apply (same_reads_trans s s1).
Qed.

Lemma btree_cursor_next_ok fuel s t kvs c i :
  ready fuel s t -> tree_rep s t kvs -> cur_page c = root_page t -> is_end c = false ->
  cur_cell c = Z.of_nat i -> (i < length kvs)%nat ->
  exists c' s', btree_cursor_next fuel s c = Done (c', s') /\ cur_page c' = root_page t /\
    cur_cell c' = Z.of_nat (Datatypes.S i) /\
    is_end c' = bool_decide (length kvs = Datatypes.S i) /\ ready fuel s' t /\ same_reads s s'.
Proof.
  intros Hrd Hrep Hp He Hc Hi. unfold btree_cursor_next. rewrite He, Hp.
  destruct (pin_root fuel s t kvs Hrd Hrep) as (p & s1 & d & -> & E1 & Hl & Hh & Hrd1 & Hs1 & _).
  rewrite bind_Done, E1, bind_Done, (leaf_get_header d kvs Hl), bind_Done.
  change (cell_count (leaf_header kvs)) with (len kvs).
  destruct (unpin_root fuel s1 t p Hrd1 Hh) as (s2 & -> & Hrd2 & Hs2). rewrite bind_Done.
  eexists _, s2. split; [reflexivity|]. rewrite Hc.
  destruct (Z.leb_spec (len kvs) (Z.of_nat i + 1)); cbn [cur_page cur_cell is_end];
    (split_and!; [done|lia| |done|by apply (same_reads_trans s s1)]).
  - rewrite bool_decide_eq_true_2; [done|lia].
  - rewrite bool_decide_eq_false_2; [done|lia].
Qed.

Lemma take_splice (v buf : list Z) : take (length v) (splice 0 v buf) = v.
Proof. unfold splice. rewrite take_0. simpl. by rewrite take_app_length. Qed.

Lemma scan_loop_ok n fuel r s t kvs c i buf :
  ready fuel s t -> tree_rep s t kvs -> cur_page c = root_page t ->
  cur_cell c = Z.of_nat i -> drop i kvs = r -> is_end c = bool_decide (r = []) ->
  (forall x, x ∈ kvs -> len (snd x) <= len buf) -> (length r < n)%nat ->
  exists s', scan_loop n fuel s c buf = Done (r, s') /\ ready fuel s' t /\ same_reads s s'.
Proof.
  intros Hrd Hrep Hp Hc Hr He Hb Hn.
  revert n s c i Hrd Hrep Hp Hc Hr He Hn.
  induction r as [|[key v] r IH]; intros n s c i Hrd Hrep Hp Hc Hr He Hn;
    (destruct n as [|n]; [simpl in Hn; lia|]); cbn [scan_loop]; unfold btree_cursor_valid; rewrite He.
  - rewrite bool_decide_eq_true_2 by done. exists s. split_and!; try done; apply same_reads_refl.
  - rewrite bool_decide_eq_false_2 by done. cbn [negb].
    rewrite bool_decide_eq_false_2 in He by done.
    assert (kvs !! i = Some (key, v)) as Hx
      by (rewrite <- (Nat.add_0_r i), <- lookup_drop, Hr; done).
    assert (drop (Datatypes.S i) kvs = r) as Hr'.
    { apply (f_equal (drop 1)) in Hr. rewrite drop_drop in Hr. by rewrite Nat.add_comm in Hr. }
    destruct (btree_get_ok fuel s t kvs c i key v buf) as (s1 & -> & Hrd1 & Hs1); auto.
    { apply (Hb (key, v)). by eapply list_elem_of_lookup_2. }
    rewrite bind_Done. pose proof (lookup_lt_Some _ _ _ Hx) as Hi.
    assert (tree_rep s1 t kvs) as Hrep1 by (by apply (tree_rep_same s)).
    destruct (btree_cursor_next_ok fuel s1 t kvs c i) as (c' & s2 & -> & Hp' & Hc' & He' & Hrd2 & Hs2); auto.
    rewrite bind_Done. assert (tree_rep s2 t kvs) as Hrep2 by (by apply (tree_rep_same s1)).
    destruct (IH n s2 c' (Datatypes.S i)) as (s3 & -> & Hrd3 & Hs3); auto.
    { rewrite He', <- Hr'. apply bool_decide_ext.
      pose proof (length_drop kvs (Datatypes.S i)) as Hld.
      destruct (drop (Datatypes.S i) kvs); simpl in Hld; split; intros; try done; lia. }
    { simpl in Hn. lia. }
    rewrite bind_Done, Nat2Z.id, take_splice. exists s3. split_and!; auto.
    apply (same_reads_trans s s1); [done|]. by apply (same_reads_trans s1 s2).
Qed.

(** C24: a full scan as catalog.c does it (btree_first, then btree_get and
    btree_cursor_next until the cursor is invalid) terminates and returns every pair
    of the tree exactly once, without changing any page. The order is the order of
    insertion, not the key order that design/api-design.md promises for btree_first,
    and the scan is complete because btree_get leaves the cursor where it is, although
    btree.h says that it advances it. *)
Theorem btree_scan_complete fuel s t kvs buf n :
  ready fuel s t -> tree_rep s t kvs -> (forall x, x ∈ kvs -> len (snd x) <= len buf) ->
  (length kvs < n)%nat ->
  exists s', btree_scan n fuel s t buf = Done (kvs, s') /\ same_reads s s'.
Proof.
  intros Hrd Hrep Hb Hn. unfold btree_scan.
  destruct (btree_first_ok fuel s t kvs Hrd Hrep) as (c & s1 & -> & Hp & Hc & He & Hrd1 & Hs1).
  rewrite bind_Done.
  destruct (scan_loop_ok n fuel kvs s1 t kvs c 0 buf) as (s2 & E & _ & Hs2); auto.
  - by apply (tree_rep_same s).
  - rewrite He. destruct kvs; [done|]. rewrite bool_decide_eq_false_2 by done. simpl. lia.
  - exists s2. split; [done|]. by apply (same_reads_trans s s1).
Qed.
End trees.

(** ** The tree on the page cache *)

(** A new cache over the two-page demo database. *)
Lemma demo_store :
  exists c, page_cache_create 100 4 (Some demo_pager) = Done c /\ ps_inv 0 c /\
    (ps_bound c < 5)%nat /\ ps_can_allocate c /\ forall m, ps_room c m.
Proof.
  destruct (page_cache_create_spec 100 4 demo_pager) as (c & E & Hc & Hh & Hp & Hm & Hn);
    [lia|apply demo_pager_wf|].
  exists c. split; [done|]. split_and!.
  - split; [done|]. by apply synced_empty.
  - simpl. rewrite Hm. unfold effective_max, PAGER_MAX_PAGES. simpl. lia.
  - exists demo_pager, []. split_and!; [done|apply demo_pager_freelist|reflexivity|].
    by intros n ?%elem_of_nil.
  - intros m. left. rewrite Hm, Hn. reflexivity.
Qed.

Definition demo_ops : list kv := [(5, [1; 2; 3]); (9, []); (5, [7]); (11, replicate 4095 0)].

Lemma demo_ops_ok : Forall op_ok demo_ops.
Proof.
  assert (forall k v, 0 <= k < 100 -> Forall is_byte v -> len v <= 4095 -> op_ok (k, v)) as H
    by (intros; split_and!; simpl; lia || done).
  unfold demo_ops. repeat apply Forall_cons_2; try apply Forall_nil_2;
    (apply H; [lia| |rewrite ?length_replicate; simpl; lia]).
  all: first [apply Forall_replicate | repeat apply Forall_cons_2; try apply Forall_nil_2];
    unfold is_byte; lia.
Qed.

Lemma btree_refines_map_witness :
  exists c t s1 s2 codes m space, page_cache_create 100 4 (Some demo_pager) = Done c /\
    btree_create 5 c = Done (Some t, s1) /\
    insert_all 5 s1 t demo_ops = Done (codes, s2) /\
    spec_insert_all (∅, 4086) demo_ops = (codes, (m, space)) /\
    (forall key buf, (forall v, m !! key = Some v -> len v <= len buf) ->
       exists s3, btree_lookup 5 s2 t key buf =
         Done ((fun v => (key, splice 0 v buf, len v)) <$> m !! key, s3)) /\
    forall n e, n <> root_page t -> ps_reads c n e -> ps_reads s2 n e.
Proof.
  destruct demo_store as (c & E & Hi & Hf & Ha & Hr).
  destruct (btree_refines_map 5 c demo_ops Hi Hf Ha Hr demo_ops_ok)
    as (t & s1 & s2 & codes & m & space & H).
  exists c, t, s1, s2, codes, m, space. split; [exact E|exact H].
Defined.

(** The demo tree: key 5 stored. *)
Lemma demo_tree :
  exists c t s1 s2, page_cache_create 100 4 (Some demo_pager) = Done c /\
    btree_create 5 c = Done (Some t, s1) /\
    btree_insert 5 s1 t 5 [1; 2; 3] (len [1; 2; 3]) = Done (0, s2) /\
    ready 5 s2 t /\ tree_rep s2 t [(5, [1; 2; 3])].
Proof.
  destruct demo_store as (c & E & Hi & Hf & Ha & Hr).
  destruct (btree_create_ok 5 c Hi Hf Ha Hr) as (t & s1 & E1 & Hrd1 & Hrep1 & _).
  destruct (btree_insert_new 5 s1 t [] 5 [1; 2; 3]) as (s2 & E2 & Hrd2 & Hrep2 & _); auto.
  - by intros ?%elem_of_nil.
  - vm_compute. congruence.
  - repeat apply Forall_cons_2; try apply Forall_nil_2; unfold is_byte; lia.
  - lia.
  - by exists c, t, s1, s2.
Qed.

Lemma btree_update_ineffective_witness :
  exists c t s1 s2 s3 s4, page_cache_create 100 4 (Some demo_pager) = Done c /\
    btree_create 5 c = Done (Some t, s1) /\
    btree_insert 5 s1 t 5 [1; 2; 3] 3 = Done (0, s2) /\
    btree_update 5 s2 t 5 [9] 1 = Done (0, s3) /\
    btree_lookup 5 s3 t 5 [0; 0; 0; 0] = Done (Some (5, [1; 2; 3; 0], 3), s4).
Proof.
  destruct demo_tree as (c & t & s1 & s2 & E0 & E1 & E2 & Hrd & Hrep).
  destruct (btree_update_ineffective 5 s2 t {[5 := [1; 2; 3]]} (leaf_space [(5, [1; 2; 3])]) 5
    [1; 2; 3] [9] [0; 0; 0; 0]) as (s3 & s4 & E3 & E4); auto.
  - by exists [(5, [1; 2; 3])].
  - simpl. lia.
  - by exists c, t, s1, s2, s3, s4.
Defined.

Lemma btree_insert_oversized_undefined_witness :
  exists c t s1 s2, page_cache_create 100 4 (Some demo_pager) = Done c /\
    btree_create 5 c = Done (Some t, s1) /\
    btree_insert 5 s1 t 5 [1; 2; 3] 3 = Done (0, s2) /\
    btree_insert 5 s2 t 6 (replicate (Z.to_nat 65518) 0) (len (replicate (Z.to_nat 65518) 0)) = Undef.
Proof.
  destruct demo_tree as (c & t & s1 & s2 & E0 & E1 & E2 & Hrd & Hrep).
  exists c, t, s1, s2. split; [exact E0|]. split; [exact E1|]. split; [exact E2|].
  apply (btree_insert_oversized_undefined 5 s2 t {[5 := [1; 2; 3]]} (leaf_space [(5, [1; 2; 3])])).
  - exact Hrd.
  - by exists [(5, [1; 2; 3])].
  - reflexivity.
  - rewrite length_replicate. apply Z2Nat.id. lia.
Defined.

Lemma btree_scan_complete_witness :
  exists c t s1 s2 s3, page_cache_create 100 4 (Some demo_pager) = Done c /\
    btree_create 5 c = Done (Some t, s1) /\
    btree_insert 5 s1 t 5 [1; 2; 3] 3 = Done (0, s2) /\
    btree_scan 2 5 s2 t [0; 0; 0; 0] = Done ([(5, [1; 2; 3])], s3) /\ same_reads s2 s3.
Proof.
  destruct demo_tree as (c & t & s1 & s2 & E0 & E1 & E2 & Hrd & Hrep).
  destruct (btree_scan_complete 5 s2 t [(5, [1; 2; 3])] [0; 0; 0; 0] 2) as (s3 & E3 & Hs); auto.
  - intros x [->|?%elem_of_nil]%elem_of_cons; [simpl; lia|done].
  - by exists c, t, s1, s2, s3.
Defined.

(** C14: durability across a clean shutdown: once the tree is closed (its pages
    flushed) and the database file closed, opening the file again with a new,
    empty cache and the same root page gives a tree with the same contents. *)
Theorem btree_survives_reopen fuel (c : PageCache) t kvs io dflt max key v buf :
  ready fuel c t -> tree_rep c t kvs -> tree_map kvs !! key = Some v ->
  benign io -> 0 < dflt -> len v <= len buf -> (Z.to_nat (effective_max dflt max) < fuel)%nat ->
  exists c1 pgr1 q c2 c3,
    btree_close fuel c t = Done (0, c1) /\ pager c1 = Some pgr1 /\
    pager_open (FsReadWrite (pager_close pgr1)) io = Done (Some q) /\
    page_cache_create dflt max (Some q) = Done c2 /\
    tree_rep c2 (btree_open c2 (root_page t)) kvs /\
    btree_lookup fuel c2 (btree_open c2 (root_page t)) key buf =
      Done (Some (key, splice 0 v buf, len v), c3).
Proof.
  intros [[Hc Hs] Hf _] (_ & d & Hd & Hl) Hm Hio Hdf Hb Hfm.
  destruct (page_cache_flush_spec fuel c Hc Hs Hf) as (c1 & E1 & Hfl & _ & Hv).
  destruct (ci_pager c1 (fl_inv c c1 Hfl)) as (pgr1 & Hp1 & Hwf1 & _).
  destruct (pager_reopen pgr1 io) as (q & E2 & Hq & Hby & _); auto.
  destruct (page_cache_create_spec dflt max q) as (c2 & E3 & Hc2 & Hh2 & Hp2 & Hm2 & Hn2); auto.
  set (t2 := btree_open c2 (root_page t)).
  assert (tree_rep c2 t2 kvs) as Hrep2.
  { split; [done|]. exists d. split; [|done]. apply view_empty; [done|].
    specialize (Hv _ _ Hd). unfold on_disk, disk in *. by rewrite Hp2, Hby; rewrite Hp1 in Hv. }
  assert (ready fuel c2 t2) as Hrd2.
  { constructor; [split; [done|by apply synced_empty]|simpl; lia|left].
    rewrite Hn2, Hm2. unfold effective_max, PAGER_MAX_PAGES. destruct (Z.leb_spec max 0); lia. }
  destruct (btree_lookup_ok fuel c2 t2 (tree_map kvs) (leaf_space kvs) key buf)
    as (c3 & E4 & _); auto.
  { by exists kvs. }
  { intros v' Hv'. by simplify_eq. }
  exists c1, pgr1, q, c2, c3. split_and!; auto.
  - unfold btree_close. simpl. rewrite E1. done.
  - subst t2. by rewrite E4, Hm.
Qed.

Lemma btree_survives_reopen_witness :
  exists c t s1 s2 c1 pgr1 q c2 c3, page_cache_create 100 4 (Some demo_pager) = Done c /\
    btree_create 5 c = Done (Some t, s1) /\
    btree_insert 5 s1 t 5 [1; 2; 3] 3 = Done (0, s2) /\
    btree_close 5 s2 t = Done (0, c1) /\ pager c1 = Some pgr1 /\
    pager_open (FsReadWrite (pager_close pgr1)) [IoIntr] = Done (Some q) /\
    page_cache_create 100 2 (Some q) = Done c2 /\
    tree_rep c2 (btree_open c2 (root_page t)) [(5, [1; 2; 3])] /\
    btree_lookup 5 c2 (btree_open c2 (root_page t)) 5 [0; 0; 0] = Done (Some (5, [1; 2; 3], 3), c3).
Proof.
  destruct demo_tree as (c & t & s1 & s2 & E0 & E1 & E2 & Hrd & Hrep).
  destruct (btree_survives_reopen 5 s2 t [(5, [1; 2; 3])] [IoIntr] 100 2 5 [1; 2; 3] [0; 0; 0])
    as (c1 & pgr1 & q & c2 & c3 & H); auto.
  - repeat constructor; discriminate.
  - lia.
  - unfold effective_max, PAGER_MAX_PAGES. simpl. lia.
  - by exists c, t, s1, s2, c1, pgr1, q, c2, c3.
Defined.
