(* ===== verification/Wal.v ===== *)
(** Model of src/storage/wal.c: the log file, its header, entries and page
    frames, the recovery scan and truncation, over the file model of Posix.v. *)
From Stdlib Require Import ZArith Lia Znumtheory Zpow_facts.
From stdpp Require Import base numbers option list.
From S2P Require Import Prelude Posix Pager.

(** types.h defines WAL_MAGIC before wal.h does, so this is the value used. *)
Definition WAL_MAGIC : Z := 0x377F0682.
Definition WAL_FORMAT_VERSION : Z := 1.
Definition WAL_HEADER_SIZE : Z := 32.
Definition WAL_FRAME_HEADER_SIZE : Z := 32.
Definition WAL_AUTOCHECKPOINT_THRESHOLD : Z := 64 * 1024 * 1024.
Definition SUCCESS : Z := 0.
Definition ERR_INTERNAL : Z := 9000.
Definition ERR_STORAGE_IO : Z := 4000.

(** ** On-disk structures *)

Record WALHeader : Type := mkWALHeader {
  wh_magic : Z;
  wh_version : Z;
  wh_start_offset : Z;
  wh_end_offset : Z;
  wh_frame_count : Z;
  wh_checksum_1 : Z;
  wh_checksum_2 : Z;
  wh_reserved : list Z }.

Definition walheader_bytes (h : WALHeader) : list Z :=
  le_bytes 4 (wh_magic h) ++ le_bytes 4 (wh_version h) ++ le_bytes 8 (wh_start_offset h) ++
  le_bytes 8 (wh_end_offset h) ++ le_bytes 4 (wh_frame_count h) ++
  le_bytes 4 (wh_checksum_1 h) ++ le_bytes 4 (wh_checksum_2 h) ++ wh_reserved h.

Definition walheader_of_bytes (b : list Z) : WALHeader :=
  mkWALHeader (le_val (slice 0 4 b)) (le_val (slice 4 4 b)) (le_val (slice 8 8 b))
    (le_val (slice 16 8 b)) (le_val (slice 24 4 b)) (le_val (slice 28 4 b))
    (le_val (slice 32 4 b)) (slice 36 4 b).

(** sizeof(WALHeader); the comment and WAL_HEADER_SIZE say 32. *)
Definition sizeof_WALHeader : nat := 40.

Inductive WALEntryType : Type :=
  | WAL_ENTRY_BEGIN
  | WAL_ENTRY_COMMIT
  | WAL_ENTRY_ROLLBACK
  | WAL_ENTRY_PAGE_MODIFY
  | WAL_ENTRY_CHECKPOINT.

Definition entry_code (t : WALEntryType) : Z :=
  match t with
  | WAL_ENTRY_BEGIN => 1
  | WAL_ENTRY_COMMIT => 2
  | WAL_ENTRY_ROLLBACK => 3
  | WAL_ENTRY_PAGE_MODIFY => 4
  | WAL_ENTRY_CHECKPOINT => 5
  end.

Record WALEntryHeader : Type := mkEntryHeader {
  eh_type : Z;
  eh_flags : Z;
  eh_size : Z;
  eh_checksum : Z;
  eh_tx_id : Z }.

Definition entry_header_bytes (h : WALEntryHeader) : list Z :=
  le_bytes 1 (eh_type h) ++ le_bytes 1 (eh_flags h) ++ le_bytes 2 (eh_size h) ++
  le_bytes 4 (eh_checksum h) ++ le_bytes 8 (eh_tx_id h).

Definition entry_header_of_bytes (b : list Z) : WALEntryHeader :=
  mkEntryHeader (le_val (slice 0 1 b)) (le_val (slice 1 1 b)) (le_val (slice 2 2 b))
    (le_val (slice 4 4 b)) (le_val (slice 8 8 b)).

(** sizeof(WALEntryHeader); WAL_ENTRY_HEADER_SIZE says 12. *)
Definition sizeof_WALEntryHeader : nat := 16.

Record WAL : Type := mkWAL {
  wfd : file;
  log_offset : Z;
  last_checkpoint : Z;
  frame_count : Z;
  current_tx_id : Z;
  wal_file_size : Z;
  checkpoint_threshold : Z;
  wal_is_open : bool }.

Definition set_wfd (w : WAL) (f : file) : WAL :=
  mkWAL f (log_offset w) (last_checkpoint w) (frame_count w) (current_tx_id w)
    (wal_file_size w) (checkpoint_threshold w) (wal_is_open w).
Definition set_log_offset (w : WAL) (n : Z) : WAL :=
  mkWAL (wfd w) n (last_checkpoint w) (frame_count w) (current_tx_id w)
    (wal_file_size w) (checkpoint_threshold w) (wal_is_open w).
Definition set_frame_count (w : WAL) (n : Z) : WAL :=
  mkWAL (wfd w) (log_offset w) (last_checkpoint w) n (current_tx_id w)
    (wal_file_size w) (checkpoint_threshold w) (wal_is_open w).
Definition set_current_tx_id (w : WAL) (n : Z) : WAL :=
  mkWAL (wfd w) (log_offset w) (last_checkpoint w) (frame_count w) n
    (wal_file_size w) (checkpoint_threshold w) (wal_is_open w).
Definition set_wal_file_size (w : WAL) (n : Z) : WAL :=
  mkWAL (wfd w) (log_offset w) (last_checkpoint w) (frame_count w) (current_tx_id w)
    n (checkpoint_threshold w) (wal_is_open w).

(** ** Helpers *)

Fixpoint wal_checksum_from (sum : Z) (bytes : list Z) : Z :=
  match bytes with
  | [] => sum
  | b :: bytes => wal_checksum_from (u32 (u32 (Z.shiftl sum 5) + sum + b)) bytes
  end.

Definition wal_checksum (bytes : list Z) : Z := wal_checksum_from 0 bytes.

(** The path of the log: the database path followed by "-wal". *)
Definition wal_get_path (db_path : list Z) : list Z := db_path ++ [45; 119; 97; 108].

Definition wal_verify_magic (f : file) : outcome (Z * file) :=
  let '(r, f) := sys_lseek f 0 in
  if r <? 0 then Done (-1, f) else
  let* '(d, f) := read_exact f sizeof_WALHeader in
  match d with
  | None => Done (-1, f)
  | Some d => Done (if wh_magic (walheader_of_bytes d) =? WAL_MAGIC then 0 else -1, f)
  end.

(** ** Lifecycle *)

Definition new_walheader : WALHeader :=
  mkWALHeader WAL_MAGIC WAL_FORMAT_VERSION WAL_HEADER_SIZE WAL_HEADER_SIZE 0 0 0 [0; 0; 0; 0].

(** The tail of [wal_open]: fstat, then the open log. *)
Definition wal_open_finish (f : file) (offset frames : Z) : option WAL :=
  let '(st, f) := sys_fstat_size f in
  match st with
  | None => None
  | Some size => Some (mkWAL f offset 0 frames 0 size WAL_AUTOCHECKPOINT_THRESHOLD true)
  end.

Definition wal_open (node : fs_node) (script : list io_event) : outcome (option WAL) :=
  match node with
  | FsReadWrite b =>
      let* '(d, f) := read_exact (File b 0 true script) sizeof_WALHeader in
      match d with
      | None => Done None
      | Some d =>
          let header := walheader_of_bytes d in
          if negb (wh_magic header =? WAL_MAGIC) then Done None
          else Done (wal_open_finish f (wh_end_offset header) (wh_frame_count header))
      end
  | FsAbsent =>
      let* '(r, f) := write_exact (File [] 0 true script) (walheader_bytes new_walheader) in
      if r <? 0 then Done None else Done (wal_open_finish f WAL_HEADER_SIZE 0)
  | FsNoAccess | FsReadOnly _ => Done None
  end.

(** Closing leaves the contents that the next open of the path finds. *)
Definition wal_close (w : WAL) : list Z :=
  if wal_is_open w then f_bytes (snd (sys_fsync (wfd w))) else f_bytes (wfd w).

Definition wal_flush (w : WAL) : Z * WAL :=
  let '(r, f) := sys_fsync (wfd w) in
  (if r <? 0 then ERR_STORAGE_IO else SUCCESS, set_wfd w f).

(** ** Appending *)

(** The entry header [wal_append] builds; [payload] is NULL or the buffer. *)
Definition build_entry_header (type tx_id : Z) (payload : option (list Z)) (size : Z)
    : outcome WALEntryHeader :=
  let header := mkEntryHeader (u8 type) 0 (u16 size) 0 tx_id in
  let checksum := wal_checksum (entry_header_bytes header) in
  let* checksum :=
    match payload with
    | Some p => if 0 <? size
                then let* d := buf_read 0 size p in Done (Z.lxor checksum (wal_checksum d))
                else Done checksum
    | None => Done checksum
    end in
  Done (mkEntryHeader (u8 type) 0 (u16 size) checksum tx_id).

Definition refresh_file_size (w : WAL) : WAL :=
  let '(st, f) := sys_fstat_size (wfd w) in
  let w := set_wfd w f in
  match st with Some size => set_wal_file_size w size | None => w end.

Definition wal_append (w : WAL) (type : WALEntryType) (tx_id : Z)
    (payload : option (list Z)) (size : Z) : outcome (Z * WAL) :=
  if negb (wal_is_open w) then Done (ERR_INTERNAL, w) else
  let* header := build_entry_header (entry_code type) tx_id payload size in
  let* '(r, f) := write_exact (wfd w) (entry_header_bytes header) in
  let w := set_wfd w f in
  if r <? 0 then Done (ERR_STORAGE_IO, w) else
  let* '(r, w) :=
    match payload with
    | Some p => if 0 <? size
                then let* d := buf_read 0 size p in
                     let* '(r, f) := write_exact (wfd w) d in Done (r, set_wfd w f)
                else Done (0, w)
    | None => Done (0, w)
    end in
  if r <? 0 then Done (ERR_STORAGE_IO, w) else
  let w := set_log_offset w (u64 (log_offset w + (16 + size))) in
  Done (SUCCESS, refresh_file_size w).

Definition wal_begin_tx (w : WAL) : outcome (Z * WAL) :=
  let w := set_current_tx_id w (u64 (current_tx_id w + 1)) in
  wal_append w WAL_ENTRY_BEGIN (current_tx_id w) None 0.

Definition wal_commit_tx (w : WAL) : outcome (Z * WAL) :=
  wal_append w WAL_ENTRY_COMMIT (current_tx_id w) None 0.

Definition wal_rollback_tx (w : WAL) : outcome (Z * WAL) :=
  wal_append w WAL_ENTRY_ROLLBACK (current_tx_id w) None 0.

(** The frame [wal_write_page] builds in a local array whose initial contents
    [stack] are indeterminate: only bytes 0-7 and 32-4127 are set before the
    checksum is taken. *)
Definition build_frame (stack : list Z) (page_num : Z) (page_data : list Z)
    : outcome (list Z) :=
  let* frame := buf_write 0 (le_bytes 4 page_num) stack in
  let* frame := buf_write 4 (le_bytes 4 PAGE_SIZE) frame in
  let* d := buf_read 0 PAGE_SIZE page_data in
  let* frame := buf_write WAL_FRAME_HEADER_SIZE d frame in
  let* sum := buf_read 0 (WAL_FRAME_HEADER_SIZE + PAGE_SIZE) frame in
  let checksum := wal_checksum sum in
  let* frame := buf_write 8 (le_bytes 4 checksum) frame in
  buf_write 12 (le_bytes 4 (Z.lxor checksum 0xFFFFFFFF)) frame.

Definition wal_write_page (stack : list Z) (w : WAL) (tx_id page_num : Z)
    (page_data : list Z) : outcome (Z * WAL) :=
  let* frame := build_frame stack page_num page_data in
  let* '(r, f) := write_exact (wfd w) frame in
  let w := set_wfd w f in
  if r <? 0 then Done (ERR_STORAGE_IO, w) else
  let w := set_log_offset w (u64 (log_offset w + len frame)) in
  let w := set_frame_count w (u32 (frame_count w + 1)) in
  Done (SUCCESS, refresh_file_size w).

(** ** Recovery *)

Record scan_state : Type := mkScan {
  sc_tx_id : Z;
  sc_in_tx : bool;
  sc_last_tx_id : Z;
  sc_frames : Z;
  sc_has_checkpoint : bool;
  sc_checkpoint_offset : Z }.

(** The switch of [wal_recovery_info]. *)
Definition scan_entry (st : scan_state) (offset : Z) (h : WALEntryHeader) : scan_state :=
  let '(mkScan tx in_tx last frames ck off) := st in
  if eh_type h =? 1 then mkScan (eh_tx_id h) true last frames ck off
  else if eh_type h =? 2 then
    if in_tx && (eh_tx_id h =? tx) then mkScan tx false (eh_tx_id h) frames ck off else st
  else if eh_type h =? 3 then mkScan tx false last frames ck off
  else if eh_type h =? 4 then mkScan tx in_tx last (frames + 1) ck off
  else if eh_type h =? 5 then mkScan tx in_tx last frames true offset
  else st.

Fixpoint scan_loop (fuel : nat) (f : file) (offset size : Z) (st : scan_state)
    : outcome (scan_state * file) :=
  match fuel with
  | O => NoFuel
  | S fuel =>
      if offset <? size then
        let '(r, f) := sys_lseek f offset in
        if r <? 0 then Done (st, f) else
        let* '(d, f) := read_exact f sizeof_WALEntryHeader in
        match d with
        | None => Done (st, f)
        | Some d =>
            let header := entry_header_of_bytes d in
            scan_loop fuel f (offset + (16 + eh_size header)) size (scan_entry st offset header)
        end
      else Done (st, f)
  end.

Record WALRecoveryInfo : Type := mkRecoveryInfo {
  ri_start_offset : Z;
  ri_end_offset : Z;
  ri_last_tx_id : Z;
  ri_frame_count : Z;
  ri_has_checkpoint : bool;
  ri_checkpoint_offset : Z }.

Definition scan_init : scan_state := mkScan 0 false 0 0 false 0.

(** Every iteration advances the offset by at least 16, so this fuel suffices. *)
Definition wal_recovery_info (w : WAL) : outcome (WALRecoveryInfo * WAL) :=
  let* '(st, f) := scan_loop (S (Z.to_nat (wal_file_size w))) (wfd w) WAL_HEADER_SIZE
                     (wal_file_size w) scan_init in
  Done (mkRecoveryInfo WAL_HEADER_SIZE (log_offset w) (sc_last_tx_id st) (frame_count w)
          (sc_has_checkpoint st) (sc_checkpoint_offset st), set_wfd w f).

Definition wal_replay (w : WAL) : Z := SUCCESS.

Definition wal_truncate (w : WAL) (checkpoint_offset : Z) : outcome (Z * WAL) :=
  let '(r, f) := sys_ftruncate (wfd w) (i64 checkpoint_offset) in
  let w := set_wfd w f in
  if r <? 0 then Done (ERR_STORAGE_IO, w) else
  let w := set_log_offset w checkpoint_offset in
  let '(r, f) := sys_lseek (wfd w) 0 in
  let w := set_wfd w f in
  if r <? 0 then Done (ERR_STORAGE_IO, w) else
  let* '(d, f) := read_exact (wfd w) sizeof_WALHeader in
  let w := set_wfd w f in
  match d with
  | None => Done (ERR_STORAGE_IO, w)
  | Some d =>
      let h := walheader_of_bytes d in
      let h := mkWALHeader (wh_magic h) (wh_version h) (wh_start_offset h) checkpoint_offset 0
                 (wh_checksum_1 h) (wh_checksum_2 h) (wh_reserved h) in
      let '(r, f) := sys_lseek (wfd w) 0 in
      let w := set_wfd w f in
      if r <? 0 then Done (ERR_STORAGE_IO, w) else
      let* '(r, f) := write_exact (wfd w) (walheader_bytes h) in
      let w := set_wfd w f in
      if r <? 0 then Done (ERR_STORAGE_IO, w) else
      let '(_, f) := sys_fsync (wfd w) in
      Done (SUCCESS, set_wfd w f)
  end.

(** ** Checkpoints *)

Definition wal_checkpoint (w : WAL) : outcome (Z * WAL) :=
  wal_append w WAL_ENTRY_CHECKPOINT (current_tx_id w) None 0.

Definition wal_checkpoint_full (w : WAL) : Z := SUCCESS.

Definition wal_needs_checkpoint (w : WAL) : Z :=
  if checkpoint_threshold w <=? wal_file_size w then 1 else 0.

(** ** The checksum *)

(** The sum without wrap-around. *)
Definition checksum_poly (s : Z) (bs : list Z) : Z := foldl (fun s b => 33 * s + b) s bs.

Lemma wal_checksum_from_poly s bs :
  0 <= s < 2 ^ 32 -> wal_checksum_from s bs = checksum_poly s bs mod 2 ^ 32.
Proof.
  revert s. induction bs as [|b bs IH]; intros s Hs; cbn [wal_checksum_from].
  - unfold checksum_poly. simpl. by rewrite Z.mod_small.
  - assert (u32 (u32 (Z.shiftl s 5) + s + b) = (33 * s + b) mod 2 ^ 32) as ->.
    { unfold u32. rewrite Z.shiftl_mul_pow2, <- Z.add_assoc, Z.add_mod_idemp_l by lia.
      f_equal. lia. }
    rewrite IH by (apply Z.mod_pos_bound; lia).
    change (checksum_poly s (b :: bs)) with (checksum_poly (33 * s + b) bs).
    generalize (33 * s + b). clear. intros z. revert z.
    assert (forall bs z z', z mod 2 ^ 32 = z' mod 2 ^ 32 ->
      checksum_poly z bs mod 2 ^ 32 = checksum_poly z' bs mod 2 ^ 32) as H.
    { clear. induction bs as [|b bs IH]; intros z z' Hz; [done|].
      apply (IH (33 * z + b) (33 * z' + b)).
      rewrite <- (Z.add_mod_idemp_l (33 * z)), <- Z.mul_mod_idemp_r, Hz by lia.
      by rewrite Z.mul_mod_idemp_r, Z.add_mod_idemp_l by lia. }
    intros z. apply H. by rewrite Z.mod_mod by lia.
Qed.

Lemma checksum_poly_app s a b : checksum_poly s (a ++ b) = checksum_poly (checksum_poly s a) b.
Proof. unfold checksum_poly. apply foldl_app. Qed.

Lemma checksum_poly_diff s s' b :
  checksum_poly s b - checksum_poly s' b = (s - s') * 33 ^ len b.
Proof.
  revert s s'. induction b as [|x b IH]; intros s s'.
  - unfold checksum_poly. simpl. lia.
  - change (checksum_poly s (x :: b)) with (checksum_poly (33 * s + x) b).
    change (checksum_poly s' (x :: b)) with (checksum_poly (33 * s' + x) b).
    rewrite IH. cbn [length]. rewrite Nat2Z.inj_succ, Z.pow_succ_r by lia. ring.
Qed.

Lemma wal_checksum_range bs : 0 <= wal_checksum bs < 2 ^ 32.
Proof.
  unfold wal_checksum. rewrite wal_checksum_from_poly by lia. apply Z.mod_pos_bound. lia.
Qed.

Lemma rel_prime_33 n : rel_prime (2 ^ 32) (33 ^ Z.of_nat n).
Proof.
  apply rel_prime_Zpower_r; [lia|].
  apply Zgcd_1_rel_prime. reflexivity.
Qed.

(** C28: the log checksum detects every change of a single byte. *)
Theorem wal_checksum_detects_byte a x y b :
  is_byte x -> is_byte y -> x <> y -> wal_checksum (a ++ x :: b) <> wal_checksum (a ++ y :: b).
Proof.
  intros Hx Hy Hne. unfold wal_checksum. rewrite !wal_checksum_from_poly by lia.
  rewrite !checksum_poly_app. intros E.
  set (s := checksum_poly 0 a) in *.
  change (checksum_poly s (x :: b)) with (checksum_poly (33 * s + x) b) in E.
  change (checksum_poly s (y :: b)) with (checksum_poly (33 * s + y) b) in E.
  assert ((2 ^ 32 | 33 ^ len b * (x - y))) as Hd.
  { replace (33 ^ len b * (x - y)) with
      (checksum_poly (33 * s + x) b - checksum_poly (33 * s + y) b)
      by (rewrite checksum_poly_diff; ring).
    apply Z.mod_divide; [lia|]. by rewrite Zminus_mod, E, Z.sub_diag. }
  apply Gauss in Hd; [|apply rel_prime_33].
  destruct Hd as [k Hk]. unfold is_byte in *. change (2 ^ 32) with 4294967296 in *. lia.
Qed.

Lemma wal_checksum_detects_byte_witness :
  wal_checksum ([1; 2] ++ 3 :: [4]) <> wal_checksum ([1; 2] ++ 7 :: [4]).
Proof. apply wal_checksum_detects_byte; [split; lia|split; lia|discriminate]. Defined.

(** ** Entries *)

Record entry : Type := mkEntry {
  en_type : WALEntryType;
  en_tx_id : Z;
  en_payload : list Z }.

Definition entry_ok (e : entry) : Prop :=
  0 <= en_tx_id e < 2 ^ 64 /\ len (en_payload e) < 2 ^ 16.

(** The header [wal_append] writes for [e]. *)
Definition entry_header (e : entry) : WALEntryHeader :=
  let h0 := mkEntryHeader (entry_code (en_type e)) 0 (len (en_payload e)) 0 (en_tx_id e) in
  mkEntryHeader (entry_code (en_type e)) 0 (len (en_payload e))
    (Z.lxor (wal_checksum (entry_header_bytes h0)) (wal_checksum (en_payload e)))
    (en_tx_id e).

Definition entry_bytes (e : entry) : list Z :=
  entry_header_bytes (entry_header e) ++ en_payload e.

Lemma length_entry_header_bytes h : length (entry_header_bytes h) = sizeof_WALEntryHeader.
Proof. reflexivity. Qed.

Lemma length_entry_bytes e : length (entry_bytes e) = (16 + length (en_payload e))%nat.
Proof. unfold entry_bytes. by rewrite length_app, length_entry_header_bytes. Qed.

Lemma build_entry_header_ok e :
  entry_ok e -> build_entry_header (entry_code (en_type e)) (en_tx_id e)
    (Some (en_payload e)) (len (en_payload e)) = Done (entry_header e).
Proof.
  intros [Ht Hp]. unfold build_entry_header, entry_header.
  assert (u8 (entry_code (en_type e)) = entry_code (en_type e)) as -> by (by destruct (en_type e)).
  rewrite (u16_id (len (en_payload e))) by lia.
  destruct (Z.ltb_spec 0 (len (en_payload e))) as [H0|H0].
  - rewrite buf_read_Done, bind_Done by lia. rewrite Nat2Z.id. change (Z.to_nat 0) with 0%nat.
    by rewrite slice_all, bind_Done.
  - destruct (en_payload e); [|simpl in H0; lia].
    rewrite bind_Done. cbn [wal_checksum wal_checksum_from]. by rewrite Z.lxor_0_r.
Qed.

Lemma lxor_range a b :
  0 <= a < 2 ^ 32 -> 0 <= b < 2 ^ 32 -> 0 <= Z.lxor a b < 2 ^ 32.
Proof.
  intros Ha Hb. assert (Z.lxor a b = Z.lxor a b mod 2 ^ 32) as ->.
  { apply Z.bits_inj'. intros n Hn. destruct (decide (n < 32)).
    - by rewrite Z.mod_pow2_bits_low by lia.
    - rewrite Z.mod_pow2_bits_high, Z.lxor_spec by lia.
      rewrite <- (Z.mod_small a (2 ^ 32)), <- (Z.mod_small b (2 ^ 32)) by lia.
      by rewrite !Z.mod_pow2_bits_high by lia. }
  apply Z.mod_pos_bound. lia.
Qed.

Lemma entry_header_checksum_range e : 0 <= eh_checksum (entry_header e) < 2 ^ 32.
Proof.
  cbn [entry_header eh_checksum].
  set (a := wal_checksum (entry_header_bytes _)). set (b := wal_checksum (en_payload e)).
  pose proof (wal_checksum_range (entry_header_bytes
    (mkEntryHeader (entry_code (en_type e)) 0 (len (en_payload e)) 0 (en_tx_id e)))) as Ha.
  pose proof (wal_checksum_range (en_payload e)) as Hb. fold a in Ha. fold b in Hb.
  by apply lxor_range.
Qed.

(** An entry header reads back. *)
Lemma entry_header_roundtrip e rest :
  entry_ok e ->
  entry_header_of_bytes (slice 0 16 (entry_bytes e ++ rest)) = entry_header e.
Proof.
  intros [Ht Hp]. unfold entry_bytes. rewrite <- app_assoc, slice_app_l by (simpl; lia).
  change (slice 0 16 (entry_header_bytes (entry_header e))) with (entry_header_bytes (entry_header e)).
  pose proof (entry_header_checksum_range e) as Hc. set (h := entry_header e) in *.
  unfold entry_header_of_bytes.
  change (slice 0 1 (entry_header_bytes h)) with (le_bytes 1 (eh_type h)).
  change (slice 1 1 (entry_header_bytes h)) with (le_bytes 1 (eh_flags h)).
  change (slice 2 2 (entry_header_bytes h)) with (le_bytes 2 (eh_size h)).
  change (slice 4 4 (entry_header_bytes h)) with (le_bytes 4 (eh_checksum h)).
  change (slice 8 8 (entry_header_bytes h)) with (le_bytes 8 (eh_tx_id h)).
  rewrite !le_val_bytes; [by destruct h|..]; subst h; cbn [entry_header eh_type eh_flags eh_size eh_tx_id].
  - change (256 ^ Z.of_nat 8) with (2 ^ 64). done.
  - exact Hc.
  - change (256 ^ Z.of_nat 2) with (2 ^ 16). lia.
  - change (256 ^ Z.of_nat 1) with 256. lia.
  - change (256 ^ Z.of_nat 1) with 256. destruct (en_type e); simpl; lia.
Qed.

(** ** Sessions of appends *)

Record wal_wf (w : WAL) : Prop := {
  ww_open : wal_is_open w = true;
  ww_benign : benign (f_script (wfd w));
  ww_writable : f_writable (wfd w) = true;
  ww_pos : (f_pos (wfd w) <= length (f_bytes (wfd w)))%nat }.

Lemma refresh_file_size_ok w :
  wal_wf w -> exists s, benign s /\ refresh_file_size w =
    mkWAL (File (f_bytes (wfd w)) (f_pos (wfd w)) true s) (log_offset w) (last_checkpoint w)
      (frame_count w) (current_tx_id w) (len (f_bytes (wfd w))) (checkpoint_threshold w) true.
Proof.
  intros [Ho Hb Hw Hp]. unfold refresh_file_size.
  destruct (sys_fstat_size_benign (wfd w) Hb) as (s & Hs & ->). exists s. split; [done|].
  by rewrite Hw, <- Ho.
Qed.

(** [wal_append] writes header and payload at the descriptor's offset. *)
Lemma wal_append_ok w e :
  wal_wf w -> entry_ok e ->
  exists s, benign s /\
    wal_append w (en_type e) (en_tx_id e) (Some (en_payload e)) (len (en_payload e)) =
      Done (SUCCESS,
        let b := write_at (f_pos (wfd w)) (entry_bytes e) (f_bytes (wfd w)) in
        mkWAL (File b (f_pos (wfd w) + length (entry_bytes e)) true s)
          (u64 (log_offset w + len (entry_bytes e))) (last_checkpoint w) (frame_count w)
          (current_tx_id w) (len b) (checkpoint_threshold w) true).
Proof.
  intros [Ho Hb Hw Hp] He. unfold wal_append. rewrite Ho. cbn [negb].
  rewrite (build_entry_header_ok e He), bind_Done.
  destruct (write_exact_benign (wfd w) (entry_header_bytes (entry_header e)) Hb Hw (or_introl Hp))
    as (s1 & Hs1 & ->). rewrite bind_Done. change (0 <? 0) with false. cbv iota zeta.
  set (h := entry_header_bytes (entry_header e)).
  set (f1 := File (write_at (f_pos (wfd w)) h (f_bytes (wfd w))) (f_pos (wfd w) + length h) true s1).
  assert (exists s2, benign s2 /\
    (if 0 <? len (en_payload e)
     then let* d := buf_read 0 (len (en_payload e)) (en_payload e) in
          let* '(r, f) := write_exact (wfd (set_wfd w f1)) d in Done (r, set_wfd (set_wfd w f1) f)
     else Done (0, set_wfd w f1)) =
    Done (0, set_wfd w (File (write_at (f_pos (wfd w)) (entry_bytes e) (f_bytes (wfd w)))
                          (f_pos (wfd w) + length (entry_bytes e)) true s2))) as (s2 & Hs2 & ->).
  { unfold entry_bytes. fold h. destruct (Z.ltb_spec 0 (len (en_payload e))) as [Hl|Hl].
    - rewrite buf_read_Done, bind_Done by lia. rewrite Nat2Z.id. change (Z.to_nat 0) with 0%nat.
      rewrite slice_all. destruct (write_exact_benign f1 (en_payload e)) as (s2 & Hs2 & E); try done.
      { left. unfold f1. cbn [f_pos f_bytes]. rewrite length_write_at. lia. }
      cbn [set_wfd wfd]. rewrite E, bind_Done. exists s2. split; [done|].
      unfold f1. cbn [f_pos f_bytes]. rewrite write_at_app, length_app, Nat.add_assoc. done.
    - destruct (en_payload e); [|simpl in Hl; lia]. rewrite app_nil_r. by exists s1. }
  rewrite bind_Done. change (0 <? 0) with false. cbv iota zeta.
  match goal with |- context [refresh_file_size ?w'] =>
    destruct (refresh_file_size_ok w') as (s3 & Hs3 & ->) end.
  { constructor; try done. cbn [set_log_offset set_wfd wfd f_pos f_bytes]. rewrite length_write_at. lia. }
  exists s3. split; [done|]. cbn [set_log_offset set_wfd wfd f_pos f_bytes log_offset last_checkpoint
    frame_count current_tx_id checkpoint_threshold].
  rewrite length_entry_bytes. do 3 f_equal. f_equal. lia.
Qed.

(** A NULL payload is an empty payload. *)
Lemma wal_append_null w t tx : wal_append w t tx None 0 = wal_append w t tx (Some []) 0.
Proof. reflexivity. Qed.

Fixpoint append_all (w : WAL) (es : list entry) : outcome (Z * WAL) :=
  match es with
  | [] => Done (SUCCESS, w)
  | e :: es =>
      let* '(r, w) := wal_append w (en_type e) (en_tx_id e) (Some (en_payload e))
                        (len (en_payload e)) in
      if r =? SUCCESS then append_all w es else Done (r, w)
  end.

Definition log_bytes (es : list entry) : list Z := concat (entry_bytes <$> es).

Lemma log_bytes_cons e es : log_bytes (e :: es) = entry_bytes e ++ log_bytes es.
Proof. reflexivity. Qed.

Lemma log_bytes_app a b : log_bytes (a ++ b) = log_bytes a ++ log_bytes b.
Proof. unfold log_bytes. by rewrite fmap_app, concat_app. Qed.

Lemma write_at_end d b : write_at (length b) d b = b ++ d.
Proof.
  unfold write_at. rewrite Nat.sub_diag, app_nil_r, take_ge, drop_ge by lia. by rewrite app_nil_r.
Qed.

(** At the end of the file, appends are appends. *)
Lemma append_all_ok es w :
  wal_wf w -> f_pos (wfd w) = length (f_bytes (wfd w)) -> Forall entry_ok es ->
  wal_file_size w = len (f_bytes (wfd w)) ->
  exists w', append_all w es = Done (SUCCESS, w') /\ wal_wf w' /\
    f_bytes (wfd w') = f_bytes (wfd w) ++ log_bytes es /\
    f_pos (wfd w') = length (f_bytes (wfd w')) /\
    u64 (log_offset w') = u64 (log_offset w + len (log_bytes es)) /\
    wal_file_size w' = len (f_bytes (wfd w')) /\ current_tx_id w' = current_tx_id w /\
    frame_count w' = frame_count w.
Proof.
  revert w. induction es as [|e es IH]; intros w Hwf Hp Hes Hsz; cbn [append_all].
  - exists w. unfold log_bytes. simpl. rewrite app_nil_r, Z.add_0_r. by split_and!.
  - apply Forall_cons_iff in Hes as [He Hes].
    destruct (wal_append_ok w e Hwf He) as (s & Hs & ->). rewrite bind_Done.
    change (SUCCESS =? SUCCESS) with true. cbv iota zeta. rewrite Hp, write_at_end.
    match goal with |- context [append_all ?w1 es] =>
      destruct (IH w1) as (w' & -> & H1 & H2 & H3 & H4 & H5 & H6 & H7) end; auto.
    { constructor; try done. cbn [wfd f_pos f_bytes]. rewrite length_app. lia. }
    { cbn [wfd f_pos f_bytes]. by rewrite length_app. }
    cbn [wfd f_bytes f_pos log_offset current_tx_id frame_count] in *.
    exists w'. split_and!; auto.
    + by rewrite H2, log_bytes_cons, app_assoc.
    + rewrite H4, log_bytes_cons, length_app. unfold u64. rewrite Z.add_mod_idemp_l by lia.
      f_equal. lia.
Qed.

(** ** Scanning *)

Fixpoint run_entries (st : scan_state) (off : Z) (es : list entry) : scan_state :=
  match es with
  | [] => st
  | e :: es => run_entries (scan_entry st off (entry_header e)) (off + len (entry_bytes e)) es
  end.

(** One iteration that finds a whole header. *)
Lemma scan_step fuel f offset size st :
  benign (f_script f) -> 0 <= offset < size -> offset + 16 <= len (f_bytes f) ->
  let h := entry_header_of_bytes (slice (Z.to_nat offset) 16 (f_bytes f)) in
  exists f', scan_loop (S fuel) f offset size st =
      scan_loop fuel f' (offset + (16 + eh_size h)) size (scan_entry st offset h) /\
    benign (f_script f') /\ f_bytes f' = f_bytes f.
Proof.
  intros Hb Ho Hl h. cbn [scan_loop]. destruct (Z.ltb_spec offset size); [|lia].
  destruct (sys_lseek_benign f offset Hb) as (s & Hs & ->); [lia|].
  destruct (Z.ltb_spec offset 0); [lia|].
  destruct (read_exact_benign (File (f_bytes f) (Z.to_nat offset) (f_writable f) s)
    sizeof_WALEntryHeader) as (s2 & Hs2 & ->); [done|cbn [f_pos f_bytes]; unfold sizeof_WALEntryHeader; lia|].
  rewrite bind_Done. eexists. by split_and!.
Qed.

(** The scan stops where a header does not fit. *)
Lemma scan_stop fuel f offset size st :
  benign (f_script f) -> 0 <= offset -> len (f_bytes f) < offset + 16 ->
  exists f', scan_loop (S fuel) f offset size st = Done (st, f') /\ f_bytes f' = f_bytes f.
Proof.
  intros Hb Ho Hl. cbn [scan_loop]. destruct (Z.ltb_spec offset size); [|by exists f].
  destruct (sys_lseek_benign f offset Hb) as (s & Hs & ->); [lia|].
  destruct (Z.ltb_spec offset 0); [lia|].
  destruct (read_exact_eof (File (f_bytes f) (Z.to_nat offset) (f_writable f) s)
    sizeof_WALEntryHeader) as (g & -> & Hg & _);
    [unfold sizeof_WALEntryHeader; lia|cbn [f_pos f_bytes]; unfold sizeof_WALEntryHeader; lia|].
  rewrite bind_Done. by exists g.
Qed.

(** From the offset where entries start, the scan computes the fold of the
    switch over the entries. *)
Lemma scan_entries es fuel f pre st :
  benign (f_script f) -> f_bytes f = pre ++ log_bytes es -> Forall entry_ok es ->
  (length es < fuel)%nat ->
  exists f', scan_loop fuel f (len pre) (len (f_bytes f)) st =
    Done (run_entries st (len pre) es, f') /\ f_bytes f' = f_bytes f.
Proof.
  revert fuel f pre st. induction es as [|e es IH]; intros fuel f pre st Hb Hf Hes Hfu;
    (destruct fuel as [|fuel]; [simpl in Hfu; lia|]).
  - unfold log_bytes in Hf. simpl in Hf. rewrite app_nil_r in Hf.
    destruct (scan_stop fuel f (len pre) (len (f_bytes f)) st) as (f' & E & H); [done|lia|rewrite Hf; lia|].
    by exists f'.
  - apply Forall_cons_iff in Hes as [He Hes]. rewrite log_bytes_cons in Hf.
    pose proof (length_entry_bytes e) as Hle.
    assert (len (f_bytes f) = len pre + len (entry_bytes e) + len (log_bytes es)) as HL
      by (rewrite Hf, !length_app; lia).
    destruct (scan_step fuel f (len pre) (len (f_bytes f)) st) as (f1 & -> & Hb1 & Hf1);
      [done|lia|lia|].
    assert (entry_header_of_bytes (slice (Z.to_nat (len pre)) 16 (f_bytes f)) = entry_header e) as ->.
    { rewrite Nat2Z.id, Hf, slice_app_r, Nat.sub_diag by lia. by apply entry_header_roundtrip. }
    cbn [run_entries]. replace (len pre + (16 + eh_size (entry_header e)))
      with (len (pre ++ entry_bytes e)).
    2: { rewrite length_app, Hle. cbn [entry_header eh_size]. lia. }
    destruct (IH fuel f1 (pre ++ entry_bytes e) (scan_entry st (len pre) (entry_header e)))
      as (f2 & E2 & Hf2); auto.
    { by rewrite Hf1, Hf, app_assoc. }
    { simpl in Hfu. lia. }
    rewrite Hf1 in E2. rewrite E2. exists f2. split; [|congruence].
    do 3 f_equal. rewrite length_app. lia.
Qed.

(** ** Creating and reopening *)

Lemma length_walheader_bytes h : length (wh_reserved h) = 4%nat ->
  length (walheader_bytes h) = sizeof_WALHeader.
Proof. intros H. unfold walheader_bytes. rewrite !length_app, !length_le_bytes, H. done. Qed.

Lemma wal_open_new s :
  benign s ->
  exists w, wal_open FsAbsent s = Done (Some w) /\ wal_wf w /\
    f_bytes (wfd w) = walheader_bytes new_walheader /\ f_pos (wfd w) = 40%nat /\
    log_offset w = 32 /\ frame_count w = 0 /\ current_tx_id w = 0 /\ wal_file_size w = 40.
Proof.
  intros Hs. unfold wal_open.
  destruct (write_exact_benign (File [] 0 true s) (walheader_bytes new_walheader)) as (s1 & Hs1 & ->);
    [done|done|by left|].
  rewrite bind_Done. change (0 <? 0) with false. cbv iota zeta. unfold wal_open_finish.
  change (write_at (f_pos (File [] 0 true s)) (walheader_bytes new_walheader) (f_bytes (File [] 0 true s)))
    with (walheader_bytes new_walheader).
  change (f_pos (File [] 0 true s) + length (walheader_bytes new_walheader))%nat with 40%nat.
  destruct (sys_fstat_size_benign (File (walheader_bytes new_walheader) 40 true s1)) as (s2 & Hs2 & ->);
    [done|].
  eexists. split; [done|]. split_and!; try done; constructor; simpl; auto; lia.
Qed.

(** Appends never touch the header, so reopening starts over at offset 40. *)
Lemma wal_reopen w es s :
  f_bytes (wfd w) = walheader_bytes new_walheader ++ log_bytes es -> benign s ->
  exists w', wal_open (FsReadWrite (wal_close w)) s = Done (Some w') /\ wal_wf w' /\
    f_bytes (wfd w') = f_bytes (wfd w) /\ f_pos (wfd w') = 40%nat /\
    log_offset w' = 32 /\ frame_count w' = 0 /\ current_tx_id w' = 0.
Proof.
  intros Hb Hs. assert (wal_close w = f_bytes (wfd w)) as ->.
  { unfold wal_close, sys_fsync, next_event. destruct (wal_is_open w); [|done].
    by destruct (f_script (wfd w)) as [|[]]. }
  rewrite Hb. set (b := walheader_bytes new_walheader ++ log_bytes es). unfold wal_open.
  assert (40 <= length b)%nat as Hl by (unfold b; rewrite length_app; simpl; lia).
  destruct (read_exact_benign (File b 0 true s) sizeof_WALHeader) as (s1 & Hs1 & ->);
    [done|simpl; unfold sizeof_WALHeader; lia|].
  rewrite bind_Done. cbn [f_pos f_bytes f_writable].
  assert (slice 0 sizeof_WALHeader b = walheader_bytes new_walheader) as ->.
  { unfold b. rewrite slice_app_l by (simpl; unfold sizeof_WALHeader; lia). reflexivity. }
  change (negb (wh_magic (walheader_of_bytes (walheader_bytes new_walheader)) =? WAL_MAGIC))
    with false. cbv iota zeta. unfold wal_open_finish.
  destruct (sys_fstat_size_benign (File b (0 + sizeof_WALHeader) true s1)) as (s2 & Hs2 & ->); [done|].
  eexists. split; [done|]. split_and!; try done; constructor; simpl; auto; lia.
Qed.

(** ** Properties *)

Definition quiet (e : entry) : Prop :=
  en_type e = WAL_ENTRY_PAGE_MODIFY \/ en_type e = WAL_ENTRY_CHECKPOINT.

Lemma run_entries_app a b st off :
  run_entries st off (a ++ b) = run_entries (run_entries st off a) (off + len (log_bytes a)) b.
Proof.
  revert st off. induction a as [|e a IH]; intros st off.
  - unfold log_bytes. simpl. by rewrite Z.add_0_r.
  - rewrite log_bytes_cons, length_app. cbn [run_entries app]. rewrite IH. f_equal. lia.
Qed.

Lemma run_quiet es st off :
  Forall quiet es -> sc_in_tx (run_entries st off es) = sc_in_tx st /\
  sc_tx_id (run_entries st off es) = sc_tx_id st.
Proof.
  revert st off. induction es as [|e es IH]; intros st off Hq; [done|].
  apply Forall_cons_iff in Hq as [He Hq]. cbn [run_entries].
  destruct (IH (scan_entry st off (entry_header e)) (off + len (entry_bytes e)) Hq) as [-> ->].
  destruct st. unfold scan_entry. cbn [entry_header eh_type].
  by destruct He as [-> | ->].
Qed.

Lemma run_no_commit es st off :
  Forall (fun e => en_type e <> WAL_ENTRY_COMMIT) es ->
  sc_last_tx_id (run_entries st off es) = sc_last_tx_id st.
Proof.
  revert st off. induction es as [|e es IH]; intros st off Hq; [done|].
  apply Forall_cons_iff in Hq as [He Hq]. cbn [run_entries]. rewrite IH by done.
  destruct st. unfold scan_entry. cbn [entry_header eh_type]. by destruct (en_type e).
Qed.

(** The recovery switch itself is right: run over the file from its first entry
    (which is not where [wal_recovery_info] starts, see
    [wal_recovery_loses_log]), it reports the last committed transaction. *)
Theorem wal_append_then_scan s es1 tx mid es2 :
  benign s -> Forall entry_ok (es1 ++ mkEntry WAL_ENTRY_BEGIN tx [] :: mid ++
                               mkEntry WAL_ENTRY_COMMIT tx [] :: es2) ->
  Forall quiet mid -> Forall (fun e => en_type e <> WAL_ENTRY_COMMIT) es2 ->
  exists w w' st f,
    let es := es1 ++ mkEntry WAL_ENTRY_BEGIN tx [] :: mid ++ mkEntry WAL_ENTRY_COMMIT tx [] :: es2 in
    wal_open FsAbsent s = Done (Some w) /\ append_all w es = Done (SUCCESS, w') /\
    f_bytes (wfd w') = walheader_bytes new_walheader ++ log_bytes es /\
    scan_loop (S (length es)) (wfd w') 40 (wal_file_size w') scan_init = Done (st, f) /\
    sc_last_tx_id st = tx.
Proof.
  intros Hs Hok Hmid Hes2. set (es := es1 ++ _) in *.
  destruct (wal_open_new s Hs) as (w & E & Hwf & Hb & Hp & _ & _ & _ & Hsz).
  destruct (append_all_ok es w) as (w' & E' & Hwf' & Hb' & _ & _ & Hsz' & _); auto.
  { by rewrite Hp, Hb. } { by rewrite Hsz, Hb. }
  rewrite Hb in Hb'.
  destruct (scan_entries es (S (length es)) (wfd w') (walheader_bytes new_walheader) scan_init)
    as (f & E2 & _); auto; [apply Hwf'|].
  exists w, w', (run_entries scan_init 40 es), f. split_and!; auto.
  - rewrite Hsz'. exact E2.
  - unfold es. rewrite run_entries_app. cbn [run_entries]. rewrite run_entries_app.
    set (st0 := run_entries scan_init 40 es1). set (off := 40 + len (log_bytes es1)).
    set (st1 := scan_entry st0 off _).
    destruct (run_quiet mid st1 (off + len (entry_bytes (mkEntry WAL_ENTRY_BEGIN tx [])))) as [H1 H2];
      [done|].
    cbn [run_entries]. rewrite run_no_commit by done.
    destruct (run_entries st1 _ mid) as [tx1 in1 last1 fr1 ck1 off1]. cbn [sc_in_tx sc_tx_id] in *.
    unfold scan_entry. cbn [entry_header eh_type eh_tx_id entry_code en_type en_tx_id].
    change (2 =? 1) with false. change (2 =? 2) with true. cbv iota.
    subst st1. unfold scan_entry in H1, H2. destruct st0. cbn in H1, H2. subst.
    by rewrite Z.eqb_refl.
Qed.

Lemma wal_append_then_scan_witness :
  exists w w' st f,
    let es := [] ++ mkEntry WAL_ENTRY_BEGIN 7 [] :: [mkEntry WAL_ENTRY_PAGE_MODIFY 7 [1; 2]] ++
      mkEntry WAL_ENTRY_COMMIT 7 [] :: [mkEntry WAL_ENTRY_BEGIN 8 []] in
    wal_open FsAbsent [IoShort 3; IoIntr] = Done (Some w) /\ append_all w es = Done (SUCCESS, w') /\
    f_bytes (wfd w') = walheader_bytes new_walheader ++ log_bytes es /\
    scan_loop (S (length es)) (wfd w') 40 (wal_file_size w') scan_init = Done (st, f) /\
    sc_last_tx_id st = 7.
Proof.
  apply wal_append_then_scan.
  - repeat constructor; discriminate.
  - repeat constructor; simpl; lia.
  - repeat constructor.
  - repeat constructor; discriminate.
Defined.

(** Begin and commit in a new log: the file is the header and the two entries. *)
Lemma wal_one_transaction s :
  benign s ->
  exists w0 w1 w2, wal_open FsAbsent s = Done (Some w0) /\
    wal_begin_tx w0 = Done (SUCCESS, w1) /\ wal_commit_tx w1 = Done (SUCCESS, w2) /\
    current_tx_id w2 = 1 /\ wal_wf w2 /\ wal_file_size w2 = 72 /\
    f_bytes (wfd w2) = walheader_bytes new_walheader ++
      entry_bytes (mkEntry WAL_ENTRY_BEGIN 1 []) ++ entry_bytes (mkEntry WAL_ENTRY_COMMIT 1 []).
Proof.
  intros Hs. destruct (wal_open_new s Hs) as (w0 & E0 & Hwf & Hb & Hp & _ & _ & Htx & Hsz).
  set (e1 := mkEntry WAL_ENTRY_BEGIN 1 []). set (e2 := mkEntry WAL_ENTRY_COMMIT 1 []).
  set (w0' := set_current_tx_id w0 (u64 (current_tx_id w0 + 1))).
  assert (wal_wf w0') as Hwf0 by (by destruct Hwf).
  destruct (wal_append_ok w0' e1 Hwf0) as (s1 & Hs1 & E1); [split; simpl; lia|].
  set (w1 := mkWAL _ _ _ _ _ _ _ _) in E1. cbv zeta in E1.
  assert (wal_begin_tx w0 = Done (SUCCESS, w1)) as EB.
  { unfold wal_begin_tx. fold w0'. rewrite wal_append_null.
    replace (current_tx_id w0') with 1 by (unfold w0'; simpl; by rewrite Htx). exact E1. }
  assert (wal_wf w1) as Hwf1.
  { constructor; try done. cbn [w1 wfd f_pos f_bytes]. rewrite length_write_at. lia. }
  destruct (wal_append_ok w1 e2 Hwf1) as (s2 & Hs2 & E2); [split; simpl; lia|].
  set (w2 := mkWAL _ _ _ _ _ _ _ _) in E2. cbv zeta in E2.
  assert (wal_commit_tx w1 = Done (SUCCESS, w2)) as EC.
  { unfold wal_commit_tx. rewrite wal_append_null.
    replace (current_tx_id w1) with 1 by (unfold w1, w0'; simpl; by rewrite Htx). exact E2. }
  assert (f_bytes (wfd w2) = walheader_bytes new_walheader ++ entry_bytes e1 ++ entry_bytes e2) as Hb2.
  { cbn [w2 w1 w0' wfd f_bytes f_pos set_current_tx_id]. rewrite write_at_app, Hp, Hb.
    exact (write_at_end (entry_bytes e1 ++ entry_bytes e2) (walheader_bytes new_walheader)). }
  exists w0, w1, w2. split_and!; auto.
  - unfold w2, w1, w0'. simpl. by rewrite Htx.
  - constructor; try done. cbn [w2 wfd f_pos f_bytes]. rewrite length_write_at. lia.
  - transitivity (len (f_bytes (wfd w2))); [reflexivity|]. rewrite Hb2. reflexivity.
Qed.

(** Scanned from offset 32, that file gives two misread entries and no commit. *)
Lemma scan_out_of_step f :
  benign (f_script f) ->
  f_bytes f = walheader_bytes new_walheader ++
    entry_bytes (mkEntry WAL_ENTRY_BEGIN 1 []) ++ entry_bytes (mkEntry WAL_ENTRY_COMMIT 1 []) ->
  exists st f', scan_loop (S (Z.to_nat 72)) f 32 72 scan_init = Done (st, f') /\ sc_last_tx_id st = 0.
Proof.
  intros Hf Hb2. change (S (Z.to_nat 72)) with (S (S (S 70))).
  destruct (scan_step (S (S 70)) f 32 72 scan_init) as (f1 & -> & Hb1 & Hf1);
    [done|lia|rewrite Hb2; vm_compute; congruence|].
  rewrite Hb2 in *.
  match goal with |- context [scan_loop _ f1 ?o 72 ?st] =>
    replace o with 48 by (vm_compute; reflexivity);
    replace st with scan_init by (vm_compute; reflexivity) end.
  destruct (scan_step (S 70) f1 48 72 scan_init) as (f2 & -> & Hb2' & Hf2);
    [done|lia|rewrite Hf1; vm_compute; congruence|].
  rewrite Hf1 in *.
  match goal with |- context [scan_loop _ f2 ?o 72 ?st] =>
    replace o with 64 by (vm_compute; reflexivity); remember st as st' eqn:Est end.
  destruct (scan_stop 70 f2 64 72 st') as (f3 & -> & Hf3);
    [done|lia|rewrite Hf2; vm_compute; congruence|].
  exists st', f3. split; [done|]. subst st'. vm_compute. reflexivity.
Qed.

(** A reader of log bytes that shares nothing with wal.c but the layout of the
    entry header (type, flags, size, checksum, transaction: 16 bytes, where wal.h says 12) and the
    formula of the sum. It refuses a wrong checksum, an unknown type and a cut
    entry. *)
Definition entry_type_of (code : Z) : option WALEntryType :=
  if code =? 1 then Some WAL_ENTRY_BEGIN else if code =? 2 then Some WAL_ENTRY_COMMIT
  else if code =? 3 then Some WAL_ENTRY_ROLLBACK else if code =? 4 then Some WAL_ENTRY_PAGE_MODIFY
  else if code =? 5 then Some WAL_ENTRY_CHECKPOINT else None.

Definition sum33 (bs : list Z) : Z := checksum_poly 0 bs mod 2 ^ 32.

Fixpoint read_log (n : nat) (b : list Z) : option (list entry) :=
  match n, b with
  | O, [] => Some []
  | O, _ :: _ => None
  | S n, _ =>
      let size := Z.to_nat (le_val (slice 2 2 b)) in
      let payload := slice 16 size b in
      let header := slice 0 4 b ++ [0; 0; 0; 0] ++ slice 8 8 b in
      if (length b <? 16 + size)%nat || negb (le_val (slice 4 4 b) =? Z.lxor (sum33 header) (sum33 payload))
      then None
      else match entry_type_of (le_val (slice 0 1 b)), read_log n (drop (16 + size) b) with
           | Some t, Some es => Some (mkEntry t (le_val (slice 8 8 b)) payload :: es)
           | _, _ => None
           end
  end.

Lemma sum33_ok bs : wal_checksum bs = sum33 bs.
Proof. unfold wal_checksum. by rewrite wal_checksum_from_poly. Qed.

Lemma header_fields b e :
  entry_header_of_bytes (slice 0 16 b) = entry_header e ->
  le_val (slice 0 1 b) = entry_code (en_type e) /\ le_val (slice 2 2 b) = len (en_payload e) /\
  le_val (slice 4 4 b) = eh_checksum (entry_header e) /\ le_val (slice 8 8 b) = en_tx_id e.
Proof.
  unfold entry_header_of_bytes. rewrite !slice_slice by lia. rewrite !Nat.add_0_l.
  generalize (le_val (slice 0 1 b)), (le_val (slice 1 1 b)), (le_val (slice 2 2 b)),
    (le_val (slice 4 4 b)), (le_val (slice 8 8 b)). intros z1 z2 z3 z4 z5.
  unfold entry_header. generalize (Z.lxor (wal_checksum (entry_header_bytes
    (mkEntryHeader (entry_code (en_type e)) 0 (len (en_payload e)) 0 (en_tx_id e)))) (wal_checksum (en_payload e))).
  intros z [= -> -> -> -> ->]. done.
Qed.

(** The header with a zero in place of the sum, as the reader sums it. *)
Lemma zeroed_header e rest :
  slice 0 4 (entry_bytes e ++ rest) ++ [0; 0; 0; 0] ++ slice 8 8 (entry_bytes e ++ rest) =
    entry_header_bytes (mkEntryHeader (entry_code (en_type e)) 0 (len (en_payload e)) 0 (en_tx_id e)).
Proof.
  unfold entry_bytes. rewrite <- app_assoc.
  rewrite !slice_app_l by (rewrite length_entry_header_bytes; unfold sizeof_WALEntryHeader; lia).
  unfold entry_header. generalize (Z.lxor (wal_checksum (entry_header_bytes
    (mkEntryHeader (entry_code (en_type e)) 0 (len (en_payload e)) 0 (en_tx_id e)))) (wal_checksum (en_payload e))).
  reflexivity.
Qed.

Lemma slice_payload e rest : slice 16 (length (en_payload e)) (entry_bytes e ++ rest) = en_payload e.
Proof.
  unfold entry_bytes. rewrite <- app_assoc.
  change 16%nat with (length (entry_header_bytes (entry_header e)) + 0)%nat.
  rewrite <- slice_drop, drop_app_length, slice_app_l by lia. apply slice_all.
Qed.

Lemma read_log_cons n e rest :
  entry_ok e ->
  read_log (S n) (entry_bytes e ++ rest) =
    match read_log n rest with Some es => Some (e :: es) | None => None end.
Proof.
  intros He. destruct (header_fields _ _ (entry_header_roundtrip e rest He)) as (H1 & H3 & H4 & H5).
  pose proof (zeroed_header e rest) as Hh. pose proof (slice_payload e rest) as Hpay.
  assert (length (entry_bytes e ++ rest) <? 16 + length (en_payload e) = false)%nat as Hl.
  { apply Nat.ltb_ge. rewrite length_app, length_entry_bytes. lia. }
  assert (drop (16 + length (en_payload e)) (entry_bytes e ++ rest) = rest) as Hd
    by (rewrite <- length_entry_bytes; apply drop_app_length).
  assert (eh_checksum (entry_header e) = Z.lxor (sum33 (entry_header_bytes
    (mkEntryHeader (entry_code (en_type e)) 0 (len (en_payload e)) 0 (en_tx_id e)))) (sum33 (en_payload e))) as Hs
    by (rewrite <- !sum33_ok; reflexivity).
  generalize dependent (entry_bytes e ++ rest). intros b. intros.
  change (read_log (S n) b) with
    (let size := Z.to_nat (le_val (slice 2 2 b)) in
     let payload := slice 16 size b in
     let header := slice 0 4 b ++ [0; 0; 0; 0] ++ slice 8 8 b in
     if (length b <? 16 + size)%nat || negb (le_val (slice 4 4 b) =? Z.lxor (sum33 header) (sum33 payload))
     then None
     else match entry_type_of (le_val (slice 0 1 b)), read_log n (drop (16 + size) b) with
          | Some t, Some es => Some (mkEntry t (le_val (slice 8 8 b)) payload :: es)
          | _, _ => None
          end).
  cbv zeta. rewrite H3, Nat2Z.id, Hpay, Hh, H4, H5, H1, Hl, Hs, Z.eqb_refl, Hd.
  destruct e as [[] tx pl]; done.
Qed.

Lemma read_log_ok es : Forall entry_ok es -> read_log (length es) (log_bytes es) = Some es.
Proof.
  induction 1 as [|e es He Hes IH]; [done|]. cbn [length]. by rewrite log_bytes_cons, read_log_cons, IH.
Qed.

(** C27: the log holds what was appended, and recovery does not read it. Opening
    a new log and appending any entries (payloads below 64 KB; interrupted and
    short writes included) succeeds, and behind what wal_open wrote the file has
    bytes from which a reader that checks every checksum gets the same entries
    back, in order. But the header wal_open writes is 40 bytes (the comment at
    wal.c:19 and WAL_HEADER_SIZE say 32) and [wal_recovery_info] starts at 32, out of
    step with the entries: after one transaction was begun and committed through
    wal_begin_tx and wal_commit_tx, the file holds both entries and the recovery
    scan reports no committed transaction. *)
Theorem wal_recovery_loses_log (s : list io_event) (es : list entry) :
  benign s -> Forall entry_ok es ->
  exists w, wal_open FsAbsent s = Done (Some w) /\ length (f_bytes (wfd w)) = 40%nat /\
    (exists w' data, append_all w es = Done (SUCCESS, w') /\
       f_bytes (wfd w') = f_bytes (wfd w) ++ data /\ read_log (length es) data = Some es) /\
    (exists w1 w2 w3 data info, wal_begin_tx w = Done (SUCCESS, w1) /\
       wal_commit_tx w1 = Done (SUCCESS, w2) /\ current_tx_id w2 = 1 /\
       f_bytes (wfd w2) = f_bytes (wfd w) ++ data /\
       read_log 2 data = Some [mkEntry WAL_ENTRY_BEGIN 1 []; mkEntry WAL_ENTRY_COMMIT 1 []] /\
       wal_recovery_info w2 = Done (info, w3) /\ ri_last_tx_id info = 0).
Proof.
  intros Hs Hes. destruct (wal_open_new s Hs) as (w & E & Hwf & Hb & Hp & _ & _ & _ & Hsz).
  exists w. rewrite Hb. split_and!; [done|reflexivity| |].
  - destruct (append_all_ok es w) as (w' & E' & _ & Hb' & _); auto.
    { by rewrite Hp, Hb. } { by rewrite Hsz, Hb. }
    exists w', (log_bytes es). rewrite Hb', Hb. by split_and!; [| |apply read_log_ok].
  - destruct (wal_one_transaction s Hs) as (w0 & w1 & w2 & E0 & EB & EC & Htx & Hwf2 & Hsz2 & Hb2).
    assert (w0 = w) as -> by congruence.
    destruct (scan_out_of_step (wfd w2)) as (st & f & E3 & Hst); [apply Hwf2|done|].
    eexists w1, w2, _, _, _. split_and!; [done|done|done|exact Hb2| | |].
    + apply (read_log_ok [mkEntry WAL_ENTRY_BEGIN 1 []; mkEntry WAL_ENTRY_COMMIT 1 []]).
      repeat constructor; simpl; lia.
    + unfold wal_recovery_info. rewrite Hsz2. change WAL_HEADER_SIZE with 32.
      rewrite E3, bind_Done. reflexivity.
    + exact Hst.
Qed.

Lemma wal_recovery_loses_log_witness :
  exists w, wal_open FsAbsent [IoShort 3; IoIntr] = Done (Some w) /\
    (exists w' data, append_all w [mkEntry WAL_ENTRY_BEGIN 7 []; mkEntry WAL_ENTRY_PAGE_MODIFY 7 [1; 2]] =
         Done (SUCCESS, w') /\ f_bytes (wfd w') = f_bytes (wfd w) ++ data /\
       read_log 2 data = Some [mkEntry WAL_ENTRY_BEGIN 7 []; mkEntry WAL_ENTRY_PAGE_MODIFY 7 [1; 2]]).
Proof.
  destruct (wal_recovery_loses_log [IoShort 3; IoIntr]
    [mkEntry WAL_ENTRY_BEGIN 7 []; mkEntry WAL_ENTRY_PAGE_MODIFY 7 [1; 2]]) as (w & E & _ & H & _).
  - repeat constructor; discriminate.
  - repeat constructor; simpl; lia.
  - exists w. split; [exact E|exact H].
Defined.

(** Reopening a log and appending destroys its first entries. The descriptor
    is left behind the 40 header bytes by [wal_open] and [wal_append] writes
    there, so after a session that logged [es], reopening the log and appending
    [e] overwrites the beginning of [es]. *)
Theorem wal_append_after_reopen_overwrites s1 s2 es e :
  benign s1 -> benign s2 -> Forall entry_ok es -> entry_ok e ->
  exists w w1 w2 w3, wal_open FsAbsent s1 = Done (Some w) /\
    append_all w es = Done (SUCCESS, w1) /\
    wal_open (FsReadWrite (wal_close w1)) s2 = Done (Some w2) /\
    append_all w2 [e] = Done (SUCCESS, w3) /\
    f_bytes (wfd w3) = walheader_bytes new_walheader ++ entry_bytes e ++
                       drop (length (entry_bytes e)) (log_bytes es).
Proof.
  intros H1 H2 Hes He.
  destruct (wal_open_new s1 H1) as (w & E & Hwf & Hb & Hp & _ & _ & _ & Hsz).
  destruct (append_all_ok es w) as (w1 & E1 & Hwf1 & Hb1 & _); auto.
  { by rewrite Hp, Hb. } { by rewrite Hsz, Hb. }
  rewrite Hb in Hb1.
  destruct (wal_reopen w1 es s2 Hb1 H2) as (w2 & E2 & Hwf2 & Hb2 & Hp2 & _).
  destruct (wal_append_ok w2 e Hwf2 He) as (s3 & Hs3 & E3).
  exists w, w1, w2. eexists. split_and!; auto.
  - cbn [append_all]. rewrite E3, bind_Done. reflexivity.
  - cbn [wfd f_bytes]. rewrite Hp2, Hb2, Hb1. set (h := walheader_bytes new_walheader).
    change 40%nat with (length h). unfold write_at. rewrite length_app.
    replace (length h - (length h + length (log_bytes es)))%nat with 0%nat by lia.
    rewrite app_nil_r, take_app_length. do 2 f_equal.
Qed.

Lemma wal_append_after_reopen_overwrites_witness :
  exists w w1 w2 w3, wal_open FsAbsent [] = Done (Some w) /\
    append_all w [mkEntry WAL_ENTRY_BEGIN 1 []; mkEntry WAL_ENTRY_COMMIT 1 []] = Done (SUCCESS, w1) /\
    wal_open (FsReadWrite (wal_close w1)) [] = Done (Some w2) /\
    append_all w2 [mkEntry WAL_ENTRY_ROLLBACK 9 []] = Done (SUCCESS, w3) /\
    f_bytes (wfd w3) = walheader_bytes new_walheader ++
      entry_bytes (mkEntry WAL_ENTRY_ROLLBACK 9 []) ++
      drop 16 (log_bytes [mkEntry WAL_ENTRY_BEGIN 1 []; mkEntry WAL_ENTRY_COMMIT 1 []]).
Proof.
  apply (wal_append_after_reopen_overwrites [] []
    [mkEntry WAL_ENTRY_BEGIN 1 []; mkEntry WAL_ENTRY_COMMIT 1 []] (mkEntry WAL_ENTRY_ROLLBACK 9 []));
    repeat constructor; simpl; lia.
Defined.

(** Truncating to the documented start of the entries (WAL_HEADER_SIZE, or
    anything below 40) cuts the header itself: the call then fails, and the file
    it leaves can never be opened as a log again. *)
Theorem wal_truncate_destroys_header w off s :
  wal_wf w -> (40 <= length (f_bytes (wfd w)))%nat -> 0 <= off < 40 -> benign s ->
  exists w', wal_truncate w off = Done (ERR_STORAGE_IO, w') /\
    length (f_bytes (wfd w')) = Z.to_nat off /\
    wal_open (FsReadWrite (wal_close w')) s = Done None.
Proof.
  intros [Ho Hb Hw Hp] Hl Hoff Hs. unfold wal_truncate. rewrite i64_id by lia.
  destruct (sys_ftruncate_benign (wfd w) off Hb Hw) as (s1 & Hs1 & ->); [lia|].
  change (0 <? 0) with false. cbv iota zeta. cbn [set_log_offset set_wfd wfd].
  set (b := truncate_to (Z.to_nat off) (f_bytes (wfd w))).
  assert (length b = Z.to_nat off) as Hlb by apply length_truncate_to.
  destruct (sys_lseek_benign (File b (f_pos (wfd w)) true s1) 0 Hs1) as (s2 & Hs2 & ->); [lia|].
  change (0 <? 0) with false. cbv iota zeta. cbn [set_log_offset set_wfd wfd f_bytes f_writable].
  destruct (read_exact_eof (File b (Z.to_nat 0) true s2) sizeof_WALHeader) as (g & -> & Hg & _);
    [unfold sizeof_WALHeader; lia|cbn [f_bytes f_pos]; unfold sizeof_WALHeader; lia|].
  rewrite bind_Done. eexists. split; [done|]. cbn [set_wfd wfd f_bytes] in *. rewrite Hg.
  split; [done|]. match goal with |- context [wal_close ?x] => assert (wal_close x = b) as -> end.
  { unfold wal_close, sys_fsync, next_event. cbn [wal_is_open set_wfd wfd]. 
    destruct (wal_is_open (set_log_offset _ _)); [|done]. by destruct (f_script g) as [|[]]. }
  unfold wal_open. destruct (read_exact_eof (File b 0 true s) sizeof_WALHeader) as (g2 & -> & _);
    [unfold sizeof_WALHeader; lia|cbn [f_bytes f_pos]; unfold sizeof_WALHeader; lia|done].
Qed.

Definition demo_wal : WAL :=
  match wal_open FsAbsent [] with
  | Done (Some w) => w
  | _ => mkWAL (File [] 0 true []) 0 0 0 0 0 0 true
  end.

Lemma wal_truncate_destroys_header_witness :
  exists w', wal_truncate demo_wal WAL_HEADER_SIZE = Done (ERR_STORAGE_IO, w') /\
    length (f_bytes (wfd w')) = 32%nat /\
    wal_open (FsReadWrite (wal_close w')) [] = Done None.
Proof.
  apply (wal_truncate_destroys_header demo_wal 32 []).
  - constructor; [reflexivity|constructor|reflexivity|vm_compute; lia].
  - vm_compute. lia.
  - lia.
  - constructor.
Defined.

(** A page frame is accepted and counted, whatever the array held before. *)
Lemma build_frame_ok stack page_num d :
  len stack = 4128 -> len d = PAGE_SIZE ->
  exists frame, build_frame stack page_num d = Done frame /\ len frame = 4128 /\
    slice 0 4 frame = le_bytes 4 page_num /\ slice 16 16 frame = slice 16 16 stack /\
    slice 32 4096 frame = d.
Proof.
  intros Hs Hd. unfold build_frame, WAL_FRAME_HEADER_SIZE. unfold PAGE_SIZE in Hd.
  unfold PAGE_SIZE at 2 3.
  rewrite buf_write_Done, bind_Done by (rewrite ?length_le_bytes; lia).
  set (f1 := splice _ _ stack). assert (len f1 = 4128) as L1
    by (unfold f1; rewrite length_splice; rewrite ?length_le_bytes; lia).
  rewrite buf_write_Done, bind_Done by (rewrite ?length_le_bytes; lia).
  set (f2 := splice _ _ f1). assert (len f2 = 4128) as L2
    by (unfold f2; rewrite length_splice; rewrite ?length_le_bytes; lia).
  rewrite buf_read_Done, bind_Done by lia.
  replace (slice (Z.to_nat 0) (Z.to_nat 4096) d) with d
    by (replace (Z.to_nat 4096) with (length d) by lia; by rewrite slice_all).
  rewrite buf_write_Done, bind_Done by lia.
  set (f3 := splice _ _ f2). assert (len f3 = 4128) as L3
    by (unfold f3; rewrite length_splice; lia).
  rewrite buf_read_Done, bind_Done by lia. set (ck := wal_checksum _). clearbody ck.
  rewrite buf_write_Done, bind_Done by (rewrite ?length_le_bytes; lia).
  set (f4 := splice _ _ f3). assert (len f4 = 4128) as L4
    by (unfold f4; rewrite length_splice; rewrite ?length_le_bytes; lia).
  rewrite buf_write_Done by (rewrite ?length_le_bytes; lia).
  eexists. split; [done|].
  split_and!.
  - rewrite length_splice; rewrite ?length_le_bytes; lia.
  - rewrite slice_splice_before by lia. unfold f4. rewrite slice_splice_before by lia.
    unfold f3. rewrite slice_splice_before by lia. unfold f2. rewrite slice_splice_before by lia.
    unfold f1. change 4%nat with (length (le_bytes 4 page_num)) at 1. apply slice_splice_same. lia.
  - rewrite slice_splice_after by (rewrite ?length_le_bytes; lia).
    unfold f4. rewrite slice_splice_after by (rewrite ?length_le_bytes; lia).
    unfold f3. rewrite slice_splice_before by lia.
    unfold f2. rewrite slice_splice_after by (rewrite ?length_le_bytes; lia).
    unfold f1. rewrite slice_splice_after by (rewrite ?length_le_bytes; lia). done.
  - rewrite slice_splice_after by (rewrite ?length_le_bytes; lia).
    unfold f4. rewrite slice_splice_after by (rewrite ?length_le_bytes; lia).
    unfold f3. replace 4096%nat with (length d) by lia. apply slice_splice_same. lia.
Qed.

(** [wal_write_page] stores the page but its 32-byte frame header is only half
    initialised: bytes 16-31 of the frame are whatever the stack held, and the
    checksum covers them; two calls with the same arguments write different
    bytes. *)
Theorem wal_write_page_leaks_stack w tx n d stack stack' :
  wal_wf w -> len d = PAGE_SIZE -> len stack = 4128 -> len stack' = 4128 ->
  slice 16 16 stack <> slice 16 16 stack' ->
  exists w1 w2 o, wal_write_page stack w tx n d = Done (SUCCESS, w1) /\
    wal_write_page stack' w tx n d = Done (SUCCESS, w2) /\
    slice (o + 32) 4096 (f_bytes (wfd w1)) = d /\ slice (o + 32) 4096 (f_bytes (wfd w2)) = d /\
    f_bytes (wfd w1) <> f_bytes (wfd w2).
Proof.
  intros Hwf Hd Hs Hs' Hne. exists (match wal_write_page stack w tx n d with Done (_, w) => w | _ => w end).
  exists (match wal_write_page stack' w tx n d with Done (_, w) => w | _ => w end).
  exists (f_pos (wfd w)).
  assert (forall st, len st = 4128 -> exists w1 frame, wal_write_page st w tx n d = Done (SUCCESS, w1) /\
    f_bytes (wfd w1) = write_at (f_pos (wfd w)) frame (f_bytes (wfd w)) /\
    len frame = 4128 /\ slice 16 16 frame = slice 16 16 st /\ slice 32 4096 frame = d) as H.
  { intros st Hst. destruct (build_frame_ok st n d Hst Hd) as (fr & E & Hl & _ & H16 & H32).
    unfold wal_write_page. rewrite E, bind_Done. destruct Hwf as [Ho Hb Hw Hp].
    destruct (write_exact_benign (wfd w) fr Hb Hw (or_introl Hp)) as (s1 & Hs1 & ->).
    rewrite bind_Done. change (0 <? 0) with false. cbv iota zeta.
    match goal with |- context [refresh_file_size ?w'] =>
      destruct (refresh_file_size_ok w') as (s3 & Hs3 & ->) end.
    { constructor; try done. cbn [set_log_offset set_frame_count set_wfd wfd f_pos f_bytes].
      rewrite length_write_at. lia. }
    eexists _, fr. by split_and!. }
  destruct (H stack Hs) as (w1 & f1 & -> & B1 & L1 & A1 & C1).
  destruct (H stack' Hs') as (w2 & f2 & -> & B2 & L2 & A2 & C2).
  split_and!; auto.
  - rewrite B1, slice_write_at_inside by lia. by replace (_ + 32 - _)%nat with 32%nat by lia.
  - rewrite B2, slice_write_at_inside by lia. by replace (_ + 32 - _)%nat with 32%nat by lia.
  - rewrite B1, B2. intros E. apply Hne. rewrite <- A1, <- A2.
    apply (f_equal (slice (f_pos (wfd w) + 16) 16)) in E.
    rewrite !slice_write_at_inside in E by lia.
    by replace (f_pos (wfd w) + 16 - f_pos (wfd w))%nat with 16%nat in E by lia.
Qed.

Lemma wal_write_page_leaks_stack_witness :
  exists w1 w2 o,
    wal_write_page (replicate 4128 0) demo_wal 1 1 (replicate (Z.to_nat PAGE_SIZE) 5) = Done (SUCCESS, w1) /\
    wal_write_page (replicate 4128 1) demo_wal 1 1 (replicate (Z.to_nat PAGE_SIZE) 5) = Done (SUCCESS, w2) /\
    slice (o + 32) 4096 (f_bytes (wfd w1)) = replicate (Z.to_nat PAGE_SIZE) 5 /\
    slice (o + 32) 4096 (f_bytes (wfd w2)) = replicate (Z.to_nat PAGE_SIZE) 5 /\
    f_bytes (wfd w1) <> f_bytes (wfd w2).
Proof.
  apply (wal_write_page_leaks_stack demo_wal 1 1).
  - constructor; [reflexivity|constructor|reflexivity|vm_compute; lia].
  - apply len_replicate_page.
  - by rewrite length_replicate.
  - by rewrite length_replicate.
  - vm_compute. discriminate.
Defined.
