(* ===== verification/CString.v ===== *)
(** Model of src/util/string.c: NUL-terminated strings in byte buffers, bounded
    copy and concatenation, and the growable pointer list. The mem_* wrappers
    around malloc are not modelled. *)
From Stdlib Require Import ZArith Lia String Ascii.
From stdpp Require Import base numbers option list.
From S2P Require Import Prelude.

(** ** Characters (ASCII locale) *)

Definition tolower (c : Z) : Z := if (65 <=? c) && (c <=? 90) then c + 32 else c.
Definition toupper (c : Z) : Z := if (97 <=? c) && (c <=? 122) then c - 32 else c.
Definition isdigit (c : Z) : bool := (48 <=? c) && (c <=? 57).
Definition isalpha (c : Z) : bool := ((65 <=? c) && (c <=? 90)) || ((97 <=? c) && (c <=? 122)).
Definition isalnum (c : Z) : bool := isalpha c || isdigit c.
Definition isspace (c : Z) : bool := (c =? 32) || ((9 <=? c) && (c <=? 13)).
Definition isxdigit (c : Z) : bool :=
  isdigit c || ((65 <=? c) && (c <=? 70)) || ((97 <=? c) && (c <=? 102)).

(** The text of a string literal, as bytes. *)
Fixpoint zstr (s : string) : list Z :=
  match s with
  | EmptyString => []
  | String c s => Z.of_N (N_of_ascii c) :: zstr s
  end.

(** ** Length and comparison: a pointer is the rest of its buffer *)

Fixpoint str_len (b : list Z) : outcome Z :=
  match b with
  | [] => Undef
  | c :: b => if c =? 0 then Done 0 else let* n := str_len b in Done (n + 1)
  end.

Fixpoint str_nlen (b : list Z) (max_len : nat) : outcome Z :=
  match max_len with
  | O => Done 0
  | S m =>
      match b with
      | [] => Undef
      | c :: b => if c =? 0 then Done 0 else let* n := str_nlen b m in Done (n + 1)
      end
  end.

(** strcmp, with -1, 0, 1 for the sign of the result. *)
Fixpoint strcmp (a b : list Z) : outcome Z :=
  match a, b with
  | x :: a, y :: b =>
      if x <? y then Done (-1) else if y <? x then Done 1
      else if x =? 0 then Done 0 else strcmp a b
  | _, _ => Undef
  end.

(** strncmp, the same way. *)
Fixpoint strncmp (a b : list Z) (n : nat) {struct n} : outcome Z :=
  match n with
  | O => Done 0
  | S n =>
      match a, b with
      | x :: a, y :: b =>
          if x <? y then Done (-1) else if y <? x then Done 1
          else if x =? 0 then Done 0 else strncmp a b n
      | _, _ => Undef
      end
  end.

(** A string literal in memory. *)
Definition lit (s : string) : list Z := zstr s ++ [0].

(** [strcmp(a, b) == 0] and [strncmp(a, b, strlen(b)) == 0]. *)
Definition streq (a : list Z) (b : string) : outcome bool :=
  let* r := strcmp a (lit b) in Done (r =? 0).
Definition has_prefix (a : list Z) (b : string) : outcome bool :=
  let* r := strncmp a (lit b) (length (zstr b)) in Done (r =? 0).

(** NULL is [None]. *)
Definition str_eq (a b : option (list Z)) : outcome bool :=
  match a, b with
  | Some a, Some b => let* r := strcmp a b in Done (r =? 0)
  | None, None => Done true
  | _, _ => Done false
  end.

Definition str_ne (a b : option (list Z)) : outcome bool :=
  let* r := str_eq a b in Done (negb r).

Fixpoint str_case_eq_loop (a b : list Z) : outcome bool :=
  match a, b with
  | x :: a, y :: b =>
      if negb (x =? 0) && negb (y =? 0) then
        if negb (tolower x =? tolower y) then Done false else str_case_eq_loop a b
      else Done (x =? y)
  | _, _ => Undef
  end.

Definition str_case_eq (a b : option (list Z)) : outcome bool :=
  match a, b with
  | Some a, Some b => str_case_eq_loop a b
  | None, None => Done true
  | _, _ => Done false
  end.

(** ** Duplication *)

Definition str_dup (s : list Z) : outcome (list Z) :=
  let* n := str_len s in buf_read 0 (n + 1) s.

Definition str_ndup (s : list Z) (len : nat) : outcome (list Z) :=
  let* n := str_nlen s len in
  let* d := buf_read 0 n s in Done (d ++ [0]).

(** ** Bounded copy and concatenation *)

(** memcpy of [copy_len] bytes to [dest + off], then the terminator. *)
Definition copy_terminated (dest : list Z) (off copy_len : Z) (src : list Z)
    : outcome (Z * list Z) :=
  let* d := buf_read 0 copy_len src in
  let* dest := buf_write off d dest in
  let* dest := buf_write (off + copy_len) [0] dest in
  Done (copy_len, dest).

(** [str_cpy] to [dest + off]. *)
Definition str_cpy_at (dest : list Z) (off dest_size : Z) (src : list Z) : outcome (Z * list Z) :=
  if dest_size =? 0 then Done (0, dest) else
  let* src_len := str_len src in
  let copy_len := if src_len <? dest_size - 1 then src_len else dest_size - 1 in
  copy_terminated dest off copy_len src.

Definition str_cpy (dest : list Z) (dest_size : Z) (src : list Z) : outcome (Z * list Z) :=
  str_cpy_at dest 0 dest_size src.

Definition str_ncpy (dest : list Z) (dest_size : Z) (src : list Z) (src_len : Z)
    : outcome (Z * list Z) :=
  if dest_size =? 0 then Done (0, dest) else
  let copy_len := if src_len <? dest_size - 1 then src_len else dest_size - 1 in
  copy_terminated dest 0 copy_len src.

Definition str_cat (dest : list Z) (dest_size : Z) (src : list Z) : outcome (Z * list Z) :=
  if dest_size =? 0 then Done (0, dest) else
  let* dest_len := str_len dest in
  let remaining := u64 (dest_size - dest_len) in
  if remaining <=? 1 then Done (dest_len, dest) else
  let* '(copied, dest) := str_cpy_at dest dest_len remaining src in
  Done (dest_len + copied, dest).

(** ** Growable list of pointers *)

Record List : Type := mkList { items : list Z; list_cnt : Z; capacity : Z }.

Definition list_create (initial_capacity : Z) : List :=
  let cap := if initial_capacity =? 0 then 16 else initial_capacity in
  mkList (replicate (Z.to_nat cap) 0) 0 cap.

(** The slots that realloc adds are indeterminate; 0 stands for them. *)
Definition list_append (l : List) (item : Z) : outcome (Z * List) :=
  let l :=
    if capacity l <=? list_cnt l then
      let new_capacity := u64 (capacity l * 2) in
      mkList (take (Z.to_nat new_capacity) (items l) ++
              replicate (Z.to_nat new_capacity - length (items l)) 0) (list_cnt l) new_capacity
    else l in
  let* its := buf_write (list_cnt l) [item] (items l) in
  Done (0, mkList its (list_cnt l + 1) (capacity l)).

(** NULL is 0. *)
Definition list_get (l : List) (index : Z) : outcome Z :=
  if list_cnt l <=? index then Done 0 else outcome_of_option (items l !! Z.to_nat index).

Definition list_count (l : List) : Z := list_cnt l.
Definition list_is_empty (l : List) : bool := list_cnt l =? 0.

(** ** Facts *)

(** The buffer [b] holds the C string [s]. *)
Definition cstr (b s : list Z) : Prop := (exists r, b = s ++ 0 :: r) /\ 0 ∉ s.

Lemma str_len_ok b s : cstr b s -> str_len b = Done (len s).
Proof.
  intros [[r ->] Hn]. induction s as [|c s IH]; [done|]. cbn [str_len app].
  apply not_elem_of_cons in Hn as [H0 Hn]. destruct (Z.eqb_spec c 0); [congruence|].
  rewrite IH by done. rewrite bind_Done. f_equal. simpl. lia.
Qed.

Lemma copy_terminated_ok dest off n src :
  0 <= off -> 0 <= n <= len src -> off + n < len dest ->
  copy_terminated dest off n src =
    Done (n, splice (Z.to_nat off) (take (Z.to_nat n) src ++ [0]) dest).
Proof.
  intros Ho Hn Hd. unfold copy_terminated. rewrite buf_read_Done, bind_Done by lia.
  unfold slice. change (Z.to_nat 0) with 0%nat. rewrite drop_0.
  set (d := take (Z.to_nat n) src). assert (len d = n) as Hl by (unfold d; rewrite length_take; lia).
  rewrite buf_write_Done, bind_Done by lia.
  rewrite buf_write_Done, bind_Done by (change (len [0]) with 1; rewrite ?length_splice; lia).
  replace (Z.to_nat (off + n)) with (Z.to_nat off + length d)%nat by lia.
  by rewrite splice_app by lia.
Qed.

(** [str_cat] never writes outside the destination: with a destination string
    shorter than [dest_size] it leaves the longest prefix of the concatenation
    that fits, NUL-terminated, returns its length, and keeps the rest of the
    buffer. *)
Theorem str_cat_bounded dest d src s dest_size :
  cstr dest d -> cstr src s -> len d < dest_size <= len dest -> len dest < 2 ^ 64 ->
  let t := take (Z.to_nat (dest_size - 1)) (d ++ s) in
  str_cat dest dest_size src = Done (len t, t ++ 0 :: drop (S (length t)) dest).
Proof.
  intros Hd Hs Hsz H64 t. unfold str_cat. destruct (Z.eqb_spec dest_size 0) as [|_]; [lia|].
  rewrite (str_len_ok dest d Hd), bind_Done. rewrite u64_id by lia.
  destruct Hd as [[r Hr] _]. destruct (Z.leb_spec (dest_size - len d) 1).
  - assert (t = d) as -> by (unfold t; apply take_app_length'; lia).
    rewrite Hr at 1. do 2 f_equal. rewrite Hr.
    replace (S (length d)) with (length d + 1)%nat by lia. by rewrite <- drop_drop, drop_app_length.
  - unfold str_cpy_at. destruct (Z.eqb_spec (dest_size - len d) 0) as [|_]; [lia|].
    rewrite (str_len_ok src s Hs), bind_Done. destruct Hs as [[q ->] _].
    set (n := if len s <? dest_size - len d - 1 then len s else dest_size - len d - 1).
    assert (n = Z.min (len s) (dest_size - len d - 1)) as Hn by (unfold n; zcase).
    rewrite copy_terminated_ok, bind_Done by (rewrite ?length_app; lia).
    assert (take (Z.to_nat n) (s ++ 0 :: q) = take (Z.to_nat n) s) as -> by (apply take_app_le; lia).
    assert (t = d ++ take (Z.to_nat n) s) as Ht.
    { unfold t. rewrite take_app. rewrite take_ge by lia. f_equal.
      destruct (decide (len s <= dest_size - len d - 1)).
      - rewrite !take_ge by lia. done.
      - f_equal. lia. }
    assert (len t = len d + n) as Hlt by (rewrite Ht, length_app, length_take; lia).
    rewrite Hlt. do 2 f_equal. unfold splice. rewrite Nat2Z.id, Hr at 1.
    rewrite take_app_length. rewrite Ht, <- !app_assoc. do 2 f_equal. simpl. f_equal. f_equal.
    rewrite !length_app. simpl. lia.
Qed.

Lemma str_cat_bounded_witness :
  str_cat [97; 98; 0; 1; 1; 1; 1] 5 [99; 100; 101; 0; 7] = Done (4, [97; 98; 99; 100; 0; 1; 1]).
Proof.
  apply (str_cat_bounded [97; 98; 0; 1; 1; 1; 1] [97; 98] [99; 100; 101; 0; 7] [99; 100; 101] 5).
  - split; [by exists [1; 1; 1; 1]|]. intros H. repeat (apply elem_of_cons in H as [H|H]; [lia|]). by apply elem_of_nil in H.
  - split; [by exists [7]|]. intros H. repeat (apply elem_of_cons in H as [H|H]; [lia|]). by apply elem_of_nil in H.
  - simpl. lia.
  - simpl. lia.
Defined.

(** The list [l] holds the items [xs]. *)
Record list_rep (l : List) (xs : list Z) : Prop := {
  lp_count : list_cnt l = len xs;
  lp_items : take (length xs) (items l) = xs;
  lp_capacity : capacity l = len (items l);
  lp_fits : 0 < capacity l < 2 ^ 63 /\ list_cnt l <= capacity l }.

Lemma list_create_rep n : 0 <= n < 2 ^ 63 -> list_rep (list_create n) [].
Proof.
  intros Hn. unfold list_create. destruct (Z.eqb_spec n 0); constructor; simpl;
    rewrite ?length_replicate; lia || done.
Qed.

Lemma list_append_rep l xs x :
  list_rep l xs -> capacity l < 2 ^ 62 ->
  exists l', list_append l x = Done (0, l') /\ list_rep l' (xs ++ [x]).
Proof.
  intros [Hc Hi Hk [Hf1 Hf2]] H62. unfold list_append.
  set (l1 := if capacity l <=? list_cnt l then _ else l).
  assert (list_cnt l1 = list_cnt l /\ list_cnt l < capacity l1 < 2 ^ 63 /\ capacity l1 = len (items l1) /\
    take (length xs) (items l1) = xs) as (H1 & H2 & H3 & H4).
  { unfold l1. destruct (Z.leb_spec (capacity l) (list_cnt l)); [|split_and!; auto; lia].
    cbn [list_cnt capacity items]. rewrite u64_id by lia. split_and!; try lia.
    - rewrite length_app, length_take, length_replicate. lia.
    - rewrite (take_ge (items l)) by lia. rewrite take_app_le by lia. done. }
  rewrite H1, buf_write_Done, bind_Done by (simpl; lia).
  eexists. split; [done|]. constructor; cbn [list_cnt items capacity].
  - rewrite length_app. simpl. lia.
  - unfold splice. rewrite Hc, Nat2Z.id, app_assoc.
    rewrite take_app_le; [|rewrite !length_app, length_take; simpl; lia].
    rewrite H4. apply take_ge. lia.
  - rewrite length_splice; simpl; lia.
  - lia.
Qed.

(** The growable list refines a sequence: appending any items to a new list
    keeps them all, in order, across the reallocations, and [list_get] returns
    the item at an index, NULL past the end. *)
Theorem list_refines_sequence n xs :
  0 <= n < 2 ^ 61 -> len xs < 2 ^ 61 ->
  exists l, foldl (fun m x => let* l := m in let* '(_, l) := list_append l x in Done l)
              (Done (list_create n)) xs = Done l /\
    list_count l = len xs /\
    forall i, 0 <= i -> list_get l i = Done (default 0 (xs !! Z.to_nat i)).
Proof.
  intros Hn Hx.
  assert (exists l, foldl (fun m x => let* l := m in let* '(_, l) := list_append l x in Done l)
    (Done (list_create n)) xs = Done l /\ list_rep l xs /\ capacity l <= Z.max 16 (Z.max n (2 * len xs)))
    as (l & E & Hl & _).
  { revert Hx. induction xs as [|x xs IH] using rev_ind; intros Hx.
    - exists (list_create n). split; [done|]. split; [apply list_create_rep; lia|].
      unfold list_create. simpl. destruct (Z.eqb_spec n 0); lia.
    - rewrite length_app in Hx. simpl in Hx. destruct IH as (l & E & Hl & Hc); [lia|].
      rewrite foldl_app, E. cbn [foldl]. rewrite bind_Done.
      destruct (list_append_rep l xs x Hl) as (l' & E' & Hl'); [lia|].
      rewrite E', bind_Done. exists l'. split_and!; auto.
      unfold list_append in E'. outcome_inv. cbn [capacity]. rewrite length_app. simpl.
      destruct Hl as [Hk _ _ [Hp Hq]]. destruct (Z.leb_spec (capacity l) (list_cnt l)); [|lia].
      cbn [capacity]. rewrite u64_id by lia. lia. }
  exists l. split_and!; auto; [apply Hl|]. intros i Hi. unfold list_get.
  destruct Hl as [Hc Hit Hk Hf]. destruct (Z.leb_spec (list_cnt l) i).
  - rewrite lookup_ge_None_2 by lia. done.
  - destruct (lookup_lt_is_Some_2 xs (Z.to_nat i)) as [x Hlk]; [lia|]. rewrite Hlk. simpl.
    rewrite <- Hit in Hlk. apply lookup_take_Some in Hlk as [Hlk _]. by rewrite Hlk.
Qed.

Lemma list_refines_sequence_witness :
  exists l, foldl (fun m x => let* l := m in let* '(_, l) := list_append l x in Done l)
              (Done (list_create 1)) [5; 6; 7] = Done l /\
    list_count l = 3 /\
    forall i, 0 <= i -> list_get l i = Done (default 0 ([5; 6; 7] !! Z.to_nat i)).
Proof. apply (list_refines_sequence 1 [5; 6; 7]); simpl; lia. Defined.
