(* ===== verification/Protocol.v ===== *)
(** Model of src/server/protocol.c: the line-oriented request buffer, the
    response encoders and the text escaping used on the wire. *)
From Stdlib Require Import ZArith Lia.
From stdpp Require Import base numbers option list.
From S2P Require Import Prelude CString.

Definition PROTOCOL_BUFFER_SIZE : Z := 8192.
Definition RESPONSE_ROWS : Z := 2.
Definition RESPONSE_ERROR : Z := 3.

(** ** The request buffer *)

Record ProtocolBuffer : Type := mkProto {
  p_fd : Z;
  buffer : option (list Z);
  buffer_size : Z;
  buffer_pos : Z;
  data_len : Z }.

(** malloc's contents are indeterminate: [mem] is what the block holds. *)
Definition protocol_init (mem : list Z) (fd : Z) : option ProtocolBuffer :=
  if fd <? 0 then None else
  Some (mkProto fd (Some (take (Z.to_nat PROTOCOL_BUFFER_SIZE) mem)) PROTOCOL_BUFFER_SIZE 0 0).

Definition protocol_close (p : ProtocolBuffer) : ProtocolBuffer :=
  mkProto (if 0 <=? p_fd p then -1 else p_fd p) None (buffer_size p) (buffer_pos p) (data_len p).

(** What read(2) on the connection delivers: bytes (none at end of stream) or an
    error; it never delivers more than was asked for. *)
Inductive recv_event : Type :=
  | RecvData (d : list Z)
  | RecvError.

Definition recv (e : recv_event) (count : Z) : option (list Z) :=
  match e with RecvData d => Some (take (Z.to_nat count) d) | RecvError => None end.

(** strchr(b, '\n'): the index of the first newline before the NUL. *)
Fixpoint find_newline (b : list Z) : outcome (option Z) :=
  match b with
  | [] => Undef
  | c :: b =>
      if c =? 10 then Done (Some 0) else if c =? 0 then Done None else
      let* r := find_newline b in
      Done (match r with Some i => Some (i + 1) | None => None end)
  end.

(** Result code, the protocol state and the caller's buffer. *)
Definition protocol_read_request (p : ProtocolBuffer) (e : recv_event) (sql_buf : list Z)
    (buf_size : Z) : outcome (Z * ProtocolBuffer * list Z) :=
  if buf_size =? 0 then Done (-1, p, sql_buf) else
  match buffer p with
  | None => Undef
  | Some b =>
    match recv e (u64 (buffer_size p - data_len p - 1)) with
    | None => Done (-1, p, sql_buf)
    | Some [] => Done (0, p, sql_buf)
    | Some d =>
      let* b := buf_write (data_len p) d b in
      let dl := data_len p + len d in
      let* b := buf_write dl [0] b in
      let* nl := find_newline b in
      match nl with
      | Some newline =>
          let line_len := if buf_size <=? newline then buf_size - 1 else newline in
          let* line := buf_read 0 line_len b in
          let* sql_buf := buf_write 0 line sql_buf in
          let* sql_buf := buf_write line_len [0] sql_buf in
          let remaining := u64 (dl - line_len - 1) in
          let* b :=
            if 0 <? remaining
            then let* r := buf_read (newline + 1) remaining b in buf_write 0 r b
            else Done b in
          Done (1, mkProto (p_fd p) (Some b) (buffer_size p) (buffer_pos p) remaining, sql_buf)
      | None =>
          let dl' := if buffer_size p - 1 <=? dl then 0 else dl in
          Done (-1, mkProto (p_fd p) (Some b) (buffer_size p) (buffer_pos p) dl', sql_buf)
      end
    end
  end.

(** ** Responses *)

(** The 12-byte ResponseHeader (little-endian, no padding). *)
Definition response_header (type flags column_count row_count changes : Z) : list Z :=
  le_bytes 1 type ++ le_bytes 1 flags ++ le_bytes 2 column_count ++
  le_bytes 4 row_count ++ le_bytes 4 changes.

(** [written] is what write(2) reports for the header. *)
Definition protocol_write_response (type changes written : Z) : Z * list Z :=
  (if written =? 12 then 0 else -1, response_header type 0 0 0 changes).

Definition protocol_write_rows (column_count row_count written : Z) : Z * list Z :=
  (if written =? 12 then 0 else -1, response_header RESPONSE_ROWS 0 column_count row_count 0).

(** The three writes of an error response: header, 16-bit length, text.
    [w1], [w2], [w3] are what write(2) reports. *)
Definition protocol_write_error (error_code : Z) (message : list Z) (w1 w2 w3 : Z)
    : outcome (Z * list Z) :=
  let hdr := response_header RESPONSE_ERROR 1 0 0 error_code in
  if negb (w1 =? 12) then Done (-1, hdr) else
  let* n := str_len message in
  let msg_len := u16 n in
  let out := hdr ++ le_bytes 2 msg_len in
  if negb (w2 =? 2) then Done (-1, out) else
  let* text := buf_read 0 msg_len message in
  if negb (w3 =? msg_len) then Done (-1, out ++ text) else Done (0, out ++ text).

(** ** Escaping *)

(** dst[j++] = c, for each character of [cs]. *)
Fixpoint put_all (dst : list Z) (j : Z) (cs : list Z) : outcome (list Z) :=
  match cs with
  | [] => Done dst
  | c :: cs => let* dst := buf_write j [c] dst in put_all dst (j + 1) cs
  end.

(** The switch of [protocol_escape_string]; 92 is the backslash. *)
Definition escape_char (c : Z) : list Z :=
  if c =? 9 then [92; 116]
  else if c =? 10 then [92; 110]
  else if c =? 92 then [92; 92]
  else if c =? 0 then [92; 48]
  else [c].

Fixpoint escape_loop (src dst : list Z) (j dst_size : Z) : outcome (Z * list Z) :=
  match src with
  | [] => Undef
  | c :: src =>
      if negb (c =? 0) && (j + 2 <? dst_size) then
        let* dst := put_all dst j (escape_char c) in
        escape_loop src dst (j + len (escape_char c)) dst_size
      else
        let* dst := buf_write j [0] dst in Done (j, dst)
  end.

Definition protocol_escape_string (src dst : list Z) (dst_size : Z) : outcome (Z * list Z) :=
  if dst_size =? 0 then Done (0, dst) else escape_loop src dst 0 dst_size.

Definition unescape_char (c : Z) : Z :=
  if c =? 116 then 9 else if c =? 110 then 10 else if c =? 92 then 92
  else if c =? 48 then 0 else c.

Fixpoint unescape_loop (src dst : list Z) (j dst_size : Z) : outcome (Z * list Z) :=
  match src with
  | [] => Undef
  | c :: src =>
      if negb (c =? 0) && (j <? dst_size - 1) then
        match src with
        | [] => if c =? 92 then Undef else
                let* _ := buf_write j [c] dst in Undef
        | c2 :: src2 =>
            if (c =? 92) && negb (c2 =? 0) then
              let* dst := buf_write j [unescape_char c2] dst in
              unescape_loop src2 dst (j + 1) dst_size
            else
              let* dst := buf_write j [c] dst in
              unescape_loop src dst (j + 1) dst_size
        end
      else
        let* dst := buf_write j [0] dst in Done (j, dst)
  end.

Definition protocol_unescape_string (src dst : list Z) (dst_size : Z) : outcome (Z * list Z) :=
  if dst_size =? 0 then Done (0, dst) else unescape_loop src dst 0 dst_size.

(** ** Escaping: facts *)

Definition escape (s : list Z) : list Z := s ≫= escape_char.

Lemma put_all_ok dst j cs :
  0 <= j -> j + len cs <= len dst -> put_all dst j cs = Done (splice (Z.to_nat j) cs dst).
Proof.
  revert dst j. induction cs as [|c cs IH]; intros dst j Hj Hl; cbn [put_all].
  - unfold splice. simpl. rewrite Nat.add_0_r, take_drop. done.
  - cbn [length] in Hl. rewrite buf_write_Done, bind_Done by (simpl; lia).
    rewrite IH by (rewrite ?length_splice; simpl; lia).
    replace (Z.to_nat (j + 1)) with (Z.to_nat j + length [c])%nat by (simpl; lia).
    rewrite splice_app by lia. done.
Qed.

Lemma escape_char_len c : (1 <= length (escape_char c) <= 2)%nat.
Proof. unfold escape_char. repeat case_match; simpl; lia. Qed.

(** The loop appends the escapes of a prefix and the terminator. *)
Lemma escape_loop_ok s r dst done_ j dst_size :
  0 ∉ s -> 0 < dst_size <= len dst -> j = len done_ -> j < dst_size ->
  take (Z.to_nat j) dst = done_ ->
  exists p q, s = p ++ q /\ (q = [] \/ dst_size <= j + len (escape p) + 2) /\
    j + len (escape p) < dst_size /\
    escape_loop (s ++ 0 :: r) dst j dst_size =
      Done (j + len (escape p),
            done_ ++ escape p ++ 0 :: drop (Z.to_nat (j + len (escape p)) + 1) dst).
Proof.
  intros Hn Hsz. revert dst done_ j Hsz. induction s as [|c s IH]; intros dst done_ j Hsz Hj Hlt Htk.
  - exists [], []. split_and!; auto; [simpl; lia|]. cbn [app escape_loop]. simpl (escape []).
    change (negb (0 =? 0)) with false. cbv iota. cbn [andb].
    rewrite buf_write_Done, bind_Done by (simpl; lia). rewrite Z.add_0_r. do 2 f_equal.
    unfold splice. rewrite Htk. simpl. done.
  - apply not_elem_of_cons in Hn as [Hc Hn]. cbn [app escape_loop].
    assert (negb (c =? 0) = true) as -> by (destruct (Z.eqb_spec c 0); [congruence|done]).
    destruct (Z.ltb_spec (j + 2) dst_size) as [Hfit|Hfit]; cbn [andb].
    + pose proof (escape_char_len c). rewrite put_all_ok, bind_Done by lia.
      assert (len (splice (Z.to_nat j) (escape_char c) dst) = len dst) as Hld
        by (rewrite length_splice; lia).
      destruct (IH Hn (splice (Z.to_nat j) (escape_char c) dst) (done_ ++ escape_char c)
        (j + len (escape_char c))) as (p & q & -> & Hq & Hb & E).
      { lia. } { rewrite length_app. lia. } { lia. }
      { unfold splice. rewrite Htk, app_assoc. apply take_app_length'. rewrite length_app. lia. }
      exists (c :: p), q. unfold escape in *. rewrite bind_cons.
      rewrite length_app. split_and!; auto; [destruct Hq; [by left|right; lia]|lia|].
      rewrite E. replace (j + Z.of_nat (length (escape_char c) + length (p ≫= escape_char)))
        with (j + len (escape_char c) + len (p ≫= escape_char)) by lia.
      do 2 f_equal. rewrite <- !app_assoc. do 4 f_equal.
      unfold splice. rewrite app_assoc. rewrite drop_app_ge by (rewrite length_app, length_take; lia).
      rewrite drop_drop. f_equal. rewrite length_app, length_take. lia.
    + exists [], (c :: s). unfold escape. simpl. split_and!; auto; [right; lia|lia|].
      rewrite buf_write_Done, bind_Done by (simpl; lia). rewrite Z.add_0_r. do 2 f_equal.
      unfold splice. rewrite Htk. simpl. done.
Qed.

(** Escaping stays inside the destination and cuts between characters. *)
Lemma protocol_escape_string_ok src s dst dst_size :
  cstr src s -> 0 < dst_size <= len dst ->
  exists p q, s = p ++ q /\ len (escape p) < dst_size /\
    (q = [] \/ dst_size <= len (escape p) + 2) /\
    protocol_escape_string src dst dst_size =
      Done (len (escape p), escape p ++ 0 :: drop (length (escape p) + 1) dst).
Proof.
  intros [[r ->] Hn] Hsz. unfold protocol_escape_string.
  destruct (Z.eqb_spec dst_size 0) as [|_]; [lia|].
  destruct (escape_loop_ok s r dst [] 0 dst_size Hn Hsz) as (p & q & Hs & Hq & Hb & E);
    [done|lia|done|].
  exists p, q. rewrite Z.add_0_l, Nat2Z.id in *. auto.
Qed.

(** One step of unescaping undoes one escape. *)
Lemma unescape_loop_escape s r dst done_ j dst_size :
  0 ∉ s -> dst_size <= len dst -> j = len done_ -> j + len s < dst_size ->
  take (Z.to_nat j) dst = done_ ->
  unescape_loop (escape s ++ 0 :: r) dst j dst_size =
    Done (j + len s, done_ ++ s ++ 0 :: drop (Z.to_nat (j + len s) + 1) dst).
Proof.
  intros Hn. revert dst done_ j. induction s as [|c s IH]; intros dst done_ j Hsz Hj Hlt Htk.
  - simpl. rewrite buf_write_Done, bind_Done by (simpl; lia). rewrite Z.add_0_r. do 2 f_equal.
    unfold splice. by rewrite Htk.
  - apply not_elem_of_cons in Hn as [Hc Hn]. unfold escape. rewrite bind_cons, <- app_assoc.
    fold (escape s). cbn [length] in *.
    assert (forall rest, rest = escape s ++ 0 :: r ->
      (let* dst := buf_write j [c] dst in unescape_loop rest dst (j + 1) dst_size) =
      Done (j + Z.of_nat (S (length s)), done_ ++ (c :: s) ++ 0 :: drop (Z.to_nat (j + Z.of_nat (S (length s))) + 1) dst))
      as Hput.
    { intros rest ->. rewrite buf_write_Done, bind_Done by (simpl; lia).
      rewrite (IH Hn (splice (Z.to_nat j) [c] dst) (done_ ++ [c])).
      - replace (j + 1 + len s) with (j + Z.of_nat (S (length s))) by lia.
        do 2 f_equal. rewrite <- !app_assoc. simpl. do 4 f_equal.
        unfold splice. rewrite app_assoc, drop_app_ge by (rewrite length_app, length_take; simpl; lia).
        rewrite drop_drop. f_equal. rewrite length_app, length_take. simpl. lia.
      - rewrite length_splice; simpl; lia.
      - rewrite length_app. simpl. lia.
      - lia.
      - unfold splice. rewrite Htk, app_assoc. apply take_app_length'. rewrite length_app. simpl. lia. }
    unfold escape_char.
    destruct (Z.eqb_spec c 9) as [->|H9]; [|destruct (Z.eqb_spec c 10) as [->|H10];
      [|destruct (Z.eqb_spec c 92) as [->|H92]; [|destruct (Z.eqb_spec c 0) as [|_]; [congruence|]]]];
      cbn [app unescape_loop].
    1-3: destruct (Z.ltb_spec j (dst_size - 1)); [|lia]; cbn; by apply Hput.
    assert (negb (c =? 0) = true) as -> by (destruct (Z.eqb_spec c 0); [congruence|done]).
    destruct (Z.ltb_spec j (dst_size - 1)); [|lia]. cbn [andb].
    assert (exists x l, escape s ++ 0 :: r = x :: l) as (x & l & El)
      by (destruct (escape s); simpl; eauto).
    rewrite El. assert ((c =? 92) = false) as -> by (by apply Z.eqb_neq). cbn [andb].
    rewrite <- El. by apply Hput.
Qed.

(** C18: the wire encoding round trip: with room for every escape, unescaping the
    escaped text gives the text back. *)
Theorem escape_unescape_roundtrip src s d1 n1 d2 n2 :
  cstr src s -> 2 * len s < n1 <= len d1 -> len s < n2 <= len d2 ->
  exists e out, protocol_escape_string src d1 n1 = Done (len (escape s), e) /\
    protocol_unescape_string e d2 n2 = Done (len s, out) /\ cstr out s.
Proof.
  intros Hs H1 H2. destruct (protocol_escape_string_ok src s d1 n1 Hs) as (p & q & E & Hb & Hq & Ee); [lia|].
  assert (len (escape p) <= 2 * len p) as Hp.
  { clear. unfold escape. induction p as [|c p IH]; [simpl; lia|].
    rewrite bind_cons, length_app. pose proof (escape_char_len c). cbn [length] in *. lia. }
  assert (q = []) as ->.
  { destruct Hq as [|Hq]; [done|]. destruct q; [done|]. rewrite E, length_app in H1. simpl in H1. lia. }
  rewrite app_nil_r in E. subst p. rewrite Ee.
  eexists _, _. split; [done|]. destruct Hs as [[r ->] Hn]. unfold protocol_unescape_string.
  destruct (Z.eqb_spec n2 0) as [|_]; [lia|].
  rewrite (unescape_loop_escape s _ d2 [] 0 n2 Hn) by (done || lia). split; [done|].
  split; [eexists; done|done].
Qed.

Lemma escape_unescape_roundtrip_witness :
  exists e out, protocol_escape_string [9; 92; 110; 0] (replicate 7 1) 7 =
      Done (len (escape [9; 92; 110]), e) /\
    protocol_unescape_string e (replicate 4 1) 4 = Done (3, out) /\ cstr out [9; 92; 110].
Proof.
  apply (escape_unescape_roundtrip [9; 92; 110; 0] [9; 92; 110]); [|simpl; lia|simpl; lia].
  split; [by exists []|].
  intros H. repeat (apply elem_of_cons in H as [H|H]; [lia|]). by apply elem_of_nil in H.
Defined.

(** ** Requests *)

(** [x] has been received and not yet consumed. *)
Record proto_rep (p : ProtocolBuffer) (x : list Z) : Prop := {
  pr_size : buffer_size p = PROTOCOL_BUFFER_SIZE;
  pr_len : data_len p = len x;
  pr_room : len x < PROTOCOL_BUFFER_SIZE - 1;
  pr_buffer : exists rest, buffer p = Some (x ++ rest) /\ len (x ++ rest) = PROTOCOL_BUFFER_SIZE }.

Lemma find_newline_ok l r :
  0 ∉ l -> 10 ∉ l -> find_newline (l ++ 10 :: r) = Done (Some (len l)).
Proof.
  intros H0 H1. induction l as [|c l IH]; [done|]. cbn [find_newline app].
  apply not_elem_of_cons in H0 as [H0 H0']. apply not_elem_of_cons in H1 as [H1 H1'].
  destruct (Z.eqb_spec c 10); [congruence|]. destruct (Z.eqb_spec c 0); [congruence|].
  rewrite IH by done. rewrite bind_Done. do 2 f_equal. simpl. lia.
Qed.

(** What the buffer holds once [d] has been received and terminated. *)
Lemma receive_ok x rest d :
  d <> [] -> len x + len d < len (x ++ rest) ->
  (let* b := buf_write (len x) d (x ++ rest) in buf_write (len x + len d) [0] b) =
    Done (x ++ d ++ 0 :: drop (S (length d)) rest).
Proof.
  intros Hd Hl. rewrite buf_write_Done, bind_Done by lia.
  rewrite buf_write_Done by (rewrite ?length_splice; simpl; lia).
  replace (Z.to_nat (len x + len d)) with (Z.to_nat (len x) + length d)%nat by lia.
  rewrite splice_app by (rewrite length_app in *; lia). rewrite Nat2Z.id. f_equal. unfold splice.
  rewrite take_app_length, <- drop_drop, drop_app_length, length_app, <- app_assoc. simpl.
  by rewrite Nat.add_1_r.
Qed.

(** The line and its terminator in the caller's buffer. *)
Lemma splice_line line buf :
  len line < len buf ->
  splice (length line) [0] (splice (Z.to_nat 0) line buf) = line ++ 0 :: drop (S (length line)) buf.
Proof.
  intros H. etransitivity; [apply (splice_app 0 line [0] buf); lia|]. unfold splice. simpl.
  rewrite <- app_assoc, length_app. simpl. by replace (length line + 1)%nat with (S (length line)) by lia.
Qed.

(** Moving what follows the line to the front of the buffer. *)
Lemma shift_rest_ok line rest tl b :
  b = line ++ 10 :: rest ++ tl ->
  exists junk', (if 0 <? len rest
    then let* r := buf_read (len line + 1) (len rest) b in buf_write 0 r b else Done b) =
    Done (rest ++ junk') /\ len (rest ++ junk') = len b.
Proof.
  intros Eb. assert (len b = len line + 1 + len rest + len tl) as Hlb
    by (rewrite Eb, length_app; cbn [length]; rewrite length_app; lia).
  destruct (Z.ltb_spec 0 (len rest)).
  - rewrite buf_read_Done, bind_Done by lia. rewrite Nat2Z.id.
    assert (slice (Z.to_nat (len line + 1)) (length rest) b = rest) as ->.
    { rewrite Eb. unfold slice. rewrite drop_app_ge by lia.
      replace (Z.to_nat (len line + 1) - length line)%nat with 1%nat by lia. simpl.
      rewrite drop_0. apply take_app_length. }
    rewrite buf_write_Done by lia. exists (drop (length rest) b). split; [done|].
    rewrite length_app, length_drop. lia.
  - destruct rest; [|simpl in *; lia]. by exists b.
Qed.

(** Request framing. When what has been received holds a newline and the line
    fits the caller's buffer, one call returns the line, NUL-terminated, and
    keeps exactly the bytes after the newline for the next call. *)
Theorem read_request_framing p x d line rest sql_buf buf_size :
  proto_rep p x -> d <> [] -> len x + len d < PROTOCOL_BUFFER_SIZE ->
  x ++ d = line ++ 10 :: rest -> 0 ∉ line -> 10 ∉ line ->
  len line < buf_size <= len sql_buf -> buf_size < 2 ^ 32 ->
  exists p', protocol_read_request p (RecvData d) sql_buf buf_size =
      Done (1, p', line ++ 0 :: drop (S (length line)) sql_buf) /\ proto_rep p' rest.
Proof.
  intros [Hsz Hdl Hroom (junk & Hb & Hlb)] Hd Hfit Hx H0 H10 Hbs H32.
  unfold protocol_read_request. destruct (Z.eqb_spec buf_size 0) as [|_]; [lia|].
  rewrite Hb. cbn [recv]. rewrite Hsz, Hdl. unfold PROTOCOL_BUFFER_SIZE in *.
  rewrite u64_id by lia. rewrite take_ge by lia.
  destruct d as [|d0 d']; [done|]. set (d := d0 :: d') in *.
  pose proof (receive_ok x junk d Hd ltac:(lia)) as Er.
  destruct (buf_write (len x) d (x ++ junk)) as [b1| |] eqn:E1; try discriminate.
  cbn [obind] in Er. set (b := x ++ d ++ 0 :: drop (S (length d)) junk) in Er.
  rewrite bind_Done, Er, bind_Done. clear Er E1 b1.
  assert (b = line ++ 10 :: rest ++ 0 :: drop (S (length d)) junk) as Eb.
  { unfold b. rewrite app_assoc, Hx, <- app_assoc. done. }
  assert (len b = 8192) as Hbl.
  { unfold b. rewrite length_app in Hlb. rewrite !length_app. cbn [length]. rewrite length_drop. lia. }
  assert (len x + len d = len line + 1 + len rest) as Hlen.
  { apply (f_equal length) in Hx. rewrite !length_app in Hx. cbn [length] in Hx. lia. }
  clearbody b. assert (find_newline b = Done (Some (len line))) as ->
    by (rewrite Eb; by apply find_newline_ok). rewrite bind_Done.
  destruct (Z.leb_spec buf_size (len line)); [lia|].
  rewrite buf_read_Done, bind_Done by lia. rewrite Nat2Z.id.
  assert (slice (Z.to_nat 0) (length line) b = line) as ->.
  { rewrite Eb. unfold slice. change (Z.to_nat 0) with 0%nat. rewrite drop_0. apply take_app_length. }
  rewrite buf_write_Done, bind_Done by lia.
  rewrite buf_write_Done, bind_Done by (rewrite ?length_splice; simpl; lia).
  rewrite Nat2Z.id.
  rewrite splice_line by lia.
  rewrite u64_id by lia. replace (len x + len d - len line - 1) with (len rest) by lia.
  destruct (shift_rest_ok line rest _ b Eb) as (junk' & -> & Hj). rewrite Hbl in Hj.
  rewrite bind_Done. eexists. split; [done|]. constructor; cbn [buffer_size data_len buffer]; try done.
  - unfold PROTOCOL_BUFFER_SIZE. lia.
  - by exists junk'.
Qed.

Definition demo_proto : ProtocolBuffer := mkProto 4 (Some (replicate 8192 1)) PROTOCOL_BUFFER_SIZE 0 0.

Lemma demo_proto_rep : proto_rep demo_proto [].
Proof. constructor; try done. exists (replicate 8192 1). split; [done|]. vm_compute; reflexivity. Qed.

Lemma read_request_framing_witness :
  exists p', protocol_read_request demo_proto (RecvData [65; 66; 10; 67]) [1; 1; 1; 1] 4 =
      Done (1, p', [65; 66] ++ 0 :: drop 3 [1; 1; 1; 1]) /\ proto_rep p' [67].
Proof.
  apply (read_request_framing demo_proto [] [65; 66; 10; 67] [65; 66] [67]).
  - apply demo_proto_rep.
  - discriminate.
  - reflexivity.
  - reflexivity.
  - intros H. repeat (apply elem_of_cons in H as [H|H]; [lia|]). by apply elem_of_nil in H.
  - intros H. repeat (apply elem_of_cons in H as [H|H]; [lia|]). by apply elem_of_nil in H.
  - simpl. lia.
  - lia.
Defined.

(** A line longer than the caller's buffer is truncated, but the rest of the
    buffer is then computed from the truncated length: the move reads past the
    end of the receive buffer when the line is long enough. *)
Theorem read_request_overlong_undefined p x d line rest sql_buf buf_size :
  proto_rep p x -> d <> [] -> len x + len d < PROTOCOL_BUFFER_SIZE ->
  x ++ d = line ++ 10 :: rest -> 0 ∉ line -> 10 ∉ line ->
  0 < buf_size <= len line -> buf_size <= len sql_buf ->
  PROTOCOL_BUFFER_SIZE < 2 * len line + 2 + len rest - buf_size ->
  protocol_read_request p (RecvData d) sql_buf buf_size = Undef.
Proof.
  intros [Hsz Hdl Hroom (junk & Hb & Hlb)] Hd Hfit Hx H0 H10 Hbs Hsql Hover.
  unfold protocol_read_request. destruct (Z.eqb_spec buf_size 0) as [|_]; [lia|].
  rewrite Hb. cbn [recv]. rewrite Hsz, Hdl. unfold PROTOCOL_BUFFER_SIZE in *.
  rewrite u64_id by lia. rewrite take_ge by lia.
  destruct d as [|d0 d']; [done|]. set (d := d0 :: d') in *.
  pose proof (receive_ok x junk d Hd ltac:(lia)) as Er.
  destruct (buf_write (len x) d (x ++ junk)) as [b1| |] eqn:E1; try discriminate.
  cbn [obind] in Er. set (b := x ++ d ++ 0 :: drop (S (length d)) junk) in Er.
  rewrite bind_Done, Er, bind_Done. clear Er E1 b1.
  assert (b = line ++ 10 :: rest ++ 0 :: drop (S (length d)) junk) as Eb.
  { unfold b. rewrite app_assoc, Hx, <- app_assoc. done. }
  assert (len b = 8192) as Hbl.
  { unfold b. rewrite length_app in Hlb. rewrite !length_app. cbn [length]. rewrite length_drop. lia. }
  assert (len x + len d = len line + 1 + len rest) as Hlen.
  { apply (f_equal length) in Hx. rewrite !length_app in Hx. cbn [length] in Hx. lia. }
  clearbody b. assert (find_newline b = Done (Some (len line))) as ->
    by (rewrite Eb; by apply find_newline_ok). rewrite bind_Done.
  destruct (Z.leb_spec buf_size (len line)); [|lia].
  rewrite buf_read_Done, bind_Done by lia.
  set (ln := slice _ _ b). assert (len ln = buf_size - 1) as Hln
    by (unfold ln; rewrite length_slice; lia).
  rewrite buf_write_Done, bind_Done by lia.
  rewrite buf_write_Done, bind_Done by (rewrite ?length_splice; simpl; lia).
  rewrite u64_id by lia.
  destruct (Z.ltb_spec 0 (len x + len d - (buf_size - 1) - 1)); [|lia].
  unfold buf_read at 1. destruct (Z.leb_spec (len line + 1 + (len x + len d - (buf_size - 1) - 1)) (len b)); [lia|].
  by rewrite andb_false_r.
Qed.

Lemma read_request_overlong_undefined_witness :
  protocol_read_request demo_proto (RecvData (replicate 8000 65 ++ [10])) (replicate 100 0) 100 = Undef.
Proof.
  apply (read_request_overlong_undefined demo_proto [] (replicate 8000 65 ++ [10]) (replicate 8000 65) []).
  - apply demo_proto_rep.
  - discriminate.
  - vm_compute. reflexivity.
  - reflexivity.
  - intros H. by apply elem_of_replicate in H as [H _].
  - intros H. by apply elem_of_replicate in H as [H _].
  - split; [reflexivity|vm_compute; discriminate].
  - vm_compute. discriminate.
  - vm_compute. reflexivity.
Defined.
