(* ===== verification/Security.v ===== *)
(** Model of src/security/security.c: input and path validation, SQL string
    escaping, file permissions, connection limits and the suspicious-SQL scan. The
    empty init/shutdown hooks are left out. *)
From Stdlib Require Import ZArith Lia.
From stdpp Require Import base numbers option list gmap.
From S2P Require Import Prelude CString.

(** ** Input validation *)

Definition char_allowed (c : Z) : bool :=
  negb (c =? 0) &&
  negb ((c <? 32) && negb (c =? 10) && negb (c =? 9) && negb (c =? 13)) &&
  negb (c =? 127).

(** The loop over the [n] bytes from the start of the buffer. *)
Fixpoint check_input_loop (n : nat) (data : list Z) : outcome Z :=
  match n with
  | O => Done 1
  | S n =>
      match data with
      | [] => Undef
      | c :: data => if char_allowed c then check_input_loop n data else Done 0
      end
  end.

Definition security_check_input (data : list Z) (len : Z) : outcome Z :=
  let* len := if len =? 0 then str_len data else Done len in
  check_input_loop (Z.to_nat len) data.

Definition security_validate_string (str : list Z) (max_len : Z) : outcome Z :=
  let* n := str_len str in
  if max_len <? n then Done 0 else security_check_input str n.

(** p[i] as the C code reads it. *)
Definition char_at (p : list Z) (i : nat) : outcome Z := outcome_of_option (p !! i).

(** p[0] == '.' && p[1] == '.' && (p[2] == '/' || p[2] == '\0') *)
Definition dotdot_at (p : list Z) : outcome bool :=
  let* c0 := char_at p 0 in
  if negb (c0 =? 46) then Done false else
  let* c1 := char_at p 1 in
  if negb (c1 =? 46) then Done false else
  let* c2 := char_at p 2 in
  Done ((c2 =? 47) || (c2 =? 0)).

Fixpoint validate_path_loop (p : list Z) : outcome Z :=
  match p with
  | [] => Undef
  | c :: p' =>
      if c =? 0 then Done 1 else
      let* bad := dotdot_at p in
      if bad then Done 0 else validate_path_loop p'
  end.

Definition security_validate_path (path : list Z) : outcome Z :=
  let* c := char_at path 0 in
  if c =? 0 then Done 0 else
  if negb (c =? 47) then Done 0 else
  let* r := validate_path_loop path in
  if r =? 0 then Done 0 else
  let* n := str_len path in
  if 4096 <? n then Done 0 else Done 1.

(** ** SQL escaping *)

Definition quote_char (c : Z) : list Z := if c =? 39 then [39; 39] else [c].

(** The escaped, NUL-terminated copy; it always fits the [input_len * 2 + 1]
    bytes the code allocates (below). *)
Definition security_escape_string (input : list Z) (input_len : Z) : outcome (list Z) :=
  let* input_len := if input_len =? 0 then str_len input else Done input_len in
  let* s := buf_read 0 input_len input in
  Done ((s ≫= quote_char) ++ [0]).

(** ** Limits *)

Record ConnectionLimits : Type := mkLimits {
  max_connections : Z;
  max_concurrent_queries : Z;
  query_timeout_seconds : Z }.

Definition security_set_default_limits : ConnectionLimits := mkLimits 64 4 300.

Definition security_check_connection_limit (limits : option ConnectionLimits) (current : Z) : bool :=
  match limits with None => true | Some l => current <? max_connections l end.

Definition security_check_query_timeout (limits : option ConnectionLimits) (elapsed : Z) : bool :=
  match limits with None => true | Some l => elapsed <? query_timeout_seconds l end.

(** ** File permissions *)

Section permissions.
(** Whether chmod is allowed on a path. *)
Variable may_chmod : list Z -> bool.

(** The modes of the existing paths. *)
Implicit Types modes : gmap (list Z) Z.

(** None is a NULL path. *)
Definition set_permissions modes (path : option (list Z)) (mode : Z) : Z * gmap (list Z) Z :=
  match path with
  | None => (-1, modes)
  | Some p =>
      match modes !! p with
      | None => (-1, modes)
      | Some _ => if may_chmod p then (0, <[p := mode]> modes) else (-1, modes)
      end
  end.

(** 0750, 0755 and 0666. *)
Definition security_set_data_dir_permissions modes path := set_permissions modes path 488.
Definition security_set_run_dir_permissions modes path := set_permissions modes path 493.
Definition security_set_socket_permissions modes path := set_permissions modes path 438.
End permissions.

(** ** Suspicious SQL *)

Definition TINYDB_MAX_SQL_STATEMENT_LENGTH : Z := 1024 * 1024.

(** "union", "select", "insert", "update", "delete", "drop", "create", "alter",
    "exec", "execute", "script", "javascript", "onerror", "onload" *)
Definition suspicious_keywords : list (list Z) :=
  [[117; 110; 105; 111; 110]; [115; 101; 108; 101; 99; 116]; [105; 110; 115; 101; 114; 116];
   [117; 112; 100; 97; 116; 101]; [100; 101; 108; 101; 116; 101]; [100; 114; 111; 112];
   [99; 114; 101; 97; 116; 101]; [97; 108; 116; 101; 114]; [101; 120; 101; 99];
   [101; 120; 101; 99; 117; 116; 101]; [115; 99; 114; 105; 112; 116];
   [106; 97; 118; 97; 115; 99; 114; 105; 112; 116]; [111; 110; 101; 114; 114; 111; 114];
   [111; 110; 108; 111; 97; 100]].

(** Skip white space after a semicolon, then look for a letter. *)
Fixpoint statement_follows (sql : list Z) : bool :=
  match sql with
  | [] => false
  | c :: sql => if isspace c then statement_follows sql else isalpha c
  end.

Fixpoint second_statement (sql : list Z) : bool :=
  match sql with
  | [] => false
  | c :: sql => if (c =? 59) && statement_follows sql then true else second_statement sql
  end.

(** sql[i + j] compared with the keyword, case-insensitively. *)
Fixpoint keyword_match (sql : list Z) (i : Z) (kw : list Z) : outcome bool :=
  match kw with
  | [] => Done true
  | k :: kw =>
      let* c := char_at sql (Z.to_nat i) in
      if tolower c =? k then keyword_match sql (i + 1) kw else Done false
  end.

Definition boundary (sql : list Z) (i : Z) : outcome bool :=
  let* c := char_at sql (Z.to_nat i) in Done (negb (isalnum c)).

(** The keyword loop at position [i]: is one of the keywords a word here? *)
Fixpoint keyword_here (sql : list Z) (len i : Z) (kws : list (list Z)) : outcome bool :=
  match kws with
  | [] => Done false
  | kw :: kws =>
      let kw_len := Z.of_nat (length kw) in
      if u64 (i + kw_len) <=? len then
        let* m := keyword_match sql i kw in
        let* before := if negb m then Done false else
                       if i =? 0 then Done true else boundary sql (i - 1) in
        let* after := if negb before then Done false else
                      if len <=? u64 (i + kw_len) then Done true else boundary sql (i + kw_len) in
        if after then Done true else keyword_here sql len i kws
      else keyword_here sql len i kws
  end.

(** for (i = 0; i < len - 2; i++), in size_t arithmetic. *)
Fixpoint keyword_scan (fuel : nat) (sql : list Z) (len i : Z) : outcome Z :=
  if i <? u64 (len - 2) then
    match fuel with
    | O => NoFuel
    | S fuel =>
        let* here := keyword_here sql len i suspicious_keywords in
        if here then Done 1 else keyword_scan fuel sql len (i + 1)
    end
  else Done 0.

Definition starts_with_comment (sql : list Z) (len : Z) : outcome bool :=
  if 2 <=? len then
    let* a := char_at sql 0 in
    if negb (a =? 45) then Done false else
    let* b := char_at sql 1 in Done (b =? 45)
  else Done false.

Definition security_check_sql_suspicious (fuel : nat) (sql : list Z) (len : Z) : outcome Z :=
  if len =? 0 then Done 0 else
  if TINYDB_MAX_SQL_STATEMENT_LENGTH <? len then Done 0 else
  let* comment := starts_with_comment sql len in
  if comment then Done 1 else
  let* s := buf_read 0 len sql in
  if second_statement s then Done 1 else keyword_scan fuel sql len 0.

(** ** Properties *)

(** [security_validate_string] accepts exactly the strings within the length
    limit in which every character is allowed: no control characters other than
    newline, tab and carriage return, and no DEL. *)
Theorem validate_string_spec b s max_len :
  cstr b s ->
  security_validate_string b max_len =
    Done (if (len s <=? max_len) && forallb char_allowed s then 1 else 0).
Proof.
  intros Hs. unfold security_validate_string. rewrite (str_len_ok b s Hs), bind_Done.
  destruct (Z.ltb_spec max_len (len s)) as [H|H].
  { destruct (Z.leb_spec (len s) max_len); [lia|done]. }
  destruct (Z.leb_spec (len s) max_len); [|lia]. cbn [andb].
  unfold security_check_input.
  assert ((if len s =? 0 then str_len b else Done (len s)) = Done (len s)) as ->
    by (destruct (len s =? 0); [by apply str_len_ok|done]).
  rewrite bind_Done, Nat2Z.id. destruct Hs as [[r ->] _]. clear. induction s as [|c s IH]; [done|].
  cbn [length check_input_loop app forallb]. destruct (char_allowed c); [apply IH|done].
Qed.

Lemma validate_string_spec_witness :
  security_validate_string [65; 9; 7; 0] 10 =
    Done (if (3 <=? 10) && forallb char_allowed [65; 9; 7] then 1 else 0).
Proof.
  apply (validate_string_spec [65; 9; 7; 0] [65; 9; 7] 10).
  split; [by exists []|].
  intros H. repeat (apply elem_of_cons in H as [H|H]; [lia|]). by apply elem_of_nil in H.
Defined.

(** The pattern the path check looks for, at the start of a string. *)
Definition dotdot (s : list Z) : Prop :=
  s = [46; 46] \/ exists r, s = 46 :: 46 :: 47 :: r.

Lemma dotdot_at_ok s r :
  0 ∉ s -> s <> [] -> exists bad, dotdot_at (s ++ 0 :: r) = Done bad /\ (bad = true <-> dotdot s).
Proof.
  intros Hn Hne. unfold dotdot_at, char_at. destruct s as [|a s]; [done|]. cbn [app lookup list_lookup outcome_of_option obind].
  apply not_elem_of_cons in Hn as [_ Hn].
  destruct (Z.eqb_spec a 46) as [->|Ha]; cbn [negb].
  2: { exists false. split; [done|]. split; [done|]. intros [?|[? ?]]; congruence. }
  destruct s as [|b s]; cbn [app lookup list_lookup outcome_of_option obind].
  { exists false. split; [done|]. split; [done|]. intros [?|[? ?]]; congruence. }
  apply not_elem_of_cons in Hn as [Hb Hn].
  destruct (Z.eqb_spec b 46) as [->|Hb']; cbn [negb].
  2: { exists false. split; [done|]. split; [done|]. intros [?|[? ?]]; congruence. }
  destruct s as [|c s]; cbn [app lookup list_lookup outcome_of_option obind].
  { exists true. split; [done|]. split; [by left|done]. }
  apply not_elem_of_cons in Hn as [Hc Hn]. eexists. split; [done|].
  destruct (Z.eqb_spec c 47) as [->|Hc']; cbn [orb].
  - split; [right; eauto|done].
  - destruct (Z.eqb_spec c 0); [congruence|]. split; [done|]. intros [?|[? ?]]; congruence.
Qed.

Lemma validate_path_loop_ok s r :
  0 ∉ s -> exists v, validate_path_loop (s ++ 0 :: r) = Done v /\
    (v = 0 \/ v = 1) /\ (v = 1 <-> forall a b, s = a ++ b -> b <> [] -> ~ dotdot b).
Proof.
  induction s as [|c s IH]; intros Hn.
  - exists 1. cbn [app validate_path_loop]. change (0 =? 0) with true. split_and!; auto.
    split; [|done]. intros _ a b E Hb. by destruct a, b.
  - pose proof Hn as Hn'. apply not_elem_of_cons in Hn' as [Hc Hn'].
    destruct (dotdot_at_ok (c :: s) r Hn) as (bad & E & Hbad); [done|].
    cbn [app validate_path_loop] in *. destruct (Z.eqb_spec c 0); [congruence|].
    rewrite E, bind_Done. destruct bad.
    + exists 0. split_and!; auto. split; [done|]. intros H. exfalso.
      apply (H [] (c :: s)); [done|done|]. by apply Hbad.
    + destruct (IH Hn') as (v & E2 & Hv & Hiff). exists v. split_and!; auto. rewrite Hiff. split.
      * intros H [|x a] b Eb Hb; [|by apply (H a b); [injection Eb|]].
        simpl in Eb. subst b. intros Hd. apply Hbad in Hd. done.
      * intros H a b Eb Hb. apply (H (c :: a) b); [by rewrite Eb|done].
Qed.

(** [security_validate_path] accepts exactly the absolute paths of at most
    4096 bytes in which ".." is never followed by a slash or the end: no
    accepted path can climb with a parent-directory component. *)
Theorem validate_path_spec b s :
  cstr b s ->
  exists v, security_validate_path b = Done v /\ (v = 0 \/ v = 1) /\
    (v = 1 <-> (exists t, s = 47 :: t) /\ len s <= 4096 /\
       forall p q, s = p ++ q -> q <> [] -> ~ dotdot q).
Proof.
  intros Hs. pose proof (str_len_ok b s Hs) as Hl. destruct Hs as [[r ->] Hn].
  unfold security_validate_path, char_at. destruct s as [|c s].
  { exists 0. split_and!; auto. split; [done|]. intros ([t ?] & _). done. }
  cbn [app lookup list_lookup outcome_of_option obind].
  destruct (validate_path_loop_ok (c :: s) r Hn) as (v & E & Hv & Hiff).
  apply not_elem_of_cons in Hn as [Hc Hn].
  destruct (Z.eqb_spec c 0); [congruence|]. destruct (Z.eqb_spec c 47) as [->|Hne]; cbn [negb].
  2: { exists 0. split_and!; auto. split; [done|]. intros ([t ?] & _). congruence. }
  cbn [app] in E, Hl. rewrite E, bind_Done. destruct Hv as [-> | ->].
  - exists 0. split_and!; auto. split; [done|]. intros (_ & _ & H). by apply Hiff in H.
  - change (1 =? 0) with false. cbv iota. rewrite Hl, bind_Done.
    destruct (Z.ltb_spec 4096 (len (47 :: s))).
    + exists 0. split_and!; auto. split; [done|]. intros (_ & ? & _). lia.
    + exists 1. split_and!; auto. split; [|done]. intros _. split_and!; [by exists s|done|].
      by apply Hiff.
Qed.

Lemma validate_path_spec_witness :
  exists v, security_validate_path [47; 97; 0] = Done v /\ (v = 0 \/ v = 1) /\
    (v = 1 <-> (exists t, [47; 97] = 47 :: t) /\ len [47; 97] <= 4096 /\
       forall p q, [47; 97] = p ++ q -> q <> [] -> ~ dotdot q).
Proof.
  apply validate_path_spec. split; [by exists []|].
  intros H. repeat (apply elem_of_cons in H as [H|H]; [lia|]). by apply elem_of_nil in H.
Defined.

(** The escaped string fits the allocation. *)
Lemma escape_string_fits s : len ((s ≫= quote_char) ++ [0]) <= len s * 2 + 1.
Proof.
  rewrite length_app. induction s as [|c s IH]; [simpl; lia|].
  rewrite bind_cons, length_app. unfold quote_char at 1. destruct (c =? 39); simpl in *; lia.
Qed.

Lemma keyword_here_out sql len i kws :
  Forall (fun kw => len < u64 (i + Z.of_nat (length kw))) kws -> keyword_here sql len i kws = Done false.
Proof.
  induction 1 as [|kw kws H _ IH]; [done|]. cbn [keyword_here].
  destruct (Z.leb_spec (u64 (i + Z.of_nat (length kw))) len); [lia|done].
Qed.

(** The keyword scan of a one-character statement does not end: [len - 2]
    wraps around to 2^64 - 1, so no number of iterations a machine can perform
    is enough. *)
Theorem check_sql_suspicious_hangs c fuel :
  Z.of_nat fuel < 2 ^ 63 -> security_check_sql_suspicious fuel [c] 1 = NoFuel.
Proof.
  intros Hf. unfold security_check_sql_suspicious. change (1 =? 0) with false.
  change (TINYDB_MAX_SQL_STATEMENT_LENGTH <? 1) with false. cbv iota.
  change (starts_with_comment [c] 1) with (Done false). rewrite bind_Done. cbv iota.
  change (buf_read 0 1 [c]) with (Done [c]). rewrite bind_Done. cbn [second_statement statement_follows].
  rewrite andb_false_r.
  assert (forall i, 0 <= i -> i + Z.of_nat fuel < 2 ^ 63 -> keyword_scan fuel [c] 1 i = NoFuel) as H.
  { clear Hf. induction fuel as [|fuel IH]; intros i Hi Hb; cbn [keyword_scan];
      change (u64 (1 - 2)) with (2 ^ 64 - 1); destruct (Z.ltb_spec i (2 ^ 64 - 1)); try lia; [done|].
    rewrite keyword_here_out, bind_Done.
    - apply IH; lia.
    - unfold suspicious_keywords. repeat apply Forall_cons_2; try apply Forall_nil_2;
        (rewrite u64_id; simpl; lia). }
  apply H; lia.
Qed.

Lemma check_sql_suspicious_hangs_witness : security_check_sql_suspicious 1000 [59] 1 = NoFuel.
Proof. apply check_sql_suspicious_hangs. vm_compute. reflexivity. Defined.
