(* ===== verification/Double.v ===== *)
(** The C double (IEEE 754 binary64) as the SQL layer uses it, on the
    Standard Library's SpecFloat, with atof, conversions and int64 arithmetic
    whose overflow C leaves undefined. *)
From Stdlib Require Import ZArith Lia SpecFloat.
From stdpp Require Import base numbers option list.
From S2P Require Import Prelude CString.

Abbreviation double := spec_float.

Definition d_zero : double := S754_zero false.
Definition d_add : double -> double -> double := SFadd 53 1024.
Definition d_sub : double -> double -> double := SFsub 53 1024.
Definition d_mul : double -> double -> double := SFmul 53 1024.
Definition d_div : double -> double -> double := SFdiv 53 1024.
Definition d_neg : double -> double := SFopp.
Definition d_eq : double -> double -> bool := SFeqb.
Definition d_lt : double -> double -> bool := SFltb.
Definition d_le : double -> double -> bool := SFleb.

(** (double)z, rounded to nearest even. *)
Definition d_of_int (z : Z) : double := binary_normalize 53 1024 z 0 false.

(** m * 10^e, correctly rounded. *)
Definition d_of_decimal (m e : Z) : double :=
  match m with
  | Zpos p =>
      if 0 <=? e then d_of_int (m * 10 ^ e)
      else match 10 ^ (- e) with
           | Zpos q => d_div (S754_finite false p 0) (S754_finite false q 0)
           | _ => d_zero
           end
  | _ => d_zero
  end.

(** (int64_t)d: truncation, undefined when the value does not fit. *)
Definition d_to_int64 (d : double) : outcome Z :=
  match d with
  | S754_zero _ => Done 0
  | S754_infinity _ | S754_nan => Undef
  | S754_finite s m e =>
      let a := if 0 <=? e then Zpos m * 2 ^ e else Zpos m / 2 ^ (- e) in
      let z := if s then - a else a in
      if (- 2 ^ 63 <=? z) && (z <? 2 ^ 63) then Done z else Undef
  end.

(** A signed 64-bit result: overflow is undefined. *)
Definition int64 (z : Z) : outcome Z :=
  if (- 2 ^ 63 <=? z) && (z <? 2 ^ 63) then Done z else Undef.

Lemma int64_Done z : - 2 ^ 63 <= z < 2 ^ 63 -> int64 z = Done z.
Proof. intros H. unfold int64. zcase. done. Qed.

(** ** Decimal text *)

(** The value of the digits at the front, continuing from [acc], and the rest. *)
Fixpoint digits_value (acc : Z) (s : list Z) : Z * list Z :=
  match s with
  | c :: s' => if isdigit c then digits_value (10 * acc + (c - 48)) s' else (acc, s)
  | [] => (acc, [])
  end.

(** atof on an unsigned decimal literal: digits[.digits][e[+-]digits]. *)
Definition atof (s : list Z) : double :=
  let '(ip, r) := digits_value 0 s in
  let '(m, frac, r) :=
    match r with
    | 46 :: r' =>
        let '(v, r'') := digits_value ip r' in (v, len r' - len r'', r'')
    | _ => (ip, 0, r)
    end in
  let ex :=
    match r with
    | c :: r' =>
        if (c =? 101) || (c =? 69) then
          match r' with
          | 45 :: r'' => - fst (digits_value 0 r'')
          | 43 :: r'' => fst (digits_value 0 r'')
          | _ => fst (digits_value 0 r')
          end
        else 0
    | [] => 0
    end in
  d_of_decimal m (ex - frac).

(** atoll on an unsigned decimal literal: undefined when out of range. *)
Definition atoll (s : list Z) : outcome Z := int64 (fst (digits_value 0 s)).

(** Decimal digits of a non-negative number, as snprintf prints them. *)
Fixpoint print_nat_loop (fuel : nat) (z : Z) (acc : list Z) : list Z :=
  match fuel with
  | O => acc
  | S fuel =>
      let acc := (48 + z mod 10) :: acc in
      if z <? 10 then acc else print_nat_loop fuel (z / 10) acc
  end.

(** "%lld" *)
Definition print_int (z : Z) : list Z :=
  if z <? 0 then 45 :: print_nat_loop 20 (- z) [] else print_nat_loop 20 z [].

Lemma digits_value_app s acc r :
  Forall (fun c => isdigit c = true) s ->
  digits_value acc (s ++ r) = digits_value (fst (digits_value acc s)) r.
Proof.
  intros H. revert acc. induction H as [|c s Hc Hs IH]; intros acc; [done|].
  cbn [app digits_value]. by rewrite Hc, IH.
Qed.

Lemma isdigit_digit z : isdigit (48 + z mod 10) = true.
Proof.
  pose proof (Z.mod_pos_bound z 10 ltac:(lia)). unfold isdigit.
  apply andb_true_intro. split; apply Z.leb_le; lia.
Qed.

Lemma print_nat_loop_value fuel z acc :
  0 <= z < 10 ^ Z.of_nat fuel -> Forall (fun c => isdigit c = true) acc -> (0 < fuel)%nat ->
  exists ds, print_nat_loop fuel z acc = ds ++ acc /\ ds <> [] /\
    Forall (fun c => isdigit c = true) ds /\ fst (digits_value 0 ds) = z.
Proof.
  revert z acc. induction fuel as [|fuel IH]; intros z acc Hz Hacc Hf; [lia|].
  cbn [print_nat_loop]. pose proof (Z.mod_pos_bound z 10 ltac:(lia)) as Hm.
  destruct (Z.ltb_spec z 10).
  - exists [48 + z mod 10]. split_and!; [done|done|by repeat constructor; apply isdigit_digit|].
    cbn [digits_value]. rewrite isdigit_digit. simpl. rewrite Z.mod_small; lia.
  - rewrite Nat2Z.inj_succ, Z.pow_succ_r in Hz by lia.
    assert (0 <= z / 10 < 10 ^ Z.of_nat fuel) as Hd
      by (split; [apply Z.div_pos; lia|apply Z.div_lt_upper_bound; lia]).
    assert (0 < fuel)%nat by (destruct fuel; [simpl in Hd; assert (1 <= z / 10) by (apply Z.div_le_lower_bound; lia); lia|lia]).
    destruct (IH (z / 10) ((48 + z mod 10) :: acc)) as (ds & -> & Hne & Hds & Hv);
      [done|constructor; [apply isdigit_digit|done]|done|].
    exists (ds ++ [48 + z mod 10]). rewrite <- app_assoc. split_and!; [done|by destruct ds| |].
    + apply Forall_app. split; [done|]. repeat constructor. apply isdigit_digit.
    + rewrite digits_value_app, Hv by done. cbn [digits_value]. rewrite isdigit_digit. simpl.
      pose proof (Z.div_mod z 10 ltac:(lia)). lia.
Qed.

(** Printing a non-negative int64 and reading it back. *)
Lemma print_int_digits z :
  0 <= z < 2 ^ 63 -> print_int z <> [] /\ Forall (fun c => isdigit c = true) (print_int z) /\
  atoll (print_int z) = Done z.
Proof.
  intros Hz. unfold print_int. destruct (Z.ltb_spec z 0); [lia|].
  destruct (print_nat_loop_value 20 z []) as (ds & -> & Hne & Hds & Hv); [|constructor|lia|].
  { split; [lia|]. assert (2 ^ 63 < 10 ^ Z.of_nat 20) by reflexivity. lia. }
  rewrite app_nil_r. split_and!; [done|done|]. unfold atoll. rewrite Hv. by apply int64_Done; lia.
Qed.

(** ** "%.15g" *)

(** num / den rounded to the nearest integer, ties to even. *)
Definition round_div (num den : Z) : Z :=
  let q := num / den in
  let r := num mod den in
  match 2 * r ?= den with
  | Lt => q
  | Gt => q + 1
  | Eq => if Z.even q then q else q + 1
  end.

(** The fraction num/den scaled by 10^k. *)
Definition scale10 (num den k : Z) : Z * Z :=
  if 0 <=? k then (num * 10 ^ k, den) else (num, den * 10 ^ (- k)).

(** The X with 10^X <= num/den < 10^(X+1), from the binary logarithms (30103/100000
    approximates log10 2, so the estimate is at most one off). *)
Definition log10_floor (num den : Z) : Z :=
  let x0 := (Z.log2 num - Z.log2 den) * 30103 / 100000 in
  let ge k := let '(n, d) := scale10 num den (- k) in d <=? n in
  if ge (x0 + 1) then x0 + 1 else if ge x0 then x0 else x0 - 1.

Fixpoint strip_zeros (fuel : nat) (z : Z) (digits : nat) : Z * nat :=
  match fuel, digits with
  | S fuel, S d => if z mod 10 =? 0 then strip_zeros fuel (z / 10) d else (z, digits)
  | _, _ => (z, digits)
  end.

(** [width] digits of [z], with leading zeros. *)
Fixpoint print_width (width : nat) (z : Z) (acc : list Z) : list Z :=
  match width with
  | O => acc
  | S width => print_width width (z / 10) ((48 + z mod 10) :: acc)
  end.

(** The decimal point and the fraction, without trailing zeros. *)
Definition print_fraction (width : nat) (z : Z) : list Z :=
  match strip_zeros width z width with
  | (_, O) => []
  | (z, w) => 46 :: print_width w z []
  end.

Definition print_g15_finite (m : positive) (e : Z) : list Z :=
  let '(num, den) := if 0 <=? e then (Zpos m * 2 ^ e, 1) else (Zpos m, 2 ^ (- e)) in
  let x := log10_floor num den in
  let '(n, d) := scale10 num den (14 - x) in
  let sig := round_div n d in
  let '(sig, x) := if sig =? 10 ^ 15 then (10 ^ 14, x + 1) else (sig, x) in
  if (-4 <=? x) && (x <? 15) then
    let frac := 14 - x in
    print_int (sig / 10 ^ frac) ++ print_fraction (Z.to_nat frac) (sig mod 10 ^ frac)
  else
    print_int (sig / 10 ^ 14) ++ print_fraction 14 (sig mod 10 ^ 14) ++
    [101; if x <? 0 then 45 else 43] ++
    (if Z.abs x <? 10 then [48] else []) ++ print_int (Z.abs x).

(** At most 22 characters, so the 32-byte buffers of the callers never truncate
    it. The sign printed for a NaN is the platform's choice; none is printed here. *)
Definition print_g15 (d : double) : list Z :=
  match d with
  | S754_zero s => (if s then [45] else []) ++ [48]
  | S754_infinity s => (if s then [45] else []) ++ [105; 110; 102]
  | S754_nan => [110; 97; 110]
  | S754_finite s m e => (if s then [45] else []) ++ print_g15_finite m e
  end.

Example print_g15_tenth : print_g15 (atof [48; 46; 49]) = [48; 46; 49].
Proof. vm_compute. reflexivity. Qed.

Example print_g15_big :
  print_g15 (d_of_decimal 1234567890123456789 0) = (* 1.23456789012346e+18 *)
  [49; 46; 50; 51; 52; 53; 54; 55; 56; 57; 48; 49; 50; 51; 52; 54; 101; 43; 49; 56].
Proof. vm_compute. reflexivity. Qed.

Example print_g15_small : print_g15 (d_of_decimal 25 (-6)) = (* 2.5e-05 *)
  [50; 46; 53; 101; 45; 48; 53].
Proof. vm_compute. reflexivity. Qed.

(** ** Integers below 2^53 are exact *)

Lemma digits2_pos_bounds p : 2 ^ (Zpos (digits2_pos p) - 1) <= Zpos p < 2 ^ Zpos (digits2_pos p).
Proof.
  induction p as [p IH|p IH|]; cbn [digits2_pos]; [| |done];
    rewrite Pos2Z.inj_succ; unfold Z.succ;
    replace (Zpos (digits2_pos p) + 1 - 1) with (Zpos (digits2_pos p) - 1 + 1) by lia;
    rewrite !Z.pow_add_r, !Z.pow_1_r by lia; lia.
Qed.

Lemma digits2_pos_unique p d : 0 < d -> 2 ^ (d - 1) <= Zpos p < 2 ^ d -> Zpos (digits2_pos p) = d.
Proof.
  intros Hd [H1 H2]. destruct (digits2_pos_bounds p) as [H3 H4].
  assert (2 ^ (d - 1) < 2 ^ Zpos (digits2_pos p)) as Ha by lia.
  assert (2 ^ (Zpos (digits2_pos p) - 1) < 2 ^ d) as Hb by lia.
  apply Z.pow_lt_mono_r_iff in Ha; [|lia..]. apply Z.pow_lt_mono_r_iff in Hb; lia.
Qed.

Lemma iter_xO p k : Zpos (Pos.iter xO p k) = Zpos p * 2 ^ Zpos k.
Proof.
  induction k as [|k IH] using Pos.peano_ind; [simpl; lia|].
  rewrite Pos.iter_succ, Pos2Z.inj_succ, Z.pow_succ_r by lia. lia.
Qed.

(** A mantissa of 53 digits is not rounded. *)
Lemma binary_round_aux_exact s q e :
  2 ^ 52 <= Zpos q < 2 ^ 53 -> -1074 <= e <= 971 ->
  binary_round_aux 53 1024 s (Zpos q) e loc_Exact = S754_finite s q e.
Proof.
  intros Hq He. assert (Zpos (digits2_pos q) = 53) as Hd by (by apply digits2_pos_unique).
  assert (fexp 53 1024 (Zdigits2 (Zpos q) + e) - e = 0) as Hf
    by (unfold fexp, emin, Zdigits2; rewrite Hd; lia).
  unfold binary_round_aux, shr_fexp. rewrite Hf. cbn [shr shr_record_of_loc shr_m loc_of_shr_record].
  cbn [round_nearest_even]. rewrite Hf. cbn [shr shr_record_of_loc shr_m].
  destruct (Z.leb_spec e (1024 - 53)); [done|lia].
Qed.

Lemma binary_round_small s p :
  Zpos p < 2 ^ 53 ->
  exists q k, 0 <= k <= 52 /\ binary_round 53 1024 s p 0 = S754_finite s q (- k) /\
    Zpos q = Zpos p * 2 ^ k /\ 2 ^ 52 <= Zpos q < 2 ^ 53.
Proof.
  intros Hp. destruct (digits2_pos_bounds p) as [H1 H2].
  assert (Zpos (digits2_pos p) - 1 < 53) as Hd by (apply (Z.pow_lt_mono_r_iff 2); lia).
  unfold binary_round, shl_align. rewrite Z.add_0_r, Z.sub_0_r.
  replace (fexp 53 1024 (Zpos (digits2_pos p))) with (- (53 - Zpos (digits2_pos p)))
    by (unfold fexp, emin; lia).
  destruct (53 - Zpos (digits2_pos p)) as [|k|k] eqn:E; [| |lia].
  - change (- 0) with 0. exists p, 0. assert (Zpos (digits2_pos p) = 53) as Hd53 by lia. rewrite Hd53 in *.
    rewrite binary_round_aux_exact by lia. split_and!; [lia..|done|lia|lia|lia].
  - assert (Zpos (Pos.iter xO p k) = Zpos p * 2 ^ Zpos k) as Hi by apply iter_xO.
    assert (2 ^ 52 <= Zpos (Pos.iter xO p k) < 2 ^ 53) as Hb.
    { rewrite Hi. replace 52 with (Zpos (digits2_pos p) - 1 + Zpos k) by lia.
      replace 53 with (Zpos (digits2_pos p) + Zpos k) by lia. rewrite !Z.pow_add_r by lia. nia. }
    exists (Pos.iter xO p k), (Zpos k).
    change (- Zpos k) with (Z.neg k). cbv beta iota. rewrite binary_round_aux_exact by (done || lia).
    split_and!; [lia..|done|done|lia|lia].
Qed.

(** The scaled mantissas order like the numbers, exponent first. *)
Lemma scaled_order p1 p2 q1 q2 k1 k2 :
  0 <= k1 -> 0 <= k2 -> 0 < p1 -> 0 < p2 ->
  q1 = p1 * 2 ^ k1 -> q2 = p2 * 2 ^ k2 -> 2 ^ 52 <= q1 < 2 ^ 53 -> 2 ^ 52 <= q2 < 2 ^ 53 ->
  match - k1 ?= - k2 with Lt => Lt | Gt => Gt | Eq => q1 ?= q2 end = (p1 ?= p2).
Proof.
  intros Hk1 Hk2 Hp1 Hp2 E1 E2 B1 B2.
  assert (forall p p' q q' k k', 0 <= k' < k -> 0 < p -> 0 < p' -> q = p * 2 ^ k -> q' = p' * 2 ^ k' ->
    q < 2 ^ 53 -> 2 ^ 52 <= q' -> p < p') as Haux.
  { intros p p' q q' k k' Hk Hp Hp' E E' B B'.
    assert (2 ^ k = 2 ^ k' * 2 ^ (k - k')) as Ek by (rewrite <- Z.pow_add_r by lia; f_equal; lia).
    assert (2 ^ 1 <= 2 ^ (k - k')) by (apply Z.pow_le_mono_r; lia).
    assert (0 < 2 ^ k') by (apply Z.pow_pos_nonneg; lia). nia. }
  destruct (Z.compare_spec (- k1) (- k2)) as [E|L|G].
  - assert (k1 = k2) as -> by lia. assert (0 < 2 ^ k2) by (apply Z.pow_pos_nonneg; lia).
    subst q1 q2. symmetry. apply Zmult_compare_compat_r. lia.
  - symmetry. apply Z.compare_lt_iff. apply (Haux p1 p2 q1 q2 k1 k2); lia.
  - symmetry. apply Z.compare_gt_iff. apply (Haux p2 p1 q2 q1 k2 k1); lia.
Qed.

(** Comparing as doubles is comparing as integers. *)
Lemma d_of_int_compare a b :
  - 2 ^ 53 < a < 2 ^ 53 -> - 2 ^ 53 < b < 2 ^ 53 ->
  SFcompare (d_of_int a) (d_of_int b) = Some (a ?= b).
Proof.
  intros Ha Hb. unfold d_of_int, binary_normalize.
  destruct a as [|p1|p1], b as [|p2|p2]; try done;
    try (destruct (binary_round_small false p1) as (q1 & k1 & Hk1 & -> & E1 & B1); [lia|]);
    try (destruct (binary_round_small true p1) as (q1 & k1 & Hk1 & -> & E1 & B1); [lia|]);
    try (destruct (binary_round_small false p2) as (q2 & k2 & Hk2 & -> & E2 & B2); [lia|]);
    try (destruct (binary_round_small true p2) as (q2 & k2 & Hk2 & -> & E2 & B2); [lia|]);
    try done; cbn [SFcompare]; f_equal.
  - rewrite <- (scaled_order (Zpos p1) (Zpos p2) (Zpos q1) (Zpos q2) k1 k2) by (lia || done). done.
  - change (Z.neg p1 ?= Z.neg p2) with (CompOpp (Zpos p1 ?= Zpos p2)).
    rewrite <- (scaled_order (Zpos p1) (Zpos p2) (Zpos q1) (Zpos q2) k1 k2) by (lia || done).
    by destruct (- k1 ?= - k2).
Qed.

Lemma d_to_int64_of_int a : - 2 ^ 53 < a < 2 ^ 53 -> d_to_int64 (d_of_int a) = Done a.
Proof.
  intros Ha. unfold d_of_int, binary_normalize.
  assert (forall q p k, 0 <= k <= 52 -> Zpos q = Zpos p * 2 ^ k ->
    (if 0 <=? - k then Zpos q * 2 ^ (- k) else Zpos q / 2 ^ (- - k)) = Zpos p) as Hv.
  { intros q p k Hk E. destruct (Z.leb_spec 0 (- k)).
    - assert (k = 0) as -> by lia. rewrite E. lia.
    - rewrite Z.opp_involutive, E, Z.div_mul; [done|]. apply Z.pow_nonzero; lia. }
  destruct a as [|p|p]; [done| |].
  - destruct (binary_round_small false p) as (q & k & Hk & -> & E & _); [lia|]. cbn [d_to_int64].
    rewrite (Hv q p k Hk E). zcase. done.
  - destruct (binary_round_small true p) as (q & k & Hk & -> & E & _); [lia|]. cbn [d_to_int64].
    rewrite (Hv q p k Hk E). zcase. done.
Qed.
