(* ===== verification/Lexer.v ===== *)
(** Model of src/sql/token.h and src/sql/lexer.c: token types, the keyword table
    and its binary search, the scanners, and the next/peek interface. *)
From Stdlib Require Import ZArith Lia String Ascii.
From stdpp Require Import base numbers option list.
From S2P Require Import Prelude CString Security Double.

(** ** Tokens *)

Inductive TokenType : Type :=
  | TOKEN_EOF | TOKEN_ERROR | TOKEN_IDENTIFIER | TOKEN_INTEGER | TOKEN_REAL | TOKEN_STRING
  | TOKEN_PLUS | TOKEN_MINUS | TOKEN_STAR | TOKEN_SLASH | TOKEN_PERCENT | TOKEN_EQ
  | TOKEN_NEQ | TOKEN_LT | TOKEN_GT | TOKEN_LTE | TOKEN_GTE | TOKEN_DOUBLE_EQ | TOKEN_LIKE_OP
  | TOKEN_IN_OP | TOKEN_BETWEEN_OP | TOKEN_SELECT | TOKEN_FROM | TOKEN_WHERE | TOKEN_AND
  | TOKEN_OR | TOKEN_NOT | TOKEN_IN | TOKEN_LIKE | TOKEN_BETWEEN | TOKEN_IS | TOKEN_NULL
  | TOKEN_INSERT | TOKEN_INTO | TOKEN_VALUES | TOKEN_UPDATE | TOKEN_SET | TOKEN_DELETE
  | TOKEN_CREATE | TOKEN_DROP | TOKEN_TABLE | TOKEN_INDEX | TOKEN_IF | TOKEN_EXISTS
  | TOKEN_BEGIN | TOKEN_COMMIT | TOKEN_ROLLBACK | TOKEN_TRANSACTION | TOKEN_ORDER
  | TOKEN_BY | TOKEN_ASC | TOKEN_DESC | TOKEN_LIMIT | TOKEN_OFFSET | TOKEN_DISTINCT
  | TOKEN_AS | TOKEN_ON | TOKEN_PRIMARY | TOKEN_KEY | TOKEN_UNIQUE | TOKEN_DEFAULT
  | TOKEN_AUTOINCREMENT | TOKEN_INTEGER_KW | TOKEN_REAL_KW | TOKEN_TEXT_KW | TOKEN_BLOB_KW
  | TOKEN_LPAREN | TOKEN_RPAREN | TOKEN_COMMA | TOKEN_DOT | TOKEN_SEMICOLON | TOKEN_QUESTION
  | TOKEN_PLACEHOLDER.

#[export] Instance TokenType_eq_dec : EqDecision TokenType.
Proof. solve_decision. Defined.

Definition token_eqb (a b : TokenType) : bool := bool_decide (a = b).

(** The enumeration in order; the C value of a type is its index. *)
Definition token_types : list TokenType :=
  [
   TOKEN_EOF; TOKEN_ERROR; TOKEN_IDENTIFIER; TOKEN_INTEGER; TOKEN_REAL; TOKEN_STRING;
   TOKEN_PLUS; TOKEN_MINUS; TOKEN_STAR; TOKEN_SLASH; TOKEN_PERCENT; TOKEN_EQ; TOKEN_NEQ;
   TOKEN_LT; TOKEN_GT; TOKEN_LTE; TOKEN_GTE; TOKEN_DOUBLE_EQ; TOKEN_LIKE_OP; TOKEN_IN_OP;
   TOKEN_BETWEEN_OP; TOKEN_SELECT; TOKEN_FROM; TOKEN_WHERE; TOKEN_AND; TOKEN_OR;
   TOKEN_NOT; TOKEN_IN; TOKEN_LIKE; TOKEN_BETWEEN; TOKEN_IS; TOKEN_NULL; TOKEN_INSERT;
   TOKEN_INTO; TOKEN_VALUES; TOKEN_UPDATE; TOKEN_SET; TOKEN_DELETE; TOKEN_CREATE;
   TOKEN_DROP; TOKEN_TABLE; TOKEN_INDEX; TOKEN_IF; TOKEN_EXISTS; TOKEN_BEGIN; TOKEN_COMMIT;
   TOKEN_ROLLBACK; TOKEN_TRANSACTION; TOKEN_ORDER; TOKEN_BY; TOKEN_ASC; TOKEN_DESC;
   TOKEN_LIMIT; TOKEN_OFFSET; TOKEN_DISTINCT; TOKEN_AS; TOKEN_ON; TOKEN_PRIMARY;
   TOKEN_KEY; TOKEN_UNIQUE; TOKEN_DEFAULT; TOKEN_AUTOINCREMENT; TOKEN_INTEGER_KW;
   TOKEN_REAL_KW; TOKEN_TEXT_KW; TOKEN_BLOB_KW; TOKEN_LPAREN; TOKEN_RPAREN; TOKEN_COMMA;
   TOKEN_DOT; TOKEN_SEMICOLON; TOKEN_QUESTION; TOKEN_PLACEHOLDER].

Definition token_code (t : TokenType) : Z :=
  match list_find (fun u => u = t) token_types with
  | Some (i, _) => Z.of_nat i
  | None => -1
  end.

Inductive TokenValue : Type :=
  | TVNone
  | TVInt (z : Z)
  | TVFloat (d : double)
  | TVString (s : list Z).

Record Token : Type := mkToken {
  t_type : TokenType;
  lexeme : list Z;
  lexeme_len : Z;
  t_line : Z;
  t_column : Z;
  t_value : TokenValue }.

(** The keyword table, in the order of the source. *)
Definition keywords : list (list Z * TokenType) :=
  [
   (zstr "AND", TOKEN_AND);
   (zstr "AS", TOKEN_AS);
   (zstr "ASC", TOKEN_ASC);
   (zstr "AUTOINCREMENT", TOKEN_AUTOINCREMENT);
   (zstr "BEGIN", TOKEN_BEGIN);
   (zstr "BETWEEN", TOKEN_BETWEEN);
   (zstr "BY", TOKEN_BY);
   (zstr "COMMIT", TOKEN_COMMIT);
   (zstr "CREATE", TOKEN_CREATE);
   (zstr "DEFAULT", TOKEN_DEFAULT);
   (zstr "DELETE", TOKEN_DELETE);
   (zstr "DESC", TOKEN_DESC);
   (zstr "DISTINCT", TOKEN_DISTINCT);
   (zstr "DROP", TOKEN_DROP);
   (zstr "EXISTS", TOKEN_EXISTS);
   (zstr "FROM", TOKEN_FROM);
   (zstr "IF", TOKEN_IF);
   (zstr "IN", TOKEN_IN);
   (zstr "INDEX", TOKEN_INDEX);
   (zstr "INSERT", TOKEN_INSERT);
   (zstr "INTO", TOKEN_INTO);
   (zstr "IS", TOKEN_IS);
   (zstr "KEY", TOKEN_KEY);
   (zstr "LIKE", TOKEN_LIKE);
   (zstr "LIMIT", TOKEN_LIMIT);
   (zstr "NOT", TOKEN_NOT);
   (zstr "NULL", TOKEN_NULL);
   (zstr "OFFSET", TOKEN_OFFSET);
   (zstr "ON", TOKEN_ON);
   (zstr "OR", TOKEN_OR);
   (zstr "ORDER", TOKEN_ORDER);
   (zstr "PRIMARY", TOKEN_PRIMARY);
   (zstr "REAL", TOKEN_REAL_KW);
   (zstr "ROLLBACK", TOKEN_ROLLBACK);
   (zstr "SELECT", TOKEN_SELECT);
   (zstr "SET", TOKEN_SET);
   (zstr "TABLE", TOKEN_TABLE);
   (zstr "TEXT", TOKEN_TEXT_KW);
   (zstr "TRANSACTION", TOKEN_TRANSACTION);
   (zstr "UNIQUE", TOKEN_UNIQUE);
   (zstr "UPDATE", TOKEN_UPDATE);
   (zstr "VALUES", TOKEN_VALUES);
   (zstr "WHERE", TOKEN_WHERE);
   (zstr "INTEGER", TOKEN_INTEGER_KW);
   (zstr "BLOB", TOKEN_BLOB_KW)].

Definition token_type_name (t : TokenType) : list Z :=
  match t with
  | TOKEN_EOF => zstr "EOF"
  | TOKEN_ERROR => zstr "ERROR"
  | TOKEN_IDENTIFIER => zstr "IDENTIFIER"
  | TOKEN_INTEGER => zstr "INTEGER"
  | TOKEN_REAL => zstr "REAL"
  | TOKEN_STRING => zstr "STRING"
  | TOKEN_PLUS => zstr "PLUS"
  | TOKEN_MINUS => zstr "MINUS"
  | TOKEN_STAR => zstr "STAR"
  | TOKEN_SLASH => zstr "SLASH"
  | TOKEN_PERCENT => zstr "PERCENT"
  | TOKEN_EQ => zstr "EQ"
  | TOKEN_NEQ => zstr "NEQ"
  | TOKEN_LT => zstr "LT"
  | TOKEN_GT => zstr "GT"
  | TOKEN_LTE => zstr "LTE"
  | TOKEN_GTE => zstr "GTE"
  | TOKEN_LIKE_OP => zstr "LIKE"
  | TOKEN_IN_OP => zstr "IN"
  | TOKEN_BETWEEN_OP => zstr "BETWEEN"
  | TOKEN_SELECT => zstr "SELECT"
  | TOKEN_FROM => zstr "FROM"
  | TOKEN_WHERE => zstr "WHERE"
  | TOKEN_AND => zstr "AND"
  | TOKEN_OR => zstr "OR"
  | TOKEN_NOT => zstr "NOT"
  | TOKEN_IN => zstr "IN"
  | TOKEN_LIKE => zstr "LIKE"
  | TOKEN_BETWEEN => zstr "BETWEEN"
  | TOKEN_IS => zstr "IS"
  | TOKEN_NULL => zstr "NULL"
  | TOKEN_INSERT => zstr "INSERT"
  | TOKEN_INTO => zstr "INTO"
  | TOKEN_VALUES => zstr "VALUES"
  | TOKEN_UPDATE => zstr "UPDATE"
  | TOKEN_SET => zstr "SET"
  | TOKEN_DELETE => zstr "DELETE"
  | TOKEN_CREATE => zstr "CREATE"
  | TOKEN_DROP => zstr "DROP"
  | TOKEN_TABLE => zstr "TABLE"
  | TOKEN_INDEX => zstr "INDEX"
  | TOKEN_IF => zstr "IF"
  | TOKEN_EXISTS => zstr "EXISTS"
  | TOKEN_BEGIN => zstr "BEGIN"
  | TOKEN_COMMIT => zstr "COMMIT"
  | TOKEN_ROLLBACK => zstr "ROLLBACK"
  | TOKEN_TRANSACTION => zstr "TRANSACTION"
  | TOKEN_ORDER => zstr "ORDER"
  | TOKEN_BY => zstr "BY"
  | TOKEN_ASC => zstr "ASC"
  | TOKEN_DESC => zstr "DESC"
  | TOKEN_LIMIT => zstr "LIMIT"
  | TOKEN_OFFSET => zstr "OFFSET"
  | TOKEN_DISTINCT => zstr "DISTINCT"
  | TOKEN_AS => zstr "AS"
  | TOKEN_ON => zstr "ON"
  | TOKEN_PRIMARY => zstr "PRIMARY"
  | TOKEN_KEY => zstr "KEY"
  | TOKEN_UNIQUE => zstr "UNIQUE"
  | TOKEN_DEFAULT => zstr "DEFAULT"
  | TOKEN_AUTOINCREMENT => zstr "AUTOINCREMENT"
  | TOKEN_INTEGER_KW => zstr "INTEGER"
  | TOKEN_REAL_KW => zstr "REAL"
  | TOKEN_TEXT_KW => zstr "TEXT"
  | TOKEN_BLOB_KW => zstr "BLOB"
  | TOKEN_LPAREN => zstr "LPAREN"
  | TOKEN_RPAREN => zstr "RPAREN"
  | TOKEN_COMMA => zstr "COMMA"
  | TOKEN_DOT => zstr "DOT"
  | TOKEN_SEMICOLON => zstr "SEMICOLON"
  | TOKEN_QUESTION => zstr "QUESTION"
  | TOKEN_PLACEHOLDER => zstr "PLACEHOLDER"
  | _ => zstr "UNKNOWN"
  end.
(** ** The lexer *)

Record Lexer : Type := mkLexer {
  sql : list Z;
  pos : nat;
  lx_line : Z;
  lx_column : Z;
  current_token : option Token;
  peek_token : option Token;
  peeked : bool;
  lx_error : list Z;
  error_line : Z;
  error_column : Z }.

Definition set_position (l : Lexer) (p : nat) (line col : Z) : Lexer :=
  mkLexer (sql l) p line col (current_token l) (peek_token l) (peeked l) (lx_error l)
    (error_line l) (error_column l).
Definition set_column (l : Lexer) (col : Z) : Lexer := set_position l (pos l) (lx_line l) col.
Definition set_tokens (l : Lexer) (cur pk : option Token) (b : bool) : Lexer :=
  mkLexer (sql l) (pos l) (lx_line l) (lx_column l) cur pk b (lx_error l)
    (error_line l) (error_column l).

(** [None] for the NULL that an empty statement gives. *)
Definition lexer_create (text : list Z) : option Lexer :=
  if (len text =? 0) then None
  else Some (mkLexer text 0 1 1 None None false [] 0 0).

(** '\0' past the end. *)
Definition current_char (l : Lexer) : Z := default 0 (sql l !! pos l).
Definition peek_char (l : Lexer) : Z := default 0 (sql l !! S (pos l)).

Definition advance (l : Lexer) : Lexer :=
  match sql l !! pos l with
  | None => l
  | Some c =>
      if c =? 10 then set_position l (S (pos l)) (lx_line l + 1) 1
      else set_position l (S (pos l)) (lx_line l) (lx_column l + 1)
  end.

Definition is_whitespace (c : Z) : bool := (c =? 32) || (c =? 9) || (c =? 13) || (c =? 10).
Definition is_identifier_start (c : Z) : bool := isalpha c || (c =? 95).
Definition is_identifier_char (c : Z) : bool := isalnum c || (c =? 95).

(** strncasecmp on [n] characters: the sign of the first difference. *)
Fixpoint strncasecmp (n : nat) (a b : list Z) : Z :=
  match n, a, b with
  | S n, x :: a, y :: b =>
      if tolower x <? tolower y then -1 else if tolower y <? tolower x then 1
      else strncasecmp n a b
  | S _, [], _ :: _ => -1
  | S _, _ :: _, [] => 1
  | _, _, _ => 0
  end.

(** The comparison of the binary search. *)
Definition keyword_compare (text kw : list Z) : Z :=
  let cmp := strncasecmp (Nat.min (length text) (length kw)) text kw in
  if cmp =? 0
  then if len text <? len kw then -1 else if len kw <? len text then 1 else 0
  else cmp.

Fixpoint lookup_keyword_loop (fuel : nat) (text : list Z) (low high : Z) : outcome TokenType :=
  match fuel with
  | O => NoFuel
  | S fuel =>
      if low <=? high then
        let mid := (low + high) / 2 in
        let* '(kw, type) := outcome_of_option (keywords !! Z.to_nat mid) in
        let cmp := keyword_compare text kw in
        if cmp =? 0 then Done type
        else if cmp <? 0 then lookup_keyword_loop fuel text low (mid - 1)
        else lookup_keyword_loop fuel text (mid + 1) high
      else Done TOKEN_IDENTIFIER
  end.

(** Every iteration shrinks the interval, so the table's length is fuel enough. *)
Definition lookup_keyword (text : list Z) : outcome TokenType :=
  lookup_keyword_loop (S (length keywords)) text 0 (len keywords - 1).

Definition set_error (l : Lexer) (msg : list Z) : Lexer :=
  mkLexer (sql l) (pos l) (lx_line l) (lx_column l) (current_token l) (peek_token l)
    (peeked l) (take 255 msg) (lx_line l) (lx_column l).

Definition lexer_error (l : Lexer) : option (list Z) :=
  match lx_error l with [] => None | m => Some m end.

Definition make_token (l : Lexer) (type : TokenType) (text : list Z) : Token :=
  mkToken type text (len text) (lx_line l) (lx_column l - len text) TVNone.

Definition with_value (t : Token) (v : TokenValue) : Token :=
  mkToken (t_type t) (lexeme t) (lexeme_len t) (t_line t) (t_column t) v.

Definition make_error_token (l : Lexer) (msg : list Z) : Token * Lexer :=
  (make_token l TOKEN_ERROR [], set_error l msg).

(** while (p(current_char(lexer))) advance(lexer); *)
Fixpoint advance_while (fuel : nat) (p : Z -> bool) (l : Lexer) : outcome Lexer :=
  if p (current_char l) then
    match fuel with
    | O => NoFuel
    | S fuel => advance_while fuel p (advance l)
    end
  else Done l.

(** The characters left bound every such loop, since no class contains '\0'. *)
Definition scan_while (p : Z -> bool) (l : Lexer) : outcome Lexer :=
  advance_while (length (sql l) - pos l) p l.

Definition skip_whitespace (l : Lexer) : outcome Lexer := scan_while is_whitespace l.

(** sql[start .. pos) *)
Definition text_from (start : nat) (l : Lexer) : list Z := slice start (pos l - start) (sql l).

Definition scan_identifier (l : Lexer) : outcome (Token * Lexer) :=
  let start := pos l in
  if negb (is_identifier_start (current_char l))
  then Done (make_error_token l (zstr "Invalid identifier start")) else
  let* l := scan_while is_identifier_char (advance l) in
  let text := text_from start l in
  let* type := lookup_keyword (toupper <$> text) in
  Done (make_token l type text, l).

Definition hex_digit (c : Z) : Z :=
  if isdigit c then c - 48 else if (97 <=? c) && (c <=? 102) then c - 97 + 10 else c - 65 + 10.

(** val = (val << 4) | digit on int64_t: undefined once the shift overflows. *)
Fixpoint hex_value (acc : Z) (s : list Z) : outcome Z :=
  match s with
  | [] => Done acc
  | c :: s =>
      if isxdigit c
      then let* v := int64 (Z.shiftl acc 4) in hex_value (Z.lor v (hex_digit c)) s
      else Done acc
  end.

(** The decimal branch of [scan_number]: the lexer behind the literal and
    whether it has a point or an exponent. *)
Definition scan_decimal (l : Lexer) : outcome (Lexer * bool) :=
  let* l := scan_while isdigit l in
  let has_dot := (current_char l =? 46) && isdigit (peek_char l) in
  let* l := if has_dot then scan_while isdigit (advance l) else Done l in
  let has_e := (current_char l =? 101) || (current_char l =? 69) in
  let* l :=
    if has_e then
      let l := advance l in
      let l := if (current_char l =? 43) || (current_char l =? 45) then advance l else l in
      scan_while isdigit l
    else Done l in
  Done (l, has_dot || has_e).

Definition scan_number (l : Lexer) : outcome (Token * Lexer) :=
  let start := pos l in
  let start_column := lx_column l in
  if (current_char l =? 48) && ((peek_char l =? 120) || (peek_char l =? 88)) then
    let* l := scan_while isxdigit (advance (advance l)) in
    let l := set_column l start_column in
    let text := text_from start l in
    let* v := hex_value 0 (drop 2 text) in
    Done (with_value (make_token l TOKEN_INTEGER text) (TVInt v), l)
  else
    let* '(l, real) := scan_decimal l in
    let l := set_column l start_column in
    let text := text_from start l in
    if real
    then Done (with_value (make_token l TOKEN_REAL text) (TVFloat (atof text)), l)
    else let* v := atoll text in
         Done (with_value (make_token l TOKEN_INTEGER text) (TVInt v), l).

(** The loop of [scan_string]: the content, or [None] when the text ends first. *)
Fixpoint scan_string_loop (fuel : nat) (quote : Z) (l : Lexer) (content : list Z)
    : outcome (option (list Z) * Lexer) :=
  match fuel with
  | O => NoFuel
  | S fuel =>
      if current_char l =? 0 then Done (None, l) else
      if current_char l =? quote then
        if peek_char l =? quote
        then scan_string_loop fuel quote (advance (advance l)) (content ++ [39])
        else Done (Some content, advance l)
      else scan_string_loop fuel quote (advance l) (content ++ [current_char l])
  end.

Definition scan_string (l : Lexer) : outcome (Token * Lexer) :=
  let start := pos l in
  let start_column := lx_column l in
  let quote := current_char l in
  let* '(content, l) := scan_string_loop (S (length (sql l) - pos l)) quote (advance l) [] in
  let l := set_column l start_column in
  match content with
  | None => Done (make_error_token l (zstr "Unterminated string"))
  | Some content =>
      Done (with_value (make_token l TOKEN_STRING (text_from start l)) (TVString content), l)
  end.

Definition single_char_token (c : Z) : option TokenType :=
  if c =? 43 then Some TOKEN_PLUS else if c =? 45 then Some TOKEN_MINUS
  else if c =? 42 then Some TOKEN_STAR else if c =? 47 then Some TOKEN_SLASH
  else if c =? 37 then Some TOKEN_PERCENT else if c =? 40 then Some TOKEN_LPAREN
  else if c =? 41 then Some TOKEN_RPAREN else if c =? 44 then Some TOKEN_COMMA
  else if c =? 46 then Some TOKEN_DOT else if c =? 59 then Some TOKEN_SEMICOLON
  else if c =? 63 then Some TOKEN_QUESTION else if c =? 61 then Some TOKEN_EQ
  else None.

Definition scan_operator (l : Lexer) : Token * Lexer :=
  let c := current_char l in
  let l := advance l in
  match single_char_token c with
  | Some t => (make_token l t [c], l)
  | None =>
      if c =? 60 then
        if current_char l =? 61 then let l := advance l in (make_token l TOKEN_LTE (zstr "<="), l)
        else if current_char l =? 62 then let l := advance l in (make_token l TOKEN_NEQ (zstr "<>"), l)
        else (make_token l TOKEN_LT (zstr "<"), l)
      else if c =? 62 then
        if current_char l =? 61 then let l := advance l in (make_token l TOKEN_GTE (zstr ">="), l)
        else (make_token l TOKEN_GT (zstr ">"), l)
      else if c =? 33 then
        if current_char l =? 61 then let l := advance l in (make_token l TOKEN_NEQ (zstr "!="), l)
        else make_error_token l (zstr "Unexpected character '!'")
      else make_error_token l (zstr "Unexpected character")
  end.

Definition scan_placeholder (l : Lexer) : outcome (Token * Lexer) :=
  let start := pos l in
  let l := advance l in
  if isdigit (current_char l) then
    let* l := scan_while isdigit l in
    Done (make_token l TOKEN_PLACEHOLDER (text_from start l), l)
  else Done (make_error_token l (zstr "Invalid placeholder")).

Definition next_token_internal (l : Lexer) : outcome (Token * Lexer) :=
  let* l := skip_whitespace l in
  if (length (sql l) <=? pos l)%nat then Done (make_token l TOKEN_EOF [], l) else
  let c := current_char l in
  if is_identifier_start c then scan_identifier l
  else if isdigit c then scan_number l
  else if (c =? 39) || (c =? 34) then scan_string l
  else if c =? 36 then scan_placeholder l
  else Done (scan_operator l).

(** ** Public interface *)

Definition lexer_next_token (l : Lexer) : outcome (Token * Lexer) :=
  match peeked l, peek_token l with
  | true, Some t => Done (t, set_tokens l (current_token l) (peek_token l) false)
  | true, None => Undef
  | false, _ =>
      let* '(t, l) := next_token_internal l in
      Done (t, set_tokens l (Some t) (peek_token l) (peeked l))
  end.

Definition lexer_peek_token (l : Lexer) : outcome (Token * Lexer) :=
  let* l :=
    if peeked l then Done l else
    let* '(t, l) := next_token_internal l in
    Done (set_tokens l (current_token l) (Some t) true) in
  match peek_token l with Some t => Done (t, l) | None => Undef end.

Definition lexer_advance (l : Lexer) : outcome Lexer :=
  let* '(_, l) := lexer_next_token l in Done l.

Definition token_get_text (t : Token) : list Z := lexeme t.

(** ** Positions *)

Lemma sql_set_position l p a b : sql (set_position l p a b) = sql l.
Proof. done. Qed.

Lemma advance_ok l :
  sql (advance l) = sql l /\
  pos (advance l) = (if decide (pos l < length (sql l)) then S (pos l) else pos l)%nat.
Proof.
  unfold advance. destruct (sql l !! pos l) as [c|] eqn:E.
  - apply lookup_lt_Some in E. rewrite decide_True by done. by destruct (c =? 10).
  - apply lookup_ge_None in E. rewrite decide_False by lia. done.
Qed.

Lemma advance_in l : (pos l < length (sql l))%nat -> pos (advance l) = S (pos l).
Proof. intros H. destruct (advance_ok l) as [_ ->]. by rewrite decide_True. Qed.

Lemma sql_advance l : sql (advance l) = sql l.
Proof. apply advance_ok. Qed.

Lemma current_char_out l : (length (sql l) <= pos l)%nat -> current_char l = 0.
Proof. intros H. unfold current_char. by rewrite lookup_ge_None_2. Qed.

Lemma current_char_nonzero l : current_char l <> 0 -> (pos l < length (sql l))%nat.
Proof.
  intros H. destruct (decide (pos l < length (sql l))%nat); [done|].
  destruct H. apply current_char_out. lia.
Qed.

(** How many of the leading characters satisfy [p]. *)
Fixpoint prefix_len (p : Z -> bool) (s : list Z) : nat :=
  match s with
  | [] => 0
  | c :: s => if p c then S (prefix_len p s) else 0
  end.

Lemma prefix_len_le p s : (prefix_len p s <= length s)%nat.
Proof. induction s as [|c s IH]; simpl; [lia|]. destruct (p c); lia. Qed.

Lemma prefix_len_app p s r :
  Forall (fun c => p c = true) s -> prefix_len p (s ++ r) = (length s + prefix_len p r)%nat.
Proof. induction 1 as [|c s Hc Hs IH]; simpl; [done|]. by rewrite Hc, IH. Qed.

Lemma scan_while_ok p l :
  p 0 = false ->
  exists l', scan_while p l = Done l' /\ sql l' = sql l /\
    pos l' = (pos l + prefix_len p (drop (pos l) (sql l)))%nat.
Proof.
  intros Hp. unfold scan_while.
  assert (forall n l, (length (sql l) - pos l <= n)%nat ->
    exists l', advance_while n p l = Done l' /\ sql l' = sql l /\
      pos l' = (pos l + prefix_len p (drop (pos l) (sql l)))%nat) as H; [|by apply H].
  induction n as [|n IH]; intros k Hk; cbn [advance_while].
  - rewrite current_char_out, Hp, drop_ge by lia. exists k. simpl. split_and!; [done|done|lia].
  - unfold current_char. destruct (sql k !! pos k) as [c|] eqn:E; simpl.
    + rewrite (drop_S _ _ _ E). cbn [prefix_len]. pose proof (lookup_lt_Some _ _ _ E) as Hlt.
      destruct (p c); [|exists k; split_and!; [done|done|lia]].
      destruct (IH (advance k)) as (l' & E' & Hs & Hpos).
      { rewrite sql_advance, advance_in by done. lia. }
      rewrite sql_advance, advance_in in * by done. exists l'. split_and!; auto. lia.
    + rewrite Hp. apply lookup_ge_None in E. rewrite drop_ge by done. exists k. simpl.
      split_and!; [done|done|lia].
Qed.

Lemma scan_while_le p l l' :
  p 0 = false -> scan_while p l = Done l' -> (pos l <= length (sql l))%nat ->
  sql l' = sql l /\ (pos l <= pos l' <= length (sql l))%nat.
Proof.
  intros Hp E Hl. destruct (scan_while_ok p l Hp) as (l2 & E2 & Hs & Hpos).
  rewrite E in E2. injection E2 as <-. split; [done|].
  pose proof (prefix_len_le p (drop (pos l) (sql l))) as H. rewrite length_drop in H. lia.
Qed.

(** ** Keywords *)

(** The binary search always answers, and a keyword answer comes from an entry
    that compares equal. *)
Lemma lookup_keyword_loop_sound fuel text low high :
  0 <= low -> high < len keywords -> Z.max 0 (high - low + 1) < Z.of_nat fuel ->
  exists t, lookup_keyword_loop fuel text low high = Done t /\
    (t = TOKEN_IDENTIFIER \/ exists kw, (kw, t) ∈ keywords /\ keyword_compare text kw = 0).
Proof.
  revert low high. induction fuel as [|fuel IH]; intros low high Hl Hh Hf; [lia|].
  cbn [lookup_keyword_loop]. destruct (Z.leb_spec low high) as [Hle|Hgt]; [|eauto].
  assert (low <= (low + high) / 2 <= high) as Hm
    by (split; [apply Z.div_le_lower_bound|apply Z.div_le_upper_bound]; lia).
  generalize dependent ((low + high) / 2). intros mid Hm.
  destruct (lookup_lt_is_Some_2 keywords (Z.to_nat mid)) as [[kw t] Hk]; [lia|].
  rewrite Hk. cbn [outcome_of_option obind]. destruct (Z.eqb_spec (keyword_compare text kw) 0) as [E|E].
  - exists t. split; [done|]. right. exists kw. split; [|done]. by eapply list_elem_of_lookup_2.
  - destruct (keyword_compare text kw <? 0); apply IH; lia.
Qed.

Lemma lookup_keyword_sound text :
  exists t, lookup_keyword text = Done t /\
    (t = TOKEN_IDENTIFIER \/ exists kw, (kw, t) ∈ keywords /\ keyword_compare text kw = 0).
Proof. apply lookup_keyword_loop_sound; [lia|lia|]. rewrite Nat2Z.inj_succ. lia. Qed.

Lemma strncasecmp_eq n a b :
  length a = n -> length b = n -> strncasecmp n a b = 0 -> tolower <$> a = tolower <$> b.
Proof.
  revert a b. induction n as [|n IH]; intros [|x a] [|y b] Ha Hb E; simpl in *; try lia; [done|].
  destruct (Z.ltb_spec (tolower x) (tolower y)); [done|].
  destruct (Z.ltb_spec (tolower y) (tolower x)); [done|].
  f_equal; [lia|]. apply IH; lia.
Qed.

(** Comparing equal means being equal up to letter case. *)
Lemma keyword_compare_eq text kw :
  keyword_compare text kw = 0 -> tolower <$> text = tolower <$> kw.
Proof.
  unfold keyword_compare. destruct (Z.eqb_spec (strncasecmp (Nat.min (length text) (length kw)) text kw) 0)
    as [E|E]; [|done].
  destruct (Z.ltb_spec (len text) (len kw)); [done|].
  destruct (Z.ltb_spec (len kw) (len text)); [done|]. intros _.
  apply (strncasecmp_eq (Nat.min (length text) (length kw))); [lia|lia|done].
Qed.

(** The keywords the search cannot find: the two appended out of order. *)
Definition lost_keywords : list (list Z) := [zstr "INTEGER"; zstr "BLOB"].

(** Keyword lookup. The search terminates; a keyword answer is always the
    entry equal to the text up to case; and every keyword of the table is found
    except INTEGER and BLOB, which come after WHERE in a table that must be
    sorted: they are lexed as identifiers. *)
Theorem lookup_keyword_spec :
  (forall text, exists t, lookup_keyword text = Done t /\
     (t = TOKEN_IDENTIFIER \/
      exists kw, (kw, t) ∈ keywords /\ tolower <$> text = tolower <$> kw)) /\
  (forall kw t, (kw, t) ∈ keywords ->
     lookup_keyword kw = Done (if decide (kw ∈ lost_keywords) then TOKEN_IDENTIFIER else t)).
Proof.
  split.
  - intros text. destruct (lookup_keyword_sound text) as (t & E & [Ht|(kw & Hk & Hc)]);
      exists t; split; auto. right. exists kw. split; [done|]. by apply keyword_compare_eq.
  - intros kw t Hk. apply list_elem_of_In in Hk.
    assert (forallb (fun x : list Z * TokenType =>
      match lookup_keyword (fst x) with
      | Done u => bool_decide (u = if decide (fst x ∈ lost_keywords) then TOKEN_IDENTIFIER else snd x)
      | _ => false
      end) keywords = true) as H by (vm_compute; reflexivity).
    rewrite forallb_forall in H. specialize (H _ Hk). cbn [fst snd] in H.
    destruct (lookup_keyword kw); [|done|done]. apply bool_decide_eq_true in H. by rewrite H.
Qed.

(** ** Progress *)

(** The token starts where the lexer was and ends further on. *)
Definition progress (l : Lexer) (m : outcome (Token * Lexer)) : Prop :=
  m = Undef \/ exists t l', m = Done (t, l') /\ sql l' = sql l /\
    (pos l < pos l' <= length (sql l))%nat /\ t_type t <> TOKEN_EOF.

Lemma lookup_keyword_not_eof text t : lookup_keyword text = Done t -> t <> TOKEN_EOF.
Proof.
  intros E -> . destruct (lookup_keyword_sound text) as (t & E' & [->|(kw & Hk & _)]).
  - rewrite E in E'. discriminate.
  - rewrite E in E'. injection E' as <-.
    assert (Forall (fun x : list Z * TokenType => snd x <> TOKEN_EOF) keywords) as H
      by (repeat constructor; discriminate).
    rewrite Forall_forall in H. by apply (H (kw, TOKEN_EOF) Hk).
Qed.

Lemma scan_identifier_progress l :
  is_identifier_start (current_char l) = true -> (pos l < length (sql l))%nat ->
  progress l (scan_identifier l).
Proof.
  intros Hs Hl. unfold scan_identifier. rewrite Hs. cbn [negb].
  destruct (scan_while_ok is_identifier_char (advance l)) as (l' & E & Hsql & Hp); [done|].
  pose proof (scan_while_le is_identifier_char (advance l) l' eq_refl E) as Hle.
  rewrite sql_advance, advance_in in * by done. rewrite E, bind_Done.
  destruct (lookup_keyword_sound (toupper <$> text_from (pos l) l')) as (t & Et & _).
  rewrite Et, bind_Done. right. eexists _, _. split; [done|]. split_and!; [done|lia|lia|].
  by eapply lookup_keyword_not_eof.
Qed.

Lemma hex_value_cases acc s : hex_value acc s = Undef \/ exists v, hex_value acc s = Done v.
Proof.
  revert acc. induction s as [|c s IH]; intros acc; cbn [hex_value]; [eauto|].
  destruct (isxdigit c); [|eauto]. unfold int64 at 1 2.
  destruct (_ && _); [rewrite bind_Done; apply IH|by left].
Qed.

Lemma scan_while_le_adv p l l' k :
  p 0 = false -> scan_while p l = Done l' -> sql l = sql k -> (pos k <= pos l <= length (sql k))%nat ->
  sql l' = sql k /\ (pos k <= pos l' <= length (sql k))%nat.
Proof.
  intros Hp E Hs Hl. destruct (scan_while_le p l l' Hp E) as [H1 H2]; [rewrite Hs; lia|].
  rewrite Hs in *. split; [done|lia].
Qed.

Lemma advance_le l k :
  sql l = sql k -> (pos k <= pos l <= length (sql k))%nat ->
  sql (advance l) = sql k /\ (pos k <= pos (advance l) <= length (sql k))%nat.
Proof.
  intros Hs Hl. destruct (advance_ok l) as [-> ->]. split; [done|].
  rewrite Hs. destruct (decide (pos l < length (sql k))%nat); lia.
Qed.

Lemma scan_decimal_ok l :
  (pos l <= length (sql l))%nat ->
  exists l' b, scan_decimal l = Done (l', b) /\ sql l' = sql l /\
    (pos l + prefix_len isdigit (drop (pos l) (sql l)) <= pos l' <= length (sql l))%nat.
Proof.
  intros Hl. unfold scan_decimal.
  destruct (scan_while_ok isdigit l) as (l1 & E1 & Hs1 & Hp1); [done|].
  pose proof (scan_while_le isdigit l l1 eq_refl E1 Hl) as [_ Hb1].
  rewrite E1, bind_Done.
  assert (exists l2, (if (current_char l1 =? 46) && isdigit (peek_char l1)
    then scan_while isdigit (advance l1) else Done l1) = Done l2 /\ sql l2 = sql l1 /\
    (pos l1 <= pos l2 <= length (sql l1))%nat) as (l2 & -> & Hs2 & Hb2).
  { destruct (_ && _); [|exists l1; rewrite Hs1; split_and!; [done|done|lia|lia]].
    destruct (scan_while_ok isdigit (advance l1)) as (l2 & E2 & _); [done|]. exists l2.
    split; [done|]. destruct (advance_le l1 l1 eq_refl) as [Ha1 Ha2]; [rewrite Hs1; lia|].
    by apply (scan_while_le_adv isdigit (advance l1) l2 l1). }
  rewrite bind_Done.
  assert (exists l3, (if (current_char l2 =? 101) || (current_char l2 =? 69)
    then scan_while isdigit (if (current_char (advance l2) =? 43) || (current_char (advance l2) =? 45)
                             then advance (advance l2) else advance l2)
    else Done l2) = Done l3 /\ sql l3 = sql l1 /\ (pos l1 <= pos l3 <= length (sql l1))%nat)
    as (l3 & -> & Hs3 & Hb3).
  { destruct (_ || _); [|by exists l2]. set (l2' := if _ : bool then _ else _).
    destruct (scan_while_ok isdigit l2') as (l3 & E3 & _); [done|]. exists l3. split; [done|].
    destruct (advance_le l2 l1 Hs2 Hb2) as [Ha1 Ha2].
    destruct (advance_le (advance l2) l1 Ha1 Ha2) as [Ha3 Ha4].
    apply (scan_while_le_adv isdigit l2' l3 l1); [done|done|unfold l2'; by case_match|].
    unfold l2'. by case_match. }
  rewrite bind_Done. exists l3. eexists. split; [done|]. rewrite Hs1 in *. split; [done|lia].
Qed.

Lemma isdigit_prefix l c :
  sql l !! pos l = Some c -> isdigit c = true ->
  (1 <= prefix_len isdigit (drop (pos l) (sql l)))%nat.
Proof. intros E Hc. rewrite (drop_S _ _ _ E). cbn [prefix_len]. rewrite Hc. lia. Qed.

Lemma int64_cases z : int64 z = Undef \/ int64 z = Done z.
Proof. unfold int64. destruct (_ && _); auto. Qed.

Lemma scan_number_progress l :
  isdigit (current_char l) = true -> (pos l < length (sql l))%nat -> progress l (scan_number l).
Proof.
  intros Hd Hl. unfold scan_number.
  destruct (lookup_lt_is_Some_2 (sql l) (pos l) Hl) as [c Hc].
  assert (isdigit c = true) as Hdc by (unfold current_char in Hd; by rewrite Hc in Hd).
  destruct (_ && _).
  - destruct (advance_ok l) as [Hs1 _]. pose proof (advance_in l Hl) as Hp1.
    destruct (advance_ok (advance l)) as [Hs2 Hp2]. rewrite Hs1, Hp1 in Hp2.
    destruct (scan_while_ok isxdigit (advance (advance l))) as (l' & E & _); [done|].
    destruct (scan_while_le isxdigit _ l' eq_refl E) as [Hs Hp].
    { rewrite Hs2, Hs1, Hp2. destruct (decide (S (pos l) < length (sql l))%nat); lia. }
    rewrite E, bind_Done. rewrite Hs2, Hs1 in *.
    destruct (hex_value_cases 0 (drop 2 (text_from (pos l) (set_column l' (lx_column l))))) as [->|[v ->]];
      [by left|].
    rewrite bind_Done. right. eexists _, _. split; [done|]. cbn [set_column set_position sql pos].
    split_and!; [done| |lia|done].
    destruct (decide (S (pos l) < length (sql l))%nat); lia.
  - destruct (scan_decimal_ok l) as (l' & b & -> & Hs & Hp); [lia|]. rewrite bind_Done.
    pose proof (isdigit_prefix l c Hc Hdc). destruct b.
    + right. eexists _, _. split; [done|]. cbn [set_column set_position sql pos].
      split_and!; [done|lia|lia|done].
    + unfold atoll. destruct (int64_cases (fst (digits_value 0 (text_from (pos l) (set_column l' (lx_column l))))))
        as [->| ->]; [by left|].
      rewrite bind_Done. right. eexists _, _. split; [done|]. cbn [set_column set_position sql pos].
      split_and!; [done|lia|lia|done].
Qed.

Lemma scan_string_loop_ok fuel quote l k content :
  quote <> 0 -> sql l = sql k -> (pos k <= pos l <= length (sql k))%nat ->
  (length (sql k) - pos l < fuel)%nat ->
  exists r l', scan_string_loop fuel quote l content = Done (r, l') /\ sql l' = sql k /\
    (pos k <= pos l' <= length (sql k))%nat.
Proof.
  intros Hq. revert l content. induction fuel as [|fuel IH]; intros l content Hs Hl Hf; [lia|].
  cbn [scan_string_loop]. destruct (Z.eqb_spec (current_char l) 0) as [H0|H0]; [by exists None, l|].
  apply current_char_nonzero in H0 as Hlt. rewrite Hs in Hlt.
  destruct (advance_le l k Hs Hl) as [Ha1 Ha2].
  assert (pos (advance l) = S (pos l)) as Hpa by (apply advance_in; by rewrite Hs).
  destruct (advance_le (advance l) k Ha1 Ha2) as [Hb1 Hb2].
  assert (pos l < pos (advance (advance l)))%nat as Hpb.
  { destruct (advance_ok (advance l)) as [_ ->]. rewrite Hpa. case_match; lia. }
  destruct (current_char l =? quote).
  - destruct (peek_char l =? quote).
    + apply IH; [done|done|lia].
    + by exists (Some content), (advance l).
  - apply IH; [done|done|lia].
Qed.

Lemma scan_string_progress l :
  current_char l = 39 \/ current_char l = 34 -> (pos l < length (sql l))%nat ->
  progress l (scan_string l).
Proof.
  intros Hq Hl. unfold scan_string. destruct (advance_ok l) as [Hs _].
  pose proof (advance_in l Hl) as Hp.
  destruct (scan_string_loop_ok (S (length (sql l) - pos l)) (current_char l) (advance l) (advance l) [])
    as (r & l' & -> & Hs' & Hp'); [lia|done|rewrite Hs, Hp; lia|rewrite Hs, Hp; lia|].
  rewrite Hs, Hp in *. rewrite bind_Done. right. destruct r as [content|].
  all: eexists _, _; (split; [done|]); cbn [set_column set_position sql pos set_error];
    split_and!; [done|lia|lia|done].
Qed.

Lemma scan_placeholder_progress l :
  (pos l < length (sql l))%nat -> progress l (scan_placeholder l).
Proof.
  intros Hl. unfold scan_placeholder. destruct (advance_ok l) as [Hs _]. pose proof (advance_in l Hl) as Hp.
  destruct (isdigit (current_char (advance l))).
  - destruct (scan_while_ok isdigit (advance l)) as (l' & E & _); [done|].
    destruct (scan_while_le isdigit (advance l) l' eq_refl E) as [Hs' Hp']; [rewrite Hs, Hp; lia|].
    rewrite Hs, Hp in *. rewrite E, bind_Done. right. eexists _, _. split; [done|].
    split_and!; [done|lia|lia|done].
  - right. eexists _, _. split; [done|]. cbn [set_error sql pos]. rewrite Hp.
    split_and!; [done|lia|lia|done].
Qed.

Lemma scan_operator_progress l : (pos l < length (sql l))%nat -> progress l (Done (scan_operator l)).
Proof.
  intros Hl. destruct (advance_ok l) as [Hs _]. pose proof (advance_in l Hl) as Hp.
  destruct (advance_le (advance l) (advance l) eq_refl) as [Hs2 Hp2]; [rewrite Hs, Hp; lia|].
  rewrite Hs, Hp in *. right. unfold scan_operator.
  assert (forall c t, single_char_token c = Some t -> t <> TOKEN_EOF) as Ht.
  { intros c t. unfold single_char_token.
    repeat match goal with |- context [if ?b then _ else _] => destruct b end; intros [= <-]; done. }
  destruct (single_char_token (current_char l)) as [t|] eqn:Et.
  { eexists _, _. split; [done|]. split_and!; [done|lia|lia|]. by apply (Ht (current_char l)). }
  repeat match goal with |- context [if ?b then _ else _] => destruct b end;
    eexists _, _; (split; [done|]); cbn [set_error sql pos make_token t_type];
    split_and!; first [done|lia].
Qed.

Lemma next_token_progress l :
  (pos l <= length (sql l))%nat ->
  next_token_internal l = Undef \/
  exists t l', next_token_internal l = Done (t, l') /\ sql l' = sql l /\
    (pos l' <= length (sql l))%nat /\
    ((t_type t = TOKEN_EOF /\ pos l' = length (sql l)) \/ (pos l < pos l')%nat /\ t_type t <> TOKEN_EOF).
Proof.
  intros Hl. unfold next_token_internal, skip_whitespace.
  destruct (scan_while_ok is_whitespace l) as (k & E & _); [done|].
  destruct (scan_while_le is_whitespace l k eq_refl E Hl) as [Hs Hp]. rewrite E, bind_Done.
  destruct (Nat.leb_spec (length (sql k)) (pos k)) as [He|He].
  { right. eexists _, _. split; [done|]. rewrite Hs in *. split_and!; [done|lia|]. left. split; [done|lia]. }
  assert (progress k (if is_identifier_start (current_char k) then scan_identifier k
    else if isdigit (current_char k) then scan_number k
    else if (current_char k =? 39) || (current_char k =? 34) then scan_string k
    else if current_char k =? 36 then scan_placeholder k else Done (scan_operator k))) as Hprog.
  { destruct (is_identifier_start (current_char k)) eqn:H1; [by apply scan_identifier_progress|].
    destruct (isdigit (current_char k)) eqn:H2; [by apply scan_number_progress|].
    destruct (Z.eqb_spec (current_char k) 39); [apply scan_string_progress; auto|].
    destruct (Z.eqb_spec (current_char k) 34); [apply scan_string_progress; auto|]. cbn [orb].
    destruct (current_char k =? 36); [by apply scan_placeholder_progress|by apply scan_operator_progress]. }
  destruct Hprog as [->|(t & l' & -> & Hs' & Hp' & Ht)]; [by left|right].
  exists t, l'. split; [done|]. rewrite Hs in *. split_and!; [done|lia|]. right. split; [lia|done].
Qed.

(** ** Scanning ignores the token buffers *)

Section Retoken.
Variables (cur pk : option Token) (b : bool).
Notation R l := (set_tokens l cur pk b).
Notation R2 m := (obind m (fun x => Done (fst x, R (snd x)))).

Lemma advance_R l : advance (R l) = R (advance l).
Proof. unfold advance. cbn [sql pos set_tokens]. by repeat case_match. Qed.

Lemma scan_while_R p l : scan_while p (R l) = obind (scan_while p l) (fun l => Done (R l)).
Proof.
  unfold scan_while. cbn [sql pos set_tokens]. generalize (length (sql l) - pos l)%nat.
  intros n. revert l. induction n as [|n IH]; intros l; cbn [advance_while];
    change (current_char (R l)) with (current_char l); destruct (p (current_char l)); try done.
  by rewrite advance_R, IH.
Qed.

Lemma scan_string_loop_R fuel q l c :
  scan_string_loop fuel q (R l) c = R2 (scan_string_loop fuel q l c).
Proof.
  revert l c. induction fuel as [|fuel IH]; intros l c; [done|]. cbn [scan_string_loop].
  change (current_char (R l)) with (current_char l). change (peek_char (R l)) with (peek_char l).
  repeat case_match; rewrite ?advance_R, ?IH; done.
Qed.

Lemma scan_decimal_R l :
  scan_decimal (R l) = obind (scan_decimal l) (fun x => Done (R (fst x), snd x)).
Proof.
  unfold scan_decimal. rewrite scan_while_R.
  destruct (scan_while isdigit l) as [k| |]; [|done|done]. rewrite !bind_Done.
  change (current_char (R k)) with (current_char k). change (peek_char (R k)) with (peek_char k).
  rewrite advance_R, scan_while_R.
  assert (forall c : bool,
    (if c then obind (scan_while isdigit (advance k)) (fun l => Done (R l)) else Done (R k)) =
    obind (if c then scan_while isdigit (advance k) else Done k) (fun l => Done (R l))) as ->
    by (by intros []).
  destruct (if _ : bool then scan_while isdigit (advance k) else Done k) as [j| |]; [|done|done].
  rewrite !bind_Done. change (current_char (R j)) with (current_char j). rewrite !advance_R.
  change (current_char (R (advance j))) with (current_char (advance j)).
  destruct ((current_char j =? 101) || _); [|done].
  destruct ((current_char (advance j) =? 43) || _); rewrite scan_while_R; by destruct (scan_while _ _).
Qed.

Lemma next_token_internal_R l : next_token_internal (R l) = R2 (next_token_internal l).
Proof.
  unfold next_token_internal, skip_whitespace. rewrite scan_while_R.
  destruct (scan_while is_whitespace l) as [k| |]; [|done|done]. rewrite !bind_Done.
  change (sql (R k)) with (sql k). change (pos (R k)) with (pos k).
  change (current_char (R k)) with (current_char k).
  destruct (length (sql k) <=? pos k)%nat; [done|].
  destruct (is_identifier_start (current_char k)) eqn:Hi.
  { unfold scan_identifier. change (current_char (R k)) with (current_char k). rewrite Hi.
    cbn [negb]. rewrite advance_R, scan_while_R. destruct (scan_while _ _) as [j| |]; [|done|done].
    rewrite !bind_Done. change (text_from (pos (R k)) (R j)) with (text_from (pos k) j).
    by destruct (lookup_keyword _). }
  destruct (isdigit (current_char k)).
  { unfold scan_number. change (current_char (R k)) with (current_char k).
    change (peek_char (R k)) with (peek_char k). rewrite !advance_R, scan_while_R, scan_decimal_R.
    destruct (_ && _).
    - destruct (scan_while _ _) as [j| |]; [|done|done]. rewrite !bind_Done.
      change (text_from _ _) with (text_from (pos k) (set_column j (lx_column k))).
      by destruct (hex_value _ _).
    - destruct (scan_decimal k) as [[j []]| |]; [done| |done|done]. rewrite !bind_Done. cbn [fst snd].
      change (text_from _ _) with (text_from (pos k) (set_column j (lx_column k))).
      by destruct (atoll _). }
  destruct (_ || _).
  { unfold scan_string. rewrite advance_R, scan_string_loop_R.
    change (current_char (R k)) with (current_char k). change (sql (R k)) with (sql k).
    change (pos (R k)) with (pos k).
    destruct (scan_string_loop _ _ _ _) as [[[c|] j]| |]; done. }
  destruct (current_char k =? 36).
  { unfold scan_placeholder. rewrite advance_R.
    change (current_char (R (advance k))) with (current_char (advance k)).
    destruct (isdigit _); [|done]. rewrite scan_while_R. by destruct (scan_while _ _). }
  unfold scan_operator. change (current_char (R k)) with (current_char k). rewrite !advance_R.
  change (current_char (R (advance k))) with (current_char (advance k)).
  by repeat case_match.
Qed.
End Retoken.

Lemma next_token_buffers l t l' :
  next_token_internal l = Done (t, l') ->
  current_token l' = current_token l /\ peek_token l' = peek_token l /\ peeked l' = peeked l.
Proof.
  intros E. pose proof (next_token_internal_R (current_token l) (peek_token l) (peeked l) l) as H.
  replace (set_tokens l _ _ _) with l in H by (by destruct l).
  rewrite E, bind_Done in H. injection H as H. rewrite H. done.
Qed.

(** ** Tokenizing a whole statement *)

(** Every token up to the end of the text, the last one TOKEN_EOF. *)
Fixpoint tokenize (fuel : nat) (l : Lexer) : outcome (list Token) :=
  match fuel with
  | O => NoFuel
  | S fuel =>
      let* '(t, l) := lexer_next_token l in
      if token_eqb (t_type t) TOKEN_EOF then Done [t]
      else let* ts := tokenize fuel l in Done (t :: ts)
  end.

Lemma tokenize_loop fuel l :
  (pos l <= length (sql l))%nat -> peeked l = false -> (length (sql l) - pos l < fuel)%nat ->
  tokenize fuel l = Undef \/
  exists ts t, tokenize fuel l = Done (ts ++ [t]) /\ t_type t = TOKEN_EOF /\
    Forall (fun t => t_type t <> TOKEN_EOF) ts /\ (length ts <= length (sql l) - pos l)%nat.
Proof.
  revert l. induction fuel as [|fuel IH]; intros l Hl Hpk Hf; [lia|].
  cbn [tokenize]. unfold lexer_next_token. rewrite Hpk.
  destruct (next_token_progress l Hl) as [->|(t & l' & E & Hs & Hb & Hc)]; [by left|].
  pose proof (next_token_buffers _ _ _ E) as (_ & _ & Hpk'). rewrite E.
  rewrite !bind_Done. unfold token_eqb. destruct Hc as [[Ht _]|[Hlt Ht]].
  - rewrite bool_decide_eq_true_2 by done. right. exists [], t. split_and!; [done|done|constructor|simpl; lia].
  - rewrite bool_decide_eq_false_2 by done.
    destruct (IH (set_tokens l' (Some t) (peek_token l') (peeked l'))) as [->|(ts & u & -> & Hu & Hts & Hn)].
    + cbn [set_tokens pos sql]. rewrite Hs. lia.
    + cbn [set_tokens peeked]. congruence.
    + cbn [set_tokens pos sql]. rewrite Hs. lia.
    + by left.
    + right. exists (t :: ts), u. cbn [set_tokens pos sql] in Hn. rewrite Hs in Hn.
      split_and!; [done|done|by constructor|simpl; lia].
Qed.

(** Lexing terminates. Reading tokens from any statement reaches TOKEN_EOF
    after at most one token per byte, and no earlier token is TOKEN_EOF; the only
    other possible outcome is the undefined behaviour of an integer literal
    beyond int64. *)
Theorem tokenize_terminates text l :
  lexer_create text = Some l ->
  tokenize (S (length text)) l = Undef \/
  exists ts t, tokenize (S (length text)) l = Done (ts ++ [t]) /\ t_type t = TOKEN_EOF /\
    Forall (fun t => t_type t <> TOKEN_EOF) ts /\ (length ts <= length text)%nat.
Proof.
  unfold lexer_create. destruct (len text =? 0); [done|]. intros [= <-].
  destruct (tokenize_loop (S (length text)) (mkLexer text 0 1 1 None None false [] 0 0))
    as [H|(ts & t & H & Ht & Hts & Hn)]; cbn [pos sql peeked]; [lia|done|lia|by left|].
  right. exists ts, t. split_and!; [done|done|done|]. cbn [pos sql] in Hn. lia.
Qed.

Definition sample_sql : list Z := zstr "SELECT id FROM t WHERE x <= 10.5 -- 'it''s'".

Definition sample_lexer : Lexer := mkLexer sample_sql 0 1 1 None None false [] 0 0.

Lemma tokenize_terminates_witness :
  lexer_create sample_sql = Some sample_lexer /\
  (tokenize (S (length sample_sql)) sample_lexer = Undef \/
   exists ts t, tokenize (S (length sample_sql)) sample_lexer = Done (ts ++ [t]) /\
     t_type t = TOKEN_EOF /\ Forall (fun t => t_type t <> TOKEN_EOF) ts /\
     (length ts <= length sample_sql)%nat) /\
  (exists ts, tokenize (S (length sample_sql)) sample_lexer = Done ts /\
    t_type <$> ts = [TOKEN_SELECT; TOKEN_IDENTIFIER; TOKEN_FROM; TOKEN_IDENTIFIER; TOKEN_WHERE;
      TOKEN_IDENTIFIER; TOKEN_LTE; TOKEN_REAL; TOKEN_MINUS; TOKEN_MINUS; TOKEN_STRING; TOKEN_EOF]).
Proof.
  split_and!.
  - reflexivity.
  - apply (tokenize_terminates sample_sql sample_lexer). reflexivity.
  - eexists. split; vm_compute; reflexivity.
Defined.

(** ** One token of lookahead *)

Inductive LexOp : Type := OpPeek | OpNext | OpAdvance.

Definition lex_op (op : LexOp) (l : Lexer) : outcome (option Token * Lexer) :=
  match op with
  | OpPeek => let* '(t, l) := lexer_peek_token l in Done (Some t, l)
  | OpNext => let* '(t, l) := lexer_next_token l in Done (Some t, l)
  | OpAdvance => let* l := lexer_advance l in Done (None, l)
  end.

(** The same calls on a token stream without lookahead: a peek scans ahead and
    throws the new position away. *)
Definition stream_op (op : LexOp) (k : Lexer) : outcome (option Token * Lexer) :=
  let* '(t, k') := next_token_internal k in
  match op with
  | OpPeek => Done (Some t, k)
  | OpNext => Done (Some t, k')
  | OpAdvance => Done (None, k')
  end.

Fixpoint run_ops (step : LexOp -> Lexer -> outcome (option Token * Lexer)) (ops : list LexOp)
    (l : Lexer) : outcome (list (option Token)) :=
  match ops with
  | [] => Done []
  | op :: ops => let* '(t, l) := step op l in let* ts := run_ops step ops l in Done (t :: ts)
  end.

(** The lexer [l] stands at the stream position [k]: at it, or one token behind
    it with that token in the peek buffer. *)
Definition at_stream (l k : Lexer) : Prop :=
  if peeked l then
    exists t k', next_token_internal k = Done (t, k') /\ peek_token l = Some t /\
      l = set_tokens k' (current_token l) (peek_token l) true
  else l = set_tokens k (current_token l) (peek_token l) false.

Lemma set_tokens_twice l a b c a' b' c' :
  set_tokens (set_tokens l a b c) a' b' c' = set_tokens l a' b' c'.
Proof. done. Qed.

Lemma lex_op_simulates op l k :
  at_stream l k ->
  match stream_op op k with
  | Done (t, k') => exists l', lex_op op l = Done (t, l') /\ at_stream l' k'
  | Undef => lex_op op l = Undef
  | NoFuel => lex_op op l = NoFuel
  end.
Proof.
  unfold at_stream at 1, stream_op, lex_op, lexer_peek_token, lexer_advance, lexer_next_token.
  destruct (peeked l) eqn:Hp.
  - intros (t & k' & E & Ht & Hl). rewrite E, !bind_Done, Ht.
    destruct op; eexists; (split; [reflexivity|]); unfold at_stream; cbn [set_tokens peeked].
    + rewrite Hp. exists t, k'. rewrite Ht in *. split_and!; done.
    + rewrite Hl. done.
    + rewrite Hl. done.
  - intros Hl.
    assert (next_token_internal l =
      obind (next_token_internal k)
        (fun x => Done (fst x, set_tokens (snd x) (current_token l) (peek_token l) false))) as ->
      by (rewrite Hl at 1; apply next_token_internal_R).
    destruct (next_token_internal k) as [[t k']| |] eqn:E; [|by destruct op..].
    rewrite !bind_Done. cbn [fst snd].
    destruct op; eexists; (split; [reflexivity|]); unfold at_stream; cbn [set_tokens peeked];
      [|done|done].
    exists t, k'. split_and!; done.
Qed.

(** C19: lookahead is transparent. Any sequence of peek, next and advance calls on
    a lexer returns the tokens of the plain token stream: a peek never consumes,
    repeats the same token, and the next call returns the token that was peeked. *)
Theorem lexer_refines_stream text l ops :
  lexer_create text = Some l -> run_ops lex_op ops l = run_ops stream_op ops l.
Proof.
  intros Hc. assert (at_stream l l) as H.
  { unfold lexer_create in Hc. destruct (len text =? 0); [done|]. by injection Hc as <-. }
  clear Hc. generalize dependent l. intros l. generalize l at 1 3. intros k H. revert l k H.
  induction ops as [|op ops IH]; intros l k H; [done|]. cbn [run_ops].
  pose proof (lex_op_simulates op k l H) as Hs.
  destruct (stream_op op l) as [[t l']| |]; [|by rewrite Hs|by rewrite Hs].
  destruct Hs as (k' & -> & H'). rewrite !bind_Done. by rewrite (IH l' k').
Qed.

Lemma lexer_refines_stream_witness :
  lexer_create sample_sql = Some sample_lexer /\
  run_ops lex_op [OpNext; OpPeek; OpPeek; OpAdvance; OpNext] sample_lexer =
  run_ops stream_op [OpNext; OpPeek; OpPeek; OpAdvance; OpNext] sample_lexer /\
  (exists ts, run_ops lex_op [OpNext; OpPeek; OpPeek; OpAdvance; OpNext] sample_lexer = Done ts /\
    (fun o : option Token => t_type <$> o) <$> ts =
      [Some TOKEN_SELECT; Some TOKEN_IDENTIFIER; Some TOKEN_IDENTIFIER; None; Some TOKEN_FROM]).
Proof.
  split_and!.
  - reflexivity.
  - apply (lexer_refines_stream sample_sql sample_lexer). reflexivity.
  - eexists. split; vm_compute; reflexivity.
Defined.

(** ** Literals *)

(** The text not yet read. *)
Definition remaining (l : Lexer) : list Z := drop (pos l) (sql l).

Lemma remaining_cons l c r :
  remaining l = c :: r ->
  current_char l = c /\ peek_char l = default 0 (head r) /\ remaining (advance l) = r /\
  pos (advance l) = S (pos l) /\ (pos l < length (sql l))%nat.
Proof.
  unfold remaining. intros E.
  assert (sql l !! pos l = Some c) as Hc.
  { rewrite <- (Nat.add_0_r (pos l)), <- lookup_drop, E. done. }
  pose proof (lookup_lt_Some _ _ _ Hc) as Hl. rewrite sql_advance, advance_in by done.
  assert (drop (S (pos l)) (sql l) = r) as Hr.
  { replace (S (pos l)) with (pos l + 1)%nat by lia. rewrite <- drop_drop, E. done. }
  unfold current_char, peek_char. rewrite Hc. split_and!; [done| |done|done|done].
  rewrite <- (Nat.add_0_r (S (pos l))), <- lookup_drop, Hr. by destruct r.
Qed.

Lemma scan_string_loop_quoted fuel l s r content :
  0 ∉ s -> head r <> Some 39 -> remaining l = (s ≫= quote_char) ++ 39 :: r ->
  (length (s ≫= quote_char) < fuel)%nat ->
  exists l', scan_string_loop fuel 39 l content = Done (Some (content ++ s), l') /\ remaining l' = r.
Proof.
  revert l fuel content. induction s as [|c s IH]; intros l fuel content H0 Hr Hl Hf.
  - destruct fuel as [|fuel]; [simpl in *; lia|].
    destruct (remaining_cons l 39 r Hl) as (Hc & Hp & Ha & _). exists (advance l). split; [|done].
    cbn [scan_string_loop]. rewrite Hc, Hp, app_nil_r. cbn -[Z.eqb].
    destruct (Z.eqb_spec (default 0 (head r)) 39) as [E|]; [|done]. destruct r; simpl in *; congruence.
  - apply not_elem_of_cons in H0 as [Hc0 H0]. rewrite bind_cons in Hl, Hf.
    destruct fuel as [|fuel]; [lia|]. cbn [scan_string_loop].
    replace (content ++ c :: s) with ((content ++ [c]) ++ s) by (by rewrite <- app_assoc).
    unfold quote_char in Hl at 1. unfold quote_char in Hf at 1. rewrite length_app in Hf.
    destruct (Z.eqb_spec c 39) as [->|Hc].
    + destruct (remaining_cons l _ _ Hl) as (Hc & Hp & Ha & _).
      destruct (remaining_cons _ _ _ Ha) as (_ & _ & Hb & _).
      rewrite Hc, Hp. cbn -[Z.eqb app]. rewrite Z.eqb_refl. replace (39 =? 0) with false by done.
      apply IH; [done|done|exact Hb|cbn [length] in Hf; lia].
    + destruct (remaining_cons l _ _ Hl) as (Hc' & Hp & Ha & _). rewrite Hc'.
      destruct (Z.eqb_spec c 0); [congruence|]. destruct (Z.eqb_spec c 39); [done|].
      apply IH; [done|done|exact Ha|cbn [length] in Hf; lia].
Qed.

Lemma skip_whitespace_none l c r :
  remaining l = c :: r -> is_whitespace c = false -> skip_whitespace l = Done l.
Proof.
  intros E Hc. destruct (remaining_cons l c r E) as (Hcur & _). unfold skip_whitespace, scan_while.
  destruct (length (sql l) - pos l)%nat; cbn [advance_while]; by rewrite Hcur, Hc.
Qed.

(** SQL string literals cannot be broken out of. Text escaped by
    [security_escape_string] and put between single quotes is lexed as exactly
    one string token whose value is the original text, whatever follows that is
    not a quote. *)
Theorem escaped_literal_roundtrip l s rest escaped :
  0 ∉ s -> head rest <> Some 39 ->
  security_escape_string (s ++ [0]) 0 = Done (escaped ++ [0]) ->
  remaining l = [39] ++ escaped ++ [39] ++ rest ->
  exists t l', next_token_internal l = Done (t, l') /\ t_type t = TOKEN_STRING /\
    t_value t = TVString s /\ remaining l' = rest.
Proof.
  intros H0 Hr He Hl.
  assert (escaped = s ≫= quote_char) as ->.
  { unfold security_escape_string in He. cbn -[str_len buf_read] in He.
    rewrite (str_len_ok _ s), bind_Done, buf_read_Done in He
      by (first [lia | rewrite length_app; lia | split; [by exists []|done]]).
    rewrite bind_Done in He. injection He as He. apply app_inj_tail in He as [<- _].
    f_equal. unfold slice. rewrite drop_0, Nat2Z.id. by rewrite take_app_length. }
  destruct (remaining_cons l _ _ Hl) as (Hc & _ & Ha & Hp & Hlt).
  unfold next_token_internal. erewrite skip_whitespace_none, bind_Done by (done || apply Hl).
  destruct (Nat.leb_spec (length (sql l)) (pos l)); [lia|]. rewrite Hc. cbn [is_identifier_start].
  change (is_identifier_start 39) with false. change (isdigit 39) with false. cbn -[scan_string].
  unfold scan_string. rewrite Hc.
  destruct (scan_string_loop_quoted (S (length (sql l) - pos l)) (advance l) s rest []) as (l' & -> & Hl');
    [done|done|exact Ha| |].
  { assert (length (remaining l) = length (sql l) - pos l)%nat as <- by apply length_drop.
    rewrite Hl, !length_app. simpl. lia. }
  rewrite bind_Done. eexists _, _. split; [done|]. split_and!; [done|done|exact Hl'].
Qed.

Definition quoted_lexer : Lexer :=
  mkLexer (zstr "'O''Hara' OR 1") 0 1 1 None None false [] 0 0.

Lemma escaped_literal_roundtrip_witness :
  security_escape_string (zstr "O'Hara" ++ [0]) 0 = Done (zstr "O''Hara" ++ [0]) /\
  exists t l', next_token_internal quoted_lexer = Done (t, l') /\ t_type t = TOKEN_STRING /\
    t_value t = TVString (zstr "O'Hara") /\ remaining l' = zstr " OR 1".
Proof.
  split; [reflexivity|].
  apply (escaped_literal_roundtrip quoted_lexer (zstr "O'Hara") (zstr " OR 1") (zstr "O''Hara")).
  - intros H. cbn in H. repeat (apply elem_of_cons in H as [H|H]; [lia|]). by apply elem_of_nil in H.
  - discriminate.
  - reflexivity.
  - reflexivity.
Defined.

Lemma scan_while_prefix p l s r :
  p 0 = false -> remaining l = s ++ r -> Forall (fun c => p c = true) s ->
  p (default 0 (head r)) = false ->
  exists l', scan_while p l = Done l' /\ remaining l' = r /\ sql l' = sql l /\
    pos l' = (pos l + length s)%nat.
Proof.
  intros Hp Hl Hs Hr. destruct (scan_while_ok p l Hp) as (l' & E & Hsql & Hpos).
  unfold remaining in Hl. rewrite Hl, prefix_len_app in Hpos by done.
  assert (prefix_len p r = 0)%nat as H0 by (destruct r as [|c r]; simpl in *; [done|by rewrite Hr]).
  exists l'. split_and!; [done| |done|lia]. unfold remaining. rewrite Hsql, Hpos, H0, Nat.add_0_r.
  rewrite <- drop_drop, Hl. by rewrite drop_app_length.
Qed.

Lemma text_from_prefix l l' s r :
  remaining l = s ++ r -> sql l' = sql l -> pos l' = (pos l + length s)%nat ->
  text_from (pos l) l' = s.
Proof.
  intros Hl Hs Hp. unfold text_from, slice. rewrite Hs, Hp.
  replace (pos l + length s - pos l)%nat with (length s) by lia.
  unfold remaining in Hl. rewrite Hl. by rewrite take_app_length.
Qed.

(** The characters that would continue a number. *)
Definition ends_number (c : Z) : bool :=
  negb (isdigit c || (c =? 46) || (c =? 101) || (c =? 69) || (c =? 120) || (c =? 88)).

Lemma current_char_remaining l : current_char l = default 0 (head (remaining l)).
Proof.
  unfold current_char, remaining. rewrite <- (Nat.add_0_r (pos l)), <- lookup_drop.
  rewrite Nat.add_0_r. by destruct (drop _ _).
Qed.

Lemma isdigit_class c :
  isdigit c = true -> is_whitespace c = false /\ is_identifier_start c = false /\
    (c =? 120) || (c =? 88) = false.
Proof.
  unfold isdigit. intros [H1%Z.leb_le H2%Z.leb_le]%andb_prop.
  unfold is_whitespace, is_identifier_start, isalpha.
  repeat match goal with
  | |- context [c =? ?k] => destruct (Z.eqb_spec c k); [lia|]
  | |- context [?a <=? ?b] => destruct (Z.leb_spec a b); try lia
  end; done.
Qed.

(** The decimal scanner on plain digits. *)
Lemma scan_decimal_digits l ds rest :
  remaining l = ds ++ rest -> Forall (fun c => isdigit c = true) ds ->
  ends_number (default 0 (head rest)) = true ->
  exists l', scan_decimal l = Done (l', false) /\ remaining l' = rest /\ sql l' = sql l /\
    pos l' = (pos l + length ds)%nat.
Proof.
  intros Hl Hds He. unfold ends_number in He. apply negb_true_iff in He. rewrite !orb_false_iff in He.
  destruct He as [[[[[Hd H46] H101] H69] _] _].
  destruct (scan_while_prefix isdigit l ds rest) as (k & Ek & Hk & Hks & Hkp); [done..|].
  exists k. split; [|done]. unfold scan_decimal. rewrite Ek, bind_Done.
  pose proof (current_char_remaining k) as Hc. rewrite Hk in Hc.
  rewrite Hc, H46. cbn [andb]. rewrite bind_Done, Hc, H101, H69. done.
Qed.

(** Integer literals. The decimal text of any non-negative int64, followed by
    a character that does not continue a number, is lexed as one integer token
    with that value, and the lexer stands right behind it. *)
Theorem integer_literal_roundtrip l z rest :
  0 <= z < 2 ^ 63 -> ends_number (default 0 (head rest)) = true ->
  remaining l = print_int z ++ rest ->
  exists t l', next_token_internal l = Done (t, l') /\ t_type t = TOKEN_INTEGER /\
    t_value t = TVInt z /\ lexeme t = print_int z /\ remaining l' = rest.
Proof.
  intros Hz He Hl. destruct (print_int_digits z Hz) as (Hne & Hds & Hv).
  destruct (scan_decimal_digits l _ _ Hl Hds He) as (k & Hsd & Hk & Hks & Hkp).
  pose proof (text_from_prefix l k _ _ Hl Hks Hkp) as Htext.
  destruct (print_int z) as [|c cs]; [done|].
  destruct (remaining_cons l _ _ Hl) as (Hc & Hpk & _ & _ & Hlt).
  apply Forall_cons in Hds as [Hcd Hds]. destruct (isdigit_class c Hcd) as (Hw & Hi & _).
  unfold next_token_internal. erewrite skip_whitespace_none, bind_Done by done.
  destruct (Nat.leb_spec (length (sql l)) (pos l)); [lia|]. rewrite Hc, Hi, Hcd.
  unfold scan_number. rewrite Hsd.
  assert ((peek_char l =? 120) || (peek_char l =? 88) = false) as ->.
  { rewrite Hpk. destruct cs as [|d cs]; simpl.
    - unfold ends_number in He. apply negb_true_iff in He. rewrite !orb_false_iff in He. 
      apply orb_false_iff. tauto.
    - apply Forall_cons in Hds as [Hd _]. by apply isdigit_class. }
  rewrite andb_false_r, !bind_Done.
  change (text_from (pos l) (set_column k (lx_column l))) with (text_from (pos l) k).
  rewrite Htext, Hv, bind_Done. eexists _, _. split; [done|]. split_and!; done.
Qed.

Definition number_lexer : Lexer :=
  mkLexer (zstr "9223372036854775807)") 0 1 1 None None false [] 0 0.

Lemma integer_literal_roundtrip_witness :
  exists t l', next_token_internal number_lexer = Done (t, l') /\ t_type t = TOKEN_INTEGER /\
    t_value t = TVInt (2 ^ 63 - 1) /\ lexeme t = print_int (2 ^ 63 - 1) /\ remaining l' = [41].
Proof.
  apply (integer_literal_roundtrip number_lexer (2 ^ 63 - 1) [41]); [lia|reflexivity|reflexivity].
Defined.
