(* ===== verification/LexerMem.v ===== *)
(** The memory of src/sql/lexer.c, and of the parser's use of it: the lexer struct, the
    lexemes of the current and the peeked token, the growing buffer of a string literal
    and the temporary of a keyword. Scanning is [Lexer.next_token_internal] with its
    allocations and frees. The text of a statement belongs to the caller and stays a
    value. *)
From Stdlib Require Import ZArith Lia String.
From stdpp Require Import base numbers option list gmap.
From S2P Require Import Prelude Heaps CString Double Lexer.

(** ** Objects *)

(** A char buffer (None: not written), a lexer, a parser. *)
Inductive LObj : Type :=
  | OBuf (b : list (option Z))
  | OLexer
  | OParser.

Notation Heap := (Heaps.Heap LObj).
Implicit Types (h : Heap) (p q : loc) (l : Lexer) (t : Token) (s : list Z).

(** The lexeme of a token: its bytes and a terminator. *)
Definition text_block s : LObj := OBuf (Some <$> s ++ [0]).

(** A token: its fields, the address of its lexeme and of the content of a string. *)
Record TokenMem : Type := mkTokenMem { tm_token : Token; tm_lexeme : loc; tm_content : loc }.

(** The lexer: its fields, its address, the lexeme and content pointers of
    current_token and of peek_token. *)
Record LexerMem : Type := mkLexerMem {
  lm_lexer : Lexer;
  lm_self : loc;
  lm_current : loc * loc;
  lm_peek : loc * loc }.

(** token_get_text: "" for a NULL lexeme. *)
Definition token_get_text_mem h p : outcome (list Z) :=
  if p =? 0 then Done [] else
  match cells h !! p with
  | Some (OBuf b) =>
      let* s := outcome_of_option (mapM id b) in
      if bool_decide (last s = Some 0) then Done (take (length s - 1) s) else Undef
  | _ => Undef
  end.

(** ** Scanning *)

(** The malloc of make_token: none without text. *)
Definition make_lexeme h s : loc * Heap :=
  match s with [] => (0, h) | _ => alloc h (text_block s) end.

Definition with_lexeme h (x : Token * Lexer) : TokenMem * Lexer * Heap :=
  let '(p, h) := make_lexeme h (lexeme (fst x)) in (mkTokenMem (fst x) p 0, snd x, h).

(** The upper-case copy lives during the lookup of the keyword. *)
Definition scan_identifier_mem h l : outcome (TokenMem * Lexer * Heap) :=
  let* x := scan_identifier l in
  let '(upper, h) := alloc h (text_block (toupper <$> lexeme (fst x))) in
  let* h := free h upper in
  Done (with_lexeme h x).

(** A larger buffer when there is no room for another char and one more. *)
Definition grow h p (n capacity : Z) : outcome (loc * Z * Heap) :=
  if capacity <=? n + 1 then
    match cells h !! p with
    | Some (OBuf b) =>
        let size := Z.to_nat (capacity * 2) in
        let '(q, h) := alloc h (OBuf (take size b ++ replicate (size - length b) None)) in
        let* h := free h p in
        Done (q, capacity * 2, h)
    | _ => Undef
    end
  else Done (p, capacity, h).

(** content[content_len++] = c; *)
Definition store h p (n : Z) (c : Z) : outcome Heap :=
  match cells h !! p with
  | Some (OBuf b) =>
      if (0 <=? n) && (n <? len b) then Done (put h p (OBuf (<[Z.to_nat n := Some c]> b))) else Undef
  | _ => Undef
  end.

(** The loop of scan_string: the buffer and its length, or [None] when the text ends first. *)
Fixpoint scan_string_loop_mem (fuel : nat) (quote : Z) h l p (n capacity : Z)
    : outcome (option (loc * Z) * Lexer * Heap) :=
  match fuel with
  | O => NoFuel
  | S fuel =>
      if current_char l =? 0 then let* h := free h p in Done (None, l, h) else
      if current_char l =? quote then
        if peek_char l =? quote then
          let* '(p, capacity, h) := grow h p n capacity in
          let* h := store h p n 39 in
          scan_string_loop_mem fuel quote h (advance (advance l)) p (n + 1) capacity
        else Done (Some (p, n), advance l, h)
      else
        let* '(p, capacity, h) := grow h p n capacity in
        let* h := store h p n (current_char l) in
        scan_string_loop_mem fuel quote h (advance l) p (n + 1) capacity
  end.

(** The first [n] chars of a buffer. *)
Definition buffer_text h p (n : Z) : outcome (list Z) :=
  match cells h !! p with
  | Some (OBuf b) => outcome_of_option (mapM id (take (Z.to_nat n) b))
  | _ => Undef
  end.

Definition scan_string_mem h l : outcome (TokenMem * Lexer * Heap) :=
  let start := pos l in
  let start_column := lx_column l in
  let quote := current_char l in
  let '(p, h) := alloc h (OBuf (replicate 16 None)) in
  let* '(content, l, h) := scan_string_loop_mem (S (length (sql l) - pos l)) quote h (advance l) p 0 16 in
  let l := set_column l start_column in
  match content with
  | None => Done (with_lexeme h (make_error_token l (zstr "Unterminated string")))
  | Some (p, n) =>
      let* s := buffer_text h p n in
      let '(q, h) := make_lexeme h (text_from start l) in
      Done (mkTokenMem (with_value (make_token l TOKEN_STRING (text_from start l)) (TVString s)) q p, l, h)
  end.

Definition next_token_internal_mem h l : outcome (TokenMem * Lexer * Heap) :=
  let* l := skip_whitespace l in
  if (length (sql l) <=? pos l)%nat then Done (with_lexeme h (make_token l TOKEN_EOF [], l)) else
  let c := current_char l in
  if is_identifier_start c then scan_identifier_mem h l
  else if isdigit c then let* x := scan_number l in Done (with_lexeme h x)
  else if (c =? 39) || (c =? 34) then scan_string_mem h l
  else if c =? 36 then let* x := scan_placeholder l in Done (with_lexeme h x)
  else Done (with_lexeme h (scan_operator l)).

(** ** Public interface *)

Definition lexer_create_mem h (text : list Z) : option (LexerMem * Heap) :=
  l ← lexer_create text;
  let '(self, h) := alloc h OLexer in
  Some (mkLexerMem l self (0, 0) (0, 0), h).

Definition token_ptrs (tm : TokenMem) : loc * loc := (tm_lexeme tm, tm_content tm).

(** The current lexeme is freed; the pointers of a peeked token are handed out again. *)
Definition lexer_next_token_mem h (m : LexerMem) : outcome (TokenMem * LexerMem * Heap) :=
  let l := lm_lexer m in
  match peeked l, peek_token l with
  | true, Some t =>
      Done (mkTokenMem t (fst (lm_peek m)) (snd (lm_peek m)),
            mkLexerMem (set_tokens l (current_token l) (peek_token l) false) (lm_self m) (lm_current m) (lm_peek m), h)
  | true, None => Undef
  | false, _ =>
      let* h := free h (fst (lm_current m)) in
      let* '(tm, l, h) := next_token_internal_mem h l in
      Done (tm, mkLexerMem (set_tokens l (Some (tm_token tm)) (peek_token l) (peeked l)) (lm_self m)
                  (token_ptrs tm) (lm_peek m), h)
  end.

(** A new peeked token overwrites the old pointers. *)
Definition lexer_peek_token_mem h (m : LexerMem) : outcome (TokenMem * LexerMem * Heap) :=
  let l := lm_lexer m in
  let* '(m, h) :=
    if peeked l then Done (m, h) else
    let* '(tm, l, h) := next_token_internal_mem h l in
    Done (mkLexerMem (set_tokens l (current_token l) (Some (tm_token tm)) true) (lm_self m) (lm_current m) (token_ptrs tm), h) in
  match peek_token (lm_lexer m) with
  | Some t => Done (mkTokenMem t (fst (lm_peek m)) (snd (lm_peek m)), m, h)
  | None => Undef
  end.

Definition lexer_advance_mem h (m : LexerMem) : outcome (LexerMem * Heap) :=
  let* '(_, m, h) := lexer_next_token_mem h m in Done (m, h).

Definition lexer_destroy_mem h (m : LexerMem) : outcome Heap :=
  let* h := free h (fst (lm_current m)) in
  let* h := free h (fst (lm_peek m)) in
  free h (lm_self m).

(** A call, and the text of the token it returns read before the next one. *)
Definition lex_op_mem (op : LexOp) h (m : LexerMem) : outcome (option (Token * list Z) * LexerMem * Heap) :=
  match op with
  | OpPeek =>
      let* '(tm, m, h) := lexer_peek_token_mem h m in
      let* s := token_get_text_mem h (tm_lexeme tm) in Done (Some (tm_token tm, s), m, h)
  | OpNext =>
      let* '(tm, m, h) := lexer_next_token_mem h m in
      let* s := token_get_text_mem h (tm_lexeme tm) in Done (Some (tm_token tm, s), m, h)
  | OpAdvance => let* '(m, h) := lexer_advance_mem h m in Done (None, m, h)
  end.

Fixpoint run_ops_mem (ops : list LexOp) h (m : LexerMem) : outcome (list (option (Token * list Z)) * LexerMem * Heap) :=
  match ops with
  | [] => Done ([], m, h)
  | op :: ops =>
      let* '(x, m, h) := lex_op_mem op h m in
      let* '(xs, m, h) := run_ops_mem ops h m in
      Done (x :: xs, m, h)
  end.

(** parser_create, with the first token, and parser_destroy. *)
Definition parser_create_mem h (text : list Z) : outcome (option (loc * TokenMem * LexerMem * Heap)) :=
  if len text =? 0 then Done None else
  let '(self, h) := alloc h OParser in
  match lexer_create_mem h text with
  | None => let* h := free h self in Done None
  | Some (m, h) => let* '(tm, m, h) := lexer_next_token_mem h m in Done (Some (self, tm, m, h))
  end.

Definition parser_destroy_mem h (self : loc) (m : LexerMem) : outcome Heap :=
  let* h := lexer_destroy_mem h m in
  free h self.

(** ** Scanned tokens on the heap *)

(** The lexeme of a token with text [s] at [p]. *)
Definition lexeme_image p s : list (loc * LObj) :=
  match s with [] => [] | _ => [(p, text_block s)] end.

(** A buffer with content [s]. *)
Definition buffer s (capacity : nat) : LObj := OBuf ((Some <$> s) ++ replicate (capacity - length s) None).

(** The content of a string token, nothing for the others. *)
Definition content_image (tm : TokenMem) (img : list (loc * LObj)) : Prop :=
  match t_value (tm_token tm) with
  | TVString s => exists capacity, img = [(tm_content tm, buffer s capacity)]
  | _ => img = [] /\ tm_content tm = 0
  end.

(** The result of a scan: the token, with its lexeme and content as the only new objects. *)
Definition scanned h (x : TokenMem * Lexer * Heap) (y : Token * Lexer) : Prop :=
  let '(tm, l, h') := x in
  tm_token tm = fst y /\ l = snd y /\
  (lexeme (fst y) = [] -> tm_lexeme tm = 0) /\
  exists con, content_image tm con /\ extends h h' (lexeme_image (tm_lexeme tm) (lexeme (fst y)) ++ con).

Lemma mapM_Some s : mapM id (Some <$> s) = Some s.
Proof. induction s as [|x s IH]; [done|]. cbn. cbn in IH. by rewrite IH. Qed.

Lemma make_lexeme_ok h s :
  heap_ok h ->
  let x := make_lexeme h s in extends h (snd x) (lexeme_image (fst x) s) /\ (s = [] -> fst x = 0).
Proof.
  intros Hok. destruct s as [|c s]; cbn [make_lexeme lexeme_image fst snd].
  - split; [by apply extends_refl|done].
  - split; [by apply extends_alloc|done].
Qed.

(** Tokens that are no strings. *)
Definition no_string t : Prop := match t_value t with TVString _ => False | _ => True end.

Lemma with_lexeme_ok h h' x :
  heap_ok h -> extends h h' [] -> no_string (fst x) -> scanned h (with_lexeme h' x) x.
Proof.
  intros Hok He Hn. unfold with_lexeme. destruct (make_lexeme_ok h' (lexeme (fst x)) (ex_ok _ _ _ He)) as [H1 H2].
  destruct (make_lexeme h' (lexeme (fst x))) as [p h2]. cbn [fst snd] in *. split_and!; [done|done|done|].
  exists []. rewrite app_nil_r. split; [|by apply (extends_trans h h' h2 [])].
  unfold content_image, no_string in *. cbn [tm_token tm_content]. by destruct (t_value (fst x)).
Qed.

(** The text of a scanned token can be read as long as its lexeme is there. *)
Lemma token_get_text_ok h p s :
  (s = [] -> p = 0) -> Forall (present h) (lexeme_image p s) -> token_get_text_mem h p = Done s.
Proof.
  intros Hz Hp. unfold token_get_text_mem. destruct s as [|c s]; [by rewrite Hz|].
  apply Forall_singleton in Hp as [Hpz Hc]. cbn [fst snd] in *. rewrite (proj2 (Z.eqb_neq _ _) Hpz), Hc.
  unfold text_block. rewrite mapM_Some. cbn [outcome_of_option]. rewrite bind_Done, last_snoc, bool_decide_eq_true_2 by done.
  rewrite length_app, Nat.add_sub. by rewrite take_app_length.
Qed.

(** ** The buffer of a string *)

Lemma length_buffer s capacity : (length s <= capacity)%nat ->
  length ((Some <$> s) ++ replicate (capacity - length s) (@None Z)) = capacity.
Proof. intros Hl. rewrite length_app, length_fmap, length_replicate. lia. Qed.

Lemma buffer_at h0 h p s capacity : extends h0 h [(p, buffer s capacity)] -> p <> 0 /\ cells h !! p = Some (buffer s capacity).
Proof. intros He. pose proof (ex_present _ _ _ He) as Hp. apply Forall_singleton in Hp as [H1 H2]. by split. Qed.

(** Room for a char, and the char stored. *)
Lemma grow_store_ok h0 h p s capacity c :
  heap_ok h0 -> extends h0 h [(p, buffer s capacity)] -> (length s < capacity)%nat ->
  exists p' capacity' h2,
    (let* '(p, capacity, h) := grow h p (len s) (Z.of_nat capacity) in
     let* h := store h p (len s) c in Done (p, capacity, h)) = Done (p', Z.of_nat capacity', h2) /\
    extends h0 h2 [(p', buffer (s ++ [c]) capacity')] /\ (length (s ++ [c]) < capacity')%nat.
Proof.
  intros Hok He Hl.
  assert (forall h p capacity, extends h0 h [(p, buffer s capacity)] -> (length s < capacity)%nat ->
    exists h2, store h p (len s) c = Done h2 /\ extends h0 h2 [(p, buffer (s ++ [c]) capacity)]) as Hstore.
  { clear. intros h p capacity He Hl. destruct (buffer_at _ _ _ _ _ He) as [_ Hc]. unfold store. rewrite Hc.
    cbn [buffer]. rewrite length_buffer by lia. rewrite (proj2 (Z.leb_le _ _)), (proj2 (Z.ltb_lt _ _)) by lia. cbn [andb].
    eexists. split; [done|]. rewrite Nat2Z.id.
    replace (capacity - length s)%nat with (S (capacity - S (length s))) by lia.
    rewrite insert_app_r_alt by (rewrite length_fmap; lia). rewrite length_fmap, Nat.sub_diag.
    apply (extends_put _ _ _ (buffer s capacity)) with (o' := buffer (s ++ [c]) capacity) in He.
    replace (buffer (s ++ [c]) capacity) with (OBuf ((Some <$> s) ++ <[0%nat := Some c]> (replicate (S (capacity - S (length s))) None)))
      in He at 1; [done|]. unfold buffer. rewrite fmap_app, <- app_assoc. cbn. do 4 f_equal. rewrite length_app. cbn. f_equal. lia. }
  unfold grow. destruct (Z.leb_spec (Z.of_nat capacity) (len s + 1)) as [Hc|Hc].
  - destruct (buffer_at _ _ _ _ _ He) as [_ Hp]. rewrite Hp. cbn [buffer alloc].
    replace (Z.to_nat (Z.of_nat capacity * 2)) with (capacity * 2)%nat by lia. rewrite length_buffer by lia.
    rewrite take_ge by (rewrite length_buffer; lia).
    replace (OBuf _) with (buffer s (capacity * 2)); [|unfold buffer; rewrite <- app_assoc, <- replicate_add; do 3 f_equal; lia].
    pose proof (extends_trans _ _ _ _ _ He (extends_alloc h (buffer s (capacity * 2)) (ex_ok _ _ _ He))) as H1.
    destruct (extends_release _ h0 _ [(p, buffer s capacity)] _ Hok H1 (releases_block _ _)) as (h2 & E & H2).
    cbn [alloc snd] in E. rewrite E, !bind_Done. destruct (Hstore _ _ _ H2) as (h3 & -> & H3); [lia|].
    rewrite bind_Done. exists (brk h), (capacity * 2)%nat, h3. split_and!; [f_equal; f_equal; f_equal; lia|done|].
    rewrite length_app. cbn. lia.
  - rewrite bind_Done. destruct (Hstore _ _ _ He Hl) as (h3 & -> & H3). rewrite bind_Done.
    exists p, capacity, h3. split_and!; [done|done|]. rewrite length_app. cbn. lia.
Qed.

Lemma append_ok {A} h0 h p s capacity c (k : loc -> Z -> Heap -> outcome A) :
  heap_ok h0 -> extends h0 h [(p, buffer s capacity)] -> (length s < capacity)%nat ->
  exists p' capacity' h2,
    (let* '(p, capacity, h) := grow h p (len s) (Z.of_nat capacity) in
     let* h := store h p (len s) c in k p capacity h) = k p' (Z.of_nat capacity') h2 /\
    extends h0 h2 [(p', buffer (s ++ [c]) capacity')] /\ (length (s ++ [c]) < capacity')%nat.
Proof.
  intros Hok He Hl. destruct (grow_store_ok h0 h p s capacity c Hok He Hl) as (p' & capacity' & h2 & E & H).
  exists p', capacity', h2. split; [|done].
  destruct (grow h p (len s) (Z.of_nat capacity)) as [[[p1 c1] h1]| |]; [|done..]. cbn [obind] in E |- *.
  destruct (store h1 p1 (len s) c); [|done..]. cbn [obind] in E |- *. by injection E as -> -> ->.
Qed.

(** The loop on the heap: the same outcome, the content in the buffer, or nothing left. *)
Definition string_read h (x : option (loc * Z) * Lexer * Heap) (y : option (list Z) * Lexer) : Prop :=
  snd (fst x) = snd y /\
  match fst y with
  | None => fst (fst x) = None /\ extends h (snd x) []
  | Some s => exists p capacity, fst (fst x) = Some (p, len s) /\ extends h (snd x) [(p, buffer s capacity)] /\
      (length s < capacity)%nat
  end.

Lemma scan_string_loop_mem_ok fuel quote h0 h l p s capacity :
  heap_ok h0 -> extends h0 h [(p, buffer s capacity)] -> (length s < capacity)%nat ->
  agrees (string_read h0) (scan_string_loop_mem fuel quote h l p (len s) (Z.of_nat capacity))
    (scan_string_loop fuel quote l s).
Proof.
  intros Hok. revert h l p s capacity. induction fuel as [|fuel IH]; intros h l p s capacity He Hl; [done|].
  cbn [scan_string_loop_mem scan_string_loop]. destruct (current_char l =? 0).
  - destruct (extends_release (fun h => free h p) h0 h [_] [] Hok He (releases_block _ _)) as (h2 & -> & H2).
    by apply agrees_Done.
  - destruct (current_char l =? quote); [destruct (peek_char l =? quote)|].
    + destruct (append_ok h0 h p s capacity 39
        (fun p capacity h => scan_string_loop_mem fuel quote h (advance (advance l)) p (len s + 1) capacity) Hok He Hl)
        as (p' & capacity' & h2 & -> & H2 & Hl2).
      replace (len s + 1) with (len (s ++ [39])) by (rewrite len_app; done). by apply IH.
    + apply agrees_Done. split; [done|]. by exists p, capacity.
    + destruct (append_ok h0 h p s capacity (current_char l)
        (fun p capacity h => scan_string_loop_mem fuel quote h (advance l) p (len s + 1) capacity) Hok He Hl)
        as (p' & capacity' & h2 & -> & H2 & Hl2).
      replace (len s + 1) with (len (s ++ [current_char l])) by (rewrite len_app; done). by apply IH.
Qed.

Lemma scan_string_mem_ok h l : heap_ok h -> agrees (scanned h) (scan_string_mem h l) (scan_string l).
Proof.
  intros Hok. unfold scan_string_mem, scan_string. cbn [alloc].
  pose proof (extends_alloc h (buffer [] 16) Hok) as He.
  pose proof (scan_string_loop_mem_ok (S (length (sql l) - pos l)) (current_char l) h _ (advance l) _ [] 16 Hok He) as Hloop.
  eapply agrees_bind; [apply Hloop; cbn; lia|]. clear Hloop He. intros [[r k] h1] [c l'] [Hk Hc]. cbn [fst snd] in *. subst k.
  destruct c as [s|].
  - destruct Hc as (p & capacity & -> & H1 & Hl). destruct (buffer_at _ _ _ _ _ H1) as [_ Hp].
    unfold buffer_text. rewrite Hp. cbn [buffer]. rewrite Nat2Z.id.
    rewrite take_app_length' by (by rewrite length_fmap). rewrite mapM_Some. cbn [outcome_of_option]. rewrite bind_Done.
    set (text := text_from (pos l) (set_column l' (lx_column l))).
    destruct (make_lexeme_ok h1 text (ex_ok _ _ _ H1)) as [H2 Hz]. destruct (make_lexeme h1 text) as [q h2]. cbn [fst snd] in *.
    apply agrees_Done. split_and!; [done|done|done|]. cbn [fst with_value lexeme make_token tm_lexeme].
    exists [(p, buffer s capacity)]. split; [by exists capacity|].
    eapply extends_perm; [by eapply extends_trans|]. apply Permutation_app_comm.
  - destruct Hc as [-> H1]. apply agrees_Done, with_lexeme_ok; done.
Qed.

(** ** Scanning *)

Lemma scan_identifier_no_string l x : scan_identifier l = Done x -> no_string (fst x).
Proof. unfold scan_identifier. destruct (negb _); [by intros [= <-]|]. intros H. outcome_inv. by subst. Qed.

Lemma scan_number_no_string l x : scan_number l = Done x -> no_string (fst x).
Proof.
  unfold scan_number. destruct (_ && _); intros H; [outcome_inv; by subst|].
  apply bind_Done_inv in H as ([l' real] & _ & H). destruct real; [by injection H as <-|]. outcome_inv. by subst.
Qed.

Lemma scan_placeholder_no_string l x : scan_placeholder l = Done x -> no_string (fst x).
Proof. unfold scan_placeholder. destruct (isdigit _); intros H; [outcome_inv; by subst|by injection H as <-]. Qed.

Lemma scan_operator_no_string l : no_string (fst (scan_operator l)).
Proof.
  unfold scan_operator. destruct (single_char_token _); [done|].
  repeat match goal with |- context [if ?b then _ else _] => destruct b end; done.
Qed.

Lemma with_lexeme_agrees h (m : outcome (Token * Lexer)) :
  heap_ok h -> (forall x, m = Done x -> no_string (fst x)) ->
  agrees (scanned h) (let* x := m in Done (with_lexeme h x)) m.
Proof.
  intros Hok Hm. destruct m as [x| |]; [|done..]. apply agrees_Done, with_lexeme_ok; [done|by apply extends_refl|by apply Hm].
Qed.

Lemma scan_identifier_mem_ok h l : heap_ok h -> agrees (scanned h) (scan_identifier_mem h l) (scan_identifier l).
Proof.
  intros Hok. unfold scan_identifier_mem. pose proof (scan_identifier_no_string l) as Hn.
  destruct (scan_identifier l) as [x| |]; [|done..]. rewrite bind_Done. cbn [alloc].
  pose proof (extends_alloc h (text_block (toupper <$> lexeme (fst x))) Hok) as He.
  destruct (extends_release _ h _ [_] [] Hok He (releases_block _ _)) as (h2 & E & H2). cbn [alloc snd] in E.
  rewrite E, bind_Done. apply agrees_Done, with_lexeme_ok; [done|done|by apply Hn].
Qed.

Lemma next_token_internal_mem_ok h l :
  heap_ok h -> agrees (scanned h) (next_token_internal_mem h l) (next_token_internal l).
Proof.
  intros Hok. unfold next_token_internal_mem, next_token_internal. apply agrees_same. intros l1.
  destruct (_ <=? _)%nat; [apply agrees_Done, with_lexeme_ok; [done|by apply extends_refl|done]|].
  destruct (is_identifier_start _); [by apply scan_identifier_mem_ok|].
  destruct (isdigit _); [by apply with_lexeme_agrees; [|apply scan_number_no_string]|].
  destruct (_ || _); [by apply scan_string_mem_ok|].
  destruct (_ =? 36); [by apply with_lexeme_agrees; [|apply scan_placeholder_no_string]|].
  apply agrees_Done, with_lexeme_ok; [done|by apply extends_refl|apply scan_operator_no_string].
Qed.

(** ** The lexer's own objects *)

(** The object of a pointer that may be NULL. *)
Definition ptr_image p (img : list (loc * LObj)) : Prop := (p = 0 /\ img = []) \/ exists o, img = [(p, o)].

Lemma ptr_releases p img : ptr_image p img -> releases (fun h => free h p) img.
Proof. intros [[-> ->]|[o ->]]; [apply (releases_ext _ Done); [done|apply releases_nothing]|apply releases_block]. Qed.

Lemma lexeme_ptr p s : (s = [] -> p = 0) -> ptr_image p (lexeme_image p s).
Proof. intros H. destruct s; [left; by rewrite H|right; by eexists]. Qed.

(** The lexer [m] over the heap [h0]: the two lexemes, the struct, and the objects that
    nobody frees. *)
Definition lexer_at (h0 h : Heap) (m : LexerMem) (leaked : list (loc * LObj)) : Prop :=
  exists cur pk,
    ptr_image (fst (lm_current m)) cur /\ ptr_image (fst (lm_peek m)) pk /\
    (forall t, peeked (lm_lexer m) = true -> peek_token (lm_lexer m) = Some t ->
       pk = lexeme_image (fst (lm_peek m)) (lexeme t) /\ (lexeme t = [] -> fst (lm_peek m) = 0)) /\
    extends h0 h (cur ++ pk ++ (lm_self m, OLexer) :: leaked).

(** A token was returned: its text is readable, and [new] may have been leaked. *)
Definition returned (h0 : Heap) (self : loc) (leaked : list (loc * LObj)) (new : TokenMem -> list (loc * LObj) -> Prop)
    (x : TokenMem * LexerMem * Heap) (y : Token * Lexer) : Prop :=
  let '(tm, m, h) := x in
  tm_token tm = fst y /\ lm_lexer m = snd y /\ lm_self m = self /\
  token_get_text_mem h (tm_lexeme tm) = Done (lexeme (fst y)) /\
  exists con, new tm con /\ lexer_at h0 h m (leaked ++ con).

Lemma present_part h0 h i1 i2 i3 : extends h0 h (i1 ++ i2 ++ i3) -> Forall (present h) i2.
Proof. intros He. pose proof (ex_present _ _ _ He) as Hp. by apply Forall_app in Hp as [_ [Hp _]%Forall_app]. Qed.

Lemma lexer_next_token_mem_ok h0 h m leaked :
  heap_ok h0 -> lexer_at h0 h m leaked ->
  agrees (returned h0 (lm_self m) leaked (fun tm con => if peeked (lm_lexer m) then con = [] else content_image tm con))
    (lexer_next_token_mem h m) (lexer_next_token (lm_lexer m)).
Proof.
  intros Hok (cur & pk & Hcur & Hpk & Htxt & He). unfold lexer_next_token_mem, lexer_next_token.
  destruct (peeked (lm_lexer m)) eqn:Hpeeked.
  - destruct (peek_token (lm_lexer m)) as [t|] eqn:Ht; [|done].
    destruct (Htxt t eq_refl eq_refl) as [Eq Hz]. apply agrees_Done. unfold returned.
    cbn [tm_token tm_lexeme lm_lexer lm_self fst snd]. split_and!; [done|done|done| |].
    + apply token_get_text_ok; [done|]. rewrite <- Eq. by eapply present_part.
    + exists []. split; [done|]. rewrite app_nil_r. exists cur, pk. by split_and!.
  - destruct (extends_release _ h0 h _ _ Hok He (ptr_releases _ _ Hcur)) as (h1 & -> & H1). rewrite bind_Done.
    pose proof (next_token_internal_mem_ok h1 (lm_lexer m) (ex_ok _ _ _ H1)) as Hm.
    destruct (next_token_internal (lm_lexer m)) as [[t l']| |] eqn:E; cbn [agrees] in Hm; [|by rewrite Hm..].
    destruct Hm as ([[tm l] h2] & -> & Etm & -> & Hz & con & Hcon & H2). cbn [fst snd] in *. rewrite !bind_Done.
    destruct (next_token_buffers _ _ _ E) as (_ & _ & Hb).
    apply agrees_Done. unfold returned. cbn [lm_lexer lm_self fst snd]. rewrite Etm. split_and!; [done|done|done| |].
    + apply token_get_text_ok; [done|]. by apply (present_part h1 h2 []) in H2.
    + exists con. split; [done|]. exists (lexeme_image (tm_lexeme tm) (lexeme t)), pk. split_and!; [by apply lexeme_ptr|done| |].
      * cbn [lm_lexer set_tokens peeked]. intros u Hu. by rewrite Hb, Hpeeked in Hu.
      * cbn [lm_self]. eapply extends_perm; [by eapply extends_trans|]. solve_Permutation.
Qed.

Lemma lexer_peek_token_mem_ok h0 h m leaked :
  heap_ok h0 -> lexer_at h0 h m leaked ->
  agrees (returned h0 (lm_self m) leaked (fun _ _ => True)) (lexer_peek_token_mem h m) (lexer_peek_token (lm_lexer m)).
Proof.
  intros Hok (cur & pk & Hcur & Hpk & Htxt & He). unfold lexer_peek_token_mem, lexer_peek_token.
  destruct (peeked (lm_lexer m)) eqn:Hpeeked; cbn [obind].
  - destruct (peek_token (lm_lexer m)) as [t|] eqn:Ht; [|done].
    destruct (Htxt t eq_refl eq_refl) as [Eq Hz]. apply agrees_Done. unfold returned.
    cbn [tm_token tm_lexeme lm_lexer lm_self fst snd]. split_and!; [done|done|done| |].
    + apply token_get_text_ok; [done|]. rewrite <- Eq. by eapply present_part.
    + exists []. split; [done|]. rewrite app_nil_r. exists cur, pk. split_and!; [done|done| |done].
      intros u _. rewrite Ht. by intros [= <-].
  - pose proof (next_token_internal_mem_ok h (lm_lexer m) (ex_ok _ _ _ He)) as Hm.
    destruct (next_token_internal (lm_lexer m)) as [[t l']| |] eqn:E; cbn [agrees] in Hm; [|by rewrite Hm..].
    destruct Hm as ([[tm l] h2] & -> & Etm & -> & Hz & con & Hcon & H2). cbn [fst snd] in *. cbn [obind].
    cbn [lm_lexer set_tokens peek_token lm_peek token_ptrs fst snd]. rewrite Etm.
    apply agrees_Done. unfold returned. cbn [tm_token tm_lexeme lm_lexer lm_self fst snd]. split_and!; [done|done|done| |].
    + apply token_get_text_ok; [done|]. by apply (present_part h h2 []) in H2.
    + exists (con ++ pk). split; [done|]. exists cur, (lexeme_image (tm_lexeme tm) (lexeme t)).
      split_and!; [done|by apply lexeme_ptr| |].
      * cbn [lm_lexer set_tokens peek_token lm_peek fst]. by intros u _ [= <-].
      * cbn [lm_self]. eapply extends_perm; [by eapply extends_trans|]. solve_Permutation.
Qed.

(** ** Sequences of calls *)

(** The contents of the string tokens among some tokens. *)
Definition strings (ts : list (option Token)) : list (list Z) :=
  omap (fun o => t ← o; match t_value t with TVString s => Some s | _ => None end) ts.

Definition content_block (s : list Z) (x : loc * LObj) : Prop := exists capacity, snd x = buffer s capacity.

Lemma content_block_token tm con :
  content_image tm con -> Forall2 content_block (strings [Some (tm_token tm)]) con.
Proof.
  unfold content_image, strings. cbn. destruct (t_value (tm_token tm)); cbn; [by intros [-> _]..|].
  intros [capacity ->]. repeat constructor. by exists capacity.
Qed.

Definition with_text (o : option Token) : option (Token * list Z) := (fun t => (t, lexeme t)) <$> o.

(** After one call: the token of the model without memory, its text read, the lexer
    intact. A next call that has nothing peeked leaks the content of a string, only. *)
Lemma lex_op_mem_ok h0 h m leaked op :
  heap_ok h0 -> lexer_at h0 h m leaked ->
  agrees (fun x y =>
      fst (fst x) = with_text (fst y) /\ lm_lexer (snd (fst x)) = snd y /\ lm_self (snd (fst x)) = lm_self m /\
      exists con, lexer_at h0 (snd x) (snd (fst x)) (leaked ++ con) /\
        (op = OpNext -> peeked (lm_lexer m) = false -> Forall2 content_block (strings [fst y]) con))
    (lex_op_mem op h m) (lex_op op (lm_lexer m)).
Proof.
  intros Hok Hl. destruct op; cbn [lex_op_mem lex_op].
  - eapply agrees_bind; [by apply lexer_peek_token_mem_ok|]. intros [[tm m'] h'] [t l'] (Et & El & Es & Hs & con & _ & H).
    rewrite Hs, bind_Done. cbn [fst snd] in *. apply agrees_Done. cbn [fst snd]. rewrite Et. split_and!; [done..|].
    exists con. split; [done|]. done.
  - eapply agrees_bind; [by apply lexer_next_token_mem_ok|]. intros [[tm m'] h'] [t l'] (Et & El & Es & Hs & con & Hc & H).
    rewrite Hs, bind_Done. cbn [fst snd] in *. apply agrees_Done. cbn [fst snd]. rewrite Et. split_and!; [done..|].
    exists con. split; [done|]. intros _ Hp. rewrite Hp in Hc. rewrite <- Et. by apply content_block_token.
  - unfold lexer_advance_mem, lexer_advance. rewrite !bind_assoc.
    eapply agrees_bind; [by apply lexer_next_token_mem_ok|]. intros [[tm m'] h'] [t l'] (Et & El & Es & Hs & con & Hc & H).
    cbn [obind]. apply agrees_Done. cbn [fst snd] in *. split_and!; [done..|]. by exists con.
Qed.

Lemma next_stays_unpeeked l y : peeked l = false -> lex_op OpNext l = Done y -> peeked (snd y) = false.
Proof.
  intros Hp H. cbn [lex_op] in H. unfold lexer_next_token in H. rewrite Hp in H.
  destruct (next_token_internal l) as [[t l']| |] eqn:E; [|done..]. injection H as <-. cbn.
  destruct (next_token_buffers _ _ _ E) as (_ & _ & Hb). by rewrite Hb.
Qed.

Lemma run_ops_mem_ok h0 h m leaked ops :
  heap_ok h0 -> lexer_at h0 h m leaked ->
  agrees (fun x y =>
      fst (fst x) = with_text <$> y /\ lm_self (snd (fst x)) = lm_self m /\
      exists con, lexer_at h0 (snd x) (snd (fst x)) (leaked ++ con) /\
        (Forall (eq OpNext) ops -> peeked (lm_lexer m) = false -> Forall2 content_block (strings y) con))
    (run_ops_mem ops h m) (run_ops lex_op ops (lm_lexer m)).
Proof.
  intros Hok. revert h m leaked. induction ops as [|op ops IH]; intros h m leaked Hl; cbn [run_ops_mem run_ops].
  - apply agrees_Done. split_and!; [done|done|]. exists []. rewrite app_nil_r. split; [done|]. intros _ _. constructor.
  - pose proof (lex_op_mem_ok h0 h m leaked op Hok Hl) as Hop.
    destruct (lex_op op (lm_lexer m)) as [[t l']| |] eqn:E; cbn [agrees] in Hop; [|by rewrite Hop..].
    destruct Hop as ([[o m'] h'] & -> & Eo & El & Es & con & H & Hc). cbn [fst snd] in *. cbn [obind]. rewrite <- El.
    eapply agrees_bind; [by apply IH|]. intros [[os m2] h2] ts (Eos & Es2 & con2 & H2 & Hc2). cbn [fst snd] in *.
    apply agrees_Done. cbn [fst snd]. split_and!; [by rewrite Eo, Eos|congruence|].
    exists (con ++ con2). split; [by rewrite app_assoc|]. intros Hn Hp. apply Forall_cons in Hn as [<- Hn].
    change (strings (t :: ts)) with (omap (fun o => t ← o; match t_value t with TVString s => Some s | _ => None end) ([t] ++ ts)).
    rewrite omap_app. apply Forall2_app; [by apply Hc|]. apply Hc2; [done|].
    rewrite El. by apply (next_stays_unpeeked _ _ Hp E).
Qed.

Lemma lexer_create_at h0 text l : heap_ok h0 -> lexer_create text = Some l ->
  exists m h, lexer_create_mem h0 text = Some (m, h) /\ lm_lexer m = l /\ lexer_at h0 h m [].
Proof.
  intros Hok Hl. unfold lexer_create_mem. rewrite Hl. cbn. eexists _, _. split_and!; [done|done|].
  exists [], []. split_and!; [by left|by left| |by apply extends_alloc].
  unfold lexer_create in Hl. destruct (len text =? 0); [done|]. by injection Hl as <-.
Qed.

(** Destroying the lexer frees the struct and both lexemes. *)
Lemma lexer_destroy_ok h0 h m leaked :
  heap_ok h0 -> lexer_at h0 h m leaked -> exists h', lexer_destroy_mem h m = Done h' /\ extends h0 h' leaked.
Proof.
  intros Hok (cur & pk & Hcur & Hpk & _ & He).
  apply (extends_release (fun h => lexer_destroy_mem h m) h0 h (cur ++ pk ++ [(lm_self m, OLexer)])); [done| |].
  - by rewrite <- !app_assoc.
  - unfold lexer_destroy_mem. apply (releases_seq (fun h => free h _)); [by apply ptr_releases|].
    apply (releases_seq (fun h => free h _)); [by apply ptr_releases|apply releases_block].
Qed.

(** A lexer used and destroyed. *)
Lemma lexer_session h0 text l m h ops ts :
  heap_ok h0 -> lexer_create text = Some l -> lexer_create_mem h0 text = Some (m, h) ->
  run_ops lex_op ops l = Done ts ->
  exists m' h' h'' leaked,
    run_ops_mem ops h m = Done (with_text <$> ts, m', h') /\
    lexer_destroy_mem h' m' = Done h'' /\ extends h0 h'' leaked /\
    (Forall (eq OpNext) ops -> Forall2 content_block (strings ts) leaked).
Proof.
  intros Hok Hl Hm Hr. destruct (lexer_create_at h0 text l Hok Hl) as (m1 & h1 & E & Elx & Hat).
  rewrite Hm in E. injection E as <- <-. pose proof (run_ops_mem_ok h0 h m [] ops Hok Hat) as H.
  rewrite Elx, Hr in H. destruct H as ([[os m'] h'] & -> & Eo & _ & con & Hat' & Hc). cbn [fst snd] in *. rewrite Eo.
  destruct (lexer_destroy_ok h0 h' m' con Hok Hat') as (h'' & Hd & He).
  exists m', h', h'', con. split_and!; [done|done|done|]. intros Hn. apply Hc; [done|].
  unfold lexer_create in Hl. destruct (len text =? 0); [done|]. by injection Hl as <-.
Qed.

(** C16: the lexer is memory safe. Any sequence of next, peek and advance calls on a new
    lexer, with the text of each returned token read before the next call, has the
    outcome of the lexer without memory: no lexeme is read after its release, no pointer
    is freed twice, the buffer of a string is never written past its capacity, and
    lexer_destroy succeeds. Afterwards the caller's memory is as before, beside objects
    that are leaked; with next calls alone, as the parser makes them, these are the
    contents of the string literals and nothing else. *)
Theorem lexer_memory_safe h0 text l m h ops :
  heap_ok h0 -> lexer_create text = Some l -> lexer_create_mem h0 text = Some (m, h) ->
  match run_ops lex_op ops l with
  | Done ts =>
      exists m' h' h'' leaked,
        run_ops_mem ops h m = Done (with_text <$> ts, m', h') /\
        lexer_destroy_mem h' m' = Done h'' /\ extends h0 h'' leaked /\
        (Forall (eq OpNext) ops -> Forall2 content_block (strings ts) leaked)
  | Undef => run_ops_mem ops h m = Undef
  | NoFuel => run_ops_mem ops h m = NoFuel
  end.
Proof.
  intros Hok Hl Hm. destruct (run_ops lex_op ops l) as [ts| |] eqn:E; [by eapply lexer_session| |].
  all: destruct (lexer_create_at h0 text l Hok Hl) as (m1 & h1 & E1 & Elx & Hat);
    rewrite Hm in E1; injection E1 as <- <-; pose proof (run_ops_mem_ok h0 h m [] ops Hok Hat) as H;
    by rewrite Elx, E in H.
Qed.

(** A parser created, advanced [n] times and destroyed: only string contents are left. *)
Lemma parser_session_memory h0 text l n ts :
  heap_ok h0 -> lexer_create text = Some l -> run_ops lex_op (replicate (S n) OpNext) l = Done ts ->
  exists self tm m h m' h' h'' leaked,
    parser_create_mem h0 text = Done (Some (self, tm, m, h)) /\
    run_ops_mem (replicate n OpNext) h m = Done (with_text <$> tail ts, m', h') /\
    parser_destroy_mem h' self m' = Done h'' /\
    extends h0 h'' leaked /\ Forall2 content_block (strings ts) leaked.
Proof.
  intros Hok Hl Hr. pose proof (extends_alloc h0 OParser Hok) as H0. pose proof (ex_ok _ _ _ H0) as Hok1.
  set (h1 := snd (alloc h0 OParser)) in *.
  destruct (lexer_create_at h1 text l Hok1 Hl) as (m0 & h2 & Hm & _).
  destruct (lexer_session h1 text l m0 h2 _ ts Hok1 Hl Hm Hr) as (m' & h' & h3 & leaked & Hrun & Hd & He & Hc).
  unfold parser_create_mem. cbn [alloc]. change (mkHeap _ _) with h1. rewrite Hm.
  assert ((len text =? 0) = false) as -> by (unfold lexer_create in Hl; by destruct (len text =? 0)).
  cbn [replicate run_ops_mem lex_op_mem] in Hrun. rewrite !bind_assoc in Hrun.
  destruct (lexer_next_token_mem h2 m0) as [[[tm m1] h4]| |]; [|done..]. cbn [obind] in Hrun |- *.
  apply bind_Done_inv in Hrun as (x & Hx & Hrun). destruct x as [[o m2] h5].
  apply bind_Done_inv in Hx as (s & _ & Hx). injection Hx as <- <- <-.
  apply bind_Done_inv in Hrun as ([[xs m2] h5] & Hrun & E). injection E as Ex -> ->.
  destruct (extends_release (fun h => free h (brk h0)) h0 h3 [_] leaked Hok (extends_trans _ _ _ _ _ H0 He)
    (releases_block _ _)) as (h6 & Hf & H6).
  exists (brk h0), tm, m1, h4, m', h', h6, leaked. split_and!; [done| | |done|by apply Hc, Forall_replicate].
  - rewrite Hrun. destruct ts as [|t ts]; [done|]. cbn in Ex |- *. by injection Ex as _ ->.
  - unfold parser_destroy_mem. by rewrite Hd.
Qed.

(** ** Witness *)

Definition leak_text : list Z := zstr "x = 'it''s'".
Definition leak_lexer : Lexer := mkLexer leak_text 0 1 1 None None false [] 0 0.
Definition leak_mem : LexerMem := mkLexerMem leak_lexer 1 (0, 0) (0, 0).
Definition empty_heap : Heap := mkHeap ∅ 1.
Definition leak_heap : Heap := snd (alloc empty_heap OLexer).
Definition leak_ops : list LexOp := [OpNext; OpNext; OpNext; OpNext].

Definition leak_tokens : list (option Token) :=
  match run_ops lex_op leak_ops leak_lexer with Done ts => ts | _ => [] end.

(** Three tokens and the end; the content of the literal is left, at address 5. *)
Lemma lexer_memory_safe_witness :
  (exists m' h' h'' leaked,
     run_ops_mem leak_ops leak_heap leak_mem = Done (with_text <$> leak_tokens, m', h') /\
     lexer_destroy_mem h' m' = Done h'' /\ extends empty_heap h'' leaked /\
     (Forall (eq OpNext) leak_ops -> Forall2 content_block (strings leak_tokens) leaked)) /\
  strings leak_tokens = [zstr "it's"] /\
  (let* '(_, m', h') := run_ops_mem leak_ops leak_heap leak_mem in
   let* h'' := lexer_destroy_mem h' m' in Done (map fst (map_to_list (cells h'')))) = Done [5].
Proof.
  split_and!; [|vm_compute; reflexivity|vm_compute; reflexivity].
  assert (heap_ok empty_heap) as Hok by (split; [reflexivity|intros k _; apply lookup_empty]).
  pose proof (lexer_memory_safe empty_heap leak_text leak_lexer leak_mem leak_heap leak_ops Hok eq_refl eq_refl) as H.
  assert (run_ops lex_op leak_ops leak_lexer = Done leak_tokens) as E by (vm_compute; reflexivity).
  rewrite E in H. exact H.
Defined.
