(* ===== verification/Ast.v ===== *)
(** Model of src/sql/ast.h: expressions and statements. A linked list of the code
    is a list; a pointer that may be NULL is an option, except that a missing
    expression is also the constructor [ExprNULL], for the evaluator. *)
From Stdlib Require Import ZArith Lia.
From stdpp Require Import base numbers option list.
From S2P Require Import Prelude Double.

(** ** Expressions *)

(** [ExprNULL] is the NULL pointer; operators are the [int] the parser stores.
    EXPR_FUNC, EXPR_CASE and EXPR_SUBQUERY keep no operands here: evaluation does
    not look at them. *)
Inductive Expression : Type :=
  | ExprNULL
  | EXPR_LITERAL_INT (as_int : Z)
  | EXPR_LITERAL_FLOAT (as_float : double)
  | EXPR_LITERAL_STRING (str : list Z)
  | EXPR_LITERAL_NULL
  | EXPR_COLUMN (col_index : Z) (col_name : option (list Z))
  | EXPR_BINARY (left : Expression) (op : Z) (right : Expression)
  | EXPR_UNARY (op : Z) (operand : Expression)
  | EXPR_FUNC
  | EXPR_CASE
  | EXPR_SUBQUERY
  | EXPR_IN (value : Expression) (items : list Expression) (not : bool)
  | EXPR_BETWEEN (value low high : Expression) (not : bool)
  | EXPR_LIKE (str pattern : Expression) (not : bool).

(** Induction that reaches the items of an IN list. *)
Section ExpressionInd.
Variable P : Expression -> Prop.
Hypothesis (Hleaf : forall e,
  match e with
  | EXPR_BINARY _ _ _ | EXPR_UNARY _ _ | EXPR_IN _ _ _ | EXPR_BETWEEN _ _ _ _
  | EXPR_LIKE _ _ _ => False
  | _ => True
  end -> P e).
Hypothesis (Hbinary : forall e1 op e2, P e1 -> P e2 -> P (EXPR_BINARY e1 op e2)).
Hypothesis (Hunary : forall op e, P e -> P (EXPR_UNARY op e)).
Hypothesis (Hin : forall e items not, P e -> Forall P items -> P (EXPR_IN e items not)).
Hypothesis (Hbetween : forall e1 e2 e3 not, P e1 -> P e2 -> P e3 -> P (EXPR_BETWEEN e1 e2 e3 not)).
Hypothesis (Hlike : forall e1 e2 not, P e1 -> P e2 -> P (EXPR_LIKE e1 e2 not)).

Fixpoint expression_induction (e : Expression) : P e.
Proof.
  destruct e as [| | | | | |e1 op e2|op e| | | |e items not|e1 e2 e3 not|e1 e2 not];
    try (apply Hleaf; exact I).
  - apply Hbinary; apply expression_induction.
  - apply Hunary, expression_induction.
  - apply Hin; [apply expression_induction|].
    induction items as [|i items IH]; constructor; [apply expression_induction|exact IH].
  - apply Hbetween; apply expression_induction.
  - apply Hlike; apply expression_induction.
Qed.
End ExpressionInd.

(** ** Statements *)

Inductive ColumnType : Type := COL_TYPE_INTEGER | COL_TYPE_FLOAT | COL_TYPE_TEXT | COL_TYPE_BLOB.

#[export] Instance ColumnType_eq_dec : EqDecision ColumnType.
Proof. solve_decision. Defined.

Record ColumnDef : Type := mkColumnDef {
  cd_name : list Z;
  cd_type : ColumnType;
  cd_not_null : bool;
  cd_primary_key : bool;
  cd_autoincrement : bool;
  cd_default : option Expression }.

(** One node of a ColumnList. *)
Record ColumnList : Type := mkColumnList { cl_name : list Z; cl_alias : option (list Z) }.

(** One node of a ValueList: the expressions of a row. *)
Definition ValueList : Type := list Expression.

Record OrderByItem : Type := mkOrderBy { ob_column : list Z; ob_descending : bool }.

Record SetClause : Type := mkSetClause { sc_column : list Z; sc_value : Expression }.

Inductive TransactionType : Type := TX_BEGIN | TX_COMMIT | TX_ROLLBACK.

(** The [alias] of AstSelect, which the parser never sets, is left out. *)
Inductive AstNode : Type :=
  | AST_CREATE_TABLE (table_name : list Z) (if_not_exists : bool) (columns : list ColumnDef)
  | AST_DROP_TABLE (table_name : list Z) (if_exists : bool)
  | AST_CREATE_INDEX (index_name table_name column_name : list Z) (unique : bool)
  | AST_DROP_INDEX (index_name : list Z)
  | AST_INSERT (table_name : list Z) (columns : list ColumnList) (values : list ValueList)
  | AST_UPDATE (table_name : list Z) (set_clauses : list SetClause) (where_ : Expression)
  | AST_DELETE (table_name : list Z) (where_ : Expression)
  | AST_SELECT (columns : list ColumnList) (is_distinct : bool) (table_name : list Z)
      (where_ : option Expression) (order_by : list OrderByItem) (limit offset : option Expression)
  | AST_TRANSACTION (transaction_type : TransactionType).
