(* ===== verification/Parser.v ===== *)
(** Model of src/sql/parser.c: the recursive descent parser, against the interface
    of a token source, which the lexer implements. *)
From Stdlib Require Import ZArith Lia String.
From stdpp Require Import base numbers option list.
From S2P Require Import Prelude CString Double Lexer Ast.

(** ** Token sources *)

(** What the parser asks of the lexer. *)
Class TokenSource (L : Type) : Type := ts_next : L -> outcome (Token * L).

(** What it is promised: calls either stop in undefined behaviour (an integer
    literal beyond int64) or give a token, TOKEN_EOF for good once nothing is
    left and anything else only by using something up. *)
Class TokenSourceLaws (L : Type) `{TokenSource L} : Type := {
  ts_inv : L -> Prop;
  ts_left : L -> nat;
  ts_next_ok l : ts_inv l ->
    ts_next l = Undef \/
    exists t l', ts_next l = Done (t, l') /\ ts_inv l' /\
      ((t_type t = TOKEN_EOF /\ ts_left l' = 0%nat) \/
       (t_type t <> TOKEN_EOF /\ (ts_left l' < ts_left l)%nat)) }.

#[export] Instance lexer_source : TokenSource Lexer := lexer_next_token.

Definition lexer_at_rest (l : Lexer) : Prop :=
  (pos l <= length (sql l))%nat /\ peeked l = false.

#[export] Program Instance lexer_source_laws : TokenSourceLaws Lexer := {
  ts_inv := lexer_at_rest;
  ts_left l := (length (sql l) - pos l)%nat }.
Next Obligation.
  intros l [Hl Hp]. unfold ts_next, lexer_source, lexer_next_token. rewrite Hp.
  destruct (next_token_progress l Hl) as [->|(t & l' & E & Hs & Hb & Hc)]; [by left|right].
  pose proof (next_token_buffers _ _ _ E) as (_ & _ & Hpk).
  rewrite E, bind_Done. eexists _, _. split; [done|]. cbn [set_tokens sql pos peeked].
  split; [split; [cbn; rewrite Hs; lia|cbn; congruence]|]. rewrite Hs.
  destruct Hc as [[-> ->]|[? ?]]; [left; split; [done|lia]|right; split; [done|lia]].
Qed.

(** A list of tokens, followed by the end of the text. *)
Definition eof_token : Token := mkToken TOKEN_EOF [] 0 0 0 TVNone.

#[export] Instance list_source : TokenSource (list Token) := fun ts =>
  match ts with [] => Done (eof_token, []) | t :: ts => Done (t, ts) end.

(** ** The parser *)

Record Parser (L : Type) : Type := mkParser {
  lexer : L;
  p_current : Token;
  has_error : bool;
  p_error : list Z;
  p_error_line : Z;
  p_error_column : Z }.
Arguments mkParser {L}. Arguments lexer {L}. Arguments p_current {L}. Arguments has_error {L}.
Arguments p_error {L}. Arguments p_error_line {L}. Arguments p_error_column {L}.

(** The keywords [check_keyword] can name, as the chain of strcmp lists them. *)
Definition keyword_tokens : list (list Z * TokenType) :=
  [
   (zstr "INTO", TOKEN_INTO); (zstr "VALUES", TOKEN_VALUES); (zstr "FROM", TOKEN_FROM);
   (zstr "WHERE", TOKEN_WHERE); (zstr "AND", TOKEN_AND); (zstr "OR", TOKEN_OR);
   (zstr "NOT", TOKEN_NOT); (zstr "NULL", TOKEN_NULL); (zstr "LIKE", TOKEN_LIKE);
   (zstr "BETWEEN", TOKEN_BETWEEN); (zstr "IN", TOKEN_IN); (zstr "IS", TOKEN_IS);
   (zstr "SET", TOKEN_SET); (zstr "BEGIN", TOKEN_BEGIN); (zstr "COMMIT", TOKEN_COMMIT);
   (zstr "ROLLBACK", TOKEN_ROLLBACK); (zstr "PRIMARY", TOKEN_PRIMARY); (zstr "KEY", TOKEN_KEY);
   (zstr "NOT", TOKEN_NOT); (zstr "IF", TOKEN_IF); (zstr "EXISTS", TOKEN_EXISTS);
   (zstr "ORDER", TOKEN_ORDER); (zstr "BY", TOKEN_BY); (zstr "ASC", TOKEN_ASC);
   (zstr "DESC", TOKEN_DESC); (zstr "LIMIT", TOKEN_LIMIT); (zstr "OFFSET", TOKEN_OFFSET);
   (zstr "AS", TOKEN_AS); (zstr "ON", TOKEN_ON); (zstr "UNIQUE", TOKEN_UNIQUE);
   (zstr "DEFAULT", TOKEN_DEFAULT); (zstr "AUTOINCREMENT", TOKEN_AUTOINCREMENT)].

(** [None] is the code's -1. *)
Definition keyword_to_token_type (kw : list Z) : option TokenType :=
  snd <$> (snd <$> list_find (fun x => fst x = kw) keyword_tokens).

Definition get_precedence (type : TokenType) : Z :=
  match type with
  | TOKEN_OR => 4
  | TOKEN_AND => 5
  | TOKEN_NOT => 6
  | TOKEN_EQ | TOKEN_NEQ | TOKEN_LT | TOKEN_GT | TOKEN_LTE | TOKEN_GTE => 7
  | TOKEN_LIKE_OP | TOKEN_IN_OP | TOKEN_BETWEEN_OP => 8
  | TOKEN_PLUS | TOKEN_MINUS => 9
  | TOKEN_STAR | TOKEN_SLASH | TOKEN_PERCENT => 10
  | _ => 0
  end.

Definition is_right_assoc (type : TokenType) : bool := false.

Section parser.
Context {L : Type} `{TokenSource L}.
Implicit Types p : Parser L.

Definition parser_set_error p (msg : list Z) : Parser L :=
  mkParser (lexer p) (p_current p) true (take 255 msg) (t_line (p_current p)) (t_column (p_current p)).

Definition parser_error p : option (list Z) := if has_error p then Some (p_error p) else None.

Definition cur p : TokenType := t_type (p_current p).

Definition check_keyword p (kw : list Z) : bool :=
  match keyword_to_token_type kw with
  | Some t => if token_eqb t (cur p) then true
              else token_eqb (cur p) TOKEN_IDENTIFIER &&
                   bool_decide (toupper <$> token_get_text (p_current p) = kw)
  | None => token_eqb (cur p) TOKEN_IDENTIFIER &&
            bool_decide (toupper <$> token_get_text (p_current p) = kw)
  end.

(** Once an error is set the current token stays. *)
Definition advance p : outcome (Parser L) :=
  if has_error p then Done p else
  let* '(t, l) := ts_next (lexer p) in
  Done (mkParser l t (has_error p) (p_error p) (p_error_line p) (p_error_column p)).

Definition expect_token p (type : TokenType) (expected : list Z) : outcome (Parser L) :=
  if negb (token_eqb (cur p) type) then Done (parser_set_error p expected) else advance p.

Definition expect_keyword p (kw msg : list Z) : outcome (Parser L) :=
  if negb (check_keyword p kw) then Done (parser_set_error p msg) else advance p.

Definition parse_identifier p : outcome (option (list Z) * Parser L) :=
  if negb (token_eqb (cur p) TOKEN_IDENTIFIER)
  then Done (None, parser_set_error p (zstr "Expected identifier")) else
  let id := token_get_text (p_current p) in
  let* p := advance p in
  Done (Some id, p).

(** ** Expressions *)

(** One turn of the operator loop of parse_binary_expr, given the calls it makes:
    the right operands, the rest of the loop, the items of an IN list. *)
Definition parse_operator (binary : Z -> Parser L -> outcome (option Expression * Parser L))
    (operators : Expression -> Parser L -> outcome (option Expression * Parser L))
    (in_items : list Expression -> Parser L -> outcome (option (list Expression) * Parser L))
    (lhs : Expression) p : outcome (option Expression * Parser L) :=
  let op := cur p in
  let prec := get_precedence op in
  if token_eqb op TOKEN_LIKE then
    let* p := advance p in
    let* '(pattern, p) := binary (prec + 1) p in
    match pattern with
    | None => Done (None, p)
    | Some pattern => operators (EXPR_LIKE lhs pattern false) p
    end
  else if token_eqb op TOKEN_IN then
    let* p := advance p in
    if token_eqb (cur p) TOKEN_LPAREN then
      let* p := advance p in
      let* '(items, p) := if negb (token_eqb (cur p) TOKEN_RPAREN)
                          then in_items [] p else Done (Some [], p) in
      match items with
      | None => Done (None, p)
      | Some items =>
          let* p := expect_token p TOKEN_RPAREN (zstr "Expected ')'") in
          operators (EXPR_IN lhs items false) p
      end
    else operators lhs p
  else if token_eqb op TOKEN_BETWEEN then
    let* p := advance p in
    let* '(low, p) := binary (prec + 1) p in
    match low with
    | None => Done (None, p)
    | Some low =>
        if negb (check_keyword p (zstr "AND"))
        then Done (None, parser_set_error p (zstr "Expected AND in BETWEEN expression")) else
        let* p := advance p in
        let* '(high, p) := binary (prec + 1) p in
        match high with
        | None => Done (None, p)
        | Some high => operators (EXPR_BETWEEN lhs low high false) p
        end
    end
  else if prec =? 0 then Done (Some lhs, p)
  else if token_eqb op TOKEN_IS then
    let* p := advance p in
    let* '(is_not, p) := if check_keyword p (zstr "NOT")
                         then let* p := advance p in Done (true, p) else Done (false, p) in
    if check_keyword p (zstr "NULL") then
      let* p := advance p in
      operators
        (EXPR_BINARY lhs (token_code (if is_not : bool then TOKEN_NEQ else TOKEN_EQ)) EXPR_LITERAL_NULL) p
    else Done (None, parser_set_error p (zstr "Expected NULL after IS"))
  else if token_eqb op TOKEN_NOT then Done (Some lhs, p)
  else
    let* p := advance p in
    let* '(rhs, p) := binary (prec + (if is_right_assoc op then 0 else 1)) p in
    match rhs with
    | None => Done (None, p)
    | Some rhs => operators (EXPR_BINARY lhs (token_code op) rhs) p
    end.

(** The mutual recursion of parse_literal, parse_unary_not and parse_binary_expr,
    its operator loop and its loop over the items of an IN list. A [None] result
    is the code's NULL. *)
Fixpoint parse_literal (fuel : nat) p : outcome (option Expression * Parser L) :=
  match fuel with
  | O => NoFuel
  | S fuel =>
    match cur p with
    | TOKEN_INTEGER =>
        match t_value (p_current p) with
        | TVInt z => let* p := advance p in Done (Some (EXPR_LITERAL_INT z), p)
        | _ => Undef
        end
    | TOKEN_REAL =>
        match t_value (p_current p) with
        | TVFloat d => let* p := advance p in Done (Some (EXPR_LITERAL_FLOAT d), p)
        | _ => Undef
        end
    | TOKEN_STRING =>
        match t_value (p_current p) with
        | TVString s => let* p := advance p in Done (Some (EXPR_LITERAL_STRING s), p)
        | _ => Undef
        end
    | TOKEN_NULL => let* p := advance p in Done (Some EXPR_LITERAL_NULL, p)
    | TOKEN_IDENTIFIER =>
        let* '(name, p) := parse_identifier p in
        match name with
        | None => Done (None, p)
        | Some name =>
            if token_eqb (cur p) TOKEN_DOT then
              let* p := advance p in
              let* '(col_name, p) := parse_identifier p in
              match col_name with
              | None => Done (None, p)
              | Some col_name => Done (Some (EXPR_COLUMN 0 (Some col_name)), p)
              end
            else Done (Some (EXPR_COLUMN (-1) (Some name)), p)
        end
    | TOKEN_LPAREN =>
        let* p := advance p in
        let* '(expr, p) := parse_binary_expr fuel 0 p in
        if token_eqb (cur p) TOKEN_RPAREN
        then let* p := advance p in Done (expr, p)
        else Done (expr, parser_set_error p (zstr "Expected ')'"))
    | TOKEN_MINUS =>
        let* p := advance p in
        let* '(operand, p) := parse_literal fuel p in
        Done (EXPR_UNARY (token_code TOKEN_MINUS) <$> operand, p)
    | TOKEN_PLUS =>
        let* p := advance p in
        let* '(operand, p) := parse_literal fuel p in
        Done (EXPR_UNARY (token_code TOKEN_PLUS) <$> operand, p)
    | _ => Done (None, parser_set_error p (zstr "Unexpected token in expression"))
    end
  end
with parse_unary_not (fuel : nat) p : outcome (option Expression * Parser L) :=
  match fuel with
  | O => NoFuel
  | S fuel =>
    if check_keyword p (zstr "NOT") then
      let* p := advance p in
      let* '(operand, p) := parse_unary_not fuel p in
      Done (EXPR_UNARY (token_code TOKEN_NOT) <$> operand, p)
    else parse_literal fuel p
  end
with parse_binary_expr (fuel : nat) (min_prec : Z) p : outcome (option Expression * Parser L) :=
  match fuel with
  | O => NoFuel
  | S fuel =>
    let* '(lhs, p) := parse_unary_not fuel p in
    match lhs with
    | None => Done (None, p)
    | Some lhs => if has_error p then Done (Some lhs, p) else parse_operators fuel lhs p
    end
  end
with parse_operators (fuel : nat) (lhs : Expression) p : outcome (option Expression * Parser L) :=
  match fuel with
  | O => NoFuel
  | S fuel =>
    parse_operator (parse_binary_expr fuel) (parse_operators fuel) (parse_in_items fuel) lhs p
  end
with parse_in_items (fuel : nat) (items : list Expression) p
    : outcome (option (list Expression) * Parser L) :=
  match fuel with
  | O => NoFuel
  | S fuel =>
    let* '(e, p) := parse_binary_expr fuel 0 p in
    match e with
    | None => Done (None, p)
    | Some e =>
        if token_eqb (cur p) TOKEN_COMMA
        then let* p := advance p in parse_in_items fuel (items ++ [e]) p
        else Done (Some (items ++ [e]), p)
    end
  end.

Definition parse_expression (fuel : nat) p := parse_binary_expr fuel 0 p.

(** ** Statements *)

Definition parse_column_type p : outcome (ColumnType * Parser L) :=
  if token_eqb (cur p) TOKEN_INTEGER_KW
  then let* p := advance p in Done (COL_TYPE_INTEGER, p)
  else if token_eqb (cur p) TOKEN_REAL_KW || check_keyword p (zstr "REAL")
  then let* p := advance p in Done (COL_TYPE_FLOAT, p)
  else if token_eqb (cur p) TOKEN_TEXT_KW || check_keyword p (zstr "TEXT")
  then let* p := advance p in Done (COL_TYPE_TEXT, p)
  else if token_eqb (cur p) TOKEN_BLOB_KW || check_keyword p (zstr "BLOB")
  then let* p := advance p in Done (COL_TYPE_BLOB, p)
  else Done (COL_TYPE_TEXT, p).

(** The constraint loop of [parse_column_def]. *)
Fixpoint parse_constraints (fuel : nat) (col : ColumnDef) p : outcome (ColumnDef * Parser L) :=
  match fuel with
  | O => NoFuel
  | S fuel =>
    let '(mkColumnDef name type nn pk ai dflt) := col in
    if check_keyword p (zstr "NOT") then
      let* p := advance p in
      let* p := advance p in
      parse_constraints fuel (mkColumnDef name type true pk ai dflt) p
    else if check_keyword p (zstr "PRIMARY") then
      let* p := advance p in
      if check_keyword p (zstr "KEY")
      then let* p := advance p in parse_constraints fuel (mkColumnDef name type nn true ai dflt) p
      else parse_constraints fuel col p
    else if check_keyword p (zstr "AUTOINCREMENT") then
      let* p := advance p in
      parse_constraints fuel (mkColumnDef name type nn pk true dflt) p
    else if check_keyword p (zstr "DEFAULT") then
      let* p := advance p in
      let* '(e, p) := parse_expression fuel p in
      parse_constraints fuel (mkColumnDef name type nn pk ai e) p
    else Done (col, p)
  end.

Definition parse_column_def (fuel : nat) p : outcome (option ColumnDef * Parser L) :=
  let* '(name, p) := parse_identifier p in
  match name with
  | None => Done (None, p)
  | Some name =>
      let* '(type, p) := parse_column_type p in
      let* '(col, p) := parse_constraints fuel (mkColumnDef name type false false false None) p in
      Done (Some col, p)
  end.

(** The column loop of [parse_create_table]. *)
Fixpoint parse_column_defs (fuel : nat) (cols : list ColumnDef) p
    : outcome (option (list ColumnDef) * Parser L) :=
  match fuel with
  | O => NoFuel
  | S fuel =>
    if negb (token_eqb (cur p) TOKEN_RPAREN) && negb (has_error p) then
      let* '(col, p) := parse_column_def fuel p in
      match col with
      | None => Done (None, p)
      | Some col =>
          if token_eqb (cur p) TOKEN_COMMA
          then let* p := advance p in parse_column_defs fuel (cols ++ [col]) p
          else Done (Some (cols ++ [col]), p)
      end
    else Done (Some cols, p)
  end.

(** IF [NOT] EXISTS: [None] after an error. *)
Definition parse_if_not_exists p : outcome (option bool * Parser L) :=
  if token_eqb (cur p) TOKEN_IF then
    let* p := advance p in
    if token_eqb (cur p) TOKEN_NOT then
      let* p := advance p in
      if token_eqb (cur p) TOKEN_EXISTS
      then let* p := advance p in Done (Some true, p)
      else Done (None, parser_set_error p (zstr "Expected EXISTS after IF NOT"))
    else Done (None, parser_set_error p (zstr "Expected NOT after IF"))
  else Done (Some false, p).

Definition parse_create_table (fuel : nat) p : outcome (option AstNode * Parser L) :=
  let* '(if_not_exists, p) := parse_if_not_exists p in
  match if_not_exists with
  | None => Done (None, p)
  | Some if_not_exists =>
    let* '(table_name, p) := parse_identifier p in
    match table_name with
    | None => Done (None, p)
    | Some table_name =>
      let* p := expect_token p TOKEN_LPAREN (zstr "Expected '(' after table name") in
      let* '(columns, p) := parse_column_defs fuel [] p in
      match columns with
      | None => Done (None, p)
      | Some columns =>
        let* p := expect_token p TOKEN_RPAREN (zstr "Expected ')' after column definitions") in
        let* p := expect_token p TOKEN_SEMICOLON (zstr "Expected ';' after CREATE TABLE") in
        Done (Some (AST_CREATE_TABLE table_name if_not_exists columns), p)
      end
    end
  end.

Definition parse_drop_table p : outcome (option AstNode * Parser L) :=
  let* '(if_exists, p) :=
    if token_eqb (cur p) TOKEN_IF then
      let* p := advance p in
      if token_eqb (cur p) TOKEN_EXISTS
      then let* p := advance p in Done (Some true, p)
      else Done (None, parser_set_error p (zstr "Expected EXISTS after IF"))
    else Done (Some false, p) in
  match if_exists with
  | None => Done (None, p)
  | Some if_exists =>
    let* '(table_name, p) := parse_identifier p in
    match table_name with
    | None => Done (None, p)
    | Some table_name =>
      let* p := expect_token p TOKEN_SEMICOLON (zstr "Expected ';' after DROP TABLE") in
      Done (Some (AST_DROP_TABLE table_name if_exists), p)
    end
  end.

Definition parse_create_index p : outcome (option AstNode * Parser L) :=
  let* '(unique, p) :=
    if check_keyword p (zstr "UNIQUE") then let* p := advance p in Done (true, p) else Done (false, p) in
  let* '(index_name, p) := parse_identifier p in
  match index_name with
  | None => Done (None, p)
  | Some index_name =>
    if negb (check_keyword p (zstr "ON"))
    then Done (None, parser_set_error p (zstr "Expected ON in CREATE INDEX")) else
    let* p := advance p in
    let* '(table_name, p) := parse_identifier p in
    match table_name with
    | None => Done (None, p)
    | Some table_name =>
      let* p := expect_token p TOKEN_LPAREN (zstr "Expected '(' in CREATE INDEX") in
      let* '(column_name, p) := parse_identifier p in
      match column_name with
      | None => Done (None, p)
      | Some column_name =>
        let* p := expect_token p TOKEN_RPAREN (zstr "Expected ')' after column name") in
        let* p := expect_token p TOKEN_SEMICOLON (zstr "Expected ';' after CREATE INDEX") in
        Done (Some (AST_CREATE_INDEX index_name table_name column_name unique), p)
      end
    end
  end.

Definition parse_drop_index p : outcome (option AstNode * Parser L) :=
  let* '(index_name, p) := parse_identifier p in
  match index_name with
  | None => Done (None, p)
  | Some index_name =>
    let* p := expect_token p TOKEN_SEMICOLON (zstr "Expected ';' after DROP INDEX") in
    Done (Some (AST_DROP_INDEX index_name), p)
  end.

(** The loop of [parse_expression_list]. *)
Fixpoint parse_expressions (fuel : nat) (exprs : list Expression) p
    : outcome (option (list Expression) * Parser L) :=
  match fuel with
  | O => NoFuel
  | S fuel =>
    let* '(e, p) := parse_expression fuel p in
    match e with
    | None => Done (None, p)
    | Some e =>
        if token_eqb (cur p) TOKEN_COMMA
        then let* p := advance p in parse_expressions fuel (exprs ++ [e]) p
        else Done (Some (exprs ++ [e]), p)
    end
  end.

(** An empty list is NULL, like a failure. *)
Definition parse_expression_list (fuel : nat) p : outcome (option (list Expression) * Parser L) :=
  if token_eqb (cur p) TOKEN_RPAREN then Done (None, p) else parse_expressions fuel [] p.

(** The column loop of [parse_insert]. *)
Fixpoint parse_insert_columns (fuel : nat) (cols : list ColumnList) p
    : outcome (option (list ColumnList) * Parser L) :=
  match fuel with
  | O => NoFuel
  | S fuel =>
    if negb (token_eqb (cur p) TOKEN_RPAREN) && negb (has_error p) then
      let* '(name, p) := parse_identifier p in
      match name with
      | None => Done (None, p)
      | Some name =>
          let cols := cols ++ [mkColumnList name None] in
          if token_eqb (cur p) TOKEN_COMMA
          then let* p := advance p in parse_insert_columns fuel cols p
          else Done (Some cols, p)
      end
    else Done (Some cols, p)
  end.

(** The row loop of [parse_insert]. *)
Fixpoint parse_insert_values (fuel : nat) (rows : list ValueList) p
    : outcome (option (list ValueList) * Parser L) :=
  match fuel with
  | O => NoFuel
  | S fuel =>
    if negb (has_error p) then
      let* p := expect_token p TOKEN_LPAREN (zstr "Expected '(' before VALUES") in
      let* '(exprs, p) := parse_expression_list fuel p in
      match exprs with
      | None => Done (None, p)
      | Some exprs =>
          let* p := expect_token p TOKEN_RPAREN (zstr "Expected ')' after VALUES") in
          if token_eqb (cur p) TOKEN_COMMA
          then let* p := advance p in parse_insert_values fuel (rows ++ [exprs]) p
          else Done (Some (rows ++ [exprs]), p)
      end
    else Done (Some rows, p)
  end.

Definition parse_insert (fuel : nat) p : outcome (option AstNode * Parser L) :=
  let* p := advance p in
  let* p := expect_keyword p (zstr "INTO") (zstr "Expected INTO after INSERT") in
  let* '(table_name, p) := parse_identifier p in
  match table_name with
  | None => Done (None, p)
  | Some table_name =>
    let* '(columns, p) :=
      if token_eqb (cur p) TOKEN_LPAREN then
        let* p := advance p in
        let* '(columns, p) := parse_insert_columns fuel [] p in
        match columns with
        | None => Done (None, p)
        | Some columns =>
            let* p := expect_token p TOKEN_RPAREN (zstr "Expected ')' after column list") in
            Done (Some columns, p)
        end
      else Done (Some [], p) in
    match columns with
    | None => Done (None, p)
    | Some columns =>
      let* p := expect_keyword p (zstr "VALUES") (zstr "Expected VALUES after INSERT") in
      let* '(values, p) := parse_insert_values fuel [] p in
      match values with
      | None => Done (None, p)
      | Some values =>
        let* p := expect_token p TOKEN_SEMICOLON (zstr "Expected ';' after INSERT") in
        Done (Some (AST_INSERT table_name columns values), p)
      end
    end
  end.

(** The SET loop of [parse_update]. *)
Fixpoint parse_set_clauses (fuel : nat) (clauses : list SetClause) p
    : outcome (option (list SetClause) * Parser L) :=
  match fuel with
  | O => NoFuel
  | S fuel =>
    if negb (has_error p) then
      let* '(col_name, p) := parse_identifier p in
      match col_name with
      | None => Done (None, p)
      | Some col_name =>
        let* p := expect_token p TOKEN_EQ (zstr "Expected '=' in SET clause") in
        let* '(value, p) := parse_expression fuel p in
        match value with
        | None => Done (None, p)
        | Some value =>
          let clauses := clauses ++ [mkSetClause col_name value] in
          if token_eqb (cur p) TOKEN_COMMA
          then let* p := advance p in parse_set_clauses fuel clauses p
          else Done (Some clauses, p)
        end
      end
    else Done (Some clauses, p)
  end.

(** The WHERE clause that UPDATE and DELETE require. *)
Definition parse_required_where (fuel : nat) p (msg : list Z) : outcome (option Expression * Parser L) :=
  if check_keyword p (zstr "WHERE")
  then let* p := advance p in parse_expression fuel p
  else Done (None, parser_set_error p msg).

Definition parse_update (fuel : nat) p : outcome (option AstNode * Parser L) :=
  let* p := advance p in
  let* '(table_name, p) := parse_identifier p in
  match table_name with
  | None => Done (None, p)
  | Some table_name =>
    let* p := expect_keyword p (zstr "SET") (zstr "Expected SET after UPDATE table name") in
    let* '(clauses, p) := parse_set_clauses fuel [] p in
    match clauses with
    | None => Done (None, p)
    | Some clauses =>
      let* '(where_, p) := parse_required_where fuel p (zstr "UPDATE requires WHERE clause") in
      match where_ with
      | None => Done (None, p)
      | Some where_ =>
        let* p := expect_token p TOKEN_SEMICOLON (zstr "Expected ';' after UPDATE") in
        Done (Some (AST_UPDATE table_name clauses where_), p)
      end
    end
  end.

Definition parse_delete (fuel : nat) p : outcome (option AstNode * Parser L) :=
  let* p := advance p in
  let* p := expect_keyword p (zstr "FROM") (zstr "Expected FROM after DELETE") in
  let* '(table_name, p) := parse_identifier p in
  match table_name with
  | None => Done (None, p)
  | Some table_name =>
    let* '(where_, p) := parse_required_where fuel p (zstr "DELETE requires WHERE clause") in
    match where_ with
    | None => Done (None, p)
    | Some where_ =>
      let* p := expect_token p TOKEN_SEMICOLON (zstr "Expected ';' after DELETE") in
      Done (Some (AST_DELETE table_name where_), p)
    end
  end.

(** AS alias: an error leaves the alias NULL. *)
Definition parse_alias p : outcome (option (list Z) * Parser L) :=
  if check_keyword p (zstr "AS") || token_eqb (cur p) TOKEN_AS
  then let* p := advance p in parse_identifier p
  else Done (None, p).

Fixpoint parse_column_list_loop (fuel : nat) (cols : list ColumnList) p
    : outcome (option (list ColumnList) * Parser L) :=
  match fuel with
  | O => NoFuel
  | S fuel =>
    if token_eqb (cur p) TOKEN_STAR then
      let* p := advance p in Done (Some (cols ++ [mkColumnList (zstr "*") None]), p)
    else
      let* '(name, p) := parse_identifier p in
      match name with
      | None => Done (None, p)
      | Some name =>
        let* '(alias, p) := parse_alias p in
        let cols := cols ++ [mkColumnList name alias] in
        if token_eqb (cur p) TOKEN_COMMA
        then let* p := advance p in parse_column_list_loop fuel cols p
        else Done (Some cols, p)
      end
  end.

Definition parse_column_list (fuel : nat) p := parse_column_list_loop fuel [] p.

Fixpoint parse_order_by_loop (fuel : nat) (items : list OrderByItem) p
    : outcome (option (list OrderByItem) * Parser L) :=
  match fuel with
  | O => NoFuel
  | S fuel =>
    if negb (has_error p) then
      let* '(name, p) := parse_identifier p in
      match name with
      | None => Done (None, p)
      | Some name =>
        let* '(descending, p) :=
          if check_keyword p (zstr "DESC") then let* p := advance p in Done (true, p)
          else if check_keyword p (zstr "ASC") then let* p := advance p in Done (false, p)
          else Done (false, p) in
        let items := items ++ [mkOrderBy name descending] in
        if token_eqb (cur p) TOKEN_COMMA
        then let* p := advance p in parse_order_by_loop fuel items p
        else Done (Some items, p)
      end
    else Done (Some items, p)
  end.

(** The empty list is NULL. *)
Definition parse_order_by (fuel : nat) p : outcome (option (list OrderByItem) * Parser L) :=
  let* '(items, p) := parse_order_by_loop fuel [] p in
  Done (match items with Some [] => None | _ => items end, p).

(** An optional clause [kw] expression: [None] after a failed expression. *)
Definition parse_optional_expr (fuel : nat) p (kw : list Z)
    : outcome (option (option Expression) * Parser L) :=
  if check_keyword p kw then
    let* p := advance p in
    let* '(e, p) := parse_expression fuel p in
    Done (match e with Some e => Some (Some e) | None => None end, p)
  else Done (Some None, p).

(** ORDER without BY consumes ORDER and orders by nothing. *)
Definition parse_optional_order_by (fuel : nat) p : outcome (option (list OrderByItem) * Parser L) :=
  if check_keyword p (zstr "ORDER") then
    let* p := advance p in
    if check_keyword p (zstr "BY")
    then let* p := advance p in parse_order_by fuel p
    else Done (Some [], p)
  else Done (Some [], p).

Definition parse_select (fuel : nat) p : outcome (option AstNode * Parser L) :=
  let* p := advance p in
  let* '(is_distinct, p) :=
    if check_keyword p (zstr "DISTINCT")
    then let* p := advance p in Done (true, p) else Done (false, p) in
  let* '(columns, p) := parse_column_list fuel p in
  match columns with
  | None => Done (None, p)
  | Some columns =>
    if negb (token_eqb (cur p) TOKEN_FROM)
    then Done (None, parser_set_error p (zstr "Expected FROM after SELECT columns")) else
    let* p := advance p in
    let* '(table_name, p) := parse_identifier p in
    match table_name with
    | None => Done (None, p)
    | Some table_name =>
      let* '(where_, p) := parse_optional_expr fuel p (zstr "WHERE") in
      match where_ with
      | None => Done (None, p)
      | Some where_ =>
        let* '(order_by, p) := parse_optional_order_by fuel p in
        match order_by with
        | None => Done (None, p)
        | Some order_by =>
          let* '(limit, p) := parse_optional_expr fuel p (zstr "LIMIT") in
          match limit with
          | None => Done (None, p)
          | Some limit =>
            let* '(offset, p) := parse_optional_expr fuel p (zstr "OFFSET") in
            match offset with
            | None => Done (None, p)
            | Some offset =>
              let* p := expect_token p TOKEN_SEMICOLON (zstr "Expected ';' after SELECT") in
              Done (Some (AST_SELECT columns is_distinct table_name where_ order_by limit offset), p)
            end
          end
        end
      end
    end
  end.

Definition parse_transaction p : outcome (option AstNode * Parser L) :=
  let tx_type :=
    match cur p with
    | TOKEN_BEGIN => Some TX_BEGIN
    | TOKEN_COMMIT => Some TX_COMMIT
    | TOKEN_ROLLBACK => Some TX_ROLLBACK
    | _ => None
    end in
  match tx_type with
  | None => Done (None, parser_set_error p (zstr "Invalid transaction statement"))
  | Some tx_type =>
    let* p := advance p in
    let* p := if (match tx_type with TX_BEGIN => true | _ => false end) && check_keyword p (zstr "TRANSACTION")
              then advance p else Done p in
    let* p := expect_token p TOKEN_SEMICOLON (zstr "Expected ';' after transaction statement") in
    Done (Some (AST_TRANSACTION tx_type), p)
  end.

Definition parse_statement (fuel : nat) p : outcome (option AstNode * Parser L) :=
  match cur p with
  | TOKEN_CREATE =>
      let* p := advance p in
      if token_eqb (cur p) TOKEN_TABLE then let* p := advance p in parse_create_table fuel p
      else if token_eqb (cur p) TOKEN_INDEX then let* p := advance p in parse_create_index p
      else Done (None, parser_set_error p (zstr "Expected TABLE or INDEX after CREATE"))
  | TOKEN_DROP =>
      let* p := advance p in
      if token_eqb (cur p) TOKEN_TABLE then let* p := advance p in parse_drop_table p
      else if token_eqb (cur p) TOKEN_INDEX then let* p := advance p in parse_drop_index p
      else Done (None, parser_set_error p (zstr "Expected TABLE or INDEX after DROP"))
  | TOKEN_INSERT => parse_insert fuel p
  | TOKEN_UPDATE => parse_update fuel p
  | TOKEN_DELETE => parse_delete fuel p
  | TOKEN_SELECT => parse_select fuel p
  | TOKEN_BEGIN | TOKEN_COMMIT | TOKEN_ROLLBACK => parse_transaction p
  | _ => Done (None, parser_set_error p (zstr "Unexpected token at start of statement"))
  end.

Definition parser_parse (fuel : nat) p : outcome (option AstNode * Parser L) :=
  if has_error p then Done (None, p) else parse_statement fuel p.

(** The parser on a fresh token source. *)
Definition parser_start (l : L) : outcome (Parser L) :=
  let* '(t, l) := ts_next l in
  Done (mkParser l t false [] 0 0).
End parser.

Definition parser_create (text : list Z) : outcome (option (Parser Lexer)) :=
  match lexer_create text with
  | None => Done None
  | Some l => let* p := parser_start l in Done (Some p)
  end.
