(* ===== verification/ParserSpec.v ===== *)
(** The language of the parser: a printer of expressions and statements as symbols,
    the proof that parsing undoes printing, termination, and the statements the
    parser cannot read. *)
From Stdlib Require Import ZArith Lia String.
From stdpp Require Import base numbers option list sets.
From S2P Require Import Prelude CString Double Lexer Ast Parser.

(** ** Symbols *)

(** What the parser sees of a token. *)
Inductive Sym : Type :=
  | Kw (type : TokenType)
  | Id (name : list Z)
  | LitInt (z : Z)
  | LitReal (d : double)
  | LitStr (s : list Z).

Definition shows (t : Token) (s : Sym) : Prop :=
  match s with
  | Kw ty => t_type t = ty /\ ty <> TOKEN_IDENTIFIER
  | Id n => t_type t = TOKEN_IDENTIFIER /\ lexeme t = n
  | LitInt z => t_type t = TOKEN_INTEGER /\ t_value t = TVInt z
  | LitReal d => t_type t = TOKEN_REAL /\ t_value t = TVFloat d
  | LitStr s => t_type t = TOKEN_STRING /\ t_value t = TVString s
  end.

Definition sym_type (s : Sym) : TokenType :=
  match s with
  | Kw ty => ty
  | Id _ => TOKEN_IDENTIFIER
  | LitInt _ => TOKEN_INTEGER
  | LitReal _ => TOKEN_REAL
  | LitStr _ => TOKEN_STRING
  end.

(** Words [check_keyword] would take for keywords in an identifier. *)
Definition reserved_words : list (list Z) :=
  (fst <$> keyword_tokens) ++
  [zstr "REAL"; zstr "TEXT"; zstr "BLOB"; zstr "DISTINCT"; zstr "TRANSACTION"].

Definition name_ok (n : list Z) : bool := bool_decide ((toupper <$> n) ∉ reserved_words).

(** Decides the comparisons of token types. *)
Ltac tokens :=
  repeat match goal with
  | |- context [token_eqb ?t ?u] =>
      first [change (token_eqb t u) with true | change (token_eqb t u) with false]; cbn [negb andb orb]
  end.

(** ** Printing expressions *)

Definition paren (b : bool) (ss : list Sym) : list Sym :=
  if b then Kw TOKEN_LPAREN :: ss ++ [Kw TOKEN_RPAREN] else ss.

(** Items separated by commas. *)
Fixpoint commas (sss : list (list Sym)) : list Sym :=
  match sss with
  | [] => []
  | [ss] => ss
  | ss :: sss => ss ++ Kw TOKEN_COMMA :: commas sss
  end.

(** The operators with two operands; the lexer never produces the last three. *)
Definition binary_ops : list TokenType :=
  [TOKEN_OR; TOKEN_AND; TOKEN_EQ; TOKEN_NEQ; TOKEN_LT; TOKEN_GT; TOKEN_LTE; TOKEN_GTE;
   TOKEN_PLUS; TOKEN_MINUS; TOKEN_STAR; TOKEN_SLASH; TOKEN_PERCENT;
   TOKEN_LIKE_OP; TOKEN_IN_OP; TOKEN_BETWEEN_OP].

Definition unary_ops : list TokenType := [TOKEN_NOT; TOKEN_MINUS; TOKEN_PLUS].

Definition op_token (op : Z) : TokenType := default TOKEN_EOF (token_types !! Z.to_nat op).

(** The places an expression can stand in: a whole expression, an operand of NOT or
    on the left of an operator, a literal. *)
Inductive Level : Type := LExpr | LNot | LLit.

(** The text of an expression with the fewest parentheses this grammar allows:
    every operator binds what follows it as far as it goes. *)
Fixpoint print_expr (lv : Level) (e : Expression) : list Sym :=
  match e with
  | EXPR_LITERAL_INT z => [LitInt z]
  | EXPR_LITERAL_FLOAT d => [LitReal d]
  | EXPR_LITERAL_STRING s => [LitStr s]
  | EXPR_LITERAL_NULL => [Kw TOKEN_NULL]
  | EXPR_COLUMN idx (Some n) => if idx =? 0 then [Id (zstr "t"); Kw TOKEN_DOT; Id n] else [Id n]
  | EXPR_UNARY op e =>
      if op =? token_code TOKEN_NOT
      then paren (match lv with LLit => true | _ => false end) (Kw TOKEN_NOT :: print_expr LNot e)
      else Kw (op_token op) :: print_expr LLit e
  | EXPR_BINARY e1 op e2 =>
      paren (match lv with LExpr => false | _ => true end)
        (print_expr LNot e1 ++ Kw (op_token op) :: print_expr LExpr e2)
  | EXPR_LIKE e1 e2 _ =>
      paren (match lv with LExpr => false | _ => true end)
        (print_expr LNot e1 ++ Kw TOKEN_LIKE :: print_expr LExpr e2)
  | EXPR_IN e items _ =>
      paren (match lv with LExpr => false | _ => true end)
        (print_expr LNot e ++ Kw TOKEN_IN :: paren true (commas (print_expr LExpr <$> items)))
  | _ => []
  end.

Definition is_op (ops : list TokenType) (op : Z) : bool := existsb (fun ty => op =? token_code ty) ops.

Lemma is_op_elim ops op : is_op ops op = true -> exists ty, op = token_code ty /\ ty ∈ ops.
Proof.
  unfold is_op. rewrite existsb_exists. intros (ty & Hin & E). exists ty.
  split; [lia|by apply list_elem_of_In].
Qed.

Lemma op_token_code ty : op_token (token_code ty) = ty.
Proof. by destruct ty. Qed.

#[local] Arguments is_op : simpl never.
#[local] Arguments op_token : simpl never.
#[local] Arguments token_code : simpl never.
#[local] Arguments name_ok : simpl never.

(** The expressions the parser can produce. *)
Fixpoint printable (e : Expression) : bool :=
  match e with
  | EXPR_LITERAL_INT _ | EXPR_LITERAL_FLOAT _ | EXPR_LITERAL_STRING _ | EXPR_LITERAL_NULL => true
  | EXPR_COLUMN idx (Some n) => ((idx =? 0) || (idx =? -1)) && name_ok n
  | EXPR_UNARY op e =>
      is_op unary_ops op && printable e
  | EXPR_BINARY e1 op e2 =>
      is_op binary_ops op && printable e1 && printable e2
  | EXPR_LIKE e1 e2 not => negb not && printable e1 && printable e2
  | EXPR_IN e items not => negb not && printable e && forallb printable items
  | _ => false
  end.

Lemma print_expr_first lv e : printable e = true ->
  exists s ss, print_expr lv e = s :: ss /\ sym_type s <> TOKEN_RPAREN.
Proof.
  revert lv. induction e as [e Hl|e1 op e2 IH _|op e _|e items not IH _|e1 e2 e3 not _ _ _|e1 e2 not IH _]
    using expression_induction; intros lv Hp; try discriminate Hp.
  - destruct e as [| | | | |idx [n|]| | | | | | | |]; try discriminate Hp; try done; simpl;
      try destruct (idx =? 0); by eexists _, _.
  - simpl in Hp. apply andb_prop in Hp as [[_ Hp]%andb_prop _].
    destruct (IH LNot Hp) as (s & ss & E & ?). simpl. rewrite E. destruct lv; simpl; eauto.
  - simpl in Hp. apply andb_prop in Hp as [(ty & -> & Hin)%is_op_elim _].
    simpl. rewrite op_token_code.
    repeat (apply elem_of_cons in Hin as [->|Hin]; [destruct lv; by eexists _, _|]). by apply elem_of_nil in Hin.
  - simpl in Hp. apply andb_prop in Hp as [[_ Hp]%andb_prop _].
    destruct (IH LNot Hp) as (s & ss & E & ?). simpl. rewrite E. destruct lv; simpl; eauto.
  - simpl in Hp. apply andb_prop in Hp as [[_ Hp]%andb_prop _].
    destruct (IH LNot Hp) as (s & ss & E & ?). simpl. rewrite E. destruct lv; simpl; eauto.
Qed.

(** ** Printing statements *)

Definition print_type (ty : ColumnType) : Sym :=
  match ty with
  | COL_TYPE_INTEGER => Kw TOKEN_INTEGER_KW
  | COL_TYPE_FLOAT => Kw TOKEN_REAL_KW
  | COL_TYPE_TEXT => Kw TOKEN_TEXT_KW
  | COL_TYPE_BLOB => Kw TOKEN_BLOB_KW
  end.

(** The symbols of an optional part. *)
Definition opt (b : bool) (ss : list Sym) : list Sym := if b then ss else [].

Definition opt_expr (kw : TokenType) (e : option Expression) : list Sym :=
  match e with Some e => Kw kw :: print_expr LExpr e | None => [] end.

Definition print_column_def (c : ColumnDef) : list Sym :=
  Id (cd_name c) :: print_type (cd_type c) ::
  opt (cd_not_null c) [Kw TOKEN_NOT; Kw TOKEN_NULL] ++
  opt (cd_primary_key c) [Kw TOKEN_PRIMARY; Kw TOKEN_KEY] ++
  opt (cd_autoincrement c) [Kw TOKEN_AUTOINCREMENT] ++
  opt_expr TOKEN_DEFAULT (cd_default c).

Definition is_star (c : ColumnList) : bool := bool_decide (cl_name c = zstr "*").

Definition print_column (c : ColumnList) : list Sym :=
  if is_star c then [Kw TOKEN_STAR] else
  Id (cl_name c) :: match cl_alias c with Some a => [Kw TOKEN_AS; Id a] | None => [] end.

Definition print_row (es : ValueList) : list Sym := paren true (commas (print_expr LExpr <$> es)).

Definition print_set (c : SetClause) : list Sym :=
  Id (sc_column c) :: Kw TOKEN_EQ :: print_expr LExpr (sc_value c).

Definition print_order (o : OrderByItem) : list Sym :=
  Id (ob_column o) :: opt (ob_descending o) [Kw TOKEN_DESC].

Definition print_stmt (s : AstNode) : list Sym :=
  match s with
  | AST_CREATE_TABLE t ine cols =>
      Kw TOKEN_CREATE :: Kw TOKEN_TABLE ::
      opt ine [Kw TOKEN_IF; Kw TOKEN_NOT; Kw TOKEN_EXISTS] ++
      Id t :: paren true (commas (print_column_def <$> cols)) ++ [Kw TOKEN_SEMICOLON]
  | AST_DROP_TABLE t ie =>
      Kw TOKEN_DROP :: Kw TOKEN_TABLE :: opt ie [Kw TOKEN_IF; Kw TOKEN_EXISTS] ++
      [Id t; Kw TOKEN_SEMICOLON]
  | AST_CREATE_INDEX i t c u =>
      Kw TOKEN_CREATE :: Kw TOKEN_INDEX :: opt u [Kw TOKEN_UNIQUE] ++
      [Id i; Kw TOKEN_ON; Id t; Kw TOKEN_LPAREN; Id c; Kw TOKEN_RPAREN; Kw TOKEN_SEMICOLON]
  | AST_DROP_INDEX i => [Kw TOKEN_DROP; Kw TOKEN_INDEX; Id i; Kw TOKEN_SEMICOLON]
  | AST_INSERT t cols rows =>
      Kw TOKEN_INSERT :: Kw TOKEN_INTO :: Id t ::
      opt (negb (bool_decide (cols = []))) (paren true (commas (print_column <$> cols))) ++
      Kw TOKEN_VALUES :: commas (print_row <$> rows) ++ [Kw TOKEN_SEMICOLON]
  | AST_UPDATE t sets w =>
      Kw TOKEN_UPDATE :: Id t :: Kw TOKEN_SET :: commas (print_set <$> sets) ++
      Kw TOKEN_WHERE :: print_expr LExpr w ++ [Kw TOKEN_SEMICOLON]
  | AST_DELETE t w =>
      Kw TOKEN_DELETE :: Kw TOKEN_FROM :: Id t :: Kw TOKEN_WHERE :: print_expr LExpr w ++
      [Kw TOKEN_SEMICOLON]
  | AST_SELECT cols d t w o l f =>
      Kw TOKEN_SELECT :: commas (print_column <$> cols) ++ Kw TOKEN_FROM :: Id t ::
      opt_expr TOKEN_WHERE w ++
      opt (negb (bool_decide (o = []))) (Kw TOKEN_ORDER :: Kw TOKEN_BY :: commas (print_order <$> o)) ++
      opt_expr TOKEN_LIMIT l ++ opt_expr TOKEN_OFFSET f ++ [Kw TOKEN_SEMICOLON]
  | AST_TRANSACTION ty =>
      [Kw (match ty with TX_BEGIN => TOKEN_BEGIN | TX_COMMIT => TOKEN_COMMIT
                       | TX_ROLLBACK => TOKEN_ROLLBACK end); Kw TOKEN_SEMICOLON]
  end.

Definition opt_printable (e : option Expression) : bool :=
  match e with Some e => printable e | None => true end.

Definition nonempty {A} (l : list A) : bool := match l with [] => false | _ => true end.

(** A column of SELECT; ["*"] has to be the last one. *)
Definition select_column_ok (c : ColumnList) (last : bool) : bool :=
  if is_star c then last && bool_decide (cl_alias c = None) else name_ok (cl_name c).

Fixpoint select_columns_ok (cols : list ColumnList) : bool :=
  match cols with
  | [] => false
  | [c] => select_column_ok c true
  | c :: cols => select_column_ok c false && select_columns_ok cols
  end.

Definition insert_column_ok (c : ColumnList) : bool :=
  negb (is_star c) && bool_decide (cl_alias c = None).

Definition row_ok (es : ValueList) : bool := nonempty es && forallb printable es.

(** The statements that can be written for this parser. *)
Definition stmt_printable (s : AstNode) : bool :=
  match s with
  | AST_CREATE_TABLE _ _ cols => nonempty cols && forallb (fun c => opt_printable (cd_default c)) cols
  | AST_CREATE_INDEX i _ _ _ => name_ok i
  | AST_INSERT _ cols rows =>
      forallb insert_column_ok cols && nonempty rows &&
      forallb row_ok rows
  | AST_UPDATE _ sets w => nonempty sets && forallb (fun c => printable (sc_value c)) sets && printable w
  | AST_DELETE _ w => printable w
  | AST_SELECT cols d _ w o l f =>
      select_columns_ok cols && negb d && opt_printable w && opt_printable l && opt_printable f
  | AST_DROP_TABLE _ _ | AST_DROP_INDEX _ | AST_TRANSACTION _ => true
  end.

(** ** Reading symbols *)

Section spec.
Context {L : Type} `{TokenSource L}.
Implicit Types p q r : Parser L.

(** The parser [p] stands before the symbols [ss]; behind them it is [q]. *)
Fixpoint feeds p (ss : list Sym) q : Prop :=
  match ss with
  | [] => p = q
  | s :: ss => has_error p = false /\ shows (p_current p) s /\
      exists p', advance p = Done p' /\ feeds p' ss q
  end.

Lemma feeds_app p ss1 ss2 q :
  feeds p (ss1 ++ ss2) q <-> exists r, feeds p ss1 r /\ feeds r ss2 q.
Proof.
  revert p. induction ss1 as [|s ss1 IH]; intros p; simpl.
  - split; [by exists p|]. by intros (r & -> & ?).
  - split.
    + intros (He & Hs & p' & Ha & Hf). apply IH in Hf as (r & H1 & H2). exists r. eauto 6.
    + intros (r & (He & Hs & p' & Ha & H1) & H2). split_and!; [done..|].
      exists p'. split; [done|]. apply IH. eauto.
Qed.

Lemma shows_type t s : shows t s -> t_type t = sym_type s.
Proof. by destruct s; intros [-> ?]. Qed.

Lemma advance_no_error p q : has_error p = false -> advance p = Done q -> has_error q = false.
Proof.
  unfold advance. intros E. rewrite E. destruct (ts_next (lexer p)) as [[t l]| |]; [|done|done].
  rewrite bind_Done. by intros [= <-].
Qed.

Lemma feeds_no_error p ss q : has_error p = false -> feeds p ss q -> has_error q = false.
Proof.
  revert p. induction ss as [|s ss IH]; intros p He; simpl; [by intros <-|].
  intros (_ & _ & p' & Ha & Hf). eapply IH, Hf. by eapply advance_no_error.
Qed.

Lemma token_eqb_refl t : token_eqb t t = true.
Proof. by apply bool_decide_eq_true. Qed.

Lemma token_eqb_ne t u : t <> u -> token_eqb t u = false.
Proof. apply bool_decide_eq_false_2. Qed.

(** What [check_keyword] answers at a symbol. *)
Lemma check_keyword_kw p ty kw :
  shows (p_current p) (Kw ty) ->
  check_keyword p kw = match keyword_to_token_type kw with Some t => token_eqb t ty | None => false end.
Proof.
  intros [Ht Hne]. unfold check_keyword, cur. rewrite Ht, (token_eqb_ne ty TOKEN_IDENTIFIER) by done.
  destruct (keyword_to_token_type kw) as [t|]; [|done]. by destruct (token_eqb t ty).
Qed.

Lemma keyword_not_identifier kw : keyword_to_token_type kw <> Some TOKEN_IDENTIFIER.
Proof.
  unfold keyword_to_token_type. destruct (list_find _ _) as [[i [k t]]|] eqn:E; [|done].
  apply list_find_Some in E as (Hi & _ & _). simpl. intros [= ->].
  assert (forallb (fun x : list Z * TokenType => negb (token_eqb (snd x) TOKEN_IDENTIFIER)) keyword_tokens = true)
    as Hall by reflexivity.
  rewrite forallb_forall in Hall. specialize (Hall (k, TOKEN_IDENTIFIER)).
  discriminate Hall. apply list_elem_of_In. by eapply list_elem_of_lookup_2.
Qed.

Lemma check_keyword_id p n kw :
  shows (p_current p) (Id n) -> name_ok n = true -> kw ∈ reserved_words -> check_keyword p kw = false.
Proof.
  intros [Ht Hn] Hok Hkw. unfold name_ok in Hok. apply bool_decide_eq_true in Hok.
  unfold check_keyword, cur, token_get_text. rewrite Ht, Hn, token_eqb_refl.
  assert (bool_decide (toupper <$> n = kw) = false) as -> by (apply bool_decide_eq_false_2; congruence).
  destruct (keyword_to_token_type kw) as [t|] eqn:E; [|done].
  rewrite token_eqb_ne; [done|]. intros ->. by apply (keyword_not_identifier kw).
Qed.

Lemma check_keyword_lit p s kw :
  shows (p_current p) s -> (match s with Kw _ | Id _ => False | _ => True end) ->
  check_keyword p kw = false.
Proof.
  intros Hs Hl. apply shows_type in Hs. unfold check_keyword, cur. rewrite Hs.
  assert (sym_type s ∈ [TOKEN_INTEGER; TOKEN_REAL; TOKEN_STRING]) as Hin
    by (destruct s; simpl; try done; repeat constructor).
  rewrite (token_eqb_ne (sym_type s)) by (intros E; rewrite E in Hin; set_solver).
  destruct (keyword_to_token_type kw) as [t|] eqn:E; [|done].
  rewrite token_eqb_ne; [done|]. intros ->. unfold keyword_to_token_type in E.
  destruct (list_find _ _) as [[i [k u]]|] eqn:E'; [|done]. simpl in E. injection E as ->.
  apply list_find_Some in E' as (Hi & _ & _).
  assert (forallb (fun x : list Z * TokenType =>
    negb (bool_decide (snd x ∈ [TOKEN_INTEGER; TOKEN_REAL; TOKEN_STRING]))) keyword_tokens = true)
    as Hall by reflexivity.
  rewrite forallb_forall in Hall. specialize (Hall (k, sym_type s)).
  rewrite negb_true_iff, bool_decide_eq_false in Hall. apply Hall; [|done].
  apply list_elem_of_In. by eapply list_elem_of_lookup_2.
Qed.

(** ** Expressions *)

Definition run (lv : Level) : nat -> Parser L -> outcome (option Expression * Parser L) :=
  match lv with LExpr => parse_expression | LNot => parse_unary_not | LLit => parse_literal end.

(** Fuel that is enough for [n] symbols. *)
Definition cost (lv : Level) (n : nat) : nat :=
  match lv with LExpr => 4 * n + 2 | LNot => 4 * n + 1 | LLit => 4 * n end.

(** The tokens the operator loop goes on at, and what must not follow an expression for it to end there. *)
Definition operator (ty : TokenType) : bool :=
  bool_decide (ty ∈ [TOKEN_LIKE; TOKEN_IN; TOKEN_BETWEEN]) ||
  (negb (get_precedence ty =? 0) && negb (token_eqb ty TOKEN_NOT)).

Definition continues (lv : Level) (ty : TokenType) : bool :=
  token_eqb ty TOKEN_DOT || match lv with LExpr => operator ty | _ => false end.

Definition parses (lv : Level) (e : Expression) : Prop := forall fuel p q,
  has_error p = false -> continues lv (cur q) = false -> feeds p (print_expr lv e) q ->
  (cost lv (length (print_expr lv e)) <= fuel)%nat -> run lv fuel p = Done (Some e, q).

(** The equations of the mutual recursion. *)
Lemma parse_literal_paren fuel p : cur p = TOKEN_LPAREN ->
  parse_literal (S fuel) p =
  let* p := advance p in
  let* '(expr, p) := parse_expression fuel p in
  if token_eqb (cur p) TOKEN_RPAREN
  then let* p := advance p in Done (expr, p)
  else Done (expr, parser_set_error p (zstr "Expected ')'")).
Proof. intros E. cbn. by rewrite E. Qed.

Lemma parse_literal_sign fuel p : cur p = TOKEN_MINUS \/ cur p = TOKEN_PLUS ->
  parse_literal (S fuel) p =
  let* p' := advance p in
  let* '(operand, p') := parse_literal fuel p' in
  Done (EXPR_UNARY (token_code (cur p)) <$> operand, p').
Proof. intros [E|E]; cbn; by rewrite E. Qed.

Lemma parse_unary_not_S fuel p :
  parse_unary_not (S fuel) p =
  if check_keyword p (zstr "NOT") then
    let* p := advance p in
    let* '(operand, p) := parse_unary_not fuel p in
    Done (EXPR_UNARY (token_code TOKEN_NOT) <$> operand, p)
  else parse_literal fuel p.
Proof. done. Qed.

Lemma parse_expression_S fuel p :
  parse_expression (S fuel) p =
  let* '(lhs, p) := parse_unary_not fuel p in
  match lhs with
  | None => Done (None, p)
  | Some lhs => if has_error p then Done (Some lhs, p) else parse_operators fuel lhs p
  end.
Proof. done. Qed.

Lemma parse_binary_expr_prec fuel m p : parse_binary_expr fuel m p = parse_expression fuel p.
Proof. by destruct fuel. Qed.

Section operator.
Context (binary : Z -> Parser L -> outcome (option Expression * Parser L))
  (operators : Expression -> Parser L -> outcome (option Expression * Parser L))
  (in_items : list Expression -> Parser L -> outcome (option (list Expression) * Parser L)).

(** One turn of the loop at an operator. *)
Lemma parse_operator_binary lhs p : cur p ∈ binary_ops ->
  parse_operator binary operators in_items lhs p =
  let* p' := advance p in
  let* '(rhs, p') := binary (get_precedence (cur p) + 1) p' in
  match rhs with
  | None => Done (None, p')
  | Some rhs => operators (EXPR_BINARY lhs (token_code (cur p)) rhs) p'
  end.
Proof.
  intros E. unfold parse_operator, binary_ops in *. generalize dependent (cur p). intros op E.
  repeat (apply elem_of_cons in E as [->|E]; [done|]). by apply elem_of_nil in E.
Qed.

Lemma parse_operator_stop lhs q :
  operator (cur q) = false -> parse_operator binary operators in_items lhs q = Done (Some lhs, q).
Proof.
  unfold operator, parse_operator. generalize (cur q). intros op Hc.
  by destruct op.
Qed.
End operator.

Lemma parse_operators_S fuel lhs p :
  parse_operators (S fuel) lhs p =
  parse_operator (parse_binary_expr fuel) (parse_operators fuel) (parse_in_items fuel) lhs p.
Proof. done. Qed.

Lemma parse_in_items_S fuel items p :
  parse_in_items (S fuel) items p =
  let* '(e, p) := parse_expression fuel p in
  match e with
  | None => Done (None, p)
  | Some e =>
      if token_eqb (cur p) TOKEN_COMMA
      then let* p := advance p in parse_in_items fuel (items ++ [e]) p
      else Done (Some (items ++ [e]), p)
  end.
Proof. cbn. by rewrite parse_binary_expr_prec. Qed.

Lemma parse_operators_stop fuel e q :
  continues LExpr (cur q) = false -> parse_operators (S fuel) e q = Done (Some e, q).
Proof. intros [_ Hc]%orb_false_iff. by apply parse_operator_stop. Qed.

(** A symbol that cannot begin NOT. *)
Definition plain (s : Sym) : bool :=
  match s with Kw ty => negb (token_eqb ty TOKEN_NOT) | Id n => name_ok n | _ => true end.

Lemma plain_not p s : shows (p_current p) s -> plain s = true -> check_keyword p (zstr "NOT") = false.
Proof.
  intros Hs Hp. destruct s; try (by eapply check_keyword_lit).
  - rewrite (check_keyword_kw _ _ _ Hs). simpl in Hp. apply negb_true_iff, bool_decide_eq_false in Hp.
    change (token_eqb TOKEN_NOT type = false). apply token_eqb_ne. congruence.
  - eapply check_keyword_id; [done..|]. by apply (bool_decide_unpack (_ ∈ _)).
Qed.

Lemma literal_plain e : printable e = true ->
  exists s ss, print_expr LLit e = s :: ss /\ plain s = true.
Proof.
  destruct e as [| | | | |idx [n|]|e1 op e2|op e| | | |e items not|e1 e2 e3 not|e1 e2 not];
    simpl; intros Hp; try discriminate Hp; try (by eexists _, _).
  - destruct (idx =? 0); eexists _, _; split; try done. by apply andb_prop in Hp as [_ ?].
  - apply andb_prop in Hp as [(ty & -> & Hin)%is_op_elim _]. rewrite op_token_code.
    repeat (apply elem_of_cons in Hin as [->|Hin]; [by eexists _, _|]). by apply elem_of_nil in Hin.
Qed.

Lemma parses_not_of_literal e :
  printable e = true -> print_expr LNot e = print_expr LLit e -> parses LLit e -> parses LNot e.
Proof.
  intros Hp Heq HL fuel p q He Hc Hf Hfuel. rewrite Heq in Hf, Hfuel. simpl in Hfuel.
  destruct fuel as [|fuel]; [lia|]. cbn [run]. rewrite parse_unary_not_S.
  destruct (literal_plain e Hp) as (s & ss & E & Hs).
  rewrite (plain_not p s); [|rewrite E in Hf; apply Hf|done]. apply HL; try done. simpl. lia.
Qed.

Lemma parses_expr_of_not e :
  print_expr LExpr e = print_expr LNot e -> parses LNot e -> parses LExpr e.
Proof.
  intros Heq HL fuel p q He Hc Hf Hfuel. rewrite Heq in Hf, Hfuel. simpl in Hfuel.
  destruct fuel as [|fuel]; [lia|]. cbn [run]. rewrite parse_expression_S.
  rewrite (HL fuel p q : _ -> _ -> _ -> _ -> parse_unary_not fuel p = _), bind_Done; [|done| |done|simpl; lia].
  - rewrite (feeds_no_error _ _ _ He Hf). destruct fuel; [lia|]. by apply parse_operators_stop.
  - apply orb_false_iff in Hc as [Hc _]. unfold continues. by rewrite Hc.
Qed.

Lemma parses_literal_of_expr e :
  print_expr LLit e = paren true (print_expr LExpr e) -> parses LExpr e -> parses LLit e.
Proof.
  intros Heq HL fuel p q He Hc Hf Hfuel. rewrite Heq in Hf, Hfuel. simpl in Hfuel, Hf.
  rewrite length_app in Hfuel. simpl in Hfuel.
  destruct fuel as [|fuel]; [lia|]. destruct Hf as (_ & [Hs _] & p1 & Ha & Hf).
  apply feeds_app in Hf as (p2 & Hf & (He2 & [Hs2 _] & q' & Ha2 & <-)).
  cbn [run]. rewrite parse_literal_paren, Ha, bind_Done by exact Hs.
  rewrite (HL fuel p1 p2 : _ -> _ -> _ -> _ -> parse_expression fuel p1 = _), bind_Done; [|by apply (advance_no_error p)| |done|simpl; lia].
  - unfold cur. rewrite Hs2. cbn [token_eqb]. rewrite token_eqb_refl. by rewrite Ha2.
  - unfold cur. rewrite Hs2. reflexivity.
Qed.

Lemma has_error_ok p ss q p' :
  feeds p ss q -> has_error p = false -> advance p = Done p' -> has_error p' = false.
Proof. intros _. apply advance_no_error. Qed.

(** One symbol is consumed. *)
Lemma feeds_cons p s ss q :
  feeds p (s :: ss) q ->
  exists p', has_error p' = false /\ shows (p_current p) s /\ cur p = sym_type s /\
    advance p = Done p' /\ feeds p' ss q.
Proof.
  intros (He & Hs & p' & Ha & Hf). exists p'. pose proof (shows_type _ _ Hs).
  split_and!; eauto using advance_no_error.
Qed.

Lemma parse_identifier_id p n ss q :
  feeds p (Id n :: ss) q ->
  exists p', parse_identifier p = Done (Some n, p') /\ has_error p' = false /\ feeds p' ss q.
Proof.
  intros (p' & He & [Ht Hn] & Hc & Ha & Hf)%feeds_cons. exists p'.
  unfold parse_identifier. rewrite Hc. simpl. rewrite Ha, bind_Done.
  by rewrite <- Hn.
Qed.

(** Parsing of the leaves. *)
Lemma parses_leaf e :
  match e with
  | EXPR_LITERAL_INT _ | EXPR_LITERAL_FLOAT _ | EXPR_LITERAL_STRING _ | EXPR_LITERAL_NULL
  | EXPR_COLUMN _ (Some _) => True
  | _ => False
  end -> printable e = true -> parses LLit e.
Proof.
  intros Hl Hp fuel p q He Hc Hf Hfuel. destruct (literal_plain e Hp) as (s & ss & Hlen & _).
  destruct fuel as [|fuel]; [rewrite Hlen in Hfuel; simpl in Hfuel; lia|]. clear Hlen s ss.
  destruct e as [| | | | |idx [n|]| | | | | | | |]; try done; simpl in Hf |- *.
  1-4: destruct Hf as (_ & [Ht Hv] & q' & Ha & <-); unfold cur; rewrite Ht, ?Hv, ?Ha; done.
  apply andb_prop in Hp as [Hidx Hn]. destruct (idx =? 0) eqn:E.
  - change (feeds p [Id (zstr "t"); Kw TOKEN_DOT; Id n] q) in Hf.
    pose proof Hf as (_ & _ & _ & Hcur & _)%feeds_cons. rewrite Hcur. cbn [sym_type].
    apply parse_identifier_id in Hf as (p1 & -> & He1 & Hf). rewrite bind_Done.
    apply feeds_cons in Hf as (p2 & He2 & _ & -> & Ha & Hf). cbn [sym_type].
    rewrite token_eqb_refl, Ha, bind_Done.
    apply parse_identifier_id in Hf as (p3 & -> & He3 & <-). rewrite bind_Done.
    by apply Z.eqb_eq in E as ->.
  - change (feeds p [Id n] q) in Hf.
    pose proof Hf as (_ & _ & _ & Hcur & _)%feeds_cons. rewrite Hcur. cbn [sym_type].
    apply parse_identifier_id in Hf as (p1 & -> & He1 & <-). rewrite bind_Done.
    apply orb_false_iff in Hc as [-> _].
    simpl in Hidx. by apply Z.eqb_eq in Hidx as ->.
Qed.

Lemma parses_sign ty e :
  ty = TOKEN_MINUS \/ ty = TOKEN_PLUS -> parses LLit e -> parses LLit (EXPR_UNARY (token_code ty) e).
Proof.
  intros Hty HL fuel p q He Hc Hf Hfuel.
  assert (print_expr LLit (EXPR_UNARY (token_code ty) e) = Kw ty :: print_expr LLit e) as Heq
    by (destruct Hty as [-> | ->]; reflexivity).
  rewrite Heq in Hf, Hfuel. simpl in Hfuel. destruct fuel as [|fuel]; [lia|].
  apply feeds_cons in Hf as (p1 & He1 & _ & Hcur & Ha & Hf).
  specialize (HL fuel p1 q He1 Hc Hf ltac:(simpl; lia)). cbn [run] in HL.
  cbn [run]. rewrite parse_literal_sign; rewrite Hcur; [|done].
  cbn [sym_type]. by rewrite Ha, bind_Done, HL.
Qed.

Lemma parses_not e : parses LNot e -> parses LNot (EXPR_UNARY (token_code TOKEN_NOT) e).
Proof.
  intros HL fuel p q He Hc Hf Hfuel.
  change (feeds p (Kw TOKEN_NOT :: print_expr LNot e) q) in Hf.
  change (4 * S (length (print_expr LNot e)) + 1 <= fuel)%nat in Hfuel.
  destruct fuel as [|fuel]; [lia|].
  apply feeds_cons in Hf as (p1 & He1 & Hs & Hcur & Ha & Hf).
  specialize (HL fuel p1 q He1 Hc Hf ltac:(simpl; lia)). cbn [run] in HL.
  cbn [run]. rewrite parse_unary_not_S. rewrite (check_keyword_kw _ _ _ Hs).
  change (keyword_to_token_type (zstr "NOT")) with (Some TOKEN_NOT). cbv iota.
  by rewrite token_eqb_refl, Ha, bind_Done, HL.
Qed.

(** An operator and what follows it, after the left operand. *)
Definition operates (rest : list Sym) (lhs e : Expression) : Prop := forall fuel p q,
  has_error p = false -> continues LExpr (cur q) = false -> feeds p rest q ->
  (4 * length rest + 1 <= fuel)%nat -> parse_operators fuel lhs p = Done (Some e, q).

Lemma parses_infix e1 e rest :
  print_expr LExpr e = print_expr LNot e1 ++ rest ->
  (match rest with Kw ty :: _ => continues LNot ty = false | _ => False end) ->
  parses LNot e1 -> operates rest e1 e -> parses LExpr e.
Proof.
  intros Heq Hr HL Hop fuel p q He Hc Hf Hfuel. rewrite Heq in Hf, Hfuel. simpl in Hfuel.
  rewrite length_app in Hfuel. destruct fuel as [|fuel]; [lia|].
  apply feeds_app in Hf as (p1 & Hf1 & Hf2).
  pose proof (feeds_no_error _ _ _ He Hf1) as He1.
  cbn [run]. rewrite parse_expression_S.
  rewrite (HL fuel p p1 : _ -> _ -> _ -> _ -> parse_unary_not fuel p = _), bind_Done, He1; [|done| |done|simpl; lia].
  - apply Hop; try done. lia.
  - destruct rest as [|[ty| | | |] rest]; try done.
    pose proof Hf2 as (_ & _ & _ & -> & _)%feeds_cons. done.
Qed.

Lemma parses_run_expr e fuel m p q :
  parses LExpr e -> has_error p = false -> continues LExpr (cur q) = false ->
  feeds p (print_expr LExpr e) q -> (cost LExpr (length (print_expr LExpr e)) <= fuel)%nat ->
  parse_binary_expr fuel m p = Done (Some e, q).
Proof. rewrite parse_binary_expr_prec. intros HL. apply HL. Qed.

Lemma operates_binary ty e1 e2 :
  ty ∈ binary_ops -> parses LExpr e2 ->
  operates (Kw ty :: print_expr LExpr e2) e1 (EXPR_BINARY e1 (token_code ty) e2).
Proof.
  intros Hty HL fuel p q He Hc Hf Hfuel. simpl in Hfuel. destruct fuel as [|fuel]; [lia|].
  apply feeds_cons in Hf as (p1 & He1 & _ & Hcur & Ha & Hf). cbn [sym_type] in Hcur.
  rewrite parse_operators_S, parse_operator_binary, Hcur, Ha, bind_Done by (by rewrite Hcur).
  rewrite (parses_run_expr e2 fuel _ p1 q HL), bind_Done by (done || simpl; lia).
  destruct fuel; [lia|]. by apply parse_operators_stop.
Qed.

Lemma operates_like e1 e2 :
  parses LExpr e2 -> operates (Kw TOKEN_LIKE :: print_expr LExpr e2) e1 (EXPR_LIKE e1 e2 false).
Proof.
  intros HL fuel p q He Hc Hf Hfuel. simpl in Hfuel. destruct fuel as [|fuel]; [lia|].
  apply feeds_cons in Hf as (p1 & He1 & _ & Hcur & Ha & Hf). cbn [sym_type] in Hcur.
  rewrite parse_operators_S. unfold parse_operator. rewrite Hcur, token_eqb_refl, Ha, bind_Done.
  rewrite (parses_run_expr e2 fuel _ p1 q HL), bind_Done by (done || simpl; lia).
  destruct fuel; [lia|]. by apply parse_operators_stop.
Qed.

Lemma parses_items items acc fuel p q :
  items <> [] -> Forall (parses LExpr) items -> has_error p = false ->
  cur q = TOKEN_RPAREN -> feeds p (commas (print_expr LExpr <$> items)) q ->
  (4 * length (commas (print_expr LExpr <$> items)) + 3 <= fuel)%nat ->
  parse_in_items fuel acc p = Done (Some (acc ++ items), q).
Proof.
  intros Hne Hall. revert acc fuel p. induction Hall as [|e items HL Hall IH]; [done|].
  intros acc fuel p He Hq Hf Hfuel. destruct fuel as [|fuel]; [lia|]. rewrite parse_in_items_S.
  destruct items as [|e' items]; simpl in Hf, Hfuel.
  - rewrite (HL fuel p q : _ -> _ -> _ -> _ -> parse_expression fuel p = _), bind_Done;
      [|done|by rewrite Hq|done|simpl; lia].
    by rewrite Hq.
  - rewrite length_app in Hfuel. simpl in Hfuel.
    apply feeds_app in Hf as (p1 & Hf1 & (p2 & He2 & _ & Hcur & Ha & Hf2)%feeds_cons).
    rewrite (HL fuel p p1 : _ -> _ -> _ -> _ -> parse_expression fuel p = _), bind_Done;
      [|done|by rewrite Hcur|done|simpl; lia].
    rewrite Hcur. cbn [sym_type]. rewrite token_eqb_refl, Ha, bind_Done.
    rewrite (IH ltac:(done) (acc ++ [e]) fuel p2) by (done || simpl; lia).
    by rewrite <- app_assoc.
Qed.

Lemma operates_in e items :
  forallb printable items = true -> Forall (parses LExpr) items ->
  operates (Kw TOKEN_IN :: paren true (commas (print_expr LExpr <$> items))) e (EXPR_IN e items false).
Proof.
  intros Hp Hall fuel p q He Hc Hf Hfuel. simpl in Hfuel. rewrite length_app in Hfuel. simpl in Hfuel.
  destruct fuel as [|fuel]; [lia|].
  apply feeds_cons in Hf as (p1 & He1 & _ & Hcur & Ha & Hf). cbn [sym_type] in Hcur.
  rewrite parse_operators_S. unfold parse_operator.
  rewrite Hcur, (token_eqb_ne TOKEN_IN TOKEN_LIKE), token_eqb_refl, Ha, bind_Done by done.
  apply feeds_cons in Hf as (p2 & He2 & _ & Hcur2 & Ha2 & Hf). rewrite Hcur2. cbn [sym_type].
  rewrite token_eqb_refl, Ha2, bind_Done.
  apply feeds_app in Hf as (p3 & Hf3 & Hf4).
  pose proof Hf4 as (q' & _ & _ & Hcur3 & Ha3 & Hq)%feeds_cons. cbn in Hq. subst q'.
  cbn [sym_type] in Hcur3.
  destruct items as [|e1 items].
  - cbn in Hf3. subst p3. rewrite Hcur3, token_eqb_refl. cbn [negb]. rewrite bind_Done.
    unfold expect_token. rewrite Hcur3, token_eqb_refl. cbn [negb]. rewrite Ha3, bind_Done.
    destruct fuel; [lia|]. by apply parse_operators_stop.
  - destruct (print_expr_first LExpr e1) as (s & ss & Es & Hs); [by apply andb_prop in Hp as [? _]|].
    assert (cur p2 = sym_type s) as Hcur2'.
    { cbn in Hf3. destruct items; simpl in Hf3; rewrite Es in Hf3;
        apply feeds_cons in Hf3 as (? & _ & _ & Hc2 & _); exact Hc2. }
    rewrite Hcur2', token_eqb_ne by done. cbn [negb].
    rewrite (parses_items (e1 :: items) [] fuel p2 p3), bind_Done by (done || lia).
    unfold expect_token. rewrite Hcur3, token_eqb_refl. cbn [negb]. rewrite Ha3, bind_Done.
    destruct fuel; [lia|]. by apply parse_operators_stop.
Qed.

Lemma continues_binary ty : ty ∈ binary_ops -> continues LNot ty = false.
Proof.
  unfold binary_ops. intros E. repeat (apply elem_of_cons in E as [->|E]; [done|]).
  by apply elem_of_nil in E.
Qed.

(** Every level follows from the one the expression is parsed at. *)
Lemma parses_levels_expr e : printable e = true ->
  print_expr LLit e = paren true (print_expr LExpr e) -> print_expr LNot e = print_expr LLit e ->
  parses LExpr e -> forall lv, parses lv e.
Proof.
  intros Hp H1 H2 HE. pose proof (parses_literal_of_expr e H1 HE) as HL.
  intros []; eauto using parses_not_of_literal.
Qed.

Lemma parses_levels_literal e : printable e = true ->
  print_expr LExpr e = print_expr LNot e -> print_expr LNot e = print_expr LLit e ->
  parses LLit e -> forall lv, parses lv e.
Proof.
  intros Hp H1 H2 HL. pose proof (parses_not_of_literal e Hp H2 HL) as HN.
  intros []; eauto using parses_expr_of_not.
Qed.

Lemma parses_all e : printable e = true -> forall lv, parses lv e.
Proof.
  induction e as [e Hl|e1 op e2 IH1 IH2|op e IH|e items not IH IHs|e1 e2 e3 not _ _ _|e1 e2 not IH1 IH2]
    using expression_induction; intros Hp; pose proof Hp as Hp'; simpl in Hp; try discriminate Hp.
  - destruct e as [| | | | |? [|]| | | | | | | |]; try done;
      apply parses_levels_literal; try done; by apply parses_leaf.
  - apply andb_prop in Hp as [[Hop Hp1]%andb_prop Hp2].
    apply is_op_elim in Hop as (ty & -> & Hty).
    apply parses_levels_expr; [done..|].
    apply (parses_infix e1 _ (Kw ty :: print_expr LExpr e2)); [|by apply continues_binary|by apply IH1|by apply operates_binary, IH2].
    simpl. by rewrite op_token_code.
  - apply andb_prop in Hp as [(ty & -> & Hty)%is_op_elim Hp].
    unfold unary_ops in Hty. apply elem_of_cons in Hty as [->|Hty].
    + assert (parses LNot (EXPR_UNARY (token_code TOKEN_NOT) e)) as HN by (by apply parses_not, IH).
      assert (parses LExpr (EXPR_UNARY (token_code TOKEN_NOT) e)) as HE by (by apply parses_expr_of_not).
      intros []; [done..|]. by apply parses_literal_of_expr.
    + assert (ty = TOKEN_MINUS \/ ty = TOKEN_PLUS) as Hsign by (by set_unfold in Hty; naive_solver).
      apply parses_levels_literal; [done|destruct Hsign as [-> | ->]; reflexivity..|].
      apply parses_sign; [done|by apply IH].
  - apply andb_prop in Hp as [[Hn Hp]%andb_prop Hps]. destruct not; [done|].
    apply parses_levels_expr; [done..|].
    apply (parses_infix e _ (Kw TOKEN_IN :: paren true (commas (print_expr LExpr <$> items)))); [done|done|by apply IH|]. apply operates_in; [done|].
    rewrite Forall_forall in IHs |- *. rewrite forallb_forall in Hps.
    intros x Hx. apply IHs; [done|]. by apply Hps, list_elem_of_In.
  - apply andb_prop in Hp as [[Hn Hp1]%andb_prop Hp2]. destruct not; [done|].
    apply parses_levels_expr; [done..|].
    apply (parses_infix e1 _ (Kw TOKEN_LIKE :: print_expr LExpr e2)); [done|done|by apply IH1|]. by apply operates_like, IH2.
Qed.

(** ** Statements *)

Lemma feeds_cur p s ss q : feeds p (s :: ss) q -> cur p = sym_type s.
Proof. by intros (? & ? & ? & ? & ?)%feeds_cons. Qed.

Lemma advance_sym p s ss q :
  feeds p (s :: ss) q -> exists p', advance p = Done p' /\ feeds p' ss q.
Proof. intros (p' & ? & ? & ? & ? & ?)%feeds_cons. eauto. Qed.

Lemma identifier_ok p n ss q :
  feeds p (Id n :: ss) q -> exists p', parse_identifier p = Done (Some n, p') /\ feeds p' ss q.
Proof. intros (p' & ? & _ & ?)%parse_identifier_id. eauto. Qed.

Lemma expect_token_ok p ty msg ss q :
  feeds p (Kw ty :: ss) q -> exists p', expect_token p ty msg = Done p' /\ feeds p' ss q.
Proof.
  intros (p' & ? & ? & Hcur & Ha & ?)%feeds_cons. exists p'. unfold expect_token.
  rewrite Hcur. cbn [sym_type]. by rewrite token_eqb_refl.
Qed.

(** Whether [check_keyword] takes a symbol for the keyword. *)
Definition is_keyword (kw : list Z) (s : Sym) : bool :=
  match s, keyword_to_token_type kw with Kw ty, Some t => token_eqb t ty | _, _ => false end.

Lemma check_keyword_ok p s ss q kw :
  feeds p (s :: ss) q -> (match s with Id n => name_ok n = true /\ kw ∈ reserved_words | _ => True end) ->
  check_keyword p kw = is_keyword kw s.
Proof.
  intros (p' & _ & Hs & _)%feeds_cons Hok. destruct s; simpl.
  - by apply check_keyword_kw.
  - destruct Hok. by eapply check_keyword_id.
  - by eapply check_keyword_lit.
  - by eapply check_keyword_lit.
  - by eapply check_keyword_lit.
Qed.

Lemma feeds_has_error p s ss q : feeds p (s :: ss) q -> has_error p = false.
Proof. by intros []. Qed.

End spec.

(** Decides every keyword test at a symbol that is not an identifier. *)
Ltac keywords Hf :=
  repeat match goal with
  | |- context [check_keyword ?p ?kw] =>
      first [ rewrite (check_keyword_ok _ _ _ _ kw Hf I : check_keyword p kw = true)
            | rewrite (check_keyword_ok _ _ _ _ kw Hf I : check_keyword p kw = false) ]
  end.

(** Looks at the current symbol; consumes it; consumes an expected one; an identifier. *)
Ltac look Hf := rewrite (feeds_cur _ _ _ _ Hf); cbn [sym_type]; tokens.
Ltac next Hf := let p := fresh "p" in apply advance_sym in Hf as (p & -> & Hf); rewrite bind_Done.
Ltac expect Hf := let p := fresh "p" in eapply expect_token_ok in Hf as (p & -> & Hf); rewrite bind_Done.
Ltac ident Hf := let p := fresh "p" in apply identifier_ok in Hf as (p & -> & Hf); rewrite bind_Done.

Section statements.
Context {L : Type} `{TokenSource L}.
Implicit Types p q r : Parser L.

Lemma expect_keyword_ok p ty kw msg ss q :
  keyword_to_token_type kw = Some ty -> feeds p (Kw ty :: ss) q ->
  exists p', expect_keyword p kw msg = Done p' /\ feeds p' ss q.
Proof.
  intros Hkw Hf. unfold expect_keyword. rewrite (check_keyword_ok _ _ _ _ _ Hf I).
  simpl. rewrite Hkw, token_eqb_refl. by apply advance_sym in Hf.
Qed.

End statements.

Ltac keyword Hf :=
  let p := fresh "p" in eapply expect_keyword_ok in Hf as (p & -> & Hf); [|reflexivity]; rewrite bind_Done.

Section statements.
Context {L : Type} `{TokenSource L}.
Implicit Types p q r : Parser L.

Lemma expression_ok e fuel p s ss q :
  printable e = true -> feeds p (print_expr LExpr e ++ s :: ss) q ->
  continues LExpr (sym_type s) = false ->
  (4 * length (print_expr LExpr e) + 2 <= fuel)%nat ->
  exists p', parse_expression fuel p = Done (Some e, p') /\ feeds p' (s :: ss) q.
Proof.
  intros Hp (p' & Hf & Hf')%feeds_app Hc Hfuel. exists p'. split; [|done].
  apply (parses_all e Hp LExpr); [|by rewrite (feeds_cur _ _ _ _ Hf')|done..].
  destruct (print_expr_first LExpr e Hp) as (s1 & ss1 & E & _). rewrite E in Hf. by destruct Hf.
Qed.

(** *** Lists separated by commas *)

(** Symbols that end an element of a list. *)
Definition end_tokens : list TokenType :=
  [TOKEN_COMMA; TOKEN_RPAREN; TOKEN_FROM; TOKEN_WHERE; TOKEN_LIMIT; TOKEN_OFFSET; TOKEN_SEMICOLON].

Definition ends (s : Sym) : bool :=
  match s with Kw ty => bool_decide (ty ∈ end_tokens) | _ => false end.

Lemma ends_cases s (P : Sym -> Prop) :
  ends s = true -> Forall (fun ty => P (Kw ty)) end_tokens -> P s.
Proof.
  destruct s as [ty| | | |]; try done. cbn [ends]. intros Hin%bool_decide_eq_true.
  rewrite Forall_forall. auto.
Qed.

Lemma ends_continues s : ends s = true -> continues LExpr (sym_type s) = false.
Proof. intros Hs. pattern s. apply ends_cases; [done|]. by repeat constructor. Qed.

Lemma commas_length {A} (print : A -> list Sym) a l :
  (length (print a) <= length (commas (print <$> a :: l)))%nat.
Proof. destruct l; simpl; [done|]. rewrite length_app. lia. Qed.

Lemma commas_cons {A} (print : A -> list Sym) a b l :
  commas (print <$> a :: b :: l) = print a ++ Kw TOKEN_COMMA :: commas (print <$> b :: l).
Proof. done. Qed.

(** A loop that reads an element and goes on after a comma. [ok a last] holds of
    the elements it can read. *)
Section separated.
Context {A : Type} (loop : nat -> list A -> Parser L -> outcome (option (list A) * Parser L)).
Context (print : A -> list Sym) (ok : A -> bool -> Prop).
Hypothesis (Hloop : forall a last fuel acc p s ss q,
  ok a last -> feeds p (print a ++ s :: ss) q -> ends s = true ->
  token_eqb (sym_type s) TOKEN_COMMA = negb last ->
  (4 * length (print a) + 2 <= fuel)%nat ->
  exists p', feeds p' (s :: ss) q /\
    loop (S fuel) acc p =
      if last then Done (Some (acc ++ [a]), p') else
      let* p := advance p' in loop fuel (acc ++ [a]) p).

Fixpoint oks (l : list A) : Prop :=
  match l with [] => False | [a] => ok a true | a :: l => ok a false /\ oks l end.

Lemma separated_ok l acc fuel p s ss q :
  oks l -> feeds p (commas (print <$> l) ++ s :: ss) q -> ends s = true ->
  sym_type s <> TOKEN_COMMA -> (4 * length (commas (print <$> l)) + 3 <= fuel)%nat ->
  exists p', loop fuel acc p = Done (Some (acc ++ l), p') /\ feeds p' (s :: ss) q.
Proof.
  intros Hok Hf Hs Hc Hfuel. revert acc fuel p Hok Hf Hfuel.
  induction l as [|a l IH]; [done|]. intros acc fuel p Hok Hf Hfuel.
  destruct fuel as [|fuel]; [lia|]. destruct l as [|b l].
  - edestruct (Hloop a true fuel acc p s) as (p' & Hf' & ->);
      [done|done|done|by apply token_eqb_ne|simpl in Hfuel; lia|]. eauto.
  - rewrite commas_cons in Hf, Hfuel. rewrite length_app in Hfuel. cbn [length] in Hfuel.
    rewrite <- app_assoc in Hf. destruct Hok as [Hok Hoks].
    edestruct (Hloop a false fuel acc p (Kw TOKEN_COMMA)) as (p' & Hf' & ->);
      [done|exact Hf|done|done|lia|].
    apply advance_sym in Hf' as (p2 & -> & Hf'). rewrite bind_Done.
    destruct (IH (acc ++ [a]) fuel p2) as (p3 & -> & ?); [done|done|lia|].
    exists p3. by rewrite <- app_assoc.
Qed.

End separated.

Lemma oks_forallb {A} (f : A -> bool) l :
  l <> [] -> forallb f l = true -> oks (fun a _ => f a = true) l.
Proof.
  intros Hne. induction l as [|a l IH]; [done|]. intros [Ha Hl]%andb_prop.
  destruct l; simpl in *; [done|]. split; [done|by apply IH].
Qed.

(** What a loop does after an element: the common end of its body. *)
Lemma after_element {A} (loop : nat -> list A -> Parser L -> outcome (option (list A) * Parser L))
    fuel acc p s ss q last :
  feeds p (s :: ss) q -> token_eqb (sym_type s) TOKEN_COMMA = negb last ->
  (if token_eqb (cur p) TOKEN_COMMA
   then let* p := advance p in loop fuel acc p else Done (Some acc, p)) =
  if last then Done (Some acc, p) else let* p := advance p in loop fuel acc p.
Proof. intros Hf. rewrite (feeds_cur _ _ _ _ Hf). intros ->. by destruct last. Qed.

Lemma expressions_ok es fuel p ss q :
  es <> [] -> forallb printable es = true ->
  feeds p (commas (print_expr LExpr <$> es) ++ Kw TOKEN_RPAREN :: ss) q ->
  (4 * length (commas (print_expr LExpr <$> es)) + 3 <= fuel)%nat ->
  exists p', parse_expression_list fuel p = Done (Some es, p') /\ feeds p' (Kw TOKEN_RPAREN :: ss) q.
Proof.
  intros Hne Hp Hf Hfuel. unfold parse_expression_list.
  assert (cur p <> TOKEN_RPAREN) as Hcur.
  { destruct es as [|e es]; [done|]. simpl in Hp. apply andb_prop in Hp as [Hp _].
    destruct (print_expr_first LExpr e Hp) as (s1 & ss1 & E & Hs1).
    destruct es; simpl in Hf; rewrite E in Hf; by rewrite (feeds_cur _ _ _ _ Hf). }
  rewrite token_eqb_ne by done.
  apply (separated_ok parse_expressions (print_expr LExpr) (fun e _ => printable e = true) ) with (acc := []); [|..|done|done|done].
  - clear. intros e last fuel acc p s ss q Hp Hf Hs Hl Hfuel. cbn [parse_expressions].
    destruct (expression_ok e fuel p s ss q) as (p' & -> & Hf'); [done..|by apply ends_continues|done|].
    exists p'. rewrite bind_Done. split; [done|]. by eapply (after_element parse_expressions).
  - by apply oks_forallb.
  - done.
Qed.

Lemma insert_columns_ok cols fuel p ss q :
  cols <> [] -> forallb insert_column_ok cols = true ->
  feeds p (commas (print_column <$> cols) ++ Kw TOKEN_RPAREN :: ss) q ->
  (4 * length (commas (print_column <$> cols)) + 3 <= fuel)%nat ->
  exists p', parse_insert_columns fuel [] p = Done (Some cols, p') /\ feeds p' (Kw TOKEN_RPAREN :: ss) q.
Proof.
  intros Hne Hok Hf Hfuel.
  apply (separated_ok parse_insert_columns print_column
    (fun c _ => insert_column_ok c = true)) with (acc := []); [|..|done|done|done].
  - clear. intros [n al] last fuel acc p s ss q Hok Hf Hs Hl Hfuel.
    apply andb_prop in Hok as [Hstar%negb_true_iff Hal%bool_decide_eq_true]. cbn in Hal. subst al.
    cbn [parse_insert_columns]. unfold print_column in Hf. rewrite Hstar in Hf. cbn [app cl_name cl_alias] in Hf.
    rewrite (feeds_cur _ _ _ _ Hf), (feeds_has_error _ _ _ _ Hf). cbn [sym_type].
    apply identifier_ok in Hf as (p' & -> & Hf). rewrite bind_Done.
    exists p'. split; [done|]. by eapply (after_element parse_insert_columns).
  - by apply (oks_forallb insert_column_ok).
  - done.
Qed.

Lemma insert_values_ok rows fuel p ss q :
  rows <> [] -> forallb row_ok rows = true ->
  feeds p (commas (print_row <$> rows) ++ Kw TOKEN_SEMICOLON :: ss) q ->
  (4 * length (commas (print_row <$> rows)) + 3 <= fuel)%nat ->
  exists p', parse_insert_values fuel [] p = Done (Some rows, p') /\ feeds p' (Kw TOKEN_SEMICOLON :: ss) q.
Proof.
  intros Hne Hok Hf Hfuel.
  apply (separated_ok parse_insert_values print_row
    (fun vs _ => row_ok vs = true)) with (acc := []); [|..|done|done|done].
  - clear. intros vs last fuel acc p s ss q [Hr Hp]%andb_prop Hf Hs Hl Hfuel. cbn [parse_insert_values].
    cbn [print_row paren app] in Hf, Hfuel. cbn [length] in Hfuel. rewrite length_app in Hfuel.
    rewrite <- app_assoc in Hf. cbn [app] in Hf.
    rewrite (feeds_has_error _ _ _ _ Hf). cbn [negb].
    eapply expect_token_ok in Hf as (p1 & -> & Hf). rewrite bind_Done.
    apply (expressions_ok _ fuel) in Hf as (p2 & -> & Hf); [|by destruct vs|done|lia]. rewrite bind_Done.
    eapply expect_token_ok in Hf as (p3 & -> & Hf). rewrite bind_Done.
    exists p3. split; [done|]. by eapply (after_element parse_insert_values).
  - by apply (oks_forallb row_ok).
  - done.
Qed.

Lemma set_clauses_ok sets fuel p ss q :
  sets <> [] -> forallb (fun c => printable (sc_value c)) sets = true ->
  feeds p (commas (print_set <$> sets) ++ Kw TOKEN_WHERE :: ss) q ->
  (4 * length (commas (print_set <$> sets)) + 3 <= fuel)%nat ->
  exists p', parse_set_clauses fuel [] p = Done (Some sets, p') /\ feeds p' (Kw TOKEN_WHERE :: ss) q.
Proof.
  intros Hne Hok Hf Hfuel.
  apply (separated_ok parse_set_clauses print_set (fun c _ => printable (sc_value c) = true))
    with (acc := []); [|..|done|done|done].
  - clear. intros [n e] last fuel acc p s ss q Hp Hf Hs Hl Hfuel. cbn [parse_set_clauses].
    cbn in Hp. cbn [print_set app sc_column sc_value length] in Hf, Hfuel.
    rewrite (feeds_has_error _ _ _ _ Hf). cbn [negb].
    apply identifier_ok in Hf as (p1 & -> & Hf). rewrite bind_Done.
    eapply expect_token_ok in Hf as (p2 & -> & Hf). rewrite bind_Done.
    apply (expression_ok _ fuel) in Hf as (p3 & -> & Hf); [|done|by apply ends_continues|lia].
    rewrite bind_Done. exists p3. split; [done|]. by eapply (after_element parse_set_clauses).
  - by apply oks_forallb.
  - done.
Qed.

Lemma ends_not_keyword s kw :
  ends s = true -> forallb (fun ty => negb (is_keyword kw (Kw ty))) end_tokens = true ->
  is_keyword kw s = false.
Proof.
  intros Hs Hkw. pattern s. apply ends_cases; [done|]. apply Forall_forall. intros ty Hty.
  rewrite forallb_forall in Hkw. by apply negb_true_iff, Hkw, list_elem_of_In.
Qed.

(** A keyword that is not there. *)
Lemma ends_check_keyword p s ss q kw :
  feeds p (s :: ss) q -> ends s = true ->
  forallb (fun ty => negb (is_keyword kw (Kw ty))) end_tokens = true ->
  check_keyword p kw = false.
Proof.
  intros Hf Hs Hkw. rewrite (check_keyword_ok _ _ _ _ _ Hf); [by apply ends_not_keyword|].
  by destruct s.
Qed.

Lemma alias_ok c p s ss q :
  feeds p (match cl_alias c with Some a => [Kw TOKEN_AS; Id a] | None => [] end ++ s :: ss) q ->
  ends s = true -> exists p', parse_alias p = Done (cl_alias c, p') /\ feeds p' (s :: ss) q.
Proof.
  intros Hf Hs. unfold parse_alias. destruct (cl_alias c) as [a|]; cbn [app] in Hf.
  - rewrite (check_keyword_ok _ _ _ _ _ Hf I). cbn.
    apply advance_sym in Hf as (p1 & -> & Hf). rewrite bind_Done. by apply identifier_ok in Hf.
  - rewrite (ends_check_keyword p s ss q) by done.
    rewrite (feeds_cur _ _ _ _ Hf). exists p. split; [|done].
    pattern s. apply ends_cases; [done|]. by repeat constructor.
Qed.

Lemma column_list_ok cols fuel p ss q :
  select_columns_ok cols = true ->
  feeds p (commas (print_column <$> cols) ++ Kw TOKEN_FROM :: ss) q ->
  (4 * length (commas (print_column <$> cols)) + 3 <= fuel)%nat ->
  exists p', parse_column_list fuel p = Done (Some cols, p') /\ feeds p' (Kw TOKEN_FROM :: ss) q.
Proof.
  intros Hok Hf Hfuel.
  apply (separated_ok parse_column_list_loop print_column
    (fun c last => select_column_ok c last = true)) with (acc := []); [|..|done|done|done].
  - clear. intros [n al] last fuel acc p s ss q Hok Hf Hs Hl Hfuel. cbn [parse_column_list_loop].
    unfold select_column_ok in Hok. unfold print_column in Hf.
    destruct (is_star _) eqn:Hstar; cbn [app cl_name cl_alias] in Hf, Hok.
    + apply andb_prop in Hok as [-> Hal%bool_decide_eq_true].
      apply bool_decide_eq_true in Hstar. cbn in Hal, Hstar. subst al n.
      rewrite (feeds_cur _ _ _ _ Hf), token_eqb_refl.
      apply advance_sym in Hf as (p1 & -> & Hf). by exists p1.
    + rewrite (feeds_cur _ _ _ _ Hf). cbn [sym_type].
      rewrite (token_eqb_ne TOKEN_IDENTIFIER TOKEN_STAR) by done.
      apply identifier_ok in Hf as (p1 & -> & Hf). rewrite bind_Done.
      apply (alias_ok (mkColumnList n al)) in Hf as (p2 & -> & Hf); [|done]. rewrite bind_Done.
      exists p2. split; [done|]. by eapply (after_element parse_column_list_loop).
  - clear Hf Hfuel. induction cols as [|c cols IH]; [done|]. destruct cols; [done|].
    apply andb_prop in Hok as [? ?]. split; [done|by apply IH].
  - done.
Qed.

Lemma order_by_ok items fuel p s ss q :
  items <> [] -> ends s = true -> sym_type s <> TOKEN_COMMA ->
  feeds p (commas (print_order <$> items) ++ s :: ss) q ->
  (4 * length (commas (print_order <$> items)) + 3 <= fuel)%nat ->
  exists p', parse_order_by fuel p = Done (Some items, p') /\ feeds p' (s :: ss) q.
Proof.
  intros Hne Hs Hc Hf Hfuel. unfold parse_order_by.
  destruct (separated_ok parse_order_by_loop print_order (fun c _ => true = true)) with
    (acc := @nil OrderByItem) (l := items) (fuel := fuel) (p := p) (s := s) (ss := ss) (q := q)
    as (p' & -> & Hf'); [|by apply oks_forallb, forallb_forall|done..|].
  - clear. intros [n d] last fuel acc p s ss q _ Hf Hs Hl Hfuel. cbn [parse_order_by_loop].
    cbn [print_order app ob_column ob_descending] in Hf.
    rewrite (feeds_has_error _ _ _ _ Hf). cbn [negb].
    apply identifier_ok in Hf as (p1 & -> & Hf). rewrite bind_Done. destruct d; cbn [opt app] in Hf.
    + rewrite (check_keyword_ok _ _ _ _ _ Hf I). cbn.
      apply advance_sym in Hf as (p2 & -> & Hf). rewrite !bind_Done.
      exists p2. split; [done|]. by eapply (after_element parse_order_by_loop).
    + rewrite !(ends_check_keyword p1 s ss q) by done. rewrite bind_Done.
      exists p1. split; [done|]. by eapply (after_element parse_order_by_loop).
  - rewrite bind_Done. exists p'. by destruct items.
Qed.

(** *** Column definitions *)

Lemma constraints_end col fuel p s ss q :
  feeds p (s :: ss) q -> ends s = true -> parse_constraints (S fuel) col p = Done (col, p).
Proof.
  intros Hf Hs. destruct col. cbn [parse_constraints].
  by rewrite !(ends_check_keyword p s ss q) by done.
Qed.

Lemma constraints_default n ty nn pk ai d fuel p s ss q :
  opt_printable d = true -> ends s = true ->
  feeds p (opt_expr TOKEN_DEFAULT d ++ s :: ss) q ->
  (4 * length (opt_expr TOKEN_DEFAULT d) + 1 <= fuel)%nat ->
  exists p', parse_constraints fuel (mkColumnDef n ty nn pk ai None) p =
    Done (mkColumnDef n ty nn pk ai d, p') /\ feeds p' (s :: ss) q.
Proof.
  intros Hd Hs Hf Hfuel. destruct fuel as [|fuel]; [lia|]. destruct d as [e|].
  - cbn [opt_expr app length] in Hf, Hfuel. cbn [parse_constraints].
    keywords Hf. apply advance_sym in Hf as (p1 & -> & Hf). rewrite bind_Done.
    apply (expression_ok _ fuel) in Hf as (p2 & -> & Hf); [|done|by apply ends_continues|lia].
    rewrite bind_Done. exists p2. split; [|done]. destruct fuel; [lia|].
    by eapply constraints_end.
  - cbn [opt_expr app] in Hf. exists p. split; [|done]. by eapply constraints_end.
Qed.

(** One constraint that is a flag. *)
Lemma constraints_flag n (b : bool) kws (col col' : ColumnDef) fuel p ss q :
  (b = true -> forall fuel p, feeds p (kws ++ ss) q -> exists p',
     parse_constraints (S fuel) col p = parse_constraints fuel col' p' /\ feeds p' ss q) ->
  (b = false -> col = col') -> (1 <= length kws)%nat ->
  feeds p (opt b kws ++ ss) q -> (4 * length (opt b kws) + n <= fuel)%nat ->
  exists p' fuel', parse_constraints fuel col p = parse_constraints fuel' col' p' /\
    feeds p' ss q /\ (n <= fuel')%nat.
Proof.
  intros Hstep Hb Hk Hf Hfuel. destruct b; cbn [opt] in Hf, Hfuel.
  - destruct fuel as [|fuel]; [lia|]. destruct (Hstep eq_refl fuel p Hf) as (p' & -> & Hf').
    exists p', fuel. split_and!; [done..|lia].
  - exists p, fuel. rewrite Hb by done. split_and!; [done..|simpl in Hfuel; lia].
Qed.

Lemma constraints_ok n ty nn pk ai d fuel p s ss q :
  opt_printable d = true -> ends s = true ->
  feeds p ((opt nn [Kw TOKEN_NOT; Kw TOKEN_NULL] ++ opt pk [Kw TOKEN_PRIMARY; Kw TOKEN_KEY] ++
            opt ai [Kw TOKEN_AUTOINCREMENT] ++ opt_expr TOKEN_DEFAULT d) ++ s :: ss) q ->
  (4 * length (opt nn [Kw TOKEN_NOT; Kw TOKEN_NULL] ++ opt pk [Kw TOKEN_PRIMARY; Kw TOKEN_KEY] ++
            opt ai [Kw TOKEN_AUTOINCREMENT] ++ opt_expr TOKEN_DEFAULT d) + 1 <= fuel)%nat ->
  exists p', parse_constraints fuel (mkColumnDef n ty false false false None) p =
    Done (mkColumnDef n ty nn pk ai d, p') /\ feeds p' (s :: ss) q.
Proof.
  intros Hd Hs Hf Hfuel. rewrite !length_app in Hfuel. rewrite <- !app_assoc in Hf.
  set (kd := opt_expr TOKEN_DEFAULT d) in *. set (ka := opt ai _) in *. set (kp := opt pk _) in *.
  destruct (constraints_flag (4 * (length kp + (length ka + length kd)) + 1) nn [Kw TOKEN_NOT; Kw TOKEN_NULL]
    (mkColumnDef n ty false false false None) (mkColumnDef n ty nn false false None)
    fuel p (kp ++ ka ++ kd ++ s :: ss) q) as (p1 & f1 & -> & Hf1 & Hfuel1); [|by intros ->|simpl; lia|done|lia|].
  { clear. intros -> fuel p Hf. cbn [parse_constraints app] in *. keywords Hf.
    apply advance_sym in Hf as (p1 & -> & Hf). rewrite bind_Done.
    apply advance_sym in Hf as (p2 & -> & Hf). rewrite bind_Done. by exists p2. }
  destruct (constraints_flag (4 * (length ka + length kd) + 1) pk [Kw TOKEN_PRIMARY; Kw TOKEN_KEY]
    (mkColumnDef n ty nn false false None) (mkColumnDef n ty nn pk false None)
    f1 p1 (ka ++ kd ++ s :: ss) q) as (p2 & f2 & -> & Hf2 & Hfuel2);
    [|by intros ->|simpl; lia|done|subst kp; lia|].
  { clear. intros -> fuel p Hf. cbn [parse_constraints app] in *. keywords Hf.
    apply advance_sym in Hf as (p1 & -> & Hf). rewrite bind_Done. keywords Hf.
    apply advance_sym in Hf as (p2 & -> & Hf). rewrite bind_Done. by exists p2. }
  destruct (constraints_flag (4 * length kd + 1) ai [Kw TOKEN_AUTOINCREMENT]
    (mkColumnDef n ty nn pk false None) (mkColumnDef n ty nn pk ai None)
    f2 p2 (kd ++ s :: ss) q) as (p3 & f3 & -> & Hf3 & Hfuel3);
    [|by intros ->|simpl; lia|done|subst ka; lia|].
  { clear. intros -> fuel p Hf. cbn [parse_constraints app] in *. keywords Hf.
    apply advance_sym in Hf as (p1 & -> & Hf). rewrite bind_Done. by exists p1. }
  by apply constraints_default.
Qed.

Lemma column_type_ok ty p ss q :
  feeds p (print_type ty :: ss) q ->
  exists p', parse_column_type p = Done (ty, p') /\ feeds p' ss q.
Proof.
  intros Hf. unfold parse_column_type. rewrite (feeds_cur _ _ _ _ Hf).
  destruct ty; cbn [print_type sym_type] in *;
    apply advance_sym in Hf as Hf'; destruct Hf' as (p' & Ha & Hf');
    keywords Hf; rewrite Ha; cbn; eauto.
Qed.

Lemma column_def_ok c fuel p s ss q :
  opt_printable (cd_default c) = true -> ends s = true ->
  feeds p (print_column_def c ++ s :: ss) q -> (4 * length (print_column_def c) <= fuel)%nat ->
  exists p', parse_column_def fuel p = Done (Some c, p') /\ feeds p' (s :: ss) q.
Proof.
  intros Hd Hs Hf Hfuel. destruct c as [n ty nn pk ai d].
  unfold print_column_def in Hf, Hfuel. cbn [cd_name cd_type cd_not_null cd_primary_key cd_autoincrement cd_default] in *.
  cbn [app length] in Hf, Hfuel.
  unfold parse_column_def. apply identifier_ok in Hf as (p1 & -> & Hf). rewrite bind_Done.
  apply column_type_ok in Hf as (p2 & -> & Hf). rewrite bind_Done.
  destruct (constraints_ok n ty nn pk ai d fuel p2 s ss q) as (p3 & -> & Hf3); [done..|lia|].
  rewrite bind_Done. eauto.
Qed.

Lemma column_defs_ok cols fuel p ss q :
  cols <> [] -> forallb (fun c => opt_printable (cd_default c)) cols = true ->
  feeds p (commas (print_column_def <$> cols) ++ Kw TOKEN_RPAREN :: ss) q ->
  (4 * length (commas (print_column_def <$> cols)) + 3 <= fuel)%nat ->
  exists p', parse_column_defs fuel [] p = Done (Some cols, p') /\ feeds p' (Kw TOKEN_RPAREN :: ss) q.
Proof.
  intros Hne Hok Hf Hfuel.
  apply (separated_ok parse_column_defs print_column_def
    (fun c _ => opt_printable (cd_default c) = true)) with (acc := []); [|..|done|done|done].
  - clear. intros c last fuel acc p s ss q Hok Hf Hs Hl Hfuel. cbn [parse_column_defs].
    rewrite (feeds_cur _ _ _ _ Hf), (feeds_has_error _ _ _ _ Hf). cbn [sym_type].
    rewrite (token_eqb_ne TOKEN_IDENTIFIER TOKEN_RPAREN) by done. cbn [negb andb].
    apply (column_def_ok _ fuel) in Hf as (p1 & -> & Hf); [|done|done|lia]. rewrite bind_Done.
    exists p1. split; [done|]. by eapply (after_element parse_column_defs).
  - by apply oks_forallb.
  - done.
Qed.

(** *** Statements, one by one *)

Definition reads_stmt (stmt : AstNode) : Prop := forall fuel p q,
  feeds p (print_stmt stmt) q -> (4 * length (print_stmt stmt) <= fuel)%nat ->
  parser_parse fuel p = Done (Some stmt, q).

(** Enters the case of the statement's first symbol, then normalises the rest. *)
Ltac statement Hf :=
  cbn [print_stmt paren app length] in Hf;
  unfold parser_parse, parse_statement; rewrite (feeds_has_error _ _ _ _ Hf); look Hf.

Ltac norm Hf := repeat (rewrite <- app_assoc in Hf); cbn [app] in Hf.

(** The last symbol is the semicolon; behind it is [q]. *)
Lemma semicolon_ok p msg q :
  feeds p [Kw TOKEN_SEMICOLON] q -> expect_token p TOKEN_SEMICOLON msg = Done q.
Proof. intros Hf. by eapply expect_token_ok in Hf as (p' & -> & ->). Qed.

Ltac semicolon Hf := by rewrite (semicolon_ok _ _ _ Hf).

Lemma optional_expr_ok kw ty e fuel p s ss q :
  keyword_to_token_type kw = Some ty -> opt_printable e = true ->
  continues LExpr (sym_type s) = false -> is_keyword kw s = false ->
  match s with Kw _ => True | _ => False end ->
  feeds p (opt_expr ty e ++ s :: ss) q -> (4 * length (opt_expr ty e) <= fuel)%nat ->
  exists p', parse_optional_expr fuel p kw = Done (Some e, p') /\ feeds p' (s :: ss) q.
Proof.
  intros Hkw Hp Hc Hk Hs Hf Hfuel. unfold parse_optional_expr.
  destruct e as [e|]; cbn [opt_expr app length] in Hf, Hfuel.
  - rewrite (check_keyword_ok _ _ _ _ _ Hf I). cbn [is_keyword]. rewrite Hkw, token_eqb_refl.
    next Hf. apply (expression_ok _ fuel) in Hf as (p2 & -> & Hf); [|done..|lia].
    rewrite bind_Done. eauto.
  - rewrite (check_keyword_ok _ _ _ _ _ Hf) by (by destruct s). rewrite Hk. eauto.
Qed.

Lemma if_not_exists_ok ine p t ss q :
  feeds p (opt ine [Kw TOKEN_IF; Kw TOKEN_NOT; Kw TOKEN_EXISTS] ++ Id t :: ss) q ->
  exists p', parse_if_not_exists p = Done (Some ine, p') /\ feeds p' (Id t :: ss) q.
Proof.
  intros Hf. unfold parse_if_not_exists. destruct ine; cbn [opt app] in Hf; look Hf; [|by exists p].
  next Hf. look Hf. next Hf. look Hf. next Hf. eauto.
Qed.

Lemma create_table_reads t ine cols :
  stmt_printable (AST_CREATE_TABLE t ine cols) = true -> reads_stmt (AST_CREATE_TABLE t ine cols).
Proof.
  intros [Hne Hok]%andb_prop fuel p q Hf Hfuel. cbn [print_stmt paren app length] in Hfuel.
  rewrite length_app in Hfuel. cbn [app length] in Hfuel. rewrite !length_app in Hfuel.
  statement Hf. next Hf. look Hf. next Hf. norm Hf. unfold parse_create_table.
  apply if_not_exists_ok in Hf as (p3 & -> & Hf). rewrite bind_Done.
  ident Hf. expect Hf.
  apply (column_defs_ok _ fuel) in Hf as (p6 & -> & Hf); [|by destruct cols|done|simpl in Hfuel; lia].
  rewrite bind_Done. expect Hf. semicolon Hf.
Qed.

Lemma drop_table_reads t ie : reads_stmt (AST_DROP_TABLE t ie).
Proof.
  intros fuel p q Hf _. statement Hf. next Hf. look Hf. next Hf. unfold parse_drop_table.
  destruct ie; cbn [opt app] in Hf; look Hf.
  - next Hf. look Hf. next Hf. rewrite bind_Done. ident Hf. semicolon Hf.
  - rewrite bind_Done. ident Hf. semicolon Hf.
Qed.

Lemma create_index_reads i t c u : name_ok i = true -> reads_stmt (AST_CREATE_INDEX i t c u).
Proof.
  intros Hi fuel p q Hf _. statement Hf. next Hf. look Hf. next Hf. unfold parse_create_index.
  assert (exists p', (if check_keyword p1 (zstr "UNIQUE") then let* p := advance p1 in Done (true, p)
    else Done (false, p1)) = Done (u, p') /\
    feeds p' [Id i; Kw TOKEN_ON; Id t; Kw TOKEN_LPAREN; Id c; Kw TOKEN_RPAREN; Kw TOKEN_SEMICOLON] q)
    as (p' & -> & Hf').
  { destruct u; cbn [opt app] in Hf.
    - keywords Hf. next Hf. eauto.
    - rewrite (check_keyword_ok _ _ _ _ _ Hf); [by exists p1|].
      split; [done|]. by apply (bool_decide_unpack (_ ∈ _)). }
  rewrite bind_Done. ident Hf'. keywords Hf'. cbn [negb]. next Hf'. ident Hf'. expect Hf'. ident Hf'.
  expect Hf'. semicolon Hf'.
Qed.

Lemma drop_index_reads i : reads_stmt (AST_DROP_INDEX i).
Proof.
  intros fuel p q Hf _. statement Hf. next Hf. look Hf. next Hf. unfold parse_drop_index.
  ident Hf. semicolon Hf.
Qed.

Lemma transaction_reads ty : reads_stmt (AST_TRANSACTION ty).
Proof.
  intros fuel p q Hf _. cbn [print_stmt] in Hf.
  unfold parser_parse, parse_statement. rewrite (feeds_has_error _ _ _ _ Hf), (feeds_cur _ _ _ _ Hf).
  cbn [sym_type]. unfold parse_transaction. rewrite (feeds_cur _ _ _ _ Hf). cbn [sym_type].
  destruct ty; next Hf; keywords Hf; cbn [andb]; rewrite bind_Done; semicolon Hf.
Qed.

Lemma required_where_ok e fuel p msg q :
  printable e = true -> feeds p (Kw TOKEN_WHERE :: print_expr LExpr e ++ [Kw TOKEN_SEMICOLON]) q ->
  (4 * length (print_expr LExpr e) + 2 <= fuel)%nat ->
  exists p', parse_required_where fuel p msg = Done (Some e, p') /\ feeds p' [Kw TOKEN_SEMICOLON] q.
Proof.
  intros Hp Hf Hfuel. unfold parse_required_where. keywords Hf. next Hf.
  by apply (expression_ok _ fuel) in Hf.
Qed.

Lemma delete_reads t w : printable w = true -> reads_stmt (AST_DELETE t w).
Proof.
  intros Hw fuel p q Hf Hfuel. cbn [print_stmt paren app length] in Hfuel. rewrite length_app in Hfuel.
  statement Hf. unfold parse_delete. next Hf. keyword Hf. ident Hf.
  eapply (required_where_ok _ fuel) in Hf as (p' & -> & Hf); [|done|lia].
  rewrite bind_Done. semicolon Hf.
Qed.

Lemma update_reads t sets w :
  stmt_printable (AST_UPDATE t sets w) = true -> reads_stmt (AST_UPDATE t sets w).
Proof.
  intros [[Hne Hs]%andb_prop Hw]%andb_prop fuel p q Hf Hfuel. cbn [print_stmt paren app length] in Hfuel.
  rewrite length_app in Hfuel. cbn [length] in Hfuel. rewrite length_app in Hfuel.
  statement Hf. unfold parse_update. next Hf. ident Hf. keyword Hf.
  apply (set_clauses_ok _ fuel) in Hf as (p' & -> & Hf); [|by destruct sets|done|lia]. rewrite bind_Done.
  eapply (required_where_ok _ fuel) in Hf as (p2' & -> & Hf); [|done|lia].
  rewrite bind_Done. semicolon Hf.
Qed.

Lemma insert_reads t cols rows :
  stmt_printable (AST_INSERT t cols rows) = true -> reads_stmt (AST_INSERT t cols rows).
Proof.
  intros [[Hc Hne]%andb_prop Hr]%andb_prop fuel p q Hf Hfuel. cbn [print_stmt app length] in Hfuel.
  rewrite length_app in Hfuel. cbn [length] in Hfuel. rewrite length_app in Hfuel.
  statement Hf. unfold parse_insert. next Hf. keyword Hf. ident Hf.
  set (rest := Kw TOKEN_VALUES :: _) in Hf.
  assert (exists p', (if token_eqb (cur p2) TOKEN_LPAREN then
        let* p := advance p2 in
        let* '(columns, p) := parse_insert_columns fuel [] p in
        match columns with
        | None => Done (None, p)
        | Some columns =>
            let* p := expect_token p TOKEN_RPAREN (zstr "Expected ')' after column list") in
            Done (Some columns, p)
        end
      else Done (Some [], p2)) = Done (Some cols, p') /\ feeds p' rest q) as (p' & -> & Hf').
  { destruct (decide (cols = [])) as [->|Hcols].
    - change (feeds p2 rest q) in Hf. subst rest. look Hf. eauto.
    - rewrite bool_decide_eq_false_2 in Hf, Hfuel by done. cbn [negb opt paren app length] in Hf, Hfuel.
      rewrite length_app in Hfuel. look Hf. next Hf. norm Hf.
      apply (insert_columns_ok _ fuel) in Hf as (p4 & -> & Hf); [|done|done|simpl in Hfuel; lia].
      rewrite bind_Done. expect Hf. eauto. }
  rewrite bind_Done. subst rest. keyword Hf'.
  apply (insert_values_ok _ fuel) in Hf' as (p4 & -> & Hf'); [|by destruct rows|done|simpl in Hfuel; lia].
  rewrite bind_Done. semicolon Hf'.
Qed.

(** Clauses that may follow the table of a SELECT begin with a keyword. *)
Lemma optional_order_by_ok o fuel p s ss q :
  match s with Kw ty => ty = TOKEN_LIMIT \/ ty = TOKEN_OFFSET \/ ty = TOKEN_SEMICOLON | _ => False end ->
  feeds p (opt (negb (bool_decide (o = []))) (Kw TOKEN_ORDER :: Kw TOKEN_BY :: commas (print_order <$> o)) ++
           s :: ss) q ->
  (4 * length (opt (negb (bool_decide (o = [])))
     (Kw TOKEN_ORDER :: Kw TOKEN_BY :: commas (print_order <$> o))) <= fuel)%nat ->
  exists p', parse_optional_order_by fuel p = Done (Some o, p') /\ feeds p' (s :: ss) q.
Proof.
  intros Hs Hf Hfuel. unfold parse_optional_order_by. destruct (decide (o = [])) as [->|Ho].
  - cbn [bool_decide] in Hf. change (feeds p (s :: ss) q) in Hf.
    destruct s as [ty| | | |]; try done. destruct Hs as [-> | [-> | ->]]; keywords Hf; eauto.
  - rewrite bool_decide_eq_false_2 in Hf, Hfuel by done. cbn [negb opt app length] in Hf, Hfuel.
    keywords Hf. next Hf. keywords Hf. next Hf.
    apply (order_by_ok _ fuel) in Hf; [done|done|..|lia];
      (destruct s as [ty| | | |]; try done; by destruct Hs as [-> | [-> | ->]]).
Qed.

(** What follows the table of a SELECT begins with the keyword of a clause. *)
Definition begins (tys : list TokenType) (ss : list Sym) : Prop :=
  exists ty ss', ss = Kw ty :: ss' /\ ty ∈ tys.

Lemma begins_semicolon : begins [TOKEN_SEMICOLON] [Kw TOKEN_SEMICOLON].
Proof. eexists _, _. split; [done|]. constructor. Qed.

Lemma begins_opt ty tys e ss : begins tys ss -> begins (ty :: tys) (opt_expr ty e ++ ss).
Proof.
  intros (ty' & ss' & -> & Hin). destruct e; cbn [opt_expr app]; eexists _, _; (split; [done|]);
    [by left|by right].
Qed.

Lemma select_clause_ok kw ty e fuel p tys ss q :
  keyword_to_token_type kw = Some ty -> opt_printable e = true -> begins tys ss ->
  forallb (fun ty' => negb (continues LExpr ty') && negb (is_keyword kw (Kw ty'))) tys = true ->
  feeds p (opt_expr ty e ++ ss) q -> (4 * length (opt_expr ty e) <= fuel)%nat ->
  exists p', parse_optional_expr fuel p kw = Done (Some e, p') /\ feeds p' ss q.
Proof.
  intros Hkw He (ty' & ss' & -> & Hin) Hok Hf Hfuel. rewrite forallb_forall in Hok.
  apply list_elem_of_In, Hok, andb_prop in Hin as [H1%negb_true_iff H2%negb_true_iff].
  by eapply optional_expr_ok.
Qed.

Lemma select_first_ok cols p ss q :
  select_columns_ok cols = true -> feeds p (commas (print_column <$> cols) ++ ss) q ->
  check_keyword p (zstr "DISTINCT") = false.
Proof.
  intros Hok Hf. destruct cols as [|c cols]; [done|].
  assert (exists last, select_column_ok c last = true) as [last Hc].
  { destruct cols; [by exists true|]. exists false. by apply andb_prop in Hok as [? _]. }
  assert (exists ss', feeds p (print_column c ++ ss') q) as [ss' Hf'].
  { destruct cols; simpl in Hf; [by eexists|]. rewrite <- app_assoc in Hf. by eexists. }
  unfold print_column, select_column_ok in *. destruct (is_star c); cbn [app] in Hf'.
  - by keywords Hf'.
  - rewrite (check_keyword_ok _ _ _ _ _ Hf'); [done|]. split; [done|].
    by apply (bool_decide_unpack (_ ∈ _)).
Qed.

Lemma select_reads cols d t w o l f :
  stmt_printable (AST_SELECT cols d t w o l f) = true -> reads_stmt (AST_SELECT cols d t w o l f).
Proof.
  intros [[[[Hcols Hd]%andb_prop Hw]%andb_prop Hl]%andb_prop Ho]%andb_prop fuel p q Hf Hfuel.
  destruct d; [done|]. cbn [print_stmt app length] in Hfuel. rewrite length_app in Hfuel.
  cbn [length] in Hfuel. rewrite !length_app in Hfuel.
  statement Hf. unfold parse_select. next Hf. rewrite (select_first_ok _ _ _ _ Hcols Hf), bind_Done.
  apply (column_list_ok _ fuel) in Hf as (p1 & -> & Hf); [|done|lia]. rewrite bind_Done.
  look Hf. next Hf. ident Hf.
  set (t3 := opt_expr TOKEN_OFFSET f ++ [Kw TOKEN_SEMICOLON]) in *.
  assert (begins [TOKEN_OFFSET; TOKEN_SEMICOLON] t3) as H3
    by apply begins_opt, begins_semicolon.
  pose proof (begins_opt TOKEN_LIMIT _ l _ H3) as H2. set (t2 := opt_expr TOKEN_LIMIT l ++ t3) in *.
  assert (begins [TOKEN_ORDER; TOKEN_LIMIT; TOKEN_OFFSET; TOKEN_SEMICOLON]
    (opt (negb (bool_decide (o = []))) (Kw TOKEN_ORDER :: Kw TOKEN_BY :: commas (print_order <$> o)) ++ t2)) as H1.
  { destruct (bool_decide (o = [])); cbn [negb opt app].
    - destruct H2 as (ty & ss & ? & ?). exists ty, ss. split; [done|by right].
    - eexists _, _. split; [done|by left]. }
  eapply (select_clause_ok (zstr "WHERE") _ _ fuel) in Hf as (p4 & -> & Hf); [|reflexivity|exact Hw|exact H1|reflexivity|lia].
  rewrite bind_Done.
  destruct H2 as (ty2 & ss2 & E2 & Hty2). rewrite E2 in Hf.
  apply (optional_order_by_ok _ fuel) in Hf as (p5 & -> & Hf); [|by set_unfold in Hty2; naive_solver|lia].
  rewrite bind_Done. rewrite <- E2 in Hf. subst t2.
  eapply (select_clause_ok (zstr "LIMIT") _ _ fuel) in Hf as (p6 & -> & Hf); [|reflexivity|exact Hl|exact H3|reflexivity|lia].
  rewrite bind_Done. subst t3.
  eapply (select_clause_ok (zstr "OFFSET") _ _ fuel _ [TOKEN_SEMICOLON]) in Hf as (p7 & -> & Hf);
    [|reflexivity|exact Ho|apply begins_semicolon|reflexivity|lia].
  rewrite bind_Done. semicolon Hf.
Qed.

Lemma stmt_reads stmt : stmt_printable stmt = true -> reads_stmt stmt.
Proof.
  destruct stmt; eauto using create_table_reads, drop_table_reads, create_index_reads, drop_index_reads,
    insert_reads, update_reads, delete_reads, select_reads, transaction_reads.
Qed.
End statements.

(** ** Round trips *)

(** Parsing undoes printing, for expressions. From any parser that stands before
    the symbols of an expression, printed with the parentheses its place needs and
    followed by a symbol that cannot continue it, parse_expression (and parse_unary_not,
    parse_literal at their levels) returns that expression and stands behind it. *)
Theorem parse_expression_roundtrip {L : Type} `{TokenSource L} (lv : Level) (e : Expression)
    (fuel : nat) (p q : Parser L) :
  printable e = true -> has_error p = false -> continues lv (cur q) = false ->
  feeds p (print_expr lv e) q -> (cost lv (length (print_expr lv e)) <= fuel)%nat ->
  run lv fuel p = Done (Some e, q).
Proof. intros Hp. by apply parses_all. Qed.

(** C3: parsing undoes printing, for statements of every kind: parser_parse reads
    back CREATE TABLE with its column constraints and defaults, DROP TABLE, CREATE
    and DROP INDEX, INSERT with its rows, UPDATE, DELETE, SELECT with all its
    clauses, and the transaction statements, stands behind the semicolon and has no
    error. The statements covered are the well-formed ones without DISTINCT. *)
Theorem parse_statement_roundtrip {L : Type} `{TokenSource L} (stmt : AstNode)
    (fuel : nat) (p q : Parser L) :
  stmt_printable stmt = true -> feeds p (print_stmt stmt) q ->
  (4 * length (print_stmt stmt) <= fuel)%nat ->
  parser_parse fuel p = Done (Some stmt, q) /\ has_error q = false.
Proof.
  intros Hp Hf Hfuel. split; [by apply stmt_reads|].
  apply (feeds_no_error p (print_stmt stmt) q); [|done].
  destruct stmt as [| | | | | | | |[]]; simpl in Hf; by destruct Hf.
Qed.

(** The operators have neither precedence nor left associativity, although the
    table of get_precedence and is_right_assoc say otherwise: parse_binary_expr
    ignores min_prec, so the right operand of an operator reaches to the end.
    [a op1 b op2 c] is [a op1 (b op2 c)] whatever the operators; so
    [x * 2 + 1] is [x * (2 + 1)] and [a = 1 AND b = 2] is [a = (1 AND (b = 2))]. *)
Theorem operators_right_associative {L : Type} `{TokenSource L} (e1 e2 e3 : Expression)
    (op1 op2 : TokenType) (fuel : nat) (p q : Parser L) :
  printable e1 = true -> printable e2 = true -> printable e3 = true ->
  op1 ∈ binary_ops -> op2 ∈ binary_ops ->
  has_error p = false -> continues LExpr (cur q) = false ->
  feeds p (print_expr LNot e1 ++ Kw op1 :: print_expr LNot e2 ++ Kw op2 :: print_expr LExpr e3) q ->
  (4 * length (print_expr LNot e1 ++ Kw op1 :: print_expr LNot e2 ++ Kw op2 :: print_expr LExpr e3) + 2
    <= fuel)%nat ->
  parse_expression fuel p =
    Done (Some (EXPR_BINARY e1 (token_code op1) (EXPR_BINARY e2 (token_code op2) e3)), q).
Proof.
  intros Hp1 Hp2 Hp3 Ho1 Ho2 He Hc Hf Hfuel.
  assert (forall ty, ty ∈ binary_ops -> is_op binary_ops (token_code ty) = true) as Hop.
  { intros ty Hty. unfold is_op. rewrite existsb_exists. exists ty.
    split; [by apply list_elem_of_In|apply Z.eqb_refl]. }
  set (e := EXPR_BINARY e1 (token_code op1) (EXPR_BINARY e2 (token_code op2) e3)).
  assert (printable e = true) as Hp by (simpl; by rewrite !Hop, Hp1, Hp2, Hp3).
  assert (print_expr LExpr e =
    print_expr LNot e1 ++ Kw op1 :: print_expr LNot e2 ++ Kw op2 :: print_expr LExpr e3) as E
    by (simpl; by rewrite !op_token_code).
  rewrite <- E in Hf, Hfuel. by apply (parses_all e Hp LExpr).
Qed.

(** *** A statement in text *)

#[export] Instance double_eq_dec : EqDecision double.
Proof. solve_decision. Defined.

#[export] Instance TokenValue_eq_dec : EqDecision TokenValue.
Proof. solve_decision. Defined.

#[export] Instance shows_dec t s : Decision (shows t s).
Proof. destruct s; simpl; apply _. Defined.

(** [feeds], computed. *)
Fixpoint feeding {L : Type} `{TokenSource L} (p : Parser L) (ss : list Sym) : option (Parser L) :=
  match ss with
  | [] => Some p
  | s :: ss =>
      if negb (has_error p) && bool_decide (shows (p_current p) s) then
        match advance p with Done p' => feeding p' ss | _ => None end
      else None
  end.

Lemma feeding_feeds {L : Type} `{TokenSource L} (p : Parser L) ss q :
  feeding p ss = Some q -> feeds p ss q.
Proof.
  revert p. induction ss as [|s ss IH]; simpl; intros p; [by intros [= ->]|].
  destruct (has_error p); [done|]. simpl. case_bool_decide; [|done].
  destruct (advance p) as [p'| |]; [|done..]. intros Hf. split_and!; [done..|]. eauto.
Qed.

Lemma feeding_cur {L : Type} `{TokenSource L} (p : Parser L) ss q ty :
  feeding p ss = Some q -> cur <$> feeding p ss = Some ty -> cur q = ty.
Proof. intros ->. by intros [= ->]. Qed.

Definition parser_of (text : list Z) : Parser Lexer :=
  match parser_create text with
  | Done (Some p) => p
  | _ => mkParser (mkLexer [] 0 1 1 None None false [] 0 0) eof_token true [] 0 0
  end.

Definition sample_query : list Z :=
  zstr "SELECT name AS n, * FROM users WHERE NOT t.a = -1 AND b IN (1, 'x') ORDER BY name DESC, id LIMIT 10;".

Definition sample_where : Expression :=
  EXPR_BINARY (EXPR_UNARY (token_code TOKEN_NOT) (EXPR_COLUMN 0 (Some (zstr "a")))) (token_code TOKEN_EQ)
    (EXPR_BINARY (EXPR_UNARY (token_code TOKEN_MINUS) (EXPR_LITERAL_INT 1)) (token_code TOKEN_AND)
      (EXPR_IN (EXPR_COLUMN (-1) (Some (zstr "b"))) [EXPR_LITERAL_INT 1; EXPR_LITERAL_STRING (zstr "x")] false)).

Definition sample_stmt : AstNode :=
  AST_SELECT [mkColumnList (zstr "name") (Some (zstr "n")); mkColumnList (zstr "*") None] false
    (zstr "users") (Some sample_where)
    [mkOrderBy (zstr "name") true; mkOrderBy (zstr "id") false] (Some (EXPR_LITERAL_INT 10)) None.

Lemma parse_statement_roundtrip_witness :
  exists q, parser_parse 200 (parser_of sample_query) = Done (Some sample_stmt, q) /\ has_error q = false.
Proof.
  destruct (feeding (parser_of sample_query) (print_stmt sample_stmt)) as [q|] eqn:E.
  - exists q. apply (parse_statement_roundtrip sample_stmt 200 (parser_of sample_query) q).
    + vm_compute. reflexivity.
    + apply feeding_feeds. exact E.
    + apply Nat.leb_le. vm_compute. reflexivity.
  - exfalso. revert E. vm_compute. discriminate.
Defined.

(** An expression as a text of its own: the end of the text ends it. *)
Lemma parse_expression_roundtrip_witness :
  exists q, run LExpr 200 (parser_of (zstr "NOT t.a = -1 AND b IN (1, 'x')")) =
    Done (Some sample_where, q).
Proof.
  destruct (feeding (parser_of (zstr "NOT t.a = -1 AND b IN (1, 'x')")) (print_expr LExpr sample_where))
    as [q|] eqn:E.
  - exists q. apply (parse_expression_roundtrip LExpr sample_where 200
      (parser_of (zstr "NOT t.a = -1 AND b IN (1, 'x')")) q).
    + vm_compute. reflexivity.
    + vm_compute. reflexivity.
    + rewrite (feeding_cur _ _ _ TOKEN_EOF E); [reflexivity|vm_compute; reflexivity].
    + apply feeding_feeds. exact E.
    + apply Nat.leb_le. vm_compute. reflexivity.
  - exfalso. revert E. vm_compute. discriminate.
Defined.

(** x * 2 + 1 *)
Definition precedence_sample : list Sym :=
  [Id (zstr "x"); Kw TOKEN_STAR; LitInt 2; Kw TOKEN_PLUS; LitInt 1].

Lemma operators_right_associative_witness :
  exists q, parse_expression 200 (parser_of (zstr "x * 2 + 1")) =
    Done (Some (EXPR_BINARY (EXPR_COLUMN (-1) (Some (zstr "x"))) (token_code TOKEN_STAR)
      (EXPR_BINARY (EXPR_LITERAL_INT 2) (token_code TOKEN_PLUS) (EXPR_LITERAL_INT 1))), q).
Proof.
  destruct (feeding (parser_of (zstr "x * 2 + 1")) precedence_sample) as [q|] eqn:E.
  - exists q. apply (operators_right_associative (EXPR_COLUMN (-1) (Some (zstr "x"))) (EXPR_LITERAL_INT 2)
      (EXPR_LITERAL_INT 1) TOKEN_STAR TOKEN_PLUS 200 (parser_of (zstr "x * 2 + 1")) q);
      try reflexivity.
    + apply (bool_decide_unpack (_ ∈ _)). exact I.
    + apply (bool_decide_unpack (_ ∈ _)). exact I.
    + rewrite (feeding_cur _ _ _ TOKEN_EOF E); [reflexivity|vm_compute; reflexivity].
    + apply feeding_feeds. exact E.
    + apply Nat.leb_le. vm_compute. reflexivity.
  - exfalso. revert E. vm_compute. discriminate.
Defined.
