(* ===== verification/ParserTotal.v ===== *)
(** The parser on any input: it stops consuming after an error, expressions are
    well-formed, parsing of expressions and of most statements terminates, and the
    inputs it does not terminate on. *)
From Stdlib Require Import ZArith Lia String.
From stdpp Require Import base numbers option list sets.
From S2P Require Import Prelude CString Double Lexer Ast Parser ParserSpec.

Section total.
Context {L : Type} `{TokenSourceLaws L}.
Implicit Types p : Parser L.

(** ** Progress *)

Definition parser_inv p : Prop :=
  ts_inv (lexer p) /\ (cur p = TOKEN_EOF -> ts_left (lexer p) = 0%nat).

(** What is left to read, the current token included. *)
Definition left p : nat := if token_eqb (cur p) TOKEN_EOF then 0 else S (ts_left (lexer p)).

(** [p'] can come after [p]: it has not more to read, and if [p] has an error,
    nothing has been consumed. *)
Definition after p p' : Prop :=
  parser_inv p' /\ (left p' <= left p)%nat /\
  (has_error p = true -> has_error p' = true /\ p_current p' = p_current p /\ lexer p' = lexer p).

Lemma after_refl p : parser_inv p -> after p p.
Proof. intros Hi. split; [exact Hi|]. split; [lia|done]. Qed.

Lemma after_trans p1 p2 p3 : after p1 p2 -> after p2 p3 -> after p1 p3.
Proof.
  intros (H1 & H2 & H3) (H4 & H5 & H6). split; [done|]. split; [lia|].
  intros (E1 & <- & <-)%H3. by apply H6.
Qed.

Lemma after_set_error p msg : parser_inv p -> after p (parser_set_error p msg).
Proof. intros Hi. split; [exact Hi|]. split; [|done]. apply Nat.le_refl. Qed.

Lemma after_inv p p' : after p p' -> parser_inv p'.
Proof. by intros []. Qed.

Lemma after_error p p' : after p p' -> has_error p = true -> has_error p' = true /\ cur p' = cur p.
Proof. intros (_ & _ & E) (? & Ht & _)%E. unfold cur. by rewrite Ht. Qed.

(** Something was consumed, unless there is an error now. *)
Definition ate p p' : Prop := after p p' /\ (has_error p' = false -> (left p' < left p)%nat).

Lemma advance_after p :
  parser_inv p -> terminates (advance p) (fun p' =>
    after p p' /\ (has_error p = false -> has_error p' = false) /\
    (cur p <> TOKEN_EOF -> has_error p' = false -> (left p' < left p)%nat)).
Proof.
  intros [Hi He]. unfold advance. destruct (has_error p) eqn:E.
  - simpl. split; [by apply after_refl|]. split; [done|congruence].
  - destruct (ts_next_ok (lexer p) Hi) as [->|(t & l & -> & Hl & Hc)]; [done|].
    rewrite bind_Done. unfold terminates.
    set (p' := mkParser l t false (p_error p) (p_error_line p) (p_error_column p)).
    assert (left p' <= ts_left (lexer p))%nat as Hle.
    { unfold left, cur. cbn [p_current p' lexer]. destruct Hc as [[-> ?]|[Ht ?]].
      - rewrite token_eqb_refl. lia.
      - rewrite token_eqb_ne by done. lia. }
    assert (cur p <> TOKEN_EOF -> (left p' < left p)%nat) as Hlt.
    { intros Hne. unfold left at 2. rewrite token_eqb_ne by done. lia. }
    split; [split; [split; [done|]|split; [|congruence]]|split; [done|auto]].
    + destruct Hc as [[? ?]|[? ?]]; done.
    + destruct (decide (cur p = TOKEN_EOF)) as [Ep|Ep]; [|specialize (Hlt Ep); lia].
      rewrite (He Ep) in Hle. lia.
Qed.

Lemma left_pos p : cur p <> TOKEN_EOF -> (0 < left p)%nat.
Proof. intros Hne. unfold left. rewrite token_eqb_ne by done. lia. Qed.

Lemma expect_token_after p ty msg :
  parser_inv p -> terminates (expect_token p ty msg) (fun p' => after p p' /\
    (has_error p' = true -> cur p' = cur p)).
Proof.
  intros Hi. unfold expect_token. destruct (token_eqb (cur p) ty); simpl.
  - eapply terminates_mono; [by apply advance_after|]. intros p' (Ha & He & _). split; [done|].
    intros E. destruct (has_error p) eqn:Ep; [by apply (after_error p)|].
    rewrite He in E by done. done.
  - split; [by apply after_set_error|done].
Qed.

Lemma parse_identifier_after p :
  parser_inv p -> terminates (parse_identifier p) (fun '(r, p') =>
    after p p' /\ (is_Some r -> cur p = TOKEN_IDENTIFIER /\ ate p p' /\ has_error p' = has_error p)).
Proof.
  intros Hi. unfold parse_identifier. destruct (token_eqb (cur p) TOKEN_IDENTIFIER) eqn:E; simpl.
  - apply bool_decide_eq_true in E.
    eapply terminates_bind; [by apply advance_after|]. intros p' (Ha & He & Hl). simpl.
    split; [done|]. intros _. split_and!; [done|split; [done|]|].
    + apply Hl. congruence.
    + destruct (has_error p) eqn:Ep; [by apply (after_error p)|by apply He].
  - split; [by apply after_set_error|]. by intros [].
Qed.

(** ** Expressions *)

(** After an error no token is consumed any more, so a function that recurses on the
    token it has just consumed must not be entered at that token. *)
Definition quiet p : Prop := has_error p = true ->
  check_keyword p (zstr "NOT") = false /\ cur p ∉ [TOKEN_LPAREN; TOKEN_MINUS; TOKEN_PLUS].

Lemma quiet_ok p : has_error p = false -> quiet p.
Proof. unfold quiet. congruence. Qed.

(** What holds of the result of parse_literal and parse_unary_not, and of the
    result of parse_binary_expr. *)
Definition literal_post p (x : option Expression * Parser L) : Prop :=
  after p (snd x) /\
  (is_Some (fst x) -> (has_error (snd x) = false -> (left (snd x) < left p)%nat) /\
                      (has_error (snd x) = true -> operator (cur (snd x)) = false)).

Definition expr_post p (x : option Expression * Parser L) : Prop :=
  after p (snd x) /\
  (is_Some (fst x) -> (has_error (snd x) = false -> (left (snd x) < left p)%nat) /\
                      operator (cur (snd x)) = false).

(** The same without progress: the operator loop and the items of IN. *)
Definition loop_post {A} p (x : option A * Parser L) : Prop :=
  after p (snd x) /\ (is_Some (fst x) -> operator (cur (snd x)) = false).

Lemma literal_none p p' : after p p' -> literal_post p (None, p').
Proof. intros Ha. split; [done|]. by intros []. Qed.

Lemma advance_literal e p :
  parser_inv p -> cur p <> TOKEN_EOF -> operator (cur p) = false ->
  terminates (let* p := advance p in Done (Some e, p)) (literal_post p).
Proof.
  intros Hi Hne Hop. eapply terminates_bind; [by apply advance_after|].
  intros p' (Ha & He & Hl). split; [done|]. intros _. cbn [fst snd]. split; [auto|].
  intros E. destruct (has_error p) eqn:Ep; [|rewrite He in E by done; done].
  destruct (after_error _ _ Ha Ep) as [_ ->]. done.
Qed.

Lemma literal_column p :
  parser_inv p -> cur p = TOKEN_IDENTIFIER ->
  terminates
    (let* '(name, p) := parse_identifier p in
     match name with
     | None => Done (None, p)
     | Some name =>
         if token_eqb (cur p) TOKEN_DOT then
           let* p := advance p in
           let* '(col_name, p) := parse_identifier p in
           match col_name with
           | None => Done (None, p)
           | Some col_name => Done (Some (EXPR_COLUMN 0 (Some col_name)), p)
           end
         else Done (Some (EXPR_COLUMN (-1) (Some name)), p)
     end) (literal_post p).
Proof.
  intros Hi Hc. eapply terminates_bind; [by apply parse_identifier_after|].
  intros [[name|] p1] [Ha Hn]; [|by apply literal_none].
  destruct Hn as (_ & [_ Hl] & He); [done|].
  assert (has_error p = true -> cur p1 = TOKEN_IDENTIFIER) as Herr.
  { intros E. destruct (after_error _ _ Ha E) as [_ ->]. done. }
  destruct (token_eqb (cur p1) TOKEN_DOT) eqn:Hdot.
  - apply bool_decide_eq_true in Hdot.
    assert (has_error p = false) as E by (destruct (has_error p); [|done]; rewrite Herr in Hdot; done).
    rewrite E in He. eapply terminates_bind; [apply advance_after; by apply Ha|].
    intros p2 (Ha2 & He2 & Hl2). eapply terminates_bind; [apply parse_identifier_after; by apply Ha2|].
    intros [[col|] p3] [Ha3 Hn3]; [|apply literal_none; eauto using after_trans].
    destruct Hn3 as (_ & [_ Hl3] & He3); [done|].
    split; [cbn [snd]; eauto using after_trans|]. intros _. cbn [fst snd].
    rewrite He3, (He2 He). split; [|done]. intros _. specialize (Hl He).
    destruct Ha2 as (_ & Hle2 & _), Ha3 as (_ & Hle3 & _). lia.
  - split; [done|]. intros _. split; [done|]. cbn [snd]. rewrite He. intros E. by rewrite Herr.
Qed.

Section fuel.
Variable fuel : nat.
Hypothesis (Hliteral : forall p, parser_inv p -> quiet p -> (4 * left p + 1 <= fuel)%nat ->
  terminates (parse_literal fuel p) (literal_post p)).
Hypothesis (Hexpr : forall p, parser_inv p -> quiet p -> (4 * left p + 3 <= fuel)%nat ->
  terminates (parse_expression fuel p) (expr_post p)).

Lemma literal_sign p :
  parser_inv p -> quiet p -> (4 * left p <= fuel)%nat -> cur p = TOKEN_MINUS \/ cur p = TOKEN_PLUS ->
  terminates (parse_literal (S fuel) p) (literal_post p).
Proof.
  intros Hi Hq Hfuel Hc. rewrite parse_literal_sign by done.
  assert (cur p <> TOKEN_EOF) as Hne by (destruct Hc; congruence).
  assert (has_error p = false) as E.
  { destruct (has_error p) eqn:E; [|done]. destruct (Hq E) as [_ Hin]. exfalso. apply Hin.
    destruct Hc as [-> | ->]; repeat constructor. }
  eapply terminates_bind; [by apply advance_after|]. intros p1 (Ha & He & Hl).
  specialize (Hl Hne (He E)).
  eapply terminates_bind; [apply Hliteral; [by apply Ha|by apply quiet_ok, He|lia]|].
  intros [e p2] [Ha2 Hpost]. split; [cbn [snd]; eauto using after_trans|].
  cbn [fst snd] in *. intros Hs%fmap_is_Some. destruct (Hpost Hs) as [Hl2 Ho]. split; [|done].
  intros E2. specialize (Hl2 E2). lia.
Qed.

Lemma literal_paren p :
  parser_inv p -> quiet p -> (4 * left p <= fuel)%nat -> cur p = TOKEN_LPAREN ->
  terminates (parse_literal (S fuel) p) (literal_post p).
Proof.
  intros Hi Hq Hfuel Hc. rewrite parse_literal_paren by done.
  assert (has_error p = false) as E.
  { destruct (has_error p) eqn:E; [|done]. destruct (Hq E) as [_ Hin]. exfalso. apply Hin.
    rewrite Hc. repeat constructor. }
  eapply terminates_bind; [by apply advance_after|]. intros p1 (Ha & He & Hl).
  assert (left p1 < left p)%nat as Hlt by (apply Hl; [congruence|auto]).
  eapply terminates_bind; [apply Hexpr; [by apply Ha|by apply quiet_ok, He|lia]|].
  intros [e p2] [Ha2 Hpost]. cbn [fst snd] in Ha2, Hpost.
  destruct (token_eqb (cur p2) TOKEN_RPAREN) eqn:Hr.
  - apply bool_decide_eq_true in Hr. eapply terminates_bind; [apply advance_after, Ha2|].
    intros p3 (Ha3 & He3 & Hl3). split; [cbn [snd]; eauto using after_trans|]. cbn [fst snd].
    intros Hs. destruct (Hpost Hs) as [Hl2 Ho]. split.
    + intros E3. destruct Ha3 as (_ & Hle3 & _), Ha2 as (_ & Hle2 & _). lia.
    + intros E3. destruct (has_error p2) eqn:E2; [|rewrite He3 in E3; done].
      by destruct (after_error _ _ Ha3 E2) as [_ ->].
  - split; [cbn [snd]; eauto using after_trans, after_set_error, after_inv|].
    cbn [fst snd]. intros Hs. destruct (Hpost Hs) as [Hl2 Ho]. done.
Qed.

Lemma literal_step p :
  parser_inv p -> quiet p -> (4 * left p <= fuel)%nat ->
  terminates (parse_literal (S fuel) p) (literal_post p).
Proof.
  intros Hi Hq Hfuel. destruct (cur p) eqn:Hc;
    try (by apply literal_sign; auto); try (by apply literal_paren).
  all: cbn [parse_literal]; rewrite Hc.
  all: try (by apply literal_none, after_set_error).
  - by apply literal_column.
  - destruct (t_value (p_current p)); try done. apply advance_literal; [done|congruence|by rewrite Hc].
  - destruct (t_value (p_current p)); try done. apply advance_literal; [done|congruence|by rewrite Hc].
  - destruct (t_value (p_current p)); try done. apply advance_literal; [done|congruence|by rewrite Hc].
  - apply advance_literal; [done|congruence|by rewrite Hc].
Qed.
End fuel.

Lemma not_step fuel p :
  (forall p, parser_inv p -> quiet p -> (4 * left p + 1 <= fuel)%nat ->
    terminates (parse_literal fuel p) (literal_post p)) ->
  (forall p, parser_inv p -> quiet p -> (4 * left p + 2 <= fuel)%nat ->
    terminates (parse_unary_not fuel p) (literal_post p)) ->
  parser_inv p -> quiet p -> (4 * left p + 1 <= fuel)%nat ->
  terminates (parse_unary_not (S fuel) p) (literal_post p).
Proof.
  intros Hliteral Hnot Hi Hq Hfuel. rewrite parse_unary_not_S.
  destruct (check_keyword p (zstr "NOT")) eqn:Hk; [|by apply Hliteral].
  assert (has_error p = false) as E.
  { destruct (has_error p) eqn:E; [|done]. destruct (Hq E) as [? _]. congruence. }
  assert (cur p <> TOKEN_EOF) as Hne.
  { intros Hc. unfold check_keyword in Hk. rewrite Hc in Hk. discriminate Hk. }
  eapply terminates_bind; [by apply advance_after|]. intros p1 (Ha & He & Hl). specialize (Hl Hne (He E)).
  eapply terminates_bind; [apply Hnot; [by apply Ha|by apply quiet_ok, He|lia]|].
  intros [e p2] [Ha2 Hpost]. split; [cbn [snd]; eauto using after_trans|].
  cbn [fst snd] in *. intros Hs%fmap_is_Some. destruct (Hpost Hs) as [Hl2 Ho]. split; [|done].
  intros E2. specialize (Hl2 E2). lia.
Qed.

Lemma expr_step fuel p :
  (forall p, parser_inv p -> quiet p -> (4 * left p + 2 <= fuel)%nat ->
    terminates (parse_unary_not fuel p) (literal_post p)) ->
  (forall lhs p, parser_inv p -> (has_error p = true -> operator (cur p) = false) ->
    (4 * left p + 4 <= fuel)%nat -> terminates (parse_operators fuel lhs p) (loop_post p)) ->
  parser_inv p -> quiet p -> (4 * left p + 2 <= fuel)%nat ->
  terminates (parse_expression (S fuel) p) (expr_post p).
Proof.
  intros Hnot Hops Hi Hq Hfuel. rewrite parse_expression_S.
  eapply terminates_bind; [by apply Hnot|]. intros [[e|] p1] [Ha Hpost]; cbn [fst snd] in *.
  2:{ split; [done|]. by intros []. }
  destruct (Hpost ltac:(done)) as [Hl Ho]. destruct (has_error p1) eqn:E.
  - split; [done|]. intros _. cbn [fst snd]. split; [by rewrite E|auto].
  - eapply terminates_mono; [apply Hops; [by apply Ha|congruence|specialize (Hl eq_refl); lia]|].
    intros [r p2] [Ha2 Hpost2]. cbn [fst snd] in *. split; [cbn [snd]; eauto using after_trans|].
    intros Hs. cbn [fst snd] in *. split; [|auto]. intros _. destruct Ha2 as (_ & Hle & _).
    specialize (Hl eq_refl). lia.
Qed.

(** After an error the items end at a comma. *)
Lemma in_items_error fuel acc p :
  has_error p = true -> cur p = TOKEN_COMMA -> (4 <= fuel)%nat ->
  exists msg, parse_in_items fuel acc p = Done (None, parser_set_error p msg).
Proof.
  intros E Hc Hfuel. do 4 (destruct fuel as [|fuel]; [lia|]).
  rewrite parse_in_items_S, parse_expression_S, parse_unary_not_S.
  assert (check_keyword p (zstr "NOT") = false) as -> by (unfold check_keyword; rewrite Hc; reflexivity).
  cbn [parse_literal]. rewrite Hc. rewrite !bind_Done. eauto.
Qed.

Lemma items_step fuel acc p :
  (forall p, parser_inv p -> quiet p -> (4 * left p + 3 <= fuel)%nat ->
    terminates (parse_expression fuel p) (expr_post p)) ->
  (forall acc p, parser_inv p -> quiet p -> (4 * left p + 4 <= fuel)%nat ->
    terminates (parse_in_items fuel acc p) (loop_post p)) ->
  parser_inv p -> quiet p -> (4 * left p + 3 <= fuel)%nat ->
  terminates (parse_in_items (S fuel) acc p) (loop_post p).
Proof.
  intros Hexpr Hitems Hi Hq Hfuel. rewrite parse_in_items_S.
  eapply terminates_bind; [by apply Hexpr|]. intros [[e|] p1] [Ha Hpost]; cbn [fst snd] in *.
  2:{ split; [done|]. by intros []. }
  destruct (Hpost ltac:(done)) as [Hl Ho].
  destruct (token_eqb (cur p1) TOKEN_COMMA) eqn:Hc; [|split; done].
  apply bool_decide_eq_true in Hc. assert (cur p1 <> TOKEN_EOF) as Hne by congruence.
  destruct (has_error p1) eqn:E.
  - unfold advance. rewrite E, bind_Done. pose proof (left_pos p1 Hne). destruct Ha as (Hi1 & Hle & Hs).
    destruct (in_items_error fuel (acc ++ [e]) p1) as [msg ->]; [done..|lia|].
    split; [|by intros []]. eapply after_trans; [|by apply after_set_error]. done.
  - eapply terminates_bind; [apply advance_after, Ha|]. intros p2 (Ha2 & He2 & Hl2).
    specialize (He2 E). specialize (Hl2 Hne He2). specialize (Hl eq_refl).
    eapply terminates_mono; [apply Hitems; [apply Ha2|by apply quiet_ok|lia]|].
    intros [r p3] [Ha3 Hpost3]. split; [cbn [snd]; eauto using after_trans|done].
Qed.

Lemma operator_cases ty :
  operator ty = true -> ty = TOKEN_LIKE \/ ty = TOKEN_IN \/ ty = TOKEN_BETWEEN \/ ty ∈ binary_ops.
Proof.
  destruct ty; intros Hty; try discriminate Hty; auto; do 3 right; by apply (bool_decide_unpack (_ ∈ _)).
Qed.

Lemma between_keyword p :
  operator (cur p) = false -> check_keyword p (zstr "AND") = true ->
  check_keyword p (zstr "NOT") = false /\ cur p ∉ [TOKEN_LPAREN; TOKEN_MINUS; TOKEN_PLUS].
Proof.
  unfold check_keyword.
  change (keyword_to_token_type (zstr "AND")) with (Some TOKEN_AND).
  change (keyword_to_token_type (zstr "NOT")) with (Some TOKEN_NOT). cbv iota.
  destruct (cur p); intros Ho Hk; try discriminate Ho; try discriminate Hk.
  cbn in Hk. apply bool_decide_eq_true in Hk. rewrite Hk. split; [reflexivity|].
  intros Hin. set_unfold in Hin. naive_solver.
Qed.

Section operators.
Variable fuel : nat.
Hypothesis (Hexpr : forall p, parser_inv p -> quiet p -> (4 * left p + 3 <= fuel)%nat ->
  terminates (parse_expression fuel p) (expr_post p)).
Hypothesis (Hitems : forall acc p, parser_inv p -> quiet p -> (4 * left p + 4 <= fuel)%nat ->
  terminates (parse_in_items fuel acc p) (loop_post p)).
Hypothesis (Hops : forall lhs p, parser_inv p -> (has_error p = true -> operator (cur p) = false) ->
  (4 * left p + 4 <= fuel)%nat -> terminates (parse_operators fuel lhs p) (loop_post p)).

(** The loop goes on behind [p1], which comes after [p]. *)
Lemma operators_continue lhs p p1 :
  after p p1 -> (has_error p1 = true -> operator (cur p1) = false) -> (4 * left p1 + 4 <= fuel)%nat ->
  terminates (parse_operators fuel lhs p1) (loop_post p).
Proof.
  intros Ha Ho Hf. eapply terminates_mono; [apply Hops; [apply Ha|done..]|].
  intros [r p2] [Ha2 Hpost]. split; [cbn [snd]; eauto using after_trans|done].
Qed.

(** A right operand, then the loop again. *)
Lemma operators_operand (mk : Expression -> Expression) p p1 :
  after p p1 -> quiet p1 -> (4 * left p1 + 4 <= fuel)%nat ->
  terminates
    (let* '(e, p) := parse_expression fuel p1 in
     match e with None => Done (None, p) | Some e => parse_operators fuel (mk e) p end) (loop_post p).
Proof.
  intros Ha Hq Hf. eapply terminates_bind; [apply Hexpr; [apply Ha|done|lia]|].
  intros [[e|] p2] [Ha2 Hpost]; cbn [fst snd] in *.
  2:{ split; [cbn [snd]; eauto using after_trans|]. by intros []. }
  destruct (Hpost ltac:(done)) as [Hl Ho]. apply operators_continue; [eauto using after_trans|done|].
  destruct Ha2 as (_ & Hle & _). lia.
Qed.

Lemma operators_in lhs p p1 :
  after p p1 -> has_error p1 = false -> (4 * left p1 + 4 <= fuel)%nat -> cur p1 = TOKEN_LPAREN ->
  terminates
    (let* p := advance p1 in
     let* '(items, p) := if negb (token_eqb (cur p) TOKEN_RPAREN)
                         then parse_in_items fuel [] p else Done (Some [], p) in
     match items with
     | None => Done (None, p)
     | Some items =>
         let* p := expect_token p TOKEN_RPAREN (zstr "Expected ')'") in
         parse_operators fuel (EXPR_IN lhs items false) p
     end) (loop_post p).
Proof.
  intros Ha E Hf Hc. eapply terminates_bind; [apply advance_after, Ha|]. intros p2 (Ha2 & He2 & _).
  specialize (He2 E). pose proof Ha2 as (_ & Hle2 & _).
  apply (terminates_bind _ _ (fun x : option (list Expression) * Parser L => loop_post p2 x)).
  - destruct (token_eqb (cur p2) TOKEN_RPAREN) eqn:Hr; cbn [negb].
    + apply bool_decide_eq_true in Hr. split; [apply after_refl, Ha2|]. intros _. cbn [snd]. by rewrite Hr.
    + apply Hitems; [apply Ha2|by apply quiet_ok|lia].
  - intros [[items|] p3] [Ha3 Hpost]; cbn [fst snd] in *.
    2:{ split; [cbn [snd]; eauto using after_trans|]. by intros []. }
    eapply terminates_bind; [apply expect_token_after, Ha3|]. intros p4 [Ha4 He4].
    apply operators_continue; [eauto using after_trans|intros E4; rewrite He4 by done; auto|].
    destruct Ha3 as (_ & Hle3 & _), Ha4 as (_ & Hle4 & _). lia.
Qed.

Lemma operators_between lhs p p1 :
  after p p1 -> has_error p1 = false -> (4 * left p1 + 4 <= fuel)%nat ->
  terminates
    (let* '(low, p) := parse_expression fuel p1 in
     match low with
     | None => Done (None, p)
     | Some low =>
         if negb (check_keyword p (zstr "AND"))
         then Done (None, parser_set_error p (zstr "Expected AND in BETWEEN expression")) else
         let* p := advance p in
         let* '(high, p) := parse_expression fuel p in
         match high with
         | None => Done (None, p)
         | Some high => parse_operators fuel (EXPR_BETWEEN lhs low high false) p
         end
     end) (loop_post p).
Proof.
  intros Ha E Hf. eapply terminates_bind; [apply Hexpr; [apply Ha|by apply quiet_ok|lia]|].
  intros [[low|] p2] [Ha2 Hpost]; cbn [fst snd] in *.
  2:{ split; [cbn [snd]; eauto using after_trans|]. by intros []. }
  destruct (Hpost ltac:(done)) as [_ Ho].
  destruct (check_keyword p2 (zstr "AND")) eqn:Hk; cbn [negb].
  2:{ split; [|by intros []]. cbn [snd]. eauto using after_trans, after_set_error, after_inv. }
  eapply terminates_bind; [apply advance_after, Ha2|]. intros p3 (Ha3 & He3 & _).
  apply operators_operand.
  - eauto using after_trans.
  - intros E3. destruct (has_error p2) eqn:E2; [|rewrite He3 in E3; done].
    pose proof Ha3 as (_ & _ & Hs). destruct (Hs E2) as (_ & Hp & _).
    unfold check_keyword, cur in *. rewrite Hp. by apply between_keyword.
  - destruct Ha2 as (_ & Hle2 & _), Ha3 as (_ & Hle3 & _). lia.
Qed.

Lemma operators_step lhs p :
  parser_inv p -> (has_error p = true -> operator (cur p) = false) -> (4 * left p + 3 <= fuel)%nat ->
  terminates (parse_operators (S fuel) lhs p) (loop_post p).
Proof.
  intros Hi Ho Hf. rewrite parse_operators_S. destruct (operator (cur p)) eqn:Hop.
  2:{ rewrite parse_operator_stop by done. split; [by apply after_refl|done]. }
  assert (has_error p = false) as E by (destruct (has_error p); [by discriminate Ho|done]).
  assert (cur p <> TOKEN_EOF) as Hne by (intros Hc; rewrite Hc in Hop; discriminate Hop).
  pose proof (advance_after p Hi) as Hadv. pose proof (left_pos p Hne) as Hpos.
  assert (forall p1, after p p1 /\ (has_error p = false -> has_error p1 = false) /\
    (cur p <> TOKEN_EOF -> has_error p1 = false -> (left p1 < left p)%nat) ->
    after p p1 /\ has_error p1 = false /\ (4 * left p1 + 4 <= fuel)%nat) as Hnext.
  { intros p1 (Ha & He & Hl). specialize (He E). specialize (Hl Hne He). split_and!; [apply Ha..|done|lia]. }
  destruct (operator_cases _ Hop) as [Hc|[Hc|[Hc|Hc]]].
  - unfold parse_operator. rewrite Hc. tokens. eapply terminates_bind; [exact Hadv|].
    intros p1 (Ha & E1 & Hl)%Hnext. rewrite parse_binary_expr_prec. apply operators_operand; [done|by apply quiet_ok|done].
  - unfold parse_operator. rewrite Hc. tokens. eapply terminates_bind; [exact Hadv|].
    intros p1 (Ha & E1 & Hl)%Hnext. destruct (token_eqb (cur p1) TOKEN_LPAREN) eqn:Hlp.
    + apply operators_in; [done..|]. by apply bool_decide_eq_true in Hlp.
    + apply operators_continue; [done|congruence|done].
  - unfold parse_operator. rewrite Hc. tokens. eapply terminates_bind; [exact Hadv|].
    intros p1 (Ha & E1 & Hl)%Hnext. rewrite parse_binary_expr_prec. pose proof operators_between as Hb.
    specialize (Hb lhs p p1 Ha E1 Hl). revert Hb. clear. intros Hb.
    destruct (parse_expression fuel p1) as [[[low|] p2]| |]; try done. rewrite !bind_Done in *.
    destruct (check_keyword p2 (zstr "AND")); try done. cbn [negb] in *.
    destruct (advance p2) as [p3| |]; try done. rewrite !bind_Done in *. by rewrite parse_binary_expr_prec.
  - rewrite parse_operator_binary by done. eapply terminates_bind; [exact Hadv|].
    intros p1 (Ha & E1 & Hl)%Hnext. rewrite parse_binary_expr_prec.
    apply (operators_operand (EXPR_BINARY lhs (token_code (cur p)))); [done|by apply quiet_ok|done].
Qed.
End operators.

(** All five functions, by induction on the fuel. *)
Lemma expression_terminates fuel :
  (forall p, parser_inv p -> quiet p -> (4 * left p + 1 <= fuel)%nat ->
    terminates (parse_literal fuel p) (literal_post p)) /\
  (forall p, parser_inv p -> quiet p -> (4 * left p + 2 <= fuel)%nat ->
    terminates (parse_unary_not fuel p) (literal_post p)) /\
  (forall p, parser_inv p -> quiet p -> (4 * left p + 3 <= fuel)%nat ->
    terminates (parse_expression fuel p) (expr_post p)) /\
  (forall acc p, parser_inv p -> quiet p -> (4 * left p + 4 <= fuel)%nat ->
    terminates (parse_in_items fuel acc p) (loop_post p)) /\
  (forall lhs p, parser_inv p -> (has_error p = true -> operator (cur p) = false) ->
    (4 * left p + 4 <= fuel)%nat -> terminates (parse_operators fuel lhs p) (loop_post p)).
Proof.
  induction fuel as [|fuel (H1 & H2 & H3 & H4 & H5)]; [split_and!; intros; lia|].
  split_and!; intros.
  - apply literal_step; auto with lia.
  - apply not_step; auto with lia.
  - apply expr_step; auto with lia.
  - apply items_step; auto with lia.
  - apply operators_step; auto with lia.
Qed.

(** ** Statements *)

(** The result of a parse function: it comes after the start. *)
Definition parsed {A} p (x : A * Parser L) : Prop := after p (snd x).

Lemma parsed_none {A} p p' : after p p' -> parsed p (@None A, p').
Proof. done. Qed.

Lemma keyword_quiet p kw t :
  keyword_to_token_type kw = Some t -> t ∉ [TOKEN_NOT; TOKEN_LPAREN; TOKEN_MINUS; TOKEN_PLUS] ->
  kw <> zstr "NOT" -> check_keyword p kw = true ->
  check_keyword p (zstr "NOT") = false /\ cur p ∉ [TOKEN_LPAREN; TOKEN_MINUS; TOKEN_PLUS].
Proof.
  intros Hkw Ht Hne. unfold check_keyword. rewrite Hkw.
  change (keyword_to_token_type (zstr "NOT")) with (Some TOKEN_NOT). cbv iota.
  destruct (token_eqb t (cur p)) eqn:E.
  - apply bool_decide_eq_true in E as <-. intros _. split; [|set_solver].
    rewrite token_eqb_ne by set_solver. destruct (token_eqb t TOKEN_IDENTIFIER) eqn:E; [|done].
    apply bool_decide_eq_true in E as ->. by apply keyword_not_identifier in Hkw.
  - intros [Hid Htext]%andb_prop. apply bool_decide_eq_true in Hid, Htext. rewrite Hid, Htext.
    split; [|set_solver]. tokens. by apply bool_decide_eq_false_2.
Qed.

(** After a keyword an expression can be parsed. *)
Lemma keyword_then_expression p kw t fuel :
  keyword_to_token_type kw = Some t -> t ∉ [TOKEN_NOT; TOKEN_LPAREN; TOKEN_MINUS; TOKEN_PLUS] ->
  kw <> zstr "NOT" -> check_keyword p kw = true -> parser_inv p -> (4 * left p + 3 <= fuel)%nat ->
  terminates (let* p := advance p in parse_expression fuel p) (parsed p).
Proof.
  intros Hkw Ht Hne Hk Hi Hf. eapply terminates_bind; [by apply advance_after|].
  intros p1 (Ha & He & _). destruct (expression_terminates fuel) as (_ & _ & H3 & _).
  eapply terminates_mono; [apply H3; [apply Ha| |destruct Ha as (_ & ? & _); lia]|].
  - intros E. destruct (has_error p) eqn:Ep; [|rewrite He in E; done].
    destruct Ha as (_ & _ & Hs). destruct (Hs Ep) as (_ & Hp & _).
    unfold check_keyword, cur in *. rewrite Hp. by eapply keyword_quiet.
  - intros x [Hx _]. unfold parsed. eauto using after_trans.
Qed.

Lemma expect_keyword_after p kw msg :
  parser_inv p -> terminates (expect_keyword p kw msg) (after p).
Proof.
  intros Hi. unfold expect_keyword. destruct (check_keyword p kw); simpl; [|by apply after_set_error].
  eapply terminates_mono; [by apply advance_after|]. by intros p' [].
Qed.

Lemma required_where_after p fuel msg :
  parser_inv p -> (4 * left p + 3 <= fuel)%nat ->
  terminates (parse_required_where fuel p msg) (parsed p).
Proof.
  intros Hi Hf. unfold parse_required_where. destruct (check_keyword p (zstr "WHERE")) eqn:Hk.
  - by eapply (keyword_then_expression p (zstr "WHERE") TOKEN_WHERE); [|set_solver| |..].
  - apply parsed_none. by apply after_set_error.
Qed.

(** Two steps that come after the start; the last step. *)
Lemma after_bind {B} (m : outcome (Parser L)) (f : Parser L -> outcome B) p p1 (Q : B -> Prop) :
  after p p1 -> terminates m (after p1) ->
  (forall p2, after p p2 -> terminates (f p2) Q) -> terminates (obind m f) Q.
Proof.
  intros Ha Hm Hf. eapply terminates_bind; [exact Hm|]. intros p2 Ha2. eauto using after_trans.
Qed.

Lemma parsed_bind {A B} (m : outcome (A * Parser L)) (f : A * Parser L -> outcome B) p p1 (Q : B -> Prop) :
  after p p1 -> terminates m (parsed p1) ->
  (forall a p2, after p p2 -> terminates (f (a, p2)) Q) -> terminates (obind m f) Q.
Proof.
  intros Ha Hm Hf. eapply terminates_bind; [exact Hm|]. intros [a p2] Ha2. eauto using after_trans.
Qed.

Lemma advance_parsed p : parser_inv p -> terminates (advance p) (after p).
Proof. intros Hi. eapply terminates_mono; [by apply advance_after|]. by intros p' []. Qed.

Lemma expect_parsed p ty msg : parser_inv p -> terminates (expect_token p ty msg) (after p).
Proof. intros Hi. eapply terminates_mono; [by apply expect_token_after|]. by intros p' []. Qed.

Lemma identifier_parsed p : parser_inv p -> terminates (parse_identifier p) (parsed p).
Proof. intros Hi. eapply terminates_mono; [by apply parse_identifier_after|]. by intros [a p'] []. Qed.

(** The end of a statement. *)
Lemma finish_parsed {A} p p1 (a : A) ty msg :
  after p p1 -> terminates (let* p := expect_token p1 ty msg in Done (Some a, p)) (parsed p).
Proof.
  intros Ha. eapply after_bind; [exact Ha|apply expect_parsed, Ha|]. done.
Qed.

Lemma after_le p p' : after p p' -> (left p' <= left p)%nat.
Proof. by intros (_ & ? & _). Qed.

Lemma delete_terminates p fuel :
  parser_inv p -> (4 * left p + 3 <= fuel)%nat -> terminates (parse_delete fuel p) (parsed p).
Proof.
  intros Hi Hf. unfold parse_delete.
  eapply after_bind; [by apply after_refl|by apply advance_parsed|]. intros p1 H1.
  eapply after_bind; [exact H1|apply expect_keyword_after, H1|]. intros p2 H2.
  eapply parsed_bind; [exact H2|apply identifier_parsed, H2|]. intros [name|] p3 H3; [|done].
  pose proof (after_le _ _ H3) as Hle.
  eapply parsed_bind; [exact H3|apply required_where_after; [apply H3|lia]|].
  intros [w|] p4 H4; [by apply finish_parsed|done].
Qed.

Lemma drop_table_terminates p : parser_inv p -> terminates (parse_drop_table p) (parsed p).
Proof.
  intros Hi. unfold parse_drop_table.
  apply (parsed_bind _ _ p p); [by apply after_refl| |].
  - destruct (token_eqb (cur p) TOKEN_IF); [|by apply after_refl].
    eapply after_bind; [by apply after_refl|by apply advance_parsed|]. intros p1 H1.
    destruct (token_eqb (cur p1) TOKEN_EXISTS).
    + eapply after_bind; [exact H1|apply advance_parsed, H1|]. done.
    + eapply after_trans; [done|]. apply after_set_error, H1.
  - intros [ie|] p1 H1; [|done].
    eapply parsed_bind; [exact H1|apply identifier_parsed, H1|].
    intros [name|] p2 H2; [by apply finish_parsed|done].
Qed.

Lemma drop_index_terminates p : parser_inv p -> terminates (parse_drop_index p) (parsed p).
Proof.
  intros Hi. unfold parse_drop_index.
  eapply parsed_bind; [by apply after_refl|by apply identifier_parsed|].
  intros [name|] p2 H2; [by apply finish_parsed|done].
Qed.

Lemma create_index_terminates p : parser_inv p -> terminates (parse_create_index p) (parsed p).
Proof.
  intros Hi. unfold parse_create_index.
  apply (parsed_bind _ _ p p); [by apply after_refl| |].
  - destruct (check_keyword p (zstr "UNIQUE")); [|by apply after_refl].
    eapply after_bind; [by apply after_refl|by apply advance_parsed|]. done.
  - intros u p1 H1. eapply parsed_bind; [exact H1|apply identifier_parsed, H1|].
    intros [i|] p2 H2; [|done]. destruct (check_keyword p2 (zstr "ON")); cbn [negb].
    2:{ eapply after_trans; [done|]. apply after_set_error, H2. }
    eapply after_bind; [exact H2|apply advance_parsed, H2|]. intros p3 H3.
    eapply parsed_bind; [exact H3|apply identifier_parsed, H3|]. intros [t|] p4 H4; [|done].
    eapply after_bind; [exact H4|apply expect_parsed, H4|]. intros p5 H5.
    eapply parsed_bind; [exact H5|apply identifier_parsed, H5|]. intros [c|] p6 H6; [|done].
    eapply after_bind; [exact H6|apply expect_parsed, H6|]. intros p7 H7. by apply finish_parsed.
Qed.

Lemma transaction_terminates p : parser_inv p -> terminates (parse_transaction p) (parsed p).
Proof.
  intros Hi. unfold parse_transaction.
  destruct (match cur p with TOKEN_BEGIN => _ | _ => _ end) as [ty|]; [|by apply after_set_error].
  eapply after_bind; [by apply after_refl|by apply advance_parsed|]. intros p1 H1.
  eapply (after_bind _ _ p p1); [exact H1| |intros p2 H2; by apply finish_parsed].
  destruct (_ && _); [apply advance_parsed, H1|apply after_refl, H1].
Qed.

Lemma alias_parsed p : parser_inv p -> terminates (parse_alias p) (parsed p).
Proof.
  intros Hi. unfold parse_alias. destruct (_ || _); [|by apply after_refl].
  eapply after_bind; [by apply after_refl|by apply advance_parsed|]. intros p1 H1.
  eapply terminates_mono; [apply identifier_parsed, H1|]. intros [a p2] H2.
  unfold parsed in *. by eauto 6 using after_trans.
Qed.

Lemma column_list_terminates fuel cols p :
  parser_inv p -> (left p + 2 <= fuel)%nat ->
  terminates (parse_column_list_loop fuel cols p) (parsed p).
Proof.
  revert cols p. induction fuel as [|fuel IH]; intros cols p Hi Hf; [lia|]. cbn [parse_column_list_loop].
  destruct (token_eqb (cur p) TOKEN_STAR).
  { eapply after_bind; [by apply after_refl|by apply advance_parsed|]. done. }
  eapply terminates_bind; [by apply parse_identifier_after|].
  intros [[name|] p1] [Ha Hn]; [|done]. destruct Hn as (_ & [_ Hl] & He); [done|].
  eapply terminates_bind; [apply alias_parsed, Ha|]. intros [alias p2] H2. unfold parsed in H2. cbn [snd] in H2.
  destruct (token_eqb (cur p2) TOKEN_COMMA) eqn:Hc; [|change (after p p2); by eauto using after_trans].
  apply bool_decide_eq_true in Hc. pose proof (after_le _ _ H2) as Hle.
  destruct (has_error p2) eqn:E2.
  - unfold advance. rewrite E2, bind_Done. destruct fuel as [|fuel]; [lia|]. cbn [parse_column_list_loop].
    rewrite Hc. tokens. unfold parse_identifier. rewrite Hc. tokens. rewrite bind_Done.
    change (after p (parser_set_error p2 (zstr "Expected identifier"))).
    eapply after_trans; [exact Ha|]. eapply after_trans; [exact H2|]. apply after_set_error, H2.
  - assert (has_error p1 = false) as E1.
    { destruct (has_error p1) eqn:E1; [|done]. destruct (after_error _ _ H2 E1). congruence. }
    specialize (Hl E1).
    eapply terminates_bind; [apply advance_parsed, H2|]. intros p3 H3. pose proof (after_le _ _ H3) as Hle3.
    eapply terminates_mono; [apply IH; [apply H3|lia]|]. intros x Hx. unfold parsed in *. by eauto 6 using after_trans.
Qed.

Lemma order_by_terminates fuel items p :
  parser_inv p -> (left p + 1 <= fuel)%nat ->
  terminates (parse_order_by_loop fuel items p) (parsed p).
Proof.
  revert items p. induction fuel as [|fuel IH]; intros items p Hi Hf; [lia|]. cbn [parse_order_by_loop].
  destruct (has_error p) eqn:E; cbn [negb]; [by apply after_refl|].
  eapply terminates_bind; [by apply parse_identifier_after|].
  intros [[name|] p1] [Ha Hn]; [|done]. destruct Hn as (_ & [_ Hl] & He); [done|].
  rewrite E in He. specialize (Hl He).
  eapply terminates_bind with (P := parsed p1).
  - destruct (check_keyword p1 (zstr "DESC")); [|destruct (check_keyword p1 (zstr "ASC"))];
      try (eapply after_bind; [apply after_refl, Ha|apply advance_parsed, Ha|done]).
    apply after_refl, Ha.
  - intros [d p2] H2. unfold parsed in H2. cbn [snd] in H2. pose proof (after_le _ _ H2) as Hle2.
    assert (after p p2) as H02 by eauto using after_trans.
    destruct (token_eqb (cur p2) TOKEN_COMMA); [|done].
    eapply terminates_bind; [apply advance_parsed, H2|]. intros p3 H3. pose proof (after_le _ _ H3) as Hle3.
    eapply terminates_mono; [apply IH; [apply H3|lia]|]. intros x Hx. unfold parsed in *. by eauto 6 using after_trans.
Qed.

Lemma optional_expr_terminates p kw t fuel :
  keyword_to_token_type kw = Some t -> t ∉ [TOKEN_NOT; TOKEN_LPAREN; TOKEN_MINUS; TOKEN_PLUS] ->
  kw <> zstr "NOT" -> parser_inv p -> (4 * left p + 3 <= fuel)%nat ->
  terminates (parse_optional_expr fuel p kw) (parsed p).
Proof.
  intros Hkw Ht Hne Hi Hf. unfold parse_optional_expr.
  destruct (check_keyword p kw) eqn:Hk; [|by apply after_refl].
  pose proof (keyword_then_expression p kw t fuel Hkw Ht Hne Hk Hi Hf) as Hx.
  destruct (advance p) as [p1| |]; [|done..]. rewrite bind_Done in *.
  eapply terminates_bind; [exact Hx|]. intros [[e|] p2] H2; done.
Qed.

Lemma optional_order_by_terminates p fuel :
  parser_inv p -> (left p + 1 <= fuel)%nat -> terminates (parse_optional_order_by fuel p) (parsed p).
Proof.
  intros Hi Hf. unfold parse_optional_order_by.
  destruct (check_keyword p (zstr "ORDER")); [|by apply after_refl].
  eapply after_bind; [by apply after_refl|by apply advance_parsed|]. intros p1 H1.
  destruct (check_keyword p1 (zstr "BY")); [|done].
  eapply after_bind; [exact H1|apply advance_parsed, H1|]. intros p2 H2. unfold parse_order_by.
  pose proof (after_le _ _ H2) as Hle.
  eapply parsed_bind; [exact H2|apply order_by_terminates; [apply H2|lia]|]. done.
Qed.

Lemma select_terminates p fuel :
  parser_inv p -> (4 * left p + 3 <= fuel)%nat -> terminates (parse_select fuel p) (parsed p).
Proof.
  intros Hi Hf. unfold parse_select.
  eapply after_bind; [by apply after_refl|by apply advance_parsed|]. intros p1 H1.
  apply (parsed_bind _ _ p p1); [done| |].
  { destruct (check_keyword p1 (zstr "DISTINCT")); [|apply after_refl, H1].
    eapply after_bind; [apply after_refl, H1|apply advance_parsed, H1|done]. }
  intros d p2 H2. pose proof (after_le _ _ H2) as Hle2. unfold parse_column_list.
  eapply parsed_bind; [exact H2|apply column_list_terminates; [apply H2|lia]|]. intros [cols|] p3 H3; [|done].
  destruct (token_eqb (cur p3) TOKEN_FROM); cbn [negb]; [|eapply after_trans, after_set_error, H3; done].
  eapply after_bind; [exact H3|apply advance_parsed, H3|]. intros p4 H4.
  eapply parsed_bind; [exact H4|apply identifier_parsed, H4|]. intros [t|] p5 H5; [|done].
  pose proof (after_le _ _ H5) as Hle5.
  eapply parsed_bind; [exact H5| |].
  { eapply (optional_expr_terminates _ (zstr "WHERE") TOKEN_WHERE); [done|by apply (bool_decide_unpack (_ ∉ _))|done|apply H5|lia]. }
  intros [w|] p6 H6; [|done]. pose proof (after_le _ _ H6) as Hle6.
  eapply parsed_bind; [exact H6|apply optional_order_by_terminates; [apply H6|lia]|].
  intros [o|] p7 H7; [|done]. pose proof (after_le _ _ H7) as Hle7.
  eapply parsed_bind; [exact H7| |].
  { eapply (optional_expr_terminates _ (zstr "LIMIT") TOKEN_LIMIT); [done|by apply (bool_decide_unpack (_ ∉ _))|done|apply H7|lia]. }
  intros [l|] p8 H8; [|done]. pose proof (after_le _ _ H8) as Hle8.
  eapply parsed_bind; [exact H8| |].
  { eapply (optional_expr_terminates _ (zstr "OFFSET") TOKEN_OFFSET); [done|by apply (bool_decide_unpack (_ ∉ _))|done|apply H8|lia]. }
  intros [f|] p9 H9; [|done]. by apply finish_parsed.
Qed.

(** The statements whose parsing always ends: INSERT, UPDATE and CREATE TABLE are
    left out, see below. *)
Definition ends_always p : Prop :=
  cur p ∉ [TOKEN_INSERT; TOKEN_UPDATE] /\
  (cur p = TOKEN_CREATE -> forall p', advance p = Done p' -> cur p' <> TOKEN_TABLE).

Lemma statement_terminates p fuel :
  parser_inv p -> ends_always p -> (4 * left p + 3 <= fuel)%nat ->
  terminates (parser_parse fuel p) (parsed p).
Proof.
  intros Hi [Hne Hcr] Hf. unfold parser_parse. destruct (has_error p); [by apply after_refl|].
  unfold parse_statement. destruct (cur p) eqn:Hc; try (by apply after_set_error);
    try (exfalso; apply Hne; repeat constructor; fail).
  - by apply select_terminates.
  - by apply delete_terminates.
  - specialize (Hcr eq_refl). pose proof (advance_parsed p Hi) as Ha.
    destruct (advance p) as [p1| |]; [|done..]. simpl in Ha. rewrite bind_Done.
    rewrite token_eqb_ne by (by apply Hcr). destruct (token_eqb (cur p1) TOKEN_INDEX).
    + eapply after_bind; [exact Ha|apply advance_parsed, Ha|]. intros p2 H2.
      eapply terminates_mono; [apply create_index_terminates, H2|]. intros x Hx. unfold parsed in *.
      by eauto using after_trans.
    + eapply after_trans, after_set_error, Ha. done.
  - eapply after_bind; [by apply after_refl|by apply advance_parsed|]. intros p1 H1.
    destruct (token_eqb (cur p1) TOKEN_TABLE); [|destruct (token_eqb (cur p1) TOKEN_INDEX)].
    + eapply after_bind; [exact H1|apply advance_parsed, H1|]. intros p2 H2.
      eapply terminates_mono; [apply drop_table_terminates, H2|]. intros x Hx. unfold parsed in *.
      by eauto using after_trans.
    + eapply after_bind; [exact H1|apply advance_parsed, H1|]. intros p2 H2.
      eapply terminates_mono; [apply drop_index_terminates, H2|]. intros x Hx. unfold parsed in *.
      by eauto using after_trans.
    + eapply after_trans, after_set_error, H1. done.
  - by apply transaction_terminates.
  - by apply transaction_terminates.
  - by apply transaction_terminates.
Qed.

(** ** Stuck *)

(** Where the recursion on the consumed token never ends: nothing is consumed. *)
Lemma literal_stuck fuel p :
  has_error p = true -> cur p ∈ [TOKEN_MINUS; TOKEN_PLUS; TOKEN_LPAREN] ->
  parse_literal fuel p = NoFuel /\ parse_unary_not fuel p = NoFuel /\ parse_expression fuel p = NoFuel.
Proof.
  intros He Hc.
  assert (advance p = Done p) as Ha by (unfold advance; by rewrite He).
  rewrite !elem_of_cons, elem_of_nil in Hc.
  assert (check_keyword p (zstr "NOT") = false) as Hk.
  { unfold check_keyword. destruct Hc as [-> |[-> |[-> |[]]]]; reflexivity. }
  induction fuel as [|fuel (IH1 & IH2 & IH3)]; [done|]. split_and!.
  - destruct Hc as [Hc|[Hc|[Hc|[]]]].
    + by rewrite parse_literal_sign, Ha, bind_Done, IH1 by auto.
    + by rewrite parse_literal_sign, Ha, bind_Done, IH1 by auto.
    + by rewrite (parse_literal_paren fuel p Hc), Ha, bind_Done, IH3.
  - by rewrite parse_unary_not_S, Hk.
  - by rewrite parse_expression_S, IH2.
Qed.

Lemma constraints_stuck fuel col p :
  has_error p = true -> cur p = TOKEN_PRIMARY -> parse_constraints fuel col p = NoFuel.
Proof.
  intros He Hc. assert (advance p = Done p) as Ha by (unfold advance; by rewrite He).
  revert col. induction fuel as [|fuel IH]; intros []; [done|]. cbn [parse_constraints].
  assert (forall kw, check_keyword p kw =
    match keyword_to_token_type kw with Some t => token_eqb t TOKEN_PRIMARY | None => false end) as Hk.
  { intros kw. unfold check_keyword. rewrite Hc. destruct (keyword_to_token_type kw) as [t|]; [|done].
    by destruct (token_eqb t TOKEN_PRIMARY). }
  rewrite (Hk (zstr "NOT") : _ = false), (Hk (zstr "PRIMARY") : _ = true), Ha, bind_Done.
  rewrite (Hk (zstr "KEY") : _ = false). apply IH.
Qed.
End total.

(** ** What the parser produces *)

(** The expressions of parsed statements. *)
Fixpoint expr_wf (e : Expression) : bool :=
  match e with
  | EXPR_LITERAL_INT _ | EXPR_LITERAL_FLOAT _ | EXPR_LITERAL_STRING _ | EXPR_LITERAL_NULL => true
  | EXPR_COLUMN idx (Some _) => (idx =? 0) || (idx =? -1)
  | EXPR_UNARY op e => is_op unary_ops op && expr_wf e
  | EXPR_BINARY e1 op e2 => is_op binary_ops op && expr_wf e1 && expr_wf e2
  | EXPR_LIKE e1 e2 not => negb not && expr_wf e1 && expr_wf e2
  | EXPR_IN e items not => negb not && expr_wf e && forallb expr_wf items
  | EXPR_BETWEEN e1 e2 e3 not => negb not && expr_wf e1 && expr_wf e2 && expr_wf e3
  | _ => false
  end.
#[local] Arguments is_op : simpl never.

(** A result, if there is one, is well-formed. *)
Definition gives {A S} (P : A -> Prop) (m : outcome (option A * S)) : Prop :=
  forall a s, m = Done (Some a, s) -> P a.

Lemma gives_bind {A B S T} (m : outcome (A * S)) (f : A * S -> outcome (option B * T)) (P : B -> Prop) :
  (forall a s, m = Done (a, s) -> gives P (f (a, s))) -> gives P (obind m f).
Proof. destruct m as [[a s]| |]; simpl; [intros Hf; by apply Hf|done|done]. Qed.

Lemma gives_bind_state {B S T} (m : outcome S) (f : S -> outcome (option B * T)) (P : B -> Prop) :
  (forall s, gives P (f s)) -> gives P (obind m f).
Proof. destruct m as [s| |]; simpl; [intros Hf; apply Hf|done|done]. Qed.

Lemma gives_none {A S} (P : A -> Prop) (s : S) : gives P (Done (None, s)).
Proof. done. Qed.

Lemma gives_some {A S} (P : A -> Prop) a (s : S) : P a -> gives P (Done (Some a, s)).
Proof. by intros ? ? ? [= <- <-]. Qed.

Lemma gives_fmap {A B S} (g : A -> B) (x : option A) (s : S) (P : B -> Prop) :
  (forall a, x = Some a -> P (g a)) -> gives P (Done (g <$> x, s)).
Proof. intros Hg b s' [= Hb _]. destruct x; [injection Hb as <-; by apply Hg|done]. Qed.

#[local] Hint Resolve gives_none gives_some : gives.

Section wf.
Context {L : Type} `{TokenSource L}.
Implicit Types p : Parser L.

Notation wf := (gives (fun e => expr_wf e = true)).

Lemma binary_op_wf lhs rhs ty :
  expr_wf lhs = true -> expr_wf rhs = true -> ty ∈ binary_ops ->
  expr_wf (EXPR_BINARY lhs (token_code ty) rhs) = true.
Proof.
  intros Hl Hr Hty. simpl. rewrite Hl, Hr. unfold is_op. rewrite !andb_true_r. apply existsb_exists.
  exists ty. split; [by apply list_elem_of_In|apply Z.eqb_refl].
Qed.

Section step.
Variables (binary : Z -> Parser L -> outcome (option Expression * Parser L))
  (operators : Expression -> Parser L -> outcome (option Expression * Parser L))
  (in_items : list Expression -> Parser L -> outcome (option (list Expression) * Parser L)).
Hypothesis (Hbinary : forall m p, wf (binary m p)).
Hypothesis (Hops : forall lhs p, expr_wf lhs = true -> wf (operators lhs p)).
Hypothesis (Hitems : forall acc p, forallb expr_wf acc = true ->
  gives (fun es => forallb expr_wf es = true) (in_items acc p)).

Lemma operator_wf lhs p :
  expr_wf lhs = true -> wf (parse_operator binary operators in_items lhs p).
Proof.
  intros Hlhs. destruct (operator (cur p)) eqn:Hop.
  2:{ rewrite parse_operator_stop by done. by apply gives_some. }
  destruct (operator_cases _ Hop) as [Hc|[Hc|[Hc|Hc]]].
  - unfold parse_operator. rewrite Hc. tokens. apply gives_bind_state. intros p1.
    apply gives_bind. intros [e|] p2 E; [|done]. apply Hops. simpl.
    by rewrite Hlhs, (Hbinary _ _ _ _ E).
  - unfold parse_operator. rewrite Hc. tokens. apply gives_bind_state. intros p1.
    destruct (token_eqb (cur p1) TOKEN_LPAREN); [|by apply Hops]. apply gives_bind_state. intros p2.
    apply gives_bind. intros [es|] p3 E; [|done]. apply gives_bind_state. intros p4. apply Hops. simpl.
    rewrite Hlhs. destruct (negb (token_eqb (cur p2) TOKEN_RPAREN)).
    + by rewrite (Hitems [] _ eq_refl _ _ E).
    + by injection E as <- <-.
  - unfold parse_operator. rewrite Hc. tokens. apply gives_bind_state. intros p1.
    apply gives_bind. intros [lo|] p2 E; [|done]. destruct (check_keyword p2 (zstr "AND")); [|done]. cbn [negb].
    apply gives_bind_state. intros p3. apply gives_bind. intros [hi|] p4 E4; [|done]. apply Hops. simpl.
    by rewrite Hlhs, (Hbinary _ _ _ _ E), (Hbinary _ _ _ _ E4).
  - rewrite parse_operator_binary by done. apply gives_bind_state. intros p1.
    apply gives_bind. intros [rhs|] p2 E; [|done]. apply Hops. apply binary_op_wf; [done| |done].
    by apply (Hbinary _ _ _ _ E).
Qed.
End step.

Lemma literal_wf fuel p :
  (forall p, wf (parse_literal fuel p)) -> (forall p, wf (parse_expression fuel p)) ->
  wf (parse_literal (S fuel) p).
Proof.
  intros Hl He. destruct (cur p) eqn:Hc;
    try (cbn [parse_literal]; rewrite Hc; by apply gives_none).
  - cbn [parse_literal]. rewrite Hc. apply gives_bind. intros [n|] p1 _; [|done].
    destruct (token_eqb (cur p1) TOKEN_DOT); [|by apply gives_some]. apply gives_bind_state. intros p2.
    apply gives_bind. intros [c|] p3 _; [|done]. by apply gives_some.
  - cbn [parse_literal]. rewrite Hc. destruct (t_value (p_current p)); try done.
    apply gives_bind_state. intros p1. by apply gives_some.
  - cbn [parse_literal]. rewrite Hc. destruct (t_value (p_current p)); try done.
    apply gives_bind_state. intros p1. by apply gives_some.
  - cbn [parse_literal]. rewrite Hc. destruct (t_value (p_current p)); try done.
    apply gives_bind_state. intros p1. by apply gives_some.
  - rewrite parse_literal_sign by auto. rewrite Hc. apply gives_bind_state. intros p1. apply gives_bind.
    intros e p2 E. apply gives_fmap. intros a ->. simpl. by rewrite (Hl _ _ _ E).
  - rewrite parse_literal_sign by auto. rewrite Hc. apply gives_bind_state. intros p1. apply gives_bind.
    intros e p2 E. apply gives_fmap. intros a ->. simpl. by rewrite (Hl _ _ _ E).
  - cbn [parse_literal]. rewrite Hc. apply gives_bind_state. intros p1. by apply gives_some.
  - rewrite parse_literal_paren by done. apply gives_bind_state. intros p1. apply gives_bind.
    intros e p2 E. destruct (token_eqb (cur p2) TOKEN_RPAREN).
    + apply gives_bind_state. intros p3 a s [= -> ->]. by apply (He _ _ _ E).
    + intros a s [= -> <-]. by apply (He _ _ _ E).
Qed.

Lemma expression_wf fuel :
  (forall p, wf (parse_literal fuel p)) /\ (forall p, wf (parse_unary_not fuel p)) /\
  (forall p, wf (parse_expression fuel p)) /\
  (forall lhs p, expr_wf lhs = true -> wf (parse_operators fuel lhs p)) /\
  (forall acc p, forallb expr_wf acc = true ->
    gives (fun es => forallb expr_wf es = true) (parse_in_items fuel acc p)).
Proof.
  induction fuel as [|fuel (H1 & H2 & H3 & H4 & H5)]; [by split_and!|]. split_and!.
  - intros p. by apply literal_wf.
  - intros p. rewrite parse_unary_not_S. destruct (check_keyword p (zstr "NOT")); [|apply H1].
    apply gives_bind_state. intros p1. apply gives_bind. intros e p2 E. apply gives_fmap. intros a ->.
    simpl. by rewrite (H2 _ _ _ E).
  - intros p. rewrite parse_expression_S. apply gives_bind. intros [e|] p1 E; [|done].
    pose proof (H2 _ _ _ E) as He. destruct (has_error p1); [by apply gives_some|by apply H4].
  - intros lhs p Hlhs. rewrite parse_operators_S. apply operator_wf; [|done..].
    intros m p1. rewrite parse_binary_expr_prec. apply H3.
  - intros acc p Hacc. rewrite parse_in_items_S. apply gives_bind. intros [e|] p1 E; [|done].
    assert (forallb expr_wf (acc ++ [e]) = true) as Hacc'.
    { rewrite forallb_app, Hacc. simpl. by rewrite (H3 _ _ _ E). }
    destruct (token_eqb (cur p1) TOKEN_COMMA); [|by apply gives_some].
    apply gives_bind_state. intros p2. by apply H5.
Qed.

(** *** Statements *)

Lemma parse_expression_gives fuel p : wf (parse_expression fuel p).
Proof. apply expression_wf. Qed.

Definition opt_wf (e : option Expression) : bool := match e with Some e => expr_wf e | None => true end.

Definition column_def_wf (c : ColumnDef) : bool := opt_wf (cd_default c).
Definition insert_column_wf (c : ColumnList) : bool := bool_decide (cl_alias c = None).
Definition row_wf (es : ValueList) : bool := nonempty es && forallb expr_wf es.
Definition set_wf (c : SetClause) : bool := expr_wf (sc_value c).

Definition stmt_wf (stmt : AstNode) : bool :=
  match stmt with
  | AST_CREATE_TABLE _ _ cols => forallb column_def_wf cols
  | AST_INSERT _ cols rows => forallb insert_column_wf cols && forallb row_wf rows
  | AST_UPDATE _ sets w => forallb set_wf sets && expr_wf w
  | AST_DELETE _ w => expr_wf w
  | AST_SELECT cols _ _ w _ l o => nonempty cols && opt_wf w && opt_wf l && opt_wf o
  | AST_DROP_TABLE _ _ | AST_CREATE_INDEX _ _ _ _ | AST_DROP_INDEX _ | AST_TRANSACTION _ => true
  end.

(** Lists built element by element. *)
Lemma forallb_snoc {A} (f : A -> bool) l a : forallb f l = true -> f a = true -> forallb f (l ++ [a]) = true.
Proof. intros Hl Ha. by rewrite forallb_app, Hl; simpl; rewrite Ha. Qed.

Lemma nonempty_snoc {A} (l : list A) a : nonempty (l ++ [a]) = true.
Proof. by destruct l. Qed.

Lemma constraints_wf fuel col p col' q :
  column_def_wf col = true -> parse_constraints fuel col p = Done (col', q) -> column_def_wf col' = true.
Proof.
  revert col p. induction fuel as [|fuel IH]; intros [n ty nn pk ai d] p Hw; [done|].
  cbn [parse_constraints].
  destruct (check_keyword p (zstr "NOT")).
  { destruct (advance p) as [p1| |]; [|done..]. rewrite bind_Done.
    destruct (advance p1) as [p2| |]; [|done..]. rewrite bind_Done. by apply IH. }
  destruct (check_keyword p (zstr "PRIMARY")).
  { destruct (advance p) as [p1| |]; [|done..]. rewrite bind_Done.
    destruct (check_keyword p1 (zstr "KEY")); [|by apply IH].
    destruct (advance p1) as [p2| |]; [|done..]. rewrite bind_Done. by apply IH. }
  destruct (check_keyword p (zstr "AUTOINCREMENT")).
  { destruct (advance p) as [p1| |]; [|done..]. rewrite bind_Done. by apply IH. }
  destruct (check_keyword p (zstr "DEFAULT")); [|by intros [= <- _]].
  destruct (advance p) as [p1| |]; [|done..]. rewrite bind_Done.
  destruct (parse_expression fuel p1) as [[e p2]| |] eqn:E; [|done..]. rewrite bind_Done. apply IH.
  unfold column_def_wf, opt_wf. cbn [cd_default]. destruct e as [e|]; [|done].
  by apply (parse_expression_gives _ _ _ _ E).
Qed.

Lemma column_defs_wf fuel acc p :
  forallb column_def_wf acc = true ->
  gives (fun cols => forallb column_def_wf cols = true) (parse_column_defs fuel acc p).
Proof.
  revert acc p. induction fuel as [|fuel IH]; intros acc p Hacc; [done|]. cbn [parse_column_defs].
  destruct (negb _ && negb _); [|by apply gives_some].
  apply gives_bind. intros [c|] p1 E; [|done].
  assert (column_def_wf c = true) as Hc.
  { unfold parse_column_def in E. destruct (parse_identifier p) as [[[n|] p2]| |]; try done.
    rewrite bind_Done in E. destruct (parse_column_type p2) as [[ty p3]| |]; [|done..].
    rewrite bind_Done in E.
    destruct (parse_constraints fuel (mkColumnDef n ty false false false None) p3) as [[c' p4]| |] eqn:E4;
      try done.
    injection E as <- _. by apply constraints_wf in E4. }
  destruct (token_eqb (cur p1) TOKEN_COMMA); [|apply gives_some; by apply forallb_snoc].
  apply gives_bind_state. intros p2. apply IH. by apply forallb_snoc.
Qed.

Lemma expressions_wf fuel acc p :
  forallb expr_wf acc = true -> gives (fun es => row_wf es = true) (parse_expressions fuel acc p).
Proof.
  revert acc p. induction fuel as [|fuel IH]; intros acc p Hacc; [done|]. cbn [parse_expressions].
  apply gives_bind. intros [e|] p1 E; [|done].
  assert (forallb expr_wf (acc ++ [e]) = true) as Hacc'
    by (apply forallb_snoc; [done|by apply (parse_expression_gives _ _ _ _ E)]).
  destruct (token_eqb (cur p1) TOKEN_COMMA).
  - apply gives_bind_state. intros p2. by apply IH.
  - apply gives_some. unfold row_wf. by rewrite nonempty_snoc.
Qed.

Lemma insert_columns_wf fuel acc p :
  forallb insert_column_wf acc = true ->
  gives (fun cols => forallb insert_column_wf cols = true) (parse_insert_columns fuel acc p).
Proof.
  revert acc p. induction fuel as [|fuel IH]; intros acc p Hacc; [done|]. cbn [parse_insert_columns].
  destruct (negb _ && negb _); [|by apply gives_some].
  apply gives_bind. intros [n|] p1 _; [|done].
  destruct (token_eqb (cur p1) TOKEN_COMMA); [|apply gives_some; by apply forallb_snoc].
  apply gives_bind_state. intros p2. apply IH. by apply forallb_snoc.
Qed.

Lemma insert_values_wf fuel acc p :
  forallb row_wf acc = true -> gives (fun rows => forallb row_wf rows = true) (parse_insert_values fuel acc p).
Proof.
  revert acc p. induction fuel as [|fuel IH]; intros acc p Hacc; [done|]. cbn [parse_insert_values].
  destruct (has_error p); cbn [negb]; [by apply gives_some|]. apply gives_bind_state. intros p1.
  apply gives_bind. intros [es|] p2 E; [|done].
  assert (row_wf es = true) as Hes.
  { unfold parse_expression_list in E. destruct (token_eqb (cur p1) TOKEN_RPAREN); [done|].
    by apply (expressions_wf fuel [] p1 eq_refl _ _ E). }
  apply gives_bind_state. intros p3.
  destruct (token_eqb (cur p3) TOKEN_COMMA); [|apply gives_some; by apply forallb_snoc].
  apply gives_bind_state. intros p4. apply IH. by apply forallb_snoc.
Qed.

Lemma set_clauses_wf fuel acc p :
  forallb set_wf acc = true -> gives (fun sets => forallb set_wf sets = true) (parse_set_clauses fuel acc p).
Proof.
  revert acc p. induction fuel as [|fuel IH]; intros acc p Hacc; [done|]. cbn [parse_set_clauses].
  destruct (has_error p); cbn [negb]; [by apply gives_some|].
  apply gives_bind. intros [n|] p1 _; [|done]. apply gives_bind_state. intros p2.
  apply gives_bind. intros [e|] p3 E; [|done]. pose proof (parse_expression_gives _ _ _ _ E) as He.
  destruct (token_eqb (cur p3) TOKEN_COMMA); [|apply gives_some; by apply forallb_snoc].
  apply gives_bind_state. intros p4. apply IH. by apply forallb_snoc.
Qed.

Lemma column_list_nonempty fuel acc p :
  gives (fun cols => nonempty cols = true) (parse_column_list_loop fuel acc p).
Proof.
  revert acc p. induction fuel as [|fuel IH]; intros acc p; [done|]. cbn [parse_column_list_loop].
  destruct (token_eqb (cur p) TOKEN_STAR).
  { apply gives_bind_state. intros p1. apply gives_some, nonempty_snoc. }
  apply gives_bind. intros [n|] p1 _; [|done]. apply gives_bind. intros a p2 _.
  destruct (token_eqb (cur p2) TOKEN_COMMA); [|apply gives_some, nonempty_snoc].
  apply gives_bind_state. intros p3. apply IH.
Qed.

Lemma required_where_wf fuel p msg : wf (parse_required_where fuel p msg).
Proof.
  unfold parse_required_where. destruct (check_keyword p _); [|done].
  apply gives_bind_state. intros p1. apply parse_expression_gives.
Qed.

Lemma optional_expr_wf fuel p kw : gives (fun e => opt_wf e = true) (parse_optional_expr fuel p kw).
Proof.
  unfold parse_optional_expr. destruct (check_keyword p kw); [|by apply gives_some].
  apply gives_bind_state. intros p1. apply gives_bind. intros [e|] p2 E; [|done].
  apply gives_some. by apply (parse_expression_gives _ _ _ _ E).
Qed.

Notation swf := (gives (fun stmt => stmt_wf stmt = true)).

Lemma create_table_wf fuel p : swf (parse_create_table fuel p).
Proof.
  unfold parse_create_table. apply gives_bind. intros [ine|] p1 _; [|done].
  apply gives_bind. intros [t|] p2 _; [|done]. apply gives_bind_state. intros p3.
  apply gives_bind. intros [cols|] p4 E; [|done]. apply gives_bind_state. intros p5.
  apply gives_bind_state. intros p6. apply gives_some.
  by apply (column_defs_wf fuel [] p3 eq_refl _ _ E).
Qed.

Lemma insert_wf fuel p : swf (parse_insert fuel p).
Proof.
  unfold parse_insert. apply gives_bind_state. intros p1. apply gives_bind_state. intros p2.
  apply gives_bind. intros [t|] p3 _; [|done]. apply gives_bind. intros [cols|] p4 E; [|done].
  apply gives_bind_state. intros p5. apply gives_bind. intros [rows|] p6 E6; [|done].
  apply gives_bind_state. intros p7. apply gives_some. cbn [stmt_wf].
  rewrite (insert_values_wf fuel [] p5 eq_refl _ _ E6), andb_true_r.
  destruct (token_eqb (cur p3) TOKEN_LPAREN); [|by injection E as <- _].
  destruct (advance p3) as [p8| |]; [|done..]. rewrite bind_Done in E.
  destruct (parse_insert_columns fuel [] p8) as [[[cols'|] p9]| |] eqn:E9; try done.
  rewrite bind_Done in E. destruct (expect_token p9 _ _) as [p10| |]; [|done..].
  injection E as <- _. by apply (insert_columns_wf fuel [] p8 eq_refl _ _ E9).
Qed.

Lemma update_wf fuel p : swf (parse_update fuel p).
Proof.
  unfold parse_update. apply gives_bind_state. intros p1. apply gives_bind. intros [t|] p2 _; [|done].
  apply gives_bind_state. intros p3. apply gives_bind. intros [sets|] p4 E; [|done].
  apply gives_bind. intros [w|] p5 E5; [|done]. apply gives_bind_state. intros p6. apply gives_some.
  cbn [stmt_wf]. by rewrite (set_clauses_wf fuel [] p3 eq_refl _ _ E), (required_where_wf _ _ _ _ _ E5).
Qed.

Lemma delete_wf fuel p : swf (parse_delete fuel p).
Proof.
  unfold parse_delete. apply gives_bind_state. intros p1. apply gives_bind_state. intros p2.
  apply gives_bind. intros [t|] p3 _; [|done]. apply gives_bind. intros [w|] p4 E; [|done].
  apply gives_bind_state. intros p5. apply gives_some. by apply (required_where_wf _ _ _ _ _ E).
Qed.

Lemma select_wf fuel p : swf (parse_select fuel p).
Proof.
  unfold parse_select. apply gives_bind_state. intros p1. apply gives_bind. intros d p2 _.
  apply gives_bind. intros [cols|] p3 E; [|done]. destruct (negb _); [done|].
  apply gives_bind_state. intros p4. apply gives_bind. intros [t|] p5 _; [|done].
  apply gives_bind. intros [w|] p6 E6; [|done]. apply gives_bind. intros [o|] p7 _; [|done].
  apply gives_bind. intros [l|] p8 E8; [|done]. apply gives_bind. intros [f|] p9 E9; [|done].
  apply gives_bind_state. intros p10. apply gives_some. cbn [stmt_wf].
  rewrite (column_list_nonempty fuel [] p2 _ _ E), (optional_expr_wf _ _ _ _ _ E6).
  by rewrite (optional_expr_wf _ _ _ _ _ E8), (optional_expr_wf _ _ _ _ _ E9).
Qed.

Lemma drop_table_wf p : swf (parse_drop_table p).
Proof.
  unfold parse_drop_table. apply gives_bind. intros [ie|] p1 _; [|done].
  apply gives_bind. intros [t|] p2 _; [|done]. apply gives_bind_state. intros p3. by apply gives_some.
Qed.

Lemma drop_index_wf p : swf (parse_drop_index p).
Proof.
  unfold parse_drop_index. apply gives_bind. intros [i|] p1 _; [|done].
  apply gives_bind_state. intros p2. by apply gives_some.
Qed.

Lemma create_index_wf p : swf (parse_create_index p).
Proof.
  unfold parse_create_index. apply gives_bind. intros u p1 _. apply gives_bind. intros [i|] p2 _; [|done].
  destruct (negb _); [done|]. apply gives_bind_state. intros p3. apply gives_bind. intros [t|] p4 _; [|done].
  apply gives_bind_state. intros p5. apply gives_bind. intros [c|] p6 _; [|done].
  apply gives_bind_state. intros p7. apply gives_bind_state. intros p8. by apply gives_some.
Qed.

Lemma transaction_wf p : swf (parse_transaction p).
Proof.
  unfold parse_transaction. destruct (match cur p with TOKEN_BEGIN => _ | _ => _ end); [|done].
  apply gives_bind_state. intros p1. apply gives_bind_state. intros p2. apply gives_bind_state. intros p3.
  by apply gives_some.
Qed.

Lemma statement_wf fuel p : swf (parser_parse fuel p).
Proof.
  unfold parser_parse. destruct (has_error p); [done|]. unfold parse_statement.
  destruct (cur p); try done;
    try (first [apply insert_wf|apply update_wf|apply delete_wf|apply select_wf|apply transaction_wf]).
  - apply gives_bind_state. intros p1. destruct (token_eqb (cur p1) TOKEN_TABLE).
    { apply gives_bind_state. intros p2. apply create_table_wf. }
    destruct (token_eqb (cur p1) TOKEN_INDEX); [|done].
    apply gives_bind_state. intros p2. apply create_index_wf.
  - apply gives_bind_state. intros p1. destruct (token_eqb (cur p1) TOKEN_TABLE).
    { apply gives_bind_state. intros p2. apply drop_table_wf. }
    destruct (token_eqb (cur p1) TOKEN_INDEX); [|done].
    apply gives_bind_state. intros p2. apply drop_index_wf.
Qed.
End wf.

(** ** Theorems *)

(** Parsing an expression terminates, whatever the tokens: from any error-free
    state, fuel linear in what is left to read is enough. The parser then has not
    more to read than before, has consumed something unless it reports an error,
    and an expression that was found ends before a token that is no operator. (The
    other outcome allowed is the undefined behaviour of an integer literal beyond
    int64 in the lexer.) *)
Theorem parse_expression_terminates {L : Type} `{TokenSourceLaws L} (p : Parser L) (fuel : nat) :
  parser_inv p -> has_error p = false -> (4 * left p + 3 <= fuel)%nat ->
  parse_expression fuel p = Undef \/
  exists e p', parse_expression fuel p = Done (e, p') /\ parser_inv p' /\ (left p' <= left p)%nat /\
    (is_Some e -> operator (cur p') = false /\ (has_error p' = true \/ (left p' < left p)%nat)).
Proof.
  intros Hi He Hf. destruct (expression_terminates fuel) as (_ & _ & H3 & _).
  specialize (H3 p Hi (quiet_ok p He) Hf).
  destruct (parse_expression fuel p) as [[e p']| |]; [right|by left|done].
  destruct H3 as [(Hi' & Hl & _) Hpost]. cbn [fst snd] in *. eexists _, _.
  split; [done|]. split; [done|]. split; [done|]. intros Hs. destruct (Hpost Hs) as [Hle Ho]. split; [done|].
  destruct (has_error p'); auto.
Qed.

(** *** An error stays *)

Section stays.
Context {L : Type} `{TokenSource L}.
Implicit Types p q : Parser L.

(** Whatever [m] returns, the parser it returns has an error. *)
Definition errs {A} (m : outcome (A * Parser L)) : Prop := forall a q, m = Done (a, q) -> has_error q = true.

Lemma errs_Done {A} (a : A) q : has_error q = true -> errs (Done (a, q)).
Proof. by intros Hq ? ? [= _ <-]. Qed.

Lemma errs_bind {A B} (m : outcome (A * Parser L)) (f : A * Parser L -> outcome (B * Parser L)) :
  errs m -> (forall a q, has_error q = true -> errs (f (a, q))) -> errs (obind m f).
Proof. intros Hm Hf. destruct m as [[a q]| |]; [|done..]. apply Hf. by apply (Hm a q). Qed.

Lemma advance_stays p : has_error p = true -> advance p = Done p.
Proof. intros Hp. unfold advance. by rewrite Hp. Qed.

Lemma expect_token_stays p t msg q : has_error p = true -> expect_token p t msg = Done q -> has_error q = true.
Proof.
  intros Hp. unfold expect_token. rewrite advance_stays by done. by destruct (negb _); intros [= <-].
Qed.

Lemma parse_identifier_stays p : has_error p = true -> errs (parse_identifier p).
Proof.
  intros Hp. unfold parse_identifier. destruct (negb _); [by apply errs_Done|].
  rewrite advance_stays, bind_Done by done. by apply errs_Done.
Qed.

Lemma parse_literal_stays fuel p :
  (forall p, has_error p = true -> errs (parse_literal fuel p)) ->
  (forall p, has_error p = true -> errs (parse_expression fuel p)) ->
  has_error p = true -> errs (parse_literal (S fuel) p).
Proof.
  intros Hl He Hp. assert (advance p = Done p) as Ha by (by apply advance_stays). cbn [parse_literal].
  destruct (cur p); try (by apply errs_Done).
  - apply errs_bind; [by apply parse_identifier_stays|]. intros [n|] p1 H1; [|by apply errs_Done].
    destruct (token_eqb (cur p1) TOKEN_DOT); [|by apply errs_Done]. rewrite advance_stays, bind_Done by done.
    apply errs_bind; [by apply parse_identifier_stays|]. intros [c|] p2 H2; by apply errs_Done.
  - destruct (t_value (p_current p)); try done. rewrite Ha, bind_Done. by apply errs_Done.
  - destruct (t_value (p_current p)); try done. rewrite Ha, bind_Done. by apply errs_Done.
  - destruct (t_value (p_current p)); try done. rewrite Ha, bind_Done. by apply errs_Done.
  - rewrite Ha, bind_Done. apply errs_bind; [by apply Hl|]. intros. by apply errs_Done.
  - rewrite Ha, bind_Done. apply errs_bind; [by apply Hl|]. intros. by apply errs_Done.
  - rewrite Ha, bind_Done. by apply errs_Done.
  - rewrite Ha, bind_Done. apply errs_bind; [by apply (He p)|]. intros e p1 H1.
    destruct (token_eqb (cur p1) TOKEN_RPAREN); [|by apply errs_Done].
    rewrite advance_stays, bind_Done by done. by apply errs_Done.
Qed.

Lemma parse_expression_stays fuel :
  (forall p, has_error p = true -> errs (parse_literal fuel p)) /\
  (forall p, has_error p = true -> errs (parse_unary_not fuel p)) /\
  (forall p, has_error p = true -> errs (parse_expression fuel p)).
Proof.
  induction fuel as [|fuel (H1 & H2 & H3)]; [done|]. split_and!; intros p Hp.
  - by apply parse_literal_stays.
  - rewrite parse_unary_not_S. destruct (check_keyword p (zstr "NOT")); [|by apply H1].
    rewrite advance_stays, bind_Done by done. apply errs_bind; [by apply H2|]. intros. by apply errs_Done.
  - rewrite parse_expression_S. apply errs_bind; [by apply H2|]. intros [e|] p1 He; [|by apply errs_Done].
    rewrite He. by apply errs_Done.
Qed.

(** A loop that has an error does not run; without one it gives an element. *)
Lemma insert_values_nonempty fuel rows p r q :
  parse_insert_values fuel rows p = Done (Some r, q) ->
  (rows = [] -> has_error p = false) -> r <> [].
Proof.
  revert rows p. induction fuel as [|fuel IH]; intros rows p; [done|]. cbn [parse_insert_values].
  destruct (has_error p) eqn:Hp; cbn [negb].
  { intros [= <- <-] Hr Hn. by specialize (Hr Hn). }
  intros E _. destruct (expect_token p _ _) as [p1| |]; [|done..]. rewrite bind_Done in E.
  destruct (parse_expression_list fuel p1) as [[[es|] p2]| |]; try done. rewrite bind_Done in E.
  destruct (expect_token p2 _ _) as [p3| |]; [|done..]. rewrite bind_Done in E.
  destruct (token_eqb (cur p3) TOKEN_COMMA).
  - destruct (advance p3) as [p4| |]; [|done..]. rewrite bind_Done in E. apply IH in E; [done|].
    intros Hn. by destruct rows.
  - injection E as <- _. by destruct rows.
Qed.

Lemma set_clauses_nonempty fuel sets p r q :
  parse_set_clauses fuel sets p = Done (Some r, q) ->
  (sets = [] -> has_error p = false) -> r <> [].
Proof.
  revert sets p. induction fuel as [|fuel IH]; intros sets p; [done|]. cbn [parse_set_clauses].
  destruct (has_error p) eqn:Hp; cbn [negb].
  { intros [= <- <-] Hr Hn. by specialize (Hr Hn). }
  intros E _. destruct (parse_identifier p) as [[[c|] p1]| |]; try done. rewrite bind_Done in E.
  destruct (expect_token p1 _ _) as [p2| |]; [|done..]. rewrite bind_Done in E.
  destruct (parse_expression fuel p2) as [[[e|] p3]| |]; try done. rewrite bind_Done in E. cbv zeta in E.
  destruct (token_eqb (cur p3) TOKEN_COMMA).
  - destruct (advance p3) as [p4| |]; [|done..]. rewrite bind_Done in E. apply IH in E; [done|].
    intros Hn. by destruct sets.
  - injection E as <- _. by destruct sets.
Qed.

(** The repetitions of a statement the parser accepts have an element. *)
Definition has_parts (stmt : AstNode) : Prop :=
  match stmt with
  | AST_INSERT _ _ rows => rows <> []
  | AST_UPDATE _ sets _ => sets <> []
  | _ => True
  end.

Lemma insert_has_parts fuel p stmt q :
  parse_insert fuel p = Done (Some stmt, q) -> has_error q = false -> has_parts stmt.
Proof.
  unfold parse_insert. intros E Hq. outcome_inv. case_match; [|done]. outcome_inv. case_match; [|done].
  outcome_inv. case_match; [|done]. outcome_inv. cbn.
  eapply insert_values_nonempty; [eassumption|]. intros _.
  match goal with H : parse_insert_values _ _ ?p5 = Done _ |- has_error ?p5 = false =>
    destruct (has_error p5) eqn:Hp5; [|done];
    destruct fuel; [done|]; cbn [parse_insert_values] in H; rewrite Hp5 in H; injection H as _ <- end.
  match goal with H : expect_token _ TOKEN_SEMICOLON _ = Done _ |- _ => apply expect_token_stays in H; congruence end.
Qed.

Lemma update_has_parts fuel p stmt q :
  parse_update fuel p = Done (Some stmt, q) -> has_error q = false -> has_parts stmt.
Proof.
  unfold parse_update. intros E Hq. outcome_inv. case_match; [|done]. outcome_inv. case_match; [|done].
  outcome_inv. case_match; [|done]. outcome_inv. cbn.
  eapply set_clauses_nonempty; [eassumption|]. intros _.
  match goal with H : parse_set_clauses _ _ ?p5 = Done _ |- has_error ?p5 = false =>
    destruct (has_error p5) eqn:Hp5; [|done];
    destruct fuel; [done|]; cbn [parse_set_clauses] in H; rewrite Hp5 in H; injection H as _ <- end.
  match goal with H : parse_required_where _ _ _ = Done (Some _, ?p6) |- _ =>
    assert (has_error p6 = true) by
      (unfold parse_required_where in H; destruct (check_keyword _ _); [|done];
       rewrite advance_stays, bind_Done in H by done;
       eapply (proj2 (proj2 (parse_expression_stays _))); eassumption) end.
  match goal with H : expect_token _ TOKEN_SEMICOLON _ = Done _ |- _ => apply expect_token_stays in H; congruence end.
Qed.

Lemma statement_has_parts fuel p stmt q :
  parser_parse fuel p = Done (Some stmt, q) -> has_error q = false -> has_parts stmt.
Proof.
  unfold parser_parse. destruct (has_error p); [done|]. unfold parse_statement. intros E Hq.
  destruct (cur p); try done; try (by eapply insert_has_parts); try (by eapply update_has_parts).
  all: unfold parse_create_table, parse_create_index, parse_drop_table, parse_drop_index, parse_delete,
    parse_select, parse_transaction in E; cbv zeta in E;
    repeat (outcome_inv; simplify_eq; try done; case_match); by simplify_eq.
Qed.
End stays.

(** C32: the shape of every statement parser_parse returns, with or without error
    and from any token source: every expression in it is built from literals,
    column names and the unary and binary operators of the grammar, LIKE, IN and
    BETWEEN, with all operands present (the parser builds no function call, CASE,
    subquery or negated form); a SELECT lists at least one column, every row of an
    INSERT has at least one value, the columns of an INSERT have no alias. When the
    parser reports no error, an INSERT also has at least one row and an UPDATE at
    least one SET clause; after an error they may have none. A CREATE TABLE may have
    no column: CREATE TABLE t () is accepted, see [empty_table_accepted]. *)
Theorem parsed_statement_wf {L : Type} `{TokenSource L} (fuel : nat) (p q : Parser L) (stmt : AstNode) :
  parser_parse fuel p = Done (Some stmt, q) ->
  stmt_wf stmt = true /\ (has_error q = false -> has_parts stmt).
Proof. intros E. split; [by apply (statement_wf _ _ _ _ E)|by apply (statement_has_parts _ _ _ _ E)]. Qed.

(** What parser_create establishes. *)
Lemma parser_create_inv text p :
  parser_create text = Done (Some p) ->
  parser_inv p /\ has_error p = false /\ (left p <= S (length text))%nat.
Proof.
  unfold parser_create. destruct (lexer_create text) as [l|] eqn:El; [|done].
  unfold lexer_create in El. destruct (len text =? 0); [done|]. injection El as <-.
  set (l := mkLexer _ _ _ _ _ _ _ _ _ _). unfold parser_start.
  assert (ts_inv l) as Hl by (split; [simpl; lia|done]).
  destruct (ts_next_ok l Hl) as [->|(t & l' & -> & Hl' & Hc)]; [done|]. rewrite !bind_Done.
  intros [= <-]. split; [|split; [done|]].
  - split; [done|]. unfold cur. cbn. destruct Hc as [[? ?]|[? ?]]; done.
  - unfold left, cur. cbn [p_current lexer]. destruct Hc as [[-> _]|[Hne Hlt]].
    + rewrite token_eqb_refl. lia.
    + rewrite token_eqb_ne by done. cbn in Hlt |- *. lia.
Qed.

(** C30: parsing a SQL text terminates for SELECT, DELETE, DROP, CREATE INDEX and the
    transaction statements, and for a text that begins no statement: parser_parse on
    a parser of the text returns, within fuel linear in the text. INSERT, UPDATE and
    CREATE TABLE are excluded, and have to be (see [parser_diverges]). *)
Theorem parse_terminates (text : list Z) (p : Parser Lexer) (fuel : nat) :
  parser_create text = Done (Some p) -> ends_always p -> (4 * length text + 7 <= fuel)%nat ->
  parser_parse fuel p = Undef \/
  exists stmt p', parser_parse fuel p = Done (stmt, p') /\ (left p' <= left p)%nat.
Proof.
  intros Hp He Hf. destruct (parser_create_inv _ _ Hp) as (Hi & _ & Hl).
  pose proof (statement_terminates p fuel Hi He ltac:(lia)) as Ht.
  destruct (parser_parse fuel p) as [[stmt p']| |]; [right|by left|done].
  exists stmt, p'. split; [done|apply Ht].
Qed.

Lemma parse_terminates_witness :
  exists p, parser_create (zstr "SELECT a FROM t WHERE (a LIKE 'x' ORDER;") = Done (Some p) /\
    (parser_parse 200 p = Undef \/
     exists stmt p', parser_parse 200 p = Done (stmt, p') /\ (left p' <= left p)%nat).
Proof.
  destruct (parser_create (zstr "SELECT a FROM t WHERE (a LIKE 'x' ORDER;")) as [[p|]| |] eqn:E.
  - exists p. split; [reflexivity|].
    apply (parse_terminates (zstr "SELECT a FROM t WHERE (a LIKE 'x' ORDER;") p 200 E).
    + assert (match parser_create (zstr "SELECT a FROM t WHERE (a LIKE 'x' ORDER;") with
              | Done (Some p) => Some (cur p) | _ => None end = Some TOKEN_SELECT) as Hc
        by (vm_compute; reflexivity).
      rewrite E in Hc. injection Hc as Hc. unfold ends_always. rewrite Hc. split; [|discriminate].
      apply (bool_decide_unpack (_ ∉ _)). exact I.
    + apply Nat.leb_le. vm_compute. reflexivity.
  - exfalso. revert E. vm_compute. discriminate.
  - exfalso. revert E. vm_compute. discriminate.
  - exfalso. revert E. vm_compute. discriminate.
Defined.

Definition sample_tokens : list Token :=
  [mkToken TOKEN_LPAREN [] 1 1 0 TVNone; mkToken TOKEN_INTEGER [] 1 1 0 (TVInt 5)].

Definition sample_parser : Parser (list Token) :=
  mkParser sample_tokens (mkToken TOKEN_MINUS [] 1 1 0 TVNone) false [] 0 0.

(** Every list of tokens without TOKEN_EOF is a lawful source. *)
#[export] Program Instance list_source_laws : TokenSourceLaws (list Token) := {
  ts_inv ts := Forall (fun t => t_type t <> TOKEN_EOF) ts;
  ts_left := length }.
Next Obligation.
  intros [|t ts] Hts; right; simpl.
  - exists eof_token, []. split_and!; [done|done|]. by left.
  - inversion Hts; subst. exists t, ts. split_and!; [done|done|]. right. split; [done|lia].
Qed.

Lemma parse_expression_terminates_witness :
  parse_expression 20 sample_parser = Undef \/
  exists e p', parse_expression 20 sample_parser = Done (e, p') /\ parser_inv p' /\
    (left p' <= left sample_parser)%nat /\
    (is_Some e -> operator (cur p') = false /\ (has_error p' = true \/ (left p' < left sample_parser)%nat)).
Proof.
  apply (parse_expression_terminates sample_parser 20).
  - split; [repeat constructor; discriminate|discriminate].
  - reflexivity.
  - apply Nat.leb_le. reflexivity.
Defined.

Definition sample_update : list Z := zstr "UPDATE t SET a = 1 WHERE b = 2;".

Lemma parsed_statement_wf_witness :
  exists p stmt q, parser_create sample_update = Done (Some p) /\ parser_parse 200 p = Done (Some stmt, q) /\
    has_error q = false /\ stmt_wf stmt = true /\ has_parts stmt.
Proof.
  destruct (parser_create sample_update) as [[p|]| |] eqn:Ep;
    [|exfalso; revert Ep; vm_compute; discriminate ..].
  assert (match parser_create sample_update with
          | Done (Some p) => match parser_parse 200 p with Done (Some _, q) => negb (has_error q) | _ => false end
          | _ => false end = true) as Hs by (vm_compute; reflexivity).
  rewrite Ep in Hs. destruct (parser_parse 200 p) as [[[stmt|] q]| |] eqn:E; try discriminate Hs.
  apply negb_true_iff in Hs. exists p, stmt, q.
  destruct (parsed_statement_wf 200 p q stmt E) as [Hw Hp].
  split; [reflexivity|]. split; [exact E|]. split; [exact Hs|]. split; [exact Hw|exact (Hp Hs)].
Defined.

(** The parser accepts a table without columns. *)
Lemma empty_table_accepted :
  match parser_create (zstr "CREATE TABLE t ();") with
  | Done (Some p) =>
      match parser_parse 100 p with
      | Done (Some stmt, q) => stmt = AST_CREATE_TABLE (zstr "t") false [] /\ has_error q = false
      | _ => False
      end
  | _ => False
  end.
Proof. by vm_compute. Qed.

(** ** Statements the parser cannot read *)

Section unread.
Context {L : Type} `{TokenSource L}.
Implicit Types p q : Parser L.

Lemma insert_stuck fuel p q t :
  feeds p [Kw TOKEN_INSERT; Kw TOKEN_INTO; Id t; Kw TOKEN_VALUES] q -> has_error q = false ->
  cur q ∈ [TOKEN_MINUS; TOKEN_PLUS] -> parser_parse fuel p = NoFuel.
Proof.
  intros Hf He Hc. unfold parser_parse, parse_statement. rewrite (feeds_has_error _ _ _ _ Hf). look Hf.
  unfold parse_insert. next Hf. keyword Hf. ident Hf. look Hf. rewrite bind_Done. keyword Hf.
  simpl in Hf. subst. destruct fuel as [|fuel]; [done|]. cbn [parse_insert_values]. rewrite He. cbn [negb].
  set (q' := parser_set_error q (zstr "Expected '(' before VALUES")).
  assert (cur q' ∈ [TOKEN_MINUS; TOKEN_PLUS; TOKEN_LPAREN]) as Hq' by (unfold q', cur in *; set_solver).
  unfold expect_token. rewrite token_eqb_ne by (intros E; rewrite E in Hc; set_solver). cbn [negb].
  rewrite bind_Done. fold q'. unfold parse_expression_list.
  rewrite token_eqb_ne by (intros E; rewrite E in Hq'; set_solver).
  destruct fuel as [|fuel]; [done|]. cbn [parse_expressions].
  by destruct (literal_stuck fuel q') as (_ & _ & ->).
Qed.

Lemma update_stuck fuel p q t c :
  feeds p [Kw TOKEN_UPDATE; Id t; Kw TOKEN_SET; Id c] q -> has_error q = false ->
  cur q ∈ [TOKEN_MINUS; TOKEN_PLUS; TOKEN_LPAREN] -> parser_parse fuel p = NoFuel.
Proof.
  intros Hf He Hc. unfold parser_parse, parse_statement. rewrite (feeds_has_error _ _ _ _ Hf). look Hf.
  unfold parse_update. next Hf. ident Hf. keyword Hf.
  destruct fuel as [|fuel]; [done|]. cbn [parse_set_clauses]. rewrite (feeds_has_error _ _ _ _ Hf). cbn [negb].
  ident Hf. simpl in Hf. subst.
  unfold expect_token. rewrite token_eqb_ne by (intros E; rewrite E in Hc; set_solver). cbn [negb].
  rewrite bind_Done. by destruct (literal_stuck fuel (parser_set_error q (zstr "Expected '=' in SET clause")))
    as (_ & _ & ->).
Qed.

Lemma default_stuck fuel p q t c :
  feeds p [Kw TOKEN_CREATE; Kw TOKEN_TABLE; Id t; Kw TOKEN_LPAREN; Id c; Kw TOKEN_TEXT_KW; Kw TOKEN_DEFAULT] q ->
  has_error q = false -> cur q = TOKEN_PRIMARY -> parser_parse fuel p = NoFuel.
Proof.
  intros Hf He Hc. unfold parser_parse, parse_statement. rewrite (feeds_has_error _ _ _ _ Hf). look Hf.
  next Hf. look Hf. next Hf. unfold parse_create_table, parse_if_not_exists. look Hf. rewrite bind_Done.
  ident Hf. expect Hf. destruct fuel as [|fuel]; [done|]. cbn [parse_column_defs].
  rewrite (feeds_has_error _ _ _ _ Hf). look Hf. unfold parse_column_def. ident Hf.
  apply (column_type_ok COL_TYPE_TEXT) in Hf as (p5 & -> & Hf). rewrite bind_Done.
  destruct fuel as [|fuel]; [done|]. cbn [parse_constraints]. keywords Hf. next Hf. simpl in Hf. subst.
  assert (check_keyword q (zstr "NOT") = false) as Hk by (unfold check_keyword; rewrite Hc; reflexivity).
  destruct fuel as [|fuel]; [done|]. rewrite parse_expression_S.
  destruct fuel as [|fuel]; [done|]. rewrite parse_unary_not_S, Hk.
  destruct fuel as [|fuel]; [done|]. cbn [parse_literal]. rewrite Hc, !bind_Done.
  by rewrite constraints_stuck.
Qed.
End unread.

(** Beginnings of statements after which the parser loops, with the next token. *)
Definition diverging (ss : list Sym) (ty : TokenType) : bool :=
  match ss with
  | [Kw TOKEN_INSERT; Kw TOKEN_INTO; Id _; Kw TOKEN_VALUES] => bool_decide (ty ∈ [TOKEN_MINUS; TOKEN_PLUS])
  | [Kw TOKEN_UPDATE; Id _; Kw TOKEN_SET; Id _] =>
      bool_decide (ty ∈ [TOKEN_MINUS; TOKEN_PLUS; TOKEN_LPAREN])
  | [Kw TOKEN_CREATE; Kw TOKEN_TABLE; Id _; Kw TOKEN_LPAREN; Id _; Kw TOKEN_TEXT_KW; Kw TOKEN_DEFAULT] =>
      token_eqb ty TOKEN_PRIMARY
  | _ => false
  end.

Lemma diverging_stuck {L : Type} `{TokenSource L} ss (p q : Parser L) fuel :
  diverging ss (cur q) = true -> feeds p ss q -> has_error q = false -> parser_parse fuel p = NoFuel.
Proof.
  intros Hd Hf He. unfold diverging in Hd.
  repeat case_match; try discriminate Hd; subst; apply bool_decide_eq_true in Hd;
    first [by eapply default_stuck | by eapply update_stuck | by eapply insert_stuck].
Qed.

(** The parser does not terminate on [INSERT INTO t VALUES - ...] and
    [UPDATE t SET a - ...] (unbounded recursion: after an error advance consumes
    nothing, and parse_literal recurses on the sign it did not consume) and on
    [CREATE TABLE t (a TEXT DEFAULT PRIMARY ...] (the constraint loop sees PRIMARY
    for ever). No fuel is enough. *)
Theorem parser_diverges {L : Type} `{TokenSource L} (ss : list Sym) (p q : Parser L) (fuel : nat) :
  diverging ss (cur q) = true -> feeds p ss q -> has_error q = false ->
  parser_parse fuel p = NoFuel.
Proof. apply diverging_stuck. Qed.

Definition diverging_text : list Z := zstr "CREATE TABLE users (id TEXT DEFAULT PRIMARY KEY);".

Lemma parser_diverges_witness : parser_parse 1000 (parser_of diverging_text) = NoFuel.
Proof.
  set (ss := [Kw TOKEN_CREATE; Kw TOKEN_TABLE; Id (zstr "users"); Kw TOKEN_LPAREN; Id (zstr "id");
              Kw TOKEN_TEXT_KW; Kw TOKEN_DEFAULT]).
  destruct (feeding (parser_of diverging_text) ss) as [q|] eqn:E.
  - apply (parser_diverges ss (parser_of diverging_text) q 1000).
    + rewrite (feeding_cur _ _ _ TOKEN_PRIMARY E); [reflexivity|vm_compute; reflexivity].
    + apply feeding_feeds. exact E.
    + assert (has_error <$> feeding (parser_of diverging_text) ss = Some false) as Hq by (vm_compute; reflexivity).
      rewrite E in Hq. injection Hq as Hq. exact Hq.
  - exfalso. revert E. vm_compute. discriminate.
Defined.

(** [x BETWEEN lo AND hi] is always rejected: the low operand is parsed with
    the whole expression grammar, so it is [lo AND hi], and the AND the code then
    asks for is gone. The result is NULL with the error "Expected AND in BETWEEN
    expression". *)
Theorem between_rejected {L : Type} `{TokenSource L} (lhs lo hi : Expression) (p q : Parser L) (fuel : nat) :
  printable lo = true -> printable hi = true ->
  feeds p (Kw TOKEN_BETWEEN :: print_expr LNot lo ++ Kw TOKEN_AND :: print_expr LExpr hi) q ->
  continues LExpr (cur q) = false -> cur q <> TOKEN_IDENTIFIER ->
  (4 * length (print_expr LNot lo ++ Kw TOKEN_AND :: print_expr LExpr hi) + 3 <= fuel)%nat ->
  parse_operators fuel lhs p =
    Done (None, parser_set_error q (zstr "Expected AND in BETWEEN expression")).
Proof.
  intros Hlo Hhi Hf Hc Hid Hfuel. destruct fuel as [|fuel]; [lia|].
  rewrite parse_operators_S. unfold parse_operator. look Hf. apply feeds_cons in Hf as (p1 & He1 & _ & _ & -> & Hf).
  rewrite bind_Done.
  set (e := EXPR_BINARY lo (token_code TOKEN_AND) hi).
  assert (printable e = true) as He by (simpl; by rewrite Hlo, Hhi).
  assert (print_expr LExpr e = print_expr LNot lo ++ Kw TOKEN_AND :: print_expr LExpr hi) as E by done.
  rewrite <- E in Hf, Hfuel.
  rewrite (parses_run_expr e fuel _ p1 q) by (done || (by apply parses_all) || (unfold cost; lia)).
  rewrite bind_Done.
  assert (check_keyword q (zstr "AND") = false) as ->; [|done].
  unfold check_keyword. change (keyword_to_token_type (zstr "AND")) with (Some TOKEN_AND). cbv iota.
  apply orb_false_iff in Hc as [_ Hc].
  rewrite token_eqb_ne by (intros Ha; rewrite <- Ha in Hc; discriminate Hc).
  by rewrite token_eqb_ne.
Qed.

Definition between_text : list Z := zstr "BETWEEN 1 AND 10;".

Lemma between_rejected_witness :
  exists q, parse_operators 40 (EXPR_COLUMN (-1) (Some (zstr "x"))) (parser_of between_text) = Done (None, q) /\
    p_error q = zstr "Expected AND in BETWEEN expression".
Proof.
  set (ss := [Kw TOKEN_BETWEEN; LitInt 1; Kw TOKEN_AND; LitInt 10]).
  destruct (feeding (parser_of between_text) ss) as [q|] eqn:E.
  - exists (parser_set_error q (zstr "Expected AND in BETWEEN expression")). split; [|reflexivity].
    apply (between_rejected (EXPR_COLUMN (-1) (Some (zstr "x"))) (EXPR_LITERAL_INT 1) (EXPR_LITERAL_INT 10)
      (parser_of between_text) q 40).
    + reflexivity.
    + reflexivity.
    + apply feeding_feeds. exact E.
    + rewrite (feeding_cur _ _ _ TOKEN_SEMICOLON E); [reflexivity|vm_compute; reflexivity].
    + rewrite (feeding_cur _ _ _ TOKEN_SEMICOLON E); [discriminate|vm_compute; reflexivity].
    + apply Nat.leb_le. vm_compute. reflexivity.
  - exfalso. revert E. vm_compute. discriminate.
Defined.

(** Statements of docs/sql-reference.md and README.md, and the error the parser
    sets on each. *)
Definition documented_errors : list (list Z * list Z) :=
  [ (zstr "CREATE TABLE users (id INTEGER PRIMARY KEY, name TEXT NOT NULL);",
       zstr "Expected ';' after CREATE TABLE");
    (zstr "SELECT DISTINCT category FROM products;", zstr "Expected identifier");
    (zstr "SELECT * FROM users WHERE email IS NOT NULL;", zstr "Expected ';' after SELECT");
    (zstr "SELECT * FROM products WHERE price BETWEEN 10 AND 100;",
       zstr "Expected AND in BETWEEN expression");
    (zstr "CREATE INDEX idx_name ON users (name, created_at);", zstr "Expected ';' after CREATE INDEX");
    (zstr "BEGIN TRANSACTION;", zstr "Expected ';' after transaction statement") ].

(** Documented statements the parser reports an error for: INTEGER columns
    (the lexer has no keyword for INTEGER), SELECT DISTINCT, IS [NOT] NULL (IS has
    precedence 0, so its case in parse_binary_expr is never reached), BETWEEN,
    indexes on several columns and BEGIN TRANSACTION. *)
Theorem documented_statements_rejected :
  Forall (fun '(sql, msg) => exists stmt q,
    parser_parse 200 (parser_of sql) = Done (stmt, q) /\ parser_error q = Some msg) documented_errors.
Proof.
  repeat (apply Forall_cons; split; [eexists _, _; split; vm_compute; reflexivity|]). apply Forall_nil_2.
Qed.
