(* ===== verification/Expression.v ===== *)
(** Model of src/sql/expression.c: SQL values, their comparison, and the evaluation of an expression on a row. *)
From Stdlib Require Import ZArith Lia SpecFloat String.
From stdpp Require Import base numbers option list.
From S2P Require Import Prelude CString Double Lexer Ast.

(** ** Values *)

Inductive Value : Type :=
  | VNull
  | VInt (z : Z)
  | VFloat (d : double)
  | VText (s : list Z)
  | VBlob (b : list Z).

Inductive ValueType : Type := VALUE_NULL | VALUE_INTEGER | VALUE_FLOAT | VALUE_TEXT | VALUE_BLOB.

#[export] Instance ValueType_eq_dec : EqDecision ValueType.
Proof. solve_decision. Defined.

Definition v_type (v : Value) : ValueType :=
  match v with
  | VNull => VALUE_NULL
  | VInt _ => VALUE_INTEGER
  | VFloat _ => VALUE_FLOAT
  | VText _ => VALUE_TEXT
  | VBlob _ => VALUE_BLOB
  end.

Definition value_from_int (val : Z) : Value := VInt val.
Definition value_from_float (val : double) : Value := VFloat val.
Definition value_from_null : Value := VNull.

(** The constructors copy [len] bytes of the caller's memory. *)
Definition value_from_text (str : list Z) (n : Z) : outcome Value :=
  let* s := buf_read 0 n str in Done (VText s).
Definition value_from_blob (blob : list Z) (n : Z) : outcome Value :=
  let* b := buf_read 0 n blob in Done (VBlob b).

Definition value_from_bool (b : bool) : Value := value_from_int (Z.b2z b).

Definition value_is_null (v : Value) : bool :=
  match v with VNull => true | _ => false end.

Definition value_is_truthy (v : Value) : bool :=
  match v with
  | VNull => false
  | VInt z => negb (z =? 0)
  | VFloat d => negb (d_eq d d_zero)
  | VText s => 0 <? len s
  | VBlob b => 0 <? len b
  end.

(** memcmp on [n] bytes; C only fixes the sign, so the model returns it. *)
Fixpoint memcmp (n : nat) (a b : list Z) : outcome Z :=
  match n, a, b with
  | O, _, _ => Done 0
  | S n, x :: a, y :: b =>
      if x <? y then Done (-1) else if y <? x then Done 1 else memcmp n a b
  | S _, _, _ => Undef
  end.

Definition type_order (t : ValueType) : Z :=
  match t with
  | VALUE_INTEGER => 0 | VALUE_FLOAT => 1 | VALUE_TEXT => 2 | VALUE_BLOB => 3 | VALUE_NULL => 0
  end.

(** The TEXT and BLOB branches: bytes first, then lengths. *)
Definition compare_bytes (a b : list Z) : outcome Z :=
  let* cmp := memcmp (Nat.min (length a) (length b)) a b in
  if negb (cmp =? 0) then Done cmp
  else if len a <? len b then Done (-1) else if len b <? len a then Done 1 else Done 0.

Definition value_compare (a b : Value) : outcome Z :=
  if value_is_null a && value_is_null b then Done 0
  else if value_is_null a then Done (-1)
  else if value_is_null b then Done 1
  else
    match a, b with
    | VInt x, VInt y => Done (if x <? y then -1 else if y <? x then 1 else 0)
    | VFloat x, VFloat y => Done (if d_lt x y then -1 else if d_lt y x then 1 else 0)
    | VText x, VText y => compare_bytes x y
    | VBlob x, VBlob y => compare_bytes x y
    | _, _ => Done (if type_order (v_type a) <? type_order (v_type b) then -1 else 1)
    end.

(** ** Rows *)

(** The row an expression is evaluated on; a NULL row or a NULL name array is [None]. *)
Record Row : Type := mkRow {
  row_data : option (list Value);
  column_count : Z;
  column_names : option (list (option (list Z))) }.

Definition no_row : Row := mkRow None 0 None.

(** The search of [eval_column] by name: the first index whose name matches, or
    the original one. *)
Fixpoint find_column (fuel : nat) (i count : Z) (names : list (option (list Z))) (name : list Z)
    (dflt : Z) : outcome Z :=
  match fuel with
  | O => Done dflt
  | S fuel =>
      if i <? count then
        let* n := outcome_of_option (names !! Z.to_nat i) in
        let* eq := match n with
                   | Some n => let* r := strcmp (name ++ [0]) (n ++ [0]) in Done (r =? 0)
                   | None => Done false
                   end in
        if eq : bool then Done i else find_column fuel (i + 1) count names name dflt
      else Done dflt
  end.

Definition eval_column (col_index : Z) (col_name : option (list Z)) (row : Row) : outcome Value :=
  match row_data row, column_names row with
  | Some data, Some names =>
      if (col_index <? 0) || (column_count row <=? col_index) then Done value_from_null else
      let* own := outcome_of_option (names !! Z.to_nat col_index) in
      let* idx :=
        match col_name, own with
        | Some name, Some n =>
            let* r := strcmp (name ++ [0]) (n ++ [0]) in
            if negb (r =? 0)
            then find_column (Z.to_nat (column_count row)) 0 (column_count row) names name col_index
            else Done col_index
        | _, _ => Done col_index
        end in
      outcome_of_option (data !! Z.to_nat idx)
  | _, _ => Done value_from_null
  end.

(** ** Operators *)

(** Character constants the evaluator tests the operator against. *)
Definition CH_EQ : Z := 61.     (* '=' *)
Definition CH_LT : Z := 60.     (* '<' *)
Definition CH_GT : Z := 62.     (* '>' *)
Definition CH_PLUS : Z := 43.   (* '+' *)
Definition CH_MINUS : Z := 45.  (* '-' *)
Definition CH_STAR : Z := 42.   (* '*' *)
Definition CH_SLASH : Z := 47.  (* '/' *)
Definition CH_BANG : Z := 33.   (* '!' *)

Definition is_numericComparison (op : Z) : bool :=
  (op =? CH_EQ) || (op =? CH_LT) || (op =? CH_GT) || (op =? token_code TOKEN_LTE) ||
  (op =? token_code TOKEN_GTE) || (op =? token_code TOKEN_NEQ).

(** The text of an operand of a textual comparison: "" for NULL and BLOB. *)
Definition operand_text (v : Value) : list Z :=
  match v with
  | VText s => s
  | VInt z => print_int z
  | VFloat d => print_g15 d
  | _ => []
  end.

Definition compare_text (op cmp : Z) : bool :=
  if op =? CH_EQ then cmp =? 0
  else if op =? token_code TOKEN_NEQ then negb (cmp =? 0)
  else if op =? CH_LT then cmp <? 0
  else if op =? CH_GT then 0 <? cmp
  else if op =? token_code TOKEN_LTE then cmp <=? 0
  else if op =? token_code TOKEN_GTE then 0 <=? cmp
  else false.

Definition compare_num (op : Z) (l r : double) : bool :=
  if op =? CH_EQ then d_eq l r
  else if op =? token_code TOKEN_NEQ then negb (d_eq l r)
  else if op =? CH_LT then d_lt l r
  else if op =? CH_GT then d_lt r l
  else if op =? token_code TOKEN_LTE then d_le l r
  else if op =? token_code TOKEN_GTE then d_le r l
  else false.

(** left_num and left_valid *)
Definition operand_num (v : Value) : option double :=
  match v with
  | VInt z => Some (d_of_int z)
  | VFloat d => Some d
  | _ => None
  end.

Definition eval_comparison (op : Z) (l r : Value) : outcome Value :=
  if bool_decide (v_type l = VALUE_TEXT) || bool_decide (v_type r = VALUE_TEXT) then
    let* cmp := strcmp (operand_text l ++ [0]) (operand_text r ++ [0]) in
    Done (value_from_bool (compare_text op cmp))
  else
    match operand_num l, operand_num r with
    | Some a, Some b => Done (value_from_bool (compare_num op a b))
    | _, _ => Done (value_from_bool false)
    end.

(** (type == VALUE_INTEGER) ? (double)as_int : as_float. The union of a null value
    is zeroed; of a text or a blob it holds an address. *)
Definition as_double (v : Value) : outcome double :=
  match v with
  | VInt z => Done (d_of_int z)
  | VFloat d => Done d
  | VNull => Done d_zero
  | VText _ | VBlob _ => Undef
  end.

Definition eval_arith (iop : Z -> Z -> Z) (dop : double -> double -> double) (l r : Value)
    : outcome Value :=
  match l, r with
  | VInt a, VInt b => let* z := int64 (iop a b) in Done (value_from_int z)
  | _, _ =>
      let* a := as_double l in
      let* b := as_double r in
      Done (value_from_float (dop a b))
  end.

(** The divisor goes through a double, also for two integers. *)
Definition eval_divide (l r : Value) : outcome Value :=
  let* b := as_double r in
  if d_eq b d_zero then Done value_from_null else
  match l, r with
  | VInt x, VInt _ =>
      let* y := d_to_int64 b in
      if y =? 0 then Undef else
      let* z := int64 (Z.quot x y) in Done (value_from_int z)
  | _, _ => let* a := as_double l in Done (value_from_float (d_div a b))
  end.

(** [eval_binary] on the two evaluated operands. The LIKE, IN and BETWEEN
    operators hand the EXPR_BINARY node to functions that refuse its type. *)
Definition eval_binary (op : Z) (l r : Value) : outcome Value :=
  if op =? token_code TOKEN_AND then
    Done (value_from_bool (value_is_truthy l && value_is_truthy r))
  else if op =? token_code TOKEN_OR then
    Done (value_from_bool (value_is_truthy l || value_is_truthy r))
  else if op =? token_code TOKEN_IS then
    Done (value_from_bool (Bool.eqb (value_is_null l) (value_is_null r)))
  else if is_numericComparison op then eval_comparison op l r
  else if op =? CH_PLUS then eval_arith Z.add d_add l r
  else if op =? CH_MINUS then eval_arith Z.sub d_sub l r
  else if op =? CH_STAR then eval_arith Z.mul d_mul l r
  else if op =? CH_SLASH then eval_divide l r
  else Done value_from_null.

(** [eval_unary] on the evaluated operand. *)
Definition eval_unary (op : Z) (v : Value) : outcome Value :=
  if op =? CH_BANG then Done (value_from_bool (negb (value_is_truthy v)))
  else if op =? CH_MINUS then
    match v with
    | VInt z => let* z := int64 (- z) in Done (value_from_int z)
    | VFloat d => Done (value_from_float (d_neg d))
    | _ => Done value_from_null
    end
  else if (op =? token_code TOKEN_NOT) || (op =? token_code TOKEN_IS) then Done (value_from_int 0)
  else Done value_from_null.

(** ** LIKE *)

Definition PERCENT : Z := 37.
Definition UNDERSCORE : Z := 95.

(** while (p + 1 < end && *(p + 1) == '%') p++; *)
Fixpoint skip_percents (fuel : nat) (pat : list Z) (p : nat) : nat :=
  match fuel with
  | O => p
  | S fuel =>
      match pat !! S p with
      | Some c => if c =? PERCENT then skip_percents fuel pat (S p) else p
      | None => p
      end
  end.

(** while (last_star_s < end && *last_star_s != c) last_star_s++; *)
Fixpoint seek_char (fuel : nat) (str : list Z) (s : nat) (c : Z) : nat :=
  match fuel with
  | O => s
  | S fuel =>
      match str !! s with
      | Some x => if x =? c then s else seek_char fuel str (S s) c
      | None => s
      end
  end.

(** The matching loop at pattern index [p] and string index [s]; [star] holds
    last_star and last_star_s. At the end of the string the pattern is at a byte
    that is not '%', so the code's loop over '%' there does not run. *)
Fixpoint like_loop (fuel : nat) (str pat : list Z) (p s : nat) (star : option (nat * nat))
    : outcome bool :=
  match pat !! p with
  | None => Done (bool_decide (length str <= s)%nat)
  | Some pc =>
      match fuel with
      | O => NoFuel
      | S fuel =>
          if pc =? PERCENT then
            like_loop fuel str pat (skip_percents (length pat) pat p) s (Some (p, s))
          else
            match str !! s with
            | None => Done false
            | Some sc =>
                if pc =? UNDERSCORE then like_loop fuel str pat (S p) (S s) star
                else if pc =? sc then like_loop fuel str pat (S p) (S s) star
                else
                  match star with
                  | None => Done false
                  | Some (sp, ss) =>
                      match pat !! S sp with
                      | None => Done true
                      | Some c =>
                          let ss := seek_char (length str) str ss c in
                          if (length str <=? ss)%nat then Done false
                          else like_loop fuel str pat (S sp) (S ss) (Some (sp, S ss))
                      end
                  end
            end
      end
  end.

(** The loop without a '%' in the pattern takes one step per pattern byte. *)
Definition simple_like_match (fuel : nat) (str pat : list Z) : outcome bool :=
  if len pat =? 0 then Done (len str =? 0) else like_loop fuel str pat 0 0 None.

Definition eval_like (fuel : nat) (str_val pattern_val : Value) (not : bool) : outcome Value :=
  match str_val, pattern_val with
  | VText s, VText p =>
      let* r := simple_like_match fuel s p in
      Done (value_from_bool (if not then negb r else r))
  | _, _ => Done (value_from_bool false)
  end.

Definition eval_between (value low high : Value) (not : bool) : outcome Value :=
  let* result :=
    if negb (value_is_null value) && negb (value_is_null low) && negb (value_is_null high) then
      let* a := value_compare value low in
      let* b := value_compare value high in
      Done ((0 <=? a) && (b <=? 0))
    else Done false in
  Done (value_from_bool (if not then negb result else result)).

(** ** Evaluation *)

(** The items are evaluated in order until one equals the value. *)
Definition eval_in_loop (eval : Expression -> outcome Value) (v : Value)
    : list Expression -> outcome bool :=
  fix go items :=
    match items with
    | [] => Done false
    | i :: items =>
        let* x := eval i in
        let* c := value_compare v x in
        if c =? 0 then Done true else go items
    end.

(** [fuel] is for the LIKE loop alone; the recursion is on the expression. *)
Fixpoint expr_eval (fuel : nat) (row : Row) (expr : Expression) : outcome Value :=
  match expr with
  | ExprNULL => Done value_from_null
  | EXPR_LITERAL_INT z => Done (value_from_int z)
  | EXPR_LITERAL_FLOAT d => Done (value_from_float d)
  | EXPR_LITERAL_STRING s => value_from_text s (len s)
  | EXPR_LITERAL_NULL => Done value_from_null
  | EXPR_COLUMN idx name => eval_column idx name row
  | EXPR_BINARY e1 op e2 =>
      let* l := expr_eval fuel row e1 in
      let* r := expr_eval fuel row e2 in
      eval_binary op l r
  | EXPR_UNARY op operand =>
      let* v := expr_eval fuel row operand in
      eval_unary op v
  | EXPR_LIKE str pattern not =>
      let* s := expr_eval fuel row str in
      let* p := expr_eval fuel row pattern in
      eval_like fuel s p not
  | EXPR_IN value items not =>
      let* v := expr_eval fuel row value in
      let* result := eval_in_loop (expr_eval fuel row) v items in
      Done (value_from_bool (if not then negb result else result))
  | EXPR_BETWEEN value low high not =>
      let* v := expr_eval fuel row value in
      let* l := expr_eval fuel row low in
      let* h := expr_eval fuel row high in
      eval_between v l h not
  | EXPR_FUNC | EXPR_CASE | EXPR_SUBQUERY => Done value_from_null
  end.

Definition eval_literal (fuel : nat) (expr : Expression) : outcome Value :=
  expr_eval fuel no_row expr.

(** ** Comparison of values is a total order *)

(** Lexicographic comparison of integer sequences, a prefix first. *)
Fixpoint lex_cmp (a b : list Z) : Z :=
  match a, b with
  | [], [] => 0
  | [], _ :: _ => -1
  | _ :: _, [] => 1
  | x :: a, y :: b => if x <? y then -1 else if y <? x then 1 else lex_cmp a b
  end.

Lemma lex_cmp_range a b : -1 <= lex_cmp a b <= 1.
Proof. revert b. induction a as [|x a IH]; intros [|y b]; simpl; try lia. specialize (IH b). zcase. Qed.

Lemma lex_cmp_anti a b : lex_cmp b a = - lex_cmp a b.
Proof. revert b. induction a as [|x a IH]; intros [|y b]; simpl; try done. rewrite IH. zcase. Qed.

Lemma lex_cmp_zero a b : lex_cmp a b = 0 -> a = b.
Proof.
  revert b. induction a as [|x a IH]; intros [|y b]; simpl; try done. zcase.
  intros Hz. f_equal; [lia|auto].
Qed.

Lemma lex_cmp_refl a : lex_cmp a a = 0.
Proof. induction a as [|x a IH]; simpl; [done|]. by rewrite Z.ltb_irrefl. Qed.

Lemma lex_cmp_trans a b c : lex_cmp a b <= 0 -> lex_cmp b c <= 0 -> lex_cmp a c <= 0.
Proof.
  revert b c. induction a as [|x a IH]; intros [|y b] [|z c]; simpl; try lia.
  specialize (IH b c). zcase.
Qed.

Lemma compare_bytes_lex a b : compare_bytes a b = Done (lex_cmp a b).
Proof.
  unfold compare_bytes. revert b. induction a as [|x a IH]; intros [|y b]; [done..|].
  cbn [length Nat.min memcmp lex_cmp].
  destruct (Z.ltb_spec x y); [done|]. destruct (Z.ltb_spec y x); [done|]. rewrite <- IH.
  assert (forall n m, (Z.of_nat (S n) <? Z.of_nat (S m)) = (Z.of_nat n <? Z.of_nat m)) as Hs
    by (intros; zcase; done).
  by rewrite !Hs.
Qed.

(** A double as a key whose lexicographic order is the order of the doubles. *)
Definition double_key (d : double) : list Z :=
  match d with
  | S754_nan => []
  | S754_infinity true => [-2]
  | S754_finite true m e => [-1; - e; - Zpos m]
  | S754_zero _ => [0]
  | S754_finite false m e => [1; e; Zpos m]
  | S754_infinity false => [2]
  end.

Definition is_nan (d : double) : bool := match d with S754_nan => true | _ => false end.

Definition cmp_sign (c : comparison) : Z := match c with Lt => -1 | Eq => 0 | Gt => 1 end.

Lemma SFcompare_key x y :
  is_nan x = false -> is_nan y = false ->
  exists c, SFcompare x y = Some c /\ lex_cmp (double_key x) (double_key y) = cmp_sign c.
Proof.
  destruct x as [sx|sx| |sx mx ex], y as [sy|sy| |sy my ey]; intros Hx Hy; try done;
    try (by destruct sx, sy; eexists; split).
  cbn [SFcompare]. change (Pos.compare_cont Eq mx my) with (mx ?= my)%positive.
    eexists. split; [reflexivity|].
    destruct sx, sy; [|done|done|]; cbn [double_key lex_cmp];
      destruct (Z.compare_spec ex ey), (Pos.compare_spec mx my); subst; cbn [CompOpp cmp_sign]; zcase.
Qed.

(** The key of a value: nulls first, then integers, floats, texts and blobs. *)
Definition value_key (v : Value) : list Z :=
  match v with
  | VNull => [-1]
  | VInt z => [0; z]
  | VFloat d => 1 :: double_key d
  | VText s => 2 :: s
  | VBlob b => 3 :: b
  end.

Definition not_nan (v : Value) : bool := match v with VFloat d => negb (is_nan d) | _ => true end.

Lemma value_compare_key a b :
  not_nan a = true -> not_nan b = true ->
  value_compare a b = Done (lex_cmp (value_key a) (value_key b)).
Proof.
  destruct a as [|x|x|x|x], b as [|y|y|y|y]; intros Ha Hb; try done;
    cbn [value_compare value_is_null andb value_key lex_cmp].
  - apply negb_true_iff in Ha, Hb. destruct (SFcompare_key x y Ha Hb) as (c & Hc & Hk).
    destruct (SFcompare_key y x Hb Ha) as (c' & Hc' & Hk'). rewrite lex_cmp_anti, Hk in Hk'.
    change (1 <? 1) with false. cbn [andb]. rewrite Hk. unfold d_lt, SFltb. rewrite Hc, Hc'.
    by destruct c, c'.
  - apply compare_bytes_lex.
  - apply compare_bytes_lex.
Qed.

(** Equal as SQL values: the same value, where the two zeros are one. *)
Definition same_value (a b : Value) : Prop :=
  match a, b with
  | VFloat x, VFloat y => d_eq x y = true
  | _, _ => a = b
  end.

Lemma value_key_inj a b :
  not_nan a = true -> not_nan b = true -> value_key a = value_key b -> same_value a b.
Proof.
  destruct a as [|x|x|x|x], b as [|y|y|y|y]; intros Ha Hb [=]; subst; try done.
  apply negb_true_iff in Ha, Hb. destruct (SFcompare_key x y Ha Hb) as (c & Hc & Hk).
  rewrite H0, lex_cmp_refl in Hk. cbn. unfold d_eq, SFeqb. rewrite Hc. by destruct c.
Qed.

(** C36: comparing SQL values. On values that are not NaN, [value_compare] always
    answers, is antisymmetric and transitive, and gives 0 exactly for equal
    values: a total order over all the types, with nulls first. *)
Theorem value_compare_order a b c :
  not_nan a = true -> not_nan b = true -> not_nan c = true ->
  exists x y z, value_compare a b = Done x /\ value_compare b a = Done (- x) /\
    value_compare b c = Done y /\ value_compare a c = Done z /\
    (x <= 0 -> y <= 0 -> z <= 0) /\ (x = 0 -> same_value a b).
Proof.
  intros Ha Hb Hc. rewrite !value_compare_key by done. eexists _, _, _.
  split_and!; [done|by rewrite lex_cmp_anti|done|done|apply lex_cmp_trans|].
  intros H. by apply value_key_inj, lex_cmp_zero.
Qed.

Lemma value_compare_order_witness :
  exists x y z, value_compare (VText [97]) (VText [97; 98]) = Done x /\
    value_compare (VText [97; 98]) (VText [97]) = Done (- x) /\
    value_compare (VText [97; 98]) (VBlob [0]) = Done y /\
    value_compare (VText [97]) (VBlob [0]) = Done z /\
    (x <= 0 -> y <= 0 -> z <= 0) /\ (x = 0 -> same_value (VText [97]) (VText [97; 98])).
Proof. apply (value_compare_order (VText [97]) (VText [97; 98]) (VBlob [0])); reflexivity. Defined.

(** ** LIKE against its meaning in SQL *)

(** SQL's LIKE: '_' stands for one byte, '%' for any sequence. *)
Fixpoint like_ref (pat str : list Z) : bool :=
  match pat with
  | [] => match str with [] => true | _ => false end
  | c :: pat =>
      if c =? PERCENT then
        (fix any str := like_ref pat str || match str with [] => false | _ :: str => any str end) str
      else
        match str with
        | x :: str => ((c =? UNDERSCORE) || (c =? x)) && like_ref pat str
        | [] => false
        end
  end.

(** One step of the loop off a '%', when no '%' was seen before. *)
Lemma like_loop_step fuel str pat p s c :
  pat !! p = Some c -> c <> PERCENT ->
  like_loop (S fuel) str pat p s None =
  match str !! s with
  | Some x => if (c =? UNDERSCORE) || (c =? x) then like_loop fuel str pat (S p) (S s) None
              else Done false
  | None => Done false
  end.
Proof.
  intros Hp Hc. cbn [like_loop]. rewrite Hp. destruct (Z.eqb_spec c PERCENT); [done|].
  destruct (str !! s) as [x|]; [|done]. by destruct (c =? UNDERSCORE), (c =? x).
Qed.

(** The loop over a pattern part free of '%': it stops in a mismatch or goes on
    behind that part. *)
Lemma like_loop_plain fuel str pat p s mid :
  (forall i c, mid !! i = Some c -> pat !! (p + i)%nat = Some c) -> PERCENT ∉ mid ->
  like_loop (length mid + fuel) str pat p s None =
  if like_ref mid (take (length mid) (drop s str))
  then like_loop fuel str pat (p + length mid) (s + length mid) None
  else Done false.
Proof.
  revert p s. induction mid as [|c mid IH]; intros p s Hpat Hn.
  { cbn. by rewrite !Nat.add_0_r. }
  apply not_elem_of_cons in Hn as [Hc Hn].
  assert (pat !! p = Some c) as Hp by (rewrite <- (Nat.add_0_r p); by apply Hpat).
  cbn [length Nat.add]. rewrite (like_loop_step _ _ _ _ _ c) by (done || congruence).
  rewrite IH; [|intros i d Hi; replace (S p + i)%nat with (p + S i)%nat by lia; by apply Hpat|done].
  cbn [like_ref]. destruct (Z.eqb_spec c PERCENT); [congruence|].
  destruct (str !! s) as [x|] eqn:Hs.
  - rewrite (drop_S _ _ _ Hs). cbn [take]. destruct (_ || _); [|done]. cbn [andb].
    by replace (p + S (length mid))%nat with (S p + length mid)%nat by lia;
       replace (s + S (length mid))%nat with (S s + length mid)%nat by lia.
  - apply lookup_ge_None in Hs. by rewrite drop_ge, take_nil.
Qed.

Lemma like_loop_stuck fuel str pat p s star :
  pat !! p = Some PERCENT -> like_loop fuel str pat p s star = NoFuel.
Proof.
  revert p star. induction fuel as [|fuel IH]; intros p star Hp; cbn [like_loop]; rewrite Hp; [done|].
  rewrite Z.eqb_refl. apply IH. generalize (length pat). intros n. revert p Hp.
  induction n as [|n IHn]; intros p Hp; [done|]. cbn [skip_percents].
  destruct (pat !! S p) as [c|] eqn:Hc; [|done].
  destruct (Z.eqb_spec c PERCENT) as [->|]; [by apply IHn|done].
Qed.

(** With less fuel than the plain part needs, the loop runs out inside it. *)
Lemma like_loop_short fuel str pat p s mid :
  (fuel < length mid)%nat -> (forall i c, mid !! i = Some c -> pat !! (p + i)%nat = Some c) ->
  PERCENT ∉ mid -> like_ref mid (take (length mid) (drop s str)) = true ->
  like_loop fuel str pat p s None = NoFuel.
Proof.
  revert p s mid. induction fuel as [|fuel IH]; intros p s [|c mid] Hf Hpat Hn Hm; simpl in Hf; try lia;
    assert (pat !! p = Some c) as Hp by (rewrite <- (Nat.add_0_r p); by apply Hpat).
  { cbn [like_loop]. by rewrite Hp. }
  apply not_elem_of_cons in Hn as [Hc Hn]. rewrite (like_loop_step _ _ _ _ _ c) by (done || congruence).
  cbn [like_ref length] in Hm. destruct (Z.eqb_spec c PERCENT); [congruence|].
  destruct (str !! s) as [x|] eqn:Hs.
  - rewrite (drop_S _ _ _ Hs) in Hm. cbn [take] in Hm. apply andb_prop in Hm as [-> Hm].
    apply (IH _ _ mid); [lia| |done|done].
    intros i d Hi. replace (S p + i)%nat with (p + S i)%nat by lia. by apply Hpat.
  - apply lookup_ge_None in Hs. by rewrite drop_ge, take_nil in Hm.
Qed.

Lemma like_ref_take mid str :
  PERCENT ∉ mid ->
  like_ref mid (take (length mid) str) && bool_decide (length str <= length mid)%nat = like_ref mid str.
Proof.
  revert str. induction mid as [|c mid IH]; intros str Hn; [by destruct str|].
  apply not_elem_of_cons in Hn as [Hc Hn]. cbn [like_ref length].
  destruct (Z.eqb_spec c PERCENT); [congruence|]. destruct str as [|x str]; [done|]. cbn [take].
  rewrite <- (IH str) by done. rewrite <- andb_assoc. do 2 f_equal. apply bool_decide_ext. simpl. lia.
Qed.

Lemma like_loop_prefix str pre tl fuel :
  PERCENT ∉ pre -> (length pre <= fuel)%nat ->
  like_loop fuel str (pre ++ tl) 0 0 None =
  if like_ref pre (take (length pre) str)
  then like_loop (fuel - length pre) str (pre ++ tl) (length pre) (length pre) None
  else Done false.
Proof.
  intros Hn Hf. replace fuel with (length pre + (fuel - length pre))%nat at 1 by lia.
  rewrite (like_loop_plain _ _ _ _ _ pre), drop_0; [done| |done].
  intros i c Hi. cbn. by apply lookup_app_l_Some.
Qed.

Lemma like_match_plain str pat fuel :
  PERCENT ∉ pat -> (length pat <= fuel)%nat ->
  simple_like_match fuel str pat = Done (like_ref pat str).
Proof.
  intros Hn Hf. unfold simple_like_match. rewrite <- (like_ref_take pat str Hn).
  destruct (Z.eqb_spec (len pat) 0) as [E|E].
  { destruct pat; [|simpl in E; lia]. cbn. f_equal. destruct str; [done|]. simpl. by zcase. }
  pose proof (like_loop_prefix str pat [] fuel Hn Hf) as Hpre. rewrite app_nil_r in Hpre.
  rewrite Hpre. destruct (like_ref _ _); [|done].
  assert (pat !! length pat = None) as Hend by by apply lookup_ge_None.
  by destruct (fuel - length pat)%nat; cbn [like_loop]; rewrite Hend.
Qed.

(** LIKE. On a pattern without '%', matching terminates within one step per
    pattern byte and agrees with SQL's LIKE. On a pattern with a '%', if the part
    before it does not match the start of the string the answer is the correct 0;
    if it does, the loop never gets past the '%' and evaluation never returns. *)
Theorem like_match_spec str pre post :
  PERCENT ∉ pre ->
  (forall fuel, (length pre <= fuel)%nat ->
     simple_like_match fuel str pre = Done (like_ref pre str)) /\
  (like_ref pre (take (length pre) str) = false -> forall fuel, (length pre <= fuel)%nat ->
     simple_like_match fuel str (pre ++ PERCENT :: post) = Done false) /\
  (like_ref pre (take (length pre) str) = true -> forall fuel,
     simple_like_match fuel str (pre ++ PERCENT :: post) = NoFuel).
Proof.
  intros Hn. split; [intros; by apply like_match_plain|].
  assert ((len (pre ++ PERCENT :: post) =? 0) = false) as Hne
    by (rewrite length_app; cbn [length]; zcase; done).
  unfold simple_like_match. rewrite Hne. split.
  - intros Hm fuel Hf. by rewrite like_loop_prefix, Hm by done.
  - intros Hm fuel. destruct (decide (length pre <= fuel)%nat) as [Hf|Hf].
    + rewrite like_loop_prefix, Hm by done. apply like_loop_stuck. by rewrite list_lookup_middle.
    + apply (like_loop_short _ _ _ _ _ pre); [lia| |done|by rewrite drop_0].
      intros i c Hi. cbn. by apply lookup_app_l_Some.
Qed.

Lemma like_match_spec_witness :
  simple_like_match 3 (zstr "cat") (zstr "c_t") = Done true /\
  simple_like_match 3 (zstr "dog") (zstr "c%") = Done false /\
  (forall fuel, simple_like_match fuel (zstr "cat") (zstr "c%") = NoFuel).
Proof.
  destruct (like_match_spec (zstr "cat") (zstr "c_t") []) as (H1 & _ & _).
  { intros H. cbn in H. repeat (apply elem_of_cons in H as [H|H]; [discriminate H|]).
    by apply elem_of_nil in H. }
  destruct (like_match_spec (zstr "dog") (zstr "c") []) as (_ & H2 & _).
  { intros H. cbn in H. apply elem_of_cons in H as [H|H]; [discriminate H|]. by apply elem_of_nil in H. }
  destruct (like_match_spec (zstr "cat") (zstr "c") []) as (_ & _ & H3).
  { intros H. cbn in H. apply elem_of_cons in H as [H|H]; [discriminate H|]. by apply elem_of_nil in H. }
  split_and!; [apply H1; cbn; lia|apply H2; [reflexivity|cbn; lia]|apply H3; reflexivity].
Defined.

(** ** Evaluation terminates when no text holds a '%' *)

Definition plain_text (n : nat) (s : list Z) : bool :=
  bool_decide (PERCENT ∉ s) && (length s <=? n)%nat.

Definition plain_value (n : nat) (v : Value) : bool :=
  match v with VText s => plain_text n s | _ => true end.

Fixpoint plain_expr (n : nat) (e : Expression) : bool :=
  match e with
  | EXPR_LITERAL_STRING s => plain_text n s
  | EXPR_BINARY e1 _ e2 => plain_expr n e1 && plain_expr n e2
  | EXPR_UNARY _ e => plain_expr n e
  | EXPR_LIKE e1 e2 _ => plain_expr n e1 && plain_expr n e2
  | EXPR_IN e items _ => plain_expr n e && forallb (plain_expr n) items
  | EXPR_BETWEEN e1 e2 e3 _ => plain_expr n e1 && plain_expr n e2 && plain_expr n e3
  | _ => true
  end.

Definition plain_row (n : nat) (row : Row) : bool :=
  match row_data row with Some vs => forallb (plain_value n) vs | None => true end.

(** A value, or behaviour C leaves open: never an endless loop. *)
Definition returns (n : nat) (m : outcome Value) : Prop :=
  m = Undef \/ exists v, m = Done v /\ plain_value n v = true.

Lemma returns_Done n v : plain_value n v = true -> returns n (Done v).
Proof. intros H. right. by exists v. Qed.

Lemma returns_bind {A} n (m : outcome A) (f : A -> outcome Value) :
  (m = Undef \/ exists a, m = Done a) -> (forall a, m = Done a -> returns n (f a)) ->
  returns n (obind m f).
Proof. intros [->|[a E]] H; [by left|]. rewrite E, bind_Done. by apply H. Qed.

Lemma returns_value n m (f : Value -> outcome Value) :
  returns n m -> (forall v, plain_value n v = true -> returns n (f v)) -> returns n (obind m f).
Proof. intros [->|(v & -> & Hv)] H; [by left|]. rewrite bind_Done. by apply H. Qed.

Lemma strcmp_returns a b : strcmp a b = Undef \/ exists r, strcmp a b = Done r.
Proof.
  revert b. induction a as [|x a IH]; intros [|y b]; cbn [strcmp]; auto.
  destruct (x <? y), (y <? x), (x =? 0); eauto.
Qed.

Lemma d_to_int64_returns d : d_to_int64 d = Undef \/ exists z, d_to_int64 d = Done z.
Proof. unfold d_to_int64. destruct d; eauto. by destruct (_ && _); eauto. Qed.

Lemma as_double_returns v : as_double v = Undef \/ exists d, as_double v = Done d.
Proof. destruct v; cbn; eauto. Qed.

Lemma int64_returns z : int64 z = Undef \/ exists y, int64 z = Done y.
Proof. destruct (int64_cases z) as [->| ->]; eauto. Qed.

Lemma value_compare_returns a b : value_compare a b = Undef \/ exists r, value_compare a b = Done r.
Proof. destruct a, b; cbn; eauto; rewrite compare_bytes_lex; eauto. Qed.

Create HintDb returns.
#[export] Hint Resolve strcmp_returns d_to_int64_returns as_double_returns int64_returns
  value_compare_returns returns_Done : returns.

Ltac returns_step :=
  match goal with
  | |- returns _ (Done _) => apply returns_Done; reflexivity
  | |- returns _ Undef => by left
  | |- returns _ (obind _ _) => apply returns_bind; [solve [eauto with returns]|intros ? _]
  | |- returns _ (if ?b then _ else _) => destruct b
  | |- returns _ (match ?x with _ => _ end) => destruct x
  end.

Lemma eval_arith_returns n iop dop l r : returns n (eval_arith iop dop l r).
Proof. unfold eval_arith. repeat returns_step. Qed.

Lemma eval_binary_returns n op l r : returns n (eval_binary op l r).
Proof.
  unfold eval_binary, eval_comparison, eval_divide.
  repeat first [apply eval_arith_returns | returns_step].
Qed.

Lemma eval_unary_returns n op v : returns n (eval_unary op v).
Proof. unfold eval_unary. repeat returns_step. Qed.

Lemma eval_between_returns n v l h not : returns n (eval_between v l h not).
Proof.
  unfold eval_between. apply returns_bind; [|intros; returns_step].
  destruct (_ && _); [|eauto].
  destruct (value_compare_returns v l) as [->|[a ->]]; [by left|]. rewrite bind_Done.
  destruct (value_compare_returns v h) as [->|[b ->]]; [by left|]. rewrite bind_Done. eauto.
Qed.

Lemma eval_like_returns n s p not : plain_value n p = true -> returns n (eval_like n s p not).
Proof.
  unfold eval_like. destruct s as [| | |s|], p as [| | |p|]; intros Hp; try returns_step.
  apply andb_prop in Hp as [Hn%bool_decide_eq_true Hl%Nat.leb_le].
  apply returns_bind; [|intros; returns_step]. right. eexists.
  by apply like_match_plain.
Qed.

Lemma eval_column_returns n idx name row :
  plain_row n row = true -> returns n (eval_column idx name row).
Proof.
  unfold eval_column, plain_row. intros Hrow.
  destruct (row_data row) as [data|]; [|by apply returns_Done].
  destruct (column_names row) as [names|]; [|by apply returns_Done].
  destruct (_ || _); [by apply returns_Done|].
  assert (forall fuel i count nm d, find_column fuel i count names nm d = Undef \/
    exists j, find_column fuel i count names nm d = Done j) as Hfind.
  { induction fuel as [|fuel IH]; intros i count nm d; cbn [find_column]; [eauto|].
    destruct (i <? count); [|eauto]. destruct (names !! Z.to_nat i) as [[x|]|]; cbn [outcome_of_option obind];
      [|by apply IH|by left].
    destruct (strcmp_returns (nm ++ [0]) (x ++ [0])) as [->|[r ->]]; [by left|].
    rewrite !bind_Done. destruct (r =? 0); [eauto|apply IH]. }
  destruct (names !! Z.to_nat idx) as [own|]; [|by left]. cbn [outcome_of_option]. rewrite bind_Done.
  apply returns_bind.
  - destruct name as [nm|], own as [x|]; eauto.
    destruct (strcmp_returns (nm ++ [0]) (x ++ [0])) as [->|[r ->]]; [by left|]. rewrite bind_Done.
    destruct (negb _); [apply Hfind|eauto].
  - intros j _. destruct (data !! Z.to_nat j) as [v|] eqn:Hv; [|by left]. apply returns_Done.
    rewrite forallb_forall in Hrow. apply Hrow, list_elem_of_In. by eapply list_elem_of_lookup_2.
Qed.

Lemma eval_in_loop_returns n (ev : Expression -> outcome Value) v items :
  Forall (fun e => returns n (ev e)) items ->
  eval_in_loop ev v items = Undef \/ exists b, eval_in_loop ev v items = Done b.
Proof.
  induction 1 as [|e items [He|(x & He & _)] Hitems IH]; cbn [eval_in_loop]; [eauto|by rewrite He; left|].
  rewrite He, bind_Done. destruct (value_compare_returns v x) as [->|[r ->]]; [by left|].
  rewrite bind_Done. destruct (r =? 0); [eauto|exact IH].
Qed.

(** C33: evaluation terminates. When no string literal of the expression and no
    text of the row holds a '%', evaluating the expression never loops: it returns
    a value (or meets one of C's undefined operations), within one LIKE step per
    byte of the longest text. *)
Theorem expr_eval_terminates n row e :
  plain_row n row = true -> plain_expr n e = true ->
  expr_eval n row e = Undef \/ exists v, expr_eval n row e = Done v /\ plain_value n v = true.
Proof.
  intros Hrow. change (plain_expr n e = true -> returns n (expr_eval n row e)).
  induction e as [e He|e1 op e2 IH1 IH2|op e IH|e items not IH IHs|e1 e2 e3 not IH1 IH2 IH3
                 |e1 e2 not IH1 IH2] using expression_induction; cbn [plain_expr]; intros Hp.
  - destruct e; try done; try (by apply returns_Done).
    + cbn [expr_eval]. unfold value_from_text. rewrite buf_read_Done, bind_Done by lia.
      apply returns_Done. unfold slice. rewrite drop_0, Nat2Z.id. cbn [plain_value].
      by rewrite take_ge by lia.
    + by apply eval_column_returns.
  - apply andb_prop in Hp as [H1 H2]. cbn [expr_eval].
    apply returns_value; [auto|intros l _]. apply returns_value; [auto|intros r _].
    apply eval_binary_returns.
  - cbn [expr_eval]. apply returns_value; [auto|intros v _]. apply eval_unary_returns.
  - apply andb_prop in Hp as [H1 H2]. cbn [expr_eval]. apply returns_value; [auto|intros v _].
    apply returns_bind; [|intros; by apply returns_Done]. apply (eval_in_loop_returns n).
    rewrite forallb_forall in H2. rewrite Forall_forall in IHs |- *.
    intros x Hx. apply IHs; [done|]. by apply H2, list_elem_of_In.
  - apply andb_prop in Hp as [Hp H3]. apply andb_prop in Hp as [H1 H2]. cbn [expr_eval].
    apply returns_value; [auto|intros v _]. apply returns_value; [auto|intros l _].
    apply returns_value; [auto|intros h _]. apply eval_between_returns.
  - apply andb_prop in Hp as [H1 H2]. cbn [expr_eval].
    apply returns_value; [auto|intros s _]. apply returns_value; [auto|intros p Hv].
    by apply eval_like_returns.
Qed.

Definition sample_row : Row :=
  mkRow (Some [VInt 7; VText (zstr "cat")]) 2 (Some [Some (zstr "id"); Some (zstr "name")]).

(** name LIKE 'c_t' AND id IN (5, 7) *)
Definition sample_expr : Expression :=
  EXPR_BINARY
    (EXPR_LIKE (EXPR_COLUMN 1 (Some (zstr "name"))) (EXPR_LITERAL_STRING (zstr "c_t")) false)
    (token_code TOKEN_AND)
    (EXPR_IN (EXPR_COLUMN 0 (Some (zstr "id"))) [EXPR_LITERAL_INT 5; EXPR_LITERAL_INT 7] false).

Lemma expr_eval_terminates_witness :
  (expr_eval 3 sample_row sample_expr = Undef \/
   exists v, expr_eval 3 sample_row sample_expr = Done v /\ plain_value 3 v = true) /\
  expr_eval 3 sample_row sample_expr = Done (VInt 1).
Proof.
  split; [|vm_compute; reflexivity].
  apply (expr_eval_terminates 3 sample_row sample_expr); vm_compute; reflexivity.
Defined.

(** ** Operators on integers *)

(** What a comparison operator means on integers. *)
Definition int_compare (op a b : Z) : bool :=
  if op =? CH_EQ then a =? b
  else if op =? token_code TOKEN_NEQ then negb (a =? b)
  else if op =? CH_LT then a <? b
  else if op =? CH_GT then b <? a
  else if op =? token_code TOKEN_LTE then a <=? b
  else if op =? token_code TOKEN_GTE then b <=? a
  else false.

Lemma compare_num_exact op a b :
  - 2 ^ 53 < a < 2 ^ 53 -> - 2 ^ 53 < b < 2 ^ 53 ->
  compare_num op (d_of_int a) (d_of_int b) = int_compare op a b.
Proof.
  intros Ha Hb. unfold compare_num, int_compare, d_eq, d_lt, d_le, SFeqb, SFltb, SFleb.
  rewrite !d_of_int_compare by done. rewrite (Z.compare_antisym a b).
  destruct (Z.compare_spec a b); cbn [CompOpp];
    repeat match goal with |- context [if ?x then _ else _] => destruct x end;
    zcase; done.
Qed.

Lemma comparison_dispatch op l r :
  is_numericComparison op = true -> eval_binary op l r = eval_comparison op l r.
Proof.
  intros H. unfold eval_binary. rewrite H.
  assert (forall t, t ∈ [TOKEN_AND; TOKEN_OR; TOKEN_IS] -> (op =? token_code t) = false) as Hne.
  { intros t Ht. destruct (Z.eqb_spec op (token_code t)) as [->|]; [|done]. exfalso.
    apply list_elem_of_In in Ht. repeat (destruct Ht as [<-|Ht]; [vm_compute in H; discriminate H|]). done. }
  rewrite !Hne; [done|..]; repeat constructor.
Qed.

Lemma division_dispatch l r : eval_binary CH_SLASH l r = eval_divide l r.
Proof. done. Qed.

(** Integer operators below 2^53. Comparisons and division go through doubles;
    for operands below 2^53 in magnitude every comparison operator gives the exact
    answer, and division by a non-zero integer gives the truncated quotient. *)
Theorem integer_operators_exact op a b :
  - 2 ^ 53 < a < 2 ^ 53 -> - 2 ^ 53 < b < 2 ^ 53 ->
  (is_numericComparison op = true ->
     eval_binary op (VInt a) (VInt b) = Done (value_from_bool (int_compare op a b))) /\
  (b <> 0 -> eval_binary CH_SLASH (VInt a) (VInt b) = Done (VInt (Z.quot a b))) /\
  eval_binary CH_SLASH (VInt a) (VInt 0) = Done VNull.
Proof.
  intros Ha Hb. split_and!.
  - intros Hop. rewrite comparison_dispatch by done. unfold eval_comparison. cbn -[d_of_int compare_num].
    by rewrite compare_num_exact.
  - intros Hnz. rewrite division_dispatch. unfold eval_divide. cbn [as_double]. rewrite bind_Done.
    change d_zero with (d_of_int 0). unfold d_eq, SFeqb. rewrite d_of_int_compare by lia.
    destruct (Z.compare_spec b 0) as [->|Hlt|Hgt]; [done|..].
    all: rewrite d_to_int64_of_int, bind_Done by done; destruct (Z.eqb_spec b 0); [done|].
    all: assert (Z.abs (a ÷ b) <= Z.abs a) by (rewrite <- Z.quot_abs by done; apply Z.quot_le_upper_bound; nia).
    all: rewrite int64_Done by lia; done.
  - reflexivity.
Qed.

Lemma integer_operators_exact_witness :
  eval_binary (token_code TOKEN_LTE) (VInt 3) (VInt 7) = Done (VInt 1) /\
  eval_binary CH_SLASH (VInt (-7)) (VInt 2) = Done (VInt (-3)).
Proof.
  destruct (integer_operators_exact (token_code TOKEN_LTE) 3 7) as (H1 & _); [lia|lia|].
  destruct (integer_operators_exact CH_SLASH (-7) 2) as (_ & H2 & _); [lia|lia|].
  split; [rewrite H1; reflexivity|rewrite H2; [reflexivity|lia]].
Defined.

(** Integer operators beyond 2^53. The detour over doubles is lossy: 2^53 and
    2^53 + 1 compare equal, and dividing the largest int64 by itself converts 2^63
    back to int64_t, which is undefined. *)
Theorem integer_operators_lossy :
  eval_binary CH_EQ (VInt (2 ^ 53)) (VInt (2 ^ 53 + 1)) = Done (VInt 1) /\
  eval_binary CH_SLASH (VInt (2 ^ 63 - 1)) (VInt (2 ^ 63 - 1)) = Undef.
Proof. split; vm_compute; reflexivity. Qed.

(** ** Operators as the parser stores them *)

(** The operators the evaluator does not know. The parser stores token codes;
    the evaluator compares them with character constants. A parsed =, <, >, +, -, *
    or / therefore evaluates to NULL whatever its operands (a WHERE clause with one
    selects no row), a parsed unary minus is NULL, and NOT is always 0. *)
Theorem parsed_operators_unknown l r op :
  op ∈ [TOKEN_EQ; TOKEN_LT; TOKEN_GT; TOKEN_PLUS; TOKEN_MINUS; TOKEN_STAR; TOKEN_SLASH; TOKEN_PERCENT] ->
  eval_binary (token_code op) l r = Done VNull /\ value_is_truthy VNull = false /\
  eval_unary (token_code TOKEN_MINUS) l = Done VNull /\
  eval_unary (token_code TOKEN_NOT) l = Done (VInt 0).
Proof.
  intros Hop. split; [|done]. apply list_elem_of_In in Hop.
  repeat (destruct Hop as [<-|Hop]; [reflexivity|]). done.
Qed.

Lemma parsed_operators_unknown_witness :
  eval_binary (token_code TOKEN_EQ) (VInt 1) (VInt 1) = Done VNull /\ value_is_truthy VNull = false /\
  eval_unary (token_code TOKEN_MINUS) (VInt 1) = Done VNull /\
  eval_unary (token_code TOKEN_NOT) (VInt 1) = Done (VInt 0).
Proof. apply (parsed_operators_unknown (VInt 1) (VInt 1) TOKEN_EQ). left. Defined.
