(* ===== verification/Fields.v ===== *)
(** Fixed-size character arrays and integers inside byte buffers: strncpy, and the
    way schema.c and catalog.c write and read one field after the other. *)
From Stdlib Require Import ZArith Lia String Ascii.
From stdpp Require Import base numbers option list.
From S2P Require Import Prelude CString.

(** ** strncpy *)

(** The [n] bytes that strncpy writes: [src] up to its terminator, then zeros. *)
Fixpoint strncpy_bytes (n : nat) (src : list Z) : outcome (list Z) :=
  match n with
  | O => Done []
  | S n =>
      match src with
      | [] => Undef
      | c :: src =>
          if c =? 0 then Done (replicate (S n) 0)
          else let* r := strncpy_bytes n src in Done (c :: r)
      end
  end.

Definition strncpy (buf : list Z) (off : Z) (src : list Z) (n : nat) : outcome (list Z) :=
  let* s := strncpy_bytes n src in buf_write off s buf.

(** memset of [n] zeros, then strncpy of at most [n - 1] bytes. *)
Definition put_field (buf : list Z) (off : Z) (n : nat) (src : list Z) : outcome (list Z) :=
  let* buf := buf_write off (replicate n 0) buf in strncpy buf off src (n - 1).

(** memset of [n] zeros, then strncpy unless the string is empty. *)
Definition put_field_if (buf : list Z) (off : Z) (n : nat) (src : list Z) : outcome (list Z) :=
  let* buf := buf_write off (replicate n 0) buf in
  match src with
  | [] => Undef
  | c :: _ => if c =? 0 then Done buf else strncpy buf off src (n - 1)
  end.

(** The same into an array of the function's own. *)
Definition get_field (n : nat) (src : list Z) : outcome (list Z) :=
  let* s := strncpy_bytes (n - 1) src in Done (s ++ [0]).

Definition put32 (buf : list Z) (off v : Z) : outcome (list Z) := buf_write off (le_bytes 4 v) buf.

Definition get32 (buf : list Z) (off : Z) : outcome Z :=
  let* b := buf_read off 4 buf in Done (le_val b).

(** A pointer into a buffer: the rest of it. *)
Definition at_off (buf : list Z) (off : Z) : outcome (list Z) :=
  if (0 <=? off) && (off <=? len buf) then Done (drop (Z.to_nat off) buf) else Undef.

(** ** Strings in arrays *)

(** [s] padded with zeros to [n] bytes, truncated to leave room for one. *)
Definition pad (n : nat) (s : list Z) : list Z :=
  take (n - 1) s ++ replicate (n - length (take (n - 1) s)) 0.

(** The text in an array, as far as its first NUL. *)
Fixpoint text (b : list Z) : list Z :=
  match b with [] => [] | c :: b => if c =? 0 then [] else c :: text b end.

(** An array of [n] bytes that holds a string. *)
Definition char_array (n : nat) (b : list Z) : Prop := length b = n /\ 0 ∈ b /\ Forall is_byte b.

#[export] Instance is_byte_dec z : Decision (is_byte z).
Proof. unfold is_byte. apply _. Defined.

#[export] Instance char_array_dec n b : Decision (char_array n b).
Proof. unfold char_array. apply _. Defined.

Lemma text_cstr b : 0 ∈ b -> cstr b (text b).
Proof.
  induction b as [|c b IH]; [by intros ?%elem_of_nil|]. simpl. destruct (Z.eqb_spec c 0) as [->|Hc].
  - intros _. split; [by exists b|apply not_elem_of_nil].
  - intros [?|Hb]%elem_of_cons; [congruence|]. destruct (IH Hb) as [[r Hr] Hn]. split.
    + exists r. by rewrite Hr at 1.
    + by apply not_elem_of_cons.
Qed.

Lemma cstr_text b s : cstr b s -> text b = s.
Proof.
  intros [[r ->] Hn]. induction s as [|c s IH]; simpl; [done|].
  apply not_elem_of_cons in Hn as [H0 Hn]. destruct (Z.eqb_spec c 0); [congruence|]. by rewrite IH.
Qed.

Lemma text_length n b : char_array n b -> (length (text b) < n)%nat.
Proof.
  intros (<- & Hz & _). destruct (text_cstr b Hz) as [[r Hr] _]. rewrite Hr at 2.
  rewrite length_app. simpl. lia.
Qed.

Lemma strncpy_bytes_cstr n b s :
  cstr b s -> strncpy_bytes n b = Done (take n s ++ replicate (n - length (take n s)) 0).
Proof.
  intros [[r ->] Hn]. revert s Hn. induction n as [|n IH]; intros s Hn; simpl; [done|].
  destruct s as [|c s]; simpl; [done|].
  apply not_elem_of_cons in Hn as [H0 Hn]. destruct (Z.eqb_spec c 0); [congruence|].
  by rewrite IH.
Qed.

(** A text that is longer than what is copied. *)
Lemma strncpy_bytes_long n s r :
  0 ∉ s -> length s = n -> strncpy_bytes n (s ++ r) = Done s.
Proof.
  revert s. induction n as [|n IH]; intros [|c s] Hn Hl; simplify_eq/=; [done|].
  apply not_elem_of_cons in Hn as [H0 Hn]. destruct (Z.eqb_spec c 0); [congruence|]. by rewrite IH.
Qed.

Lemma strncpy_bytes_length n src s : strncpy_bytes n src = Done s -> length s = n.
Proof.
  revert src s. induction n as [|n IH]; intros src s; simpl; [by intros [= <-]|].
  destruct src as [|c src]; [done|]. destruct (c =? 0); [intros [= <-]; simpl; by rewrite length_replicate|].
  destruct (strncpy_bytes n src) eqn:E; simpl; try done. intros [= <-]. simpl. by rewrite (IH _ _ E).
Qed.

Lemma strncpy_bytes_fuel n src : strncpy_bytes n src <> NoFuel.
Proof.
  revert src. induction n as [|n IH]; intros [|c src]; simpl; try done.
  destruct (c =? 0); [done|]. specialize (IH src). by destruct (strncpy_bytes n src).
Qed.

Lemma length_pad n s : (0 < n)%nat -> length (pad n s) = n.
Proof. intros Hn. unfold pad. rewrite length_app, length_replicate, length_take. lia. Qed.

(** What follows the text of a padded field does not matter. *)
Lemma pad_cstr n s r : (0 < n)%nat -> 0 ∉ s -> cstr (pad n s ++ r) (take (n - 1) s).
Proof.
  intros Hn Hs. unfold pad. set (t := take (n - 1) s).
  assert (length t < n)%nat as Ht by (unfold t; rewrite length_take; lia).
  destruct (n - length t)%nat as [|k] eqn:E; [lia|]. split.
  - exists (replicate k 0 ++ r). by rewrite <- app_assoc.
  - intros Hin. apply Hs. unfold t in Hin. apply elem_of_take in Hin as (i & Hi & _).
    by eapply list_elem_of_lookup_2.
Qed.

Lemma text_pad n s r : (length s < n)%nat -> 0 ∉ s -> text (pad n s ++ r) = s.
Proof.
  intros Hl Hs. rewrite (cstr_text _ (take (n - 1) s)) by (apply pad_cstr; [lia|done]).
  apply take_ge. lia.
Qed.

Lemma pad_eq n s : (0 < n)%nat -> pad n s = (take (n - 1) s ++ replicate (n - 1 - length (take (n - 1) s)) 0) ++ [0].
Proof.
  intros Hn. unfold pad. rewrite <- app_assoc. f_equal.
  assert (length (take (n - 1) s) < n)%nat as Ht by (rewrite length_take; lia).
  change [0] with (replicate 1 0). rewrite <- replicate_add. f_equal. lia.
Qed.

Lemma get_field_cstr n b s : (0 < n)%nat -> cstr b s -> get_field n b = Done (pad n s).
Proof.
  intros Hn Hb. unfold get_field. rewrite (strncpy_bytes_cstr _ b s Hb), bind_Done.
  by rewrite <- pad_eq.
Qed.

(** ** Writing and reading in sequence *)

Lemma buf_write_app {A} (w s r : list A) :
  (length s <= length r)%nat ->
  buf_write (len w) s (w ++ r) = Done ((w ++ s) ++ drop (length s) r).
Proof.
  intros Hl. rewrite buf_write_Done by (rewrite ?length_app; lia). f_equal. unfold splice.
  rewrite Nat2Z.id, take_app_length, (drop_app_ge w) by lia. rewrite <- app_assoc. do 3 f_equal. lia.
Qed.

Lemma put_field_app (w : list Z) n src s r :
  (0 < n <= length r)%nat -> cstr src s ->
  put_field (w ++ r) (len w) n src = Done ((w ++ pad n s) ++ drop n r).
Proof.
  intros Hn Hs. unfold put_field, strncpy. rewrite buf_write_app by (rewrite length_replicate; lia).
  rewrite bind_Done, length_replicate, <- app_assoc.
  rewrite (strncpy_bytes_cstr _ _ _ Hs), bind_Done.
  set (t := take (n - 1) s ++ replicate (n - 1 - length (take (n - 1) s)) 0).
  assert (length t = n - 1)%nat as Ht by (unfold t; rewrite length_app, length_replicate, length_take; lia).
  rewrite buf_write_app by (rewrite length_app, length_replicate; lia).
  f_equal. rewrite Ht, drop_app_le by (rewrite length_replicate; lia). rewrite drop_replicate.
  replace (n - (n - 1))%nat with 1%nat by lia. rewrite (pad_eq n s) by lia. fold t.
  by rewrite <- !app_assoc.
Qed.

Lemma put_field_if_app (w r : list Z) n src :
  (0 < n <= length r)%nat -> 0 ∈ src ->
  put_field_if (w ++ r) (len w) n src = Done ((w ++ pad n (text src)) ++ drop n r).
Proof.
  intros Hr Hz. unfold put_field_if. destruct src as [|c src]; [by apply elem_of_nil in Hz|].
  destruct (Z.eqb_spec c 0) as [->|Hc].
  - rewrite buf_write_app, bind_Done, length_replicate by (rewrite length_replicate; lia).
    simpl text. unfold pad. rewrite take_nil. simpl. by rewrite Nat.sub_0_r.
  - pose proof (put_field_app w n (c :: src) _ r ltac:(lia) (text_cstr _ Hz)) as Hp. by unfold put_field in Hp.
Qed.

Lemma put32_app (w : list Z) v r :
  (4 <= length r)%nat -> put32 (w ++ r) (len w) v = Done ((w ++ le_bytes 4 v) ++ drop 4 r).
Proof. intros Hr. unfold put32. by rewrite buf_write_app by (rewrite length_le_bytes; lia). Qed.

Lemma buf_read_app {A} (w s r : list A) : buf_read (len w) (len s) (w ++ s ++ r) = Done s.
Proof.
  rewrite buf_read_Done by (rewrite ?length_app; lia). f_equal. rewrite !Nat2Z.id.
  rewrite slice_app_r, Nat.sub_diag by lia. unfold slice. rewrite drop_0. apply take_app_length.
Qed.

Lemma buf_read_all {A} (l : list A) n : n = len l -> buf_read 0 n l = Done l.
Proof.
  intros ->. rewrite buf_read_Done by lia. f_equal. rewrite Nat2Z.id. apply slice_all.
Qed.

Lemma get32_app (w : list Z) v r : 0 <= v < 2 ^ 32 -> get32 (w ++ le_bytes 4 v ++ r) (len w) = Done v.
Proof.
  intros Hv. unfold get32. rewrite <- (length_le_bytes 4 v) at 1.
  change 4 with (len (le_bytes 4 v)) at 1. rewrite buf_read_app, bind_Done. f_equal.
  by apply le_val_bytes.
Qed.

Lemma at_off_app (w r : list Z) : at_off (w ++ r) (len w) = Done r.
Proof.
  unfold at_off. rewrite (proj2 (Z.leb_le 0 (len w))), (proj2 (Z.leb_le (len w) (len (w ++ r)))) by
    (rewrite ?length_app; lia). simpl. by rewrite Nat2Z.id, drop_app_length.
Qed.

Lemma get32_inv buf off v : get32 buf off = Done v -> 0 <= off /\ off + 4 <= len buf.
Proof.
  unfold get32. intros (b & Hb & _)%bind_Done_inv. apply buf_read_inv in Hb. lia.
Qed.

Lemma put32_inv buf off v r : put32 buf off v = Done r -> off + 4 <= len buf /\ length r = length buf.
Proof.
  unfold put32. intros Hb. pose proof (buf_write_len _ _ _ _ Hb). apply buf_write_inv in Hb as (? & Hb & _).
  rewrite length_le_bytes in Hb. lia.
Qed.

Lemma put_field_inv buf off n src r : put_field buf off n src = Done r -> length r = length buf.
Proof.
  unfold put_field, strncpy. intros (b1 & H1 & H)%bind_Done_inv. apply bind_Done_inv in H as (s & _ & H).
  apply buf_write_len in H1, H. lia.
Qed.

Lemma pad_take n s : pad n (take (n - 1) s) = pad n s.
Proof. unfold pad. by rewrite take_take, Nat.min_id. Qed.

Lemma get_padded n s (w r : list Z) :
  (0 < n)%nat -> 0 ∉ s ->
  (let* src := at_off (w ++ pad n s ++ r) (len w) in get_field n src) = Done (pad n s).
Proof.
  intros Hn Hs. rewrite at_off_app, bind_Done.
  rewrite (get_field_cstr n _ (take (n - 1) s)) by (done || by apply pad_cstr). by rewrite pad_take.
Qed.

Lemma text_no_zero b : 0 ∉ text b.
Proof.
  induction b as [|c b IH]; simpl; [apply not_elem_of_nil|].
  destruct (Z.eqb_spec c 0); [apply not_elem_of_nil|]. by apply not_elem_of_cons.
Qed.

Lemma char_array_byte n b : char_array n b -> Forall is_byte b.
Proof. by intros (_ & _ & ?). Qed.

Lemma text_byte b : Forall is_byte b -> Forall is_byte (text b).
Proof. induction 1 as [|c b Hc Hb IH]; simpl; [done|]. destruct (c =? 0); [done|]. by constructor. Qed.

Lemma pad_byte n s : Forall is_byte s -> Forall is_byte (pad n s).
Proof.
  intros Hs. unfold pad. apply Forall_app. split; [by apply Forall_take|].
  apply Forall_replicate. unfold is_byte. lia.
Qed.

(** ** Accesses: inside the buffer, or undefined *)

(** Each access of the buffer is inside it, or undefined. *)
Lemma put32_bound buf off v :
  terminates (put32 buf off v) (fun r => off + 4 <= len buf /\ length r = length buf).
Proof.
  destruct (put32 buf off v) eqn:E; simpl; [by apply put32_inv in E|done|].
  unfold put32, buf_write in E. by destruct (_ && _).
Qed.

Lemma buf_write_bound (b : list Z) off s :
  terminates (buf_write off s b) (fun r => length r = length b).
Proof.
  destruct (buf_write off s b) eqn:E; simpl; [apply buf_write_len in E; lia|done|].
  unfold buf_write in E. by destruct (_ && _).
Qed.

Lemma strncpy_bound buf off src n : terminates (strncpy buf off src n) (fun r => length r = length buf).
Proof.
  unfold strncpy. eapply (terminates_bind _ _ (fun _ => True)).
  - pose proof (strncpy_bytes_fuel n src). by destruct (strncpy_bytes n src).
  - intros s _. apply buf_write_bound.
Qed.

Lemma put_field_bound buf off n src :
  terminates (put_field buf off n src) (fun r => length r = length buf).
Proof.
  unfold put_field. eapply terminates_bind; [apply buf_write_bound|]. intros d Hd.
  eapply terminates_mono; [apply strncpy_bound|]. simpl. congruence.
Qed.

Lemma put_field_if_bound buf off n src :
  terminates (put_field_if buf off n src) (fun r => length r = length buf).
Proof.
  unfold put_field_if. eapply terminates_bind; [apply buf_write_bound|]. intros d Hd. cbn beta in Hd.
  destruct src as [|c ?]; [done|]. destruct (c =? 0); [done|].
  eapply terminates_mono; [apply strncpy_bound|]. simpl. congruence.
Qed.

Lemma get32_bound buf off : terminates (get32 buf off) (fun _ => off + 4 <= len buf).
Proof.
  destruct (get32 buf off) eqn:E; simpl; [|done|].
  { apply get32_inv in E. lia. }
  unfold get32, buf_read in E. by destruct (_ && (off + 4 <=? len buf)).
Qed.

Lemma get_field_bound n src : terminates (get_field n src) (fun _ => True).
Proof.
  unfold get_field. pose proof (strncpy_bytes_fuel (n - 1) src). by destruct (strncpy_bytes (n - 1) src).
Qed.

Lemma at_off_bound buf off : terminates (at_off buf off) (fun _ => True).
Proof. unfold at_off. by destruct (_ && _). Qed.

(** ** Comparison *)

Lemma strcmp_cstr a b s t : cstr a s -> cstr b t ->
  exists r, strcmp a b = Done r /\ (r = 0 <-> s = t).
Proof.
  intros [[ra ->] Hs] [[rb ->] Ht]. revert t Hs Ht. induction s as [|x s IH]; intros [|y t] Hs Ht; simpl.
  - eexists. split; [done|]. split; done.
  - apply not_elem_of_cons in Ht as [Hy _]. destruct (Z.ltb_spec 0 y); [eexists; split; [done|lia || done]|].
    destruct (Z.ltb_spec y 0); [eexists; by split|lia].
  - apply not_elem_of_cons in Hs as [Hx _]. destruct (Z.ltb_spec x 0); [eexists; by split|].
    destruct (Z.ltb_spec 0 x); [eexists; by split|lia].
  - apply not_elem_of_cons in Hs as [Hx Hs], Ht as [Hy Ht].
    destruct (Z.ltb_spec x y); [eexists; split; [done|split; [done|intros [= ]; lia]]|].
    destruct (Z.ltb_spec y x); [eexists; split; [done|split; [done|intros [= ]; lia]]|].
    destruct (Z.eqb_spec x 0); [congruence|]. assert (x = y) as -> by lia.
    destruct (IH t Hs Ht) as (r & -> & Hr). exists r. split; [done|]. rewrite Hr.
    split; [by intros ->|by intros [= ->]].
Qed.

(** Comparisons with a literal. *)
Fixpoint clean (s : string) : bool :=
  match s with EmptyString => true | String c s => negb (N_of_ascii c =? 0)%N && clean s end.

Lemma clean_no_zero s : clean s = true -> 0 ∉ zstr s.
Proof.
  induction s as [|c s IH]; simpl; [intros _; apply not_elem_of_nil|].
  intros [Hc Hs]%andb_prop. apply not_elem_of_cons. split; [|by apply IH].
  apply negb_true_iff, N.eqb_neq in Hc. lia.
Qed.

Lemma lit_cstr s : clean s = true -> cstr (lit s) (zstr s).
Proof. intros Hs. split; [by exists []|by apply clean_no_zero]. Qed.

Lemma streq_ok a s b : cstr a s -> clean b = true -> streq a b = Done (bool_decide (s = zstr b)).
Proof.
  intros Ha Hb. unfold streq. destruct (strcmp_cstr a (lit b) s (zstr b) Ha (lit_cstr b Hb)) as (r & -> & Hr).
  rewrite bind_Done. f_equal. destruct (Z.eqb_spec r 0); case_bool_decide; tauto.
Qed.

Lemma strncmp_ok a s b :
  cstr a s -> 0 ∉ b -> exists r, strncmp a (b ++ [0]) (length b) = Done r /\ (r = 0 <-> b `prefix_of` s).
Proof.
  intros [[q ->] Hs]. revert s Hs. induction b as [|y b IH]; intros s Hs Hb; cbn [strncmp length app].
  - exists 0. split; [done|]. split; [intros _; apply prefix_nil|done].
  - apply not_elem_of_cons in Hb as [Hy Hb]. destruct s as [|x s]; cbn [app].
    + destruct (Z.ltb_spec 0 y); [exists (-1)|destruct (Z.ltb_spec y 0); [exists 1|lia]];
        (split; [done|]); (split; [done|by intros [k ?]]).
    + apply not_elem_of_cons in Hs as [Hx Hs]. destruct (Z.ltb_spec x y);
        [|destruct (Z.ltb_spec y x)].
      * exists (-1). split; [done|]. split; [done|]. intros [k [= -> _]]. lia.
      * exists 1. split; [done|]. split; [done|]. intros [k [= -> _]]. lia.
      * assert (x = y) as -> by lia. destruct (Z.eqb_spec y 0); [lia|].
        destruct (IH s Hs Hb) as (r & -> & Hr). exists r. split; [done|]. rewrite Hr.
        split; [apply prefix_cons|apply prefix_cons_inv_2].
Qed.

Lemma has_prefix_ok a s b :
  cstr a s -> clean b = true -> has_prefix a b = Done (bool_decide (zstr b `prefix_of` s)).
Proof.
  intros Ha Hb. unfold has_prefix, lit.
  destruct (strncmp_ok a s (zstr b) Ha (clean_no_zero b Hb)) as (r & -> & Hr).
  rewrite bind_Done. f_equal. destruct (Z.eqb_spec r 0); case_bool_decide; tauto.
Qed.

(** strcmp as an equality test on texts. *)
Lemma strcmp_text a b : 0 ∈ a -> 0 ∈ b ->
  exists r, strcmp a b = Done r /\ (r =? 0) = bool_decide (text a = text b).
Proof.
  intros Ha Hb. destruct (strcmp_cstr a b _ _ (text_cstr a Ha) (text_cstr b Hb)) as (r & -> & Hr).
  exists r. split; [done|]. case_bool_decide as E; destruct (Z.eqb_spec r 0); try done; tauto.
Qed.

(** ** strcpy *)

Definition strcpy (buf : list Z) (src : list Z) : outcome (list Z) :=
  let* n := str_len src in
  let* s := buf_read 0 (n + 1) src in
  buf_write 0 s buf.

Lemma strcpy_cstr buf src s : cstr src s -> 
  strcpy buf src = if len s <? len buf then Done (s ++ 0 :: drop (S (length s)) buf) else Undef.
Proof.
  intros Hs. unfold strcpy. rewrite (str_len_ok src s Hs), bind_Done. destruct Hs as [[r ->] _].
  replace (s ++ 0 :: r) with ((s ++ [0]) ++ r) by (by rewrite <- app_assoc).
  assert (len (s ++ [0]) = len s + 1) as Hl by (rewrite length_app; simpl; lia).
  rewrite buf_read_Done, bind_Done by (rewrite ?length_app in *; lia).
  change (Z.to_nat 0) with 0%nat. replace (Z.to_nat (len s + 1)) with (length (s ++ [0])) by lia.
  unfold slice. rewrite drop_0, take_app_length. destruct (Z.ltb_spec (len s) (len buf)).
  - rewrite buf_write_Done by lia. unfold splice. simpl. rewrite <- app_assoc. do 4 f_equal. lia.
  - unfold buf_write. destruct (_ && _) eqn:E; [|done]. apply andb_prop in E as [_ E].
    apply Z.leb_le in E. lia.
Qed.
