(* ===== verification/Errors.v ===== *)
(** Model of src/util/error.c, with the panic functions that end the process, and the
    error codes of include/tinydb.h. *)
From Stdlib Require Import ZArith Lia String.
From stdpp Require Import base numbers option list.
From S2P Require Import Prelude CString Double Fields.

Inductive ErrorCode : Type :=
  | SUCCESS
  | ERR_PARSE_SYNTAX
  | ERR_PARSE_UNEXPECTED_TOKEN
  | ERR_PARSE_UNTERMINATED_STRING
  | ERR_PARSE_INVALID_NUMBER
  | ERR_PARSE_INVALID_IDENTIFIER
  | ERR_EXEC_TABLE_NOT_FOUND
  | ERR_EXEC_COLUMN_NOT_FOUND
  | ERR_EXEC_DUPLICATE_COLUMN
  | ERR_EXEC_TYPE_MISMATCH
  | ERR_EXEC_NOT_NULL_VIOLATION
  | ERR_EXEC_CONSTRAINT_VIOLATION
  | ERR_EXEC_FOREIGN_KEY_VIOLATION
  | ERR_EXEC_UNIQUE_VIOLATION
  | ERR_TX_ALREADY_ACTIVE
  | ERR_TX_NOT_ACTIVE
  | ERR_TX_LOCK_TIMEOUT
  | ERR_TX_DEADLOCK
  | ERR_TX_ROLLBACK
  | ERR_STORAGE_IO
  | ERR_STORAGE_CORRUPT
  | ERR_STORAGE_FULL
  | ERR_STORAGE_PERMISSION
  | ERR_STORAGE_NOT_FOUND
  | ERR_PROTO_INVALID_REQUEST
  | ERR_PROTO_CONNECTION_CLOSED
  | ERR_PROTO_TIMEOUT
  | ERR_INTERNAL
  | ERR_OUT_OF_MEMORY
  | ERR_ASSERTION_FAILED.

#[export] Instance ErrorCode_eq_dec : EqDecision ErrorCode.
Proof. solve_decision. Defined.

(** The int behind a code. *)
Definition error_code (code : ErrorCode) : Z :=
  match code with
  | SUCCESS => 0
  | ERR_PARSE_SYNTAX => 1000
  | ERR_PARSE_UNEXPECTED_TOKEN => 1001
  | ERR_PARSE_UNTERMINATED_STRING => 1002
  | ERR_PARSE_INVALID_NUMBER => 1003
  | ERR_PARSE_INVALID_IDENTIFIER => 1004
  | ERR_EXEC_TABLE_NOT_FOUND => 2000
  | ERR_EXEC_COLUMN_NOT_FOUND => 2001
  | ERR_EXEC_DUPLICATE_COLUMN => 2002
  | ERR_EXEC_TYPE_MISMATCH => 2003
  | ERR_EXEC_NOT_NULL_VIOLATION => 2004
  | ERR_EXEC_CONSTRAINT_VIOLATION => 2005
  | ERR_EXEC_FOREIGN_KEY_VIOLATION => 2006
  | ERR_EXEC_UNIQUE_VIOLATION => 2007
  | ERR_TX_ALREADY_ACTIVE => 3000
  | ERR_TX_NOT_ACTIVE => 3001
  | ERR_TX_LOCK_TIMEOUT => 3002
  | ERR_TX_DEADLOCK => 3003
  | ERR_TX_ROLLBACK => 3004
  | ERR_STORAGE_IO => 4000
  | ERR_STORAGE_CORRUPT => 4001
  | ERR_STORAGE_FULL => 4002
  | ERR_STORAGE_PERMISSION => 4003
  | ERR_STORAGE_NOT_FOUND => 4004
  | ERR_PROTO_INVALID_REQUEST => 5000
  | ERR_PROTO_CONNECTION_CLOSED => 5001
  | ERR_PROTO_TIMEOUT => 5002
  | ERR_INTERNAL => 9000
  | ERR_OUT_OF_MEMORY => 9001
  | ERR_ASSERTION_FAILED => 9002
  end.

(** The default branch of the switch is for ints that are no code. *)
Definition error_code_to_string (code : ErrorCode) : list Z :=
  match code with
  | SUCCESS => zstr "Success"
  | ERR_PARSE_SYNTAX => zstr "Syntax error"
  | ERR_PARSE_UNEXPECTED_TOKEN => zstr "Unexpected token"
  | ERR_PARSE_UNTERMINATED_STRING => zstr "Unterminated string"
  | ERR_PARSE_INVALID_NUMBER => zstr "Invalid number"
  | ERR_PARSE_INVALID_IDENTIFIER => zstr "Invalid identifier"
  | ERR_EXEC_TABLE_NOT_FOUND => zstr "Table not found"
  | ERR_EXEC_COLUMN_NOT_FOUND => zstr "Column not found"
  | ERR_EXEC_DUPLICATE_COLUMN => zstr "Duplicate column name"
  | ERR_EXEC_TYPE_MISMATCH => zstr "Type mismatch"
  | ERR_EXEC_NOT_NULL_VIOLATION => zstr "NOT NULL constraint violation"
  | ERR_EXEC_CONSTRAINT_VIOLATION => zstr "Constraint violation"
  | ERR_EXEC_FOREIGN_KEY_VIOLATION => zstr "Foreign key violation"
  | ERR_EXEC_UNIQUE_VIOLATION => zstr "UNIQUE constraint violation"
  | ERR_TX_ALREADY_ACTIVE => zstr "Transaction already active"
  | ERR_TX_NOT_ACTIVE => zstr "No active transaction"
  | ERR_TX_LOCK_TIMEOUT => zstr "Lock timeout"
  | ERR_TX_DEADLOCK => zstr "Deadlock detected"
  | ERR_TX_ROLLBACK => zstr "Transaction rolled back"
  | ERR_STORAGE_IO => zstr "I/O error"
  | ERR_STORAGE_CORRUPT => zstr "Database file corrupt"
  | ERR_STORAGE_FULL => zstr "Database file full"
  | ERR_STORAGE_PERMISSION => zstr "Permission denied"
  | ERR_STORAGE_NOT_FOUND => zstr "File not found"
  | ERR_PROTO_INVALID_REQUEST => zstr "Invalid request"
  | ERR_PROTO_CONNECTION_CLOSED => zstr "Connection closed"
  | ERR_PROTO_TIMEOUT => zstr "Protocol timeout"
  | ERR_INTERNAL => zstr "Internal error"
  | ERR_OUT_OF_MEMORY => zstr "Out of memory"
  | ERR_ASSERTION_FAILED => zstr "Assertion failed"
  end.

Definition all_codes : list ErrorCode :=
  [SUCCESS; ERR_PARSE_SYNTAX; ERR_PARSE_UNEXPECTED_TOKEN; ERR_PARSE_UNTERMINATED_STRING;
   ERR_PARSE_INVALID_NUMBER; ERR_PARSE_INVALID_IDENTIFIER; ERR_EXEC_TABLE_NOT_FOUND;
   ERR_EXEC_COLUMN_NOT_FOUND; ERR_EXEC_DUPLICATE_COLUMN; ERR_EXEC_TYPE_MISMATCH;
   ERR_EXEC_NOT_NULL_VIOLATION; ERR_EXEC_CONSTRAINT_VIOLATION; ERR_EXEC_FOREIGN_KEY_VIOLATION;
   ERR_EXEC_UNIQUE_VIOLATION; ERR_TX_ALREADY_ACTIVE; ERR_TX_NOT_ACTIVE; ERR_TX_LOCK_TIMEOUT;
   ERR_TX_DEADLOCK; ERR_TX_ROLLBACK; ERR_STORAGE_IO; ERR_STORAGE_CORRUPT; ERR_STORAGE_FULL;
   ERR_STORAGE_PERMISSION; ERR_STORAGE_NOT_FOUND; ERR_PROTO_INVALID_REQUEST;
   ERR_PROTO_CONNECTION_CLOSED; ERR_PROTO_TIMEOUT; ERR_INTERNAL; ERR_OUT_OF_MEMORY;
   ERR_ASSERTION_FAILED].

(** ** Error objects *)

Record Error : Type := mkError {
  err_code : ErrorCode;
  err_message : list Z;
  err_context : list Z }.

Section errors.
(** What the two arrays of a malloc'ed Error hold. *)
Variables (mem_message mem_context : list Z).

Definition error_create (code : ErrorCode) (message : option (list Z)) : outcome Error :=
  let* msg := match message with
              | Some m => let* d := strncpy mem_message 0 m 255 in buf_write 255 [0] d
              | None => buf_write 0 [0] mem_message
              end in
  let* ctx := buf_write 0 [0] mem_context in
  Done (mkError code msg ctx).

(** vsnprintf of a formatted text into an array of [n] bytes: cut to n - 1, then
    the terminator. *)
Definition vsnprintf (buf : list Z) (n : nat) (formatted : list Z) : outcome (list Z) :=
  buf_write 0 (take (n - 1) formatted ++ [0]) buf.

(** The text that [fmt] and the arguments format to; None for a NULL [fmt]. *)
Definition error_create_f (code : ErrorCode) (formatted : option (list Z)) : outcome Error :=
  let* err := error_create code None in
  match formatted with
  | Some f => let* msg := vsnprintf (err_message err) 256 f in Done (mkError code msg (err_context err))
  | None => Done err
  end.

Definition error_wrap (cause : Error) (formatted : option (list Z)) : outcome Error :=
  let* err := error_create (err_code cause) (Some (err_message cause)) in
  match formatted with
  | Some f => let* ctx := vsnprintf (err_context err) 256 f in Done (mkError (err_code err) (err_message err) ctx)
  | None => Done err
  end.

Definition error_is (err : option Error) (code : ErrorCode) : bool :=
  match err with Some e => bool_decide (err_code e = code) | None => false end.
End errors.

(** ** Panics *)

Inductive PanicType : Type :=
  | PANIC_NONE
  | PANIC_IO_ERROR
  | PANIC_CORRUPTION
  | PANIC_OUT_OF_MEMORY
  | PANIC_ASSERTION.

(** Strings are their text, None is NULL. *)
Record PanicInfo : Type := mkPanicInfo {
  panic_type : PanicType;
  panic_message : option (list Z);
  panic_file : option (list Z);
  panic_line : Z }.

Definition g_panic_start : PanicInfo := mkPanicInfo PANIC_NONE None None 0.

(** How the process ends: abort() or exit(status). *)
Inductive Exit : Type := Aborted | Exited (status : Z).

(** The end of the process: what went to stderr, g_panic then, and the exit.
    [debug] is the build flag; [formatted] is None for a NULL format. *)
Record Panicked : Type := mkPanicked { p_stderr : list Z; p_info : PanicInfo; p_exit : Exit }.

Definition panic_exit (debug : bool) : Exit := if debug then Aborted else Exited 1.

Definition panic_at (debug : bool) (file : list Z) (line : Z) (formatted : option (list Z)) : Panicked :=
  let place := zstr " at " ++ file ++ zstr ":" ++ print_int line ++ [10] in
  match formatted with
  | Some f =>
      let message := take 255 f in
      mkPanicked (zstr "PANIC: " ++ message ++ place)
        (mkPanicInfo PANIC_ASSERTION (Some message) (Some file) line) (panic_exit debug)
  | None =>
      mkPanicked (zstr "PANIC" ++ place)
        (mkPanicInfo PANIC_ASSERTION (Some (zstr "Unknown panic")) (Some file) line) (panic_exit debug)
  end.

Definition panic (debug : bool) (g : PanicInfo) (formatted : option (list Z)) : Panicked :=
  match formatted with
  | Some f =>
      let message := take 255 f in
      mkPanicked (zstr "PANIC: " ++ message ++ [10])
        (mkPanicInfo PANIC_ASSERTION (Some message) (panic_file g) (panic_line g)) (panic_exit debug)
  | None =>
      mkPanicked [] (mkPanicInfo PANIC_ASSERTION (panic_message g) (panic_file g) (panic_line g))
        (panic_exit debug)
  end.

Definition panic_clear : PanicInfo := g_panic_start.

(** ** Theorems *)

Lemma all_codes_complete c : c ∈ all_codes.
Proof. destruct c; unfold all_codes; repeat (first [by left | right]). Qed.

(** Codes differ as ints and as texts. *)
Lemma error_code_inj : Inj (=) (=) error_code.
Proof. intros a b. destruct a, b; vm_compute; congruence. Qed.

Lemma error_code_to_string_inj : Inj (=) (=) error_code_to_string.
Proof. intros a b. destruct a, b; vm_compute; congruence. Qed.

(** The message of an error is the text it was created with, cut to 255 bytes, and
    the array is terminated; wrapping keeps code and message and adds the context. *)
Lemma error_create_ok mm mc code m s :
  length mm = 256%nat -> length mc = 256%nat -> cstr m s ->
  exists e, error_create mm mc code (Some m) = Done e /\ err_code e = code /\
    text (err_message e) = take 255 s /\ 0 ∈ err_message e /\ text (err_context e) = [] /\
    length (err_message e) = 256%nat /\ length (err_context e) = 256%nat.
Proof.
  intros Hm Hc Hs. unfold error_create, strncpy. rewrite (strncpy_bytes_cstr _ _ _ Hs), bind_Done.
  set (t := take 255 s). set (r := replicate (255 - length t) 0).
  assert (length (t ++ r) = 255%nat) as Hl
    by (unfold r, t; rewrite length_app, length_replicate, length_take; lia).
  pose proof (buf_write_app [] (t ++ r) mm ltac:(lia)) as E. cbn [app] in E.
  change (len []) with 0 in E. rewrite E, bind_Done.
  replace 255 with (len (t ++ r)) by lia.
  rewrite buf_write_app, bind_Done by (rewrite length_drop; simpl; lia). rewrite drop_drop, Hl.
  pose proof (buf_write_app [] [0] mc ltac:(simpl; lia)) as E2. cbn [app] in E2.
  change (len []) with 0 in E2. rewrite E2, bind_Done.
  eexists. split; [done|]. cbn [err_code err_message err_context]. rewrite drop_ge by (simpl; lia). split_and!; try done.
  - assert (pad 256 s = t ++ replicate (256 - length t) 0) as Hp by done.
    assert (cstr (((t ++ r) ++ [0]) ++ []) t) as Hct.
    { rewrite app_nil_r. unfold r. rewrite <- app_assoc. split.
      - destruct (255 - length t)%nat as [|k]; [by exists []|]. by exists (replicate k 0 ++ [0]).
      - intros Hin. apply (proj2 Hs). unfold t in Hin. rewrite <- (take_drop 255 s). apply elem_of_app. by left. }
    by apply cstr_text.
  - rewrite !elem_of_app. left. right. by left.
  - rewrite !app_nil_r, !length_app in *. simpl. lia.
  - simpl. rewrite length_drop. lia.
Qed.
