(* ===== verification/Schema.v ===== *)
(** Model of src/sql/schema.c: table schemas, their comparison, and their
    serialized form of 84 bytes and 336 bytes per column. *)
From Stdlib Require Import ZArith Lia String.
From stdpp Require Import base numbers option list.
From S2P Require Import Prelude Posix Pager CString Fields.

Definition MAX_COLUMNS : Z := 64.
Definition MAX_TABLE_NAME : nat := 64.
Definition MAX_COLUMN_NAME : nat := 64.
Definition SCHEMA_MAX_SIZE : Z := 8192.
Definition SCHEMA_MAGIC : Z := 0x5343484D.
Definition SCHEMA_VERSION : Z := 1.

(** Character arrays are the bytes of the array; flags are ints. *)
Record Column : Type := mkColumn {
  c_name : list Z;
  c_type : Z;
  c_not_null : Z;
  c_primary_key : Z;
  c_auto_increment : Z;
  c_default_value : list Z }.

Record Schema : Type := mkSchema {
  s_table_name : list Z;
  s_columns : list Column;
  s_col_count : Z;
  s_root_page : Z;
  s_auto_increment : Z;
  s_is_open : Z }.

Definition column_size (type : Z) : Z :=
  if type =? 0 then 8 else if type =? 1 then 8
  else if type =? 2 then PAGE_SIZE else if type =? 3 then PAGE_SIZE else 0.

Definition column_type_name (type : Z) : list Z :=
  if type =? 0 then zstr "INTEGER" else if type =? 1 then zstr "FLOAT"
  else if type =? 2 then zstr "TEXT" else if type =? 3 then zstr "BLOB" else zstr "UNKNOWN".

(** [columns] is the caller's array. *)
Definition schema_create (table_name : list Z) (columns : list Column) (col_count : Z)
    : outcome (option Schema) :=
  if col_count <=? 0 then Done None else
  let* name := strncpy (replicate MAX_TABLE_NAME 0) 0 table_name (MAX_TABLE_NAME - 1) in
  let* cols := buf_read 0 col_count columns in
  Done (Some (mkSchema name cols col_count 0 1 1)).

Definition schema_clone (s : Schema) : outcome (option Schema) :=
  schema_create (s_table_name s) (s_columns s) (s_col_count s).

(** ** Serialization *)

(** A flag as it is stored. *)
Definition flag (z : Z) : Z := if z =? 0 then 0 else 1.

(** The column loop, from [offset]. *)
Fixpoint serialize_columns (columns : list Column) (data : list Z) (offset : Z) : outcome (list Z * Z) :=
  match columns with
  | [] => Done (data, offset)
  | col :: columns =>
      let* data := put_field data offset 64 (c_name col) in
      let* data := put32 data (offset + 64) (u32 (c_type col)) in
      let* data := put32 data (offset + 68) (flag (c_not_null col)) in
      let* data := put32 data (offset + 72) (flag (c_primary_key col)) in
      let* data := put32 data (offset + 76) (flag (c_auto_increment col)) in
      let* data := put_field_if data (offset + 80) 256 (c_default_value col) in
      serialize_columns columns data (offset + 336)
  end.

(** The buffer and the size stored through [size]. *)
Definition schema_serialize (s : Schema) (buf : list Z) : outcome (list Z * Z) :=
  let* data := put32 buf 0 SCHEMA_MAGIC in
  let* data := put32 data 4 SCHEMA_VERSION in
  let* data := put_field data 8 64 (s_table_name s) in
  let* data := put32 data 72 (u32 (s_col_count s)) in
  let* data := put32 data 76 (u32 (Z.shiftr (s_auto_increment s) 32)) in
  let* data := put32 data 80 (Z.land (s_auto_increment s) 0xFFFFFFFF) in
  let* columns := buf_read 0 (s_col_count s) (s_columns s) in
  let* '(data, offset) := serialize_columns columns data 84 in
  Done (data, offset).

Definition deserialize_column (data : list Z) (offset : Z) : outcome Column :=
  let* src := at_off data offset in
  let* name := get_field MAX_COLUMN_NAME src in
  let* type := get32 data (offset + 64) in
  let* not_null := get32 data (offset + 68) in
  let* primary_key := get32 data (offset + 72) in
  let* auto_increment := get32 data (offset + 76) in
  let* src := at_off data (offset + 80) in
  let* default_value := get_field 256 src in
  Done (mkColumn name type (flag not_null) (flag primary_key) (flag auto_increment) default_value).

(** The column loop: [n] columns from [offset]. *)
Fixpoint deserialize_columns (n : nat) (data : list Z) (offset : Z) : outcome (list Column) :=
  match n with
  | O => Done []
  | S n =>
      let* col := deserialize_column data offset in
      let* cols := deserialize_columns n data (offset + 336) in
      Done (col :: cols)
  end.

Definition schema_deserialize (buf : list Z) (size : Z) : outcome (option Schema) :=
  if size <? 148 then Done None else
  let* magic := get32 buf 0 in
  if negb (magic =? SCHEMA_MAGIC) then Done None else
  let* version := get32 buf 4 in
  if negb (version =? SCHEMA_VERSION) then Done None else
  let* src := at_off buf 8 in
  let* table_name := get_field 64 src in
  let* col_count := get32 buf 72 in
  if MAX_COLUMNS <? col_count then Done None else
  let* hi := get32 buf 76 in
  let* lo := get32 buf 80 in
  let auto_inc := Z.lor (Z.shiftl hi 32) lo in
  let* columns := deserialize_columns (Z.to_nat col_count) buf 84 in
  let* schema := schema_create table_name columns col_count in
  Done (match schema with
        | Some s => Some (mkSchema (s_table_name s) (s_columns s) (s_col_count s) (s_root_page s) auto_inc
                                   (s_is_open s))
        | None => None
        end).

(** ** Operations *)

(** The search loop, from index [i]. *)
Fixpoint column_index_loop (columns : list Column) (name : list Z) (i : Z) : outcome Z :=
  match columns with
  | [] => Done (-1)
  | col :: columns =>
      let* r := strcmp (c_name col) name in
      if r =? 0 then Done i else column_index_loop columns name (i + 1)
  end.

Definition schema_column_index (s : Schema) (name : list Z) : outcome Z :=
  let* columns := buf_read 0 (s_col_count s) (s_columns s) in column_index_loop columns name 0.

Definition schema_column (s : Schema) (name : list Z) : outcome (option Column) :=
  let* idx := schema_column_index s name in
  if 0 <=? idx then
    let* c := outcome_of_option (s_columns s !! Z.to_nat idx) in Done (Some c)
  else Done None.

(** Row validation accepts everything. *)
Definition schema_validate_row (s : Schema) (row_data : list Z) (size : Z) : Z := 0.

Definition schema_row_size (s : Schema) : outcome Z :=
  let* columns := buf_read 0 (s_col_count s) (s_columns s) in
  Done (foldl (fun total col => u32 (total + column_size (c_type col))) 0 columns).

Fixpoint columns_equal (a b : list Column) : outcome Z :=
  match a, b with
  | ca :: a, cb :: b =>
      let* r := strcmp (c_name ca) (c_name cb) in
      if negb (r =? 0) then Done 0 else
      if negb (c_type ca =? c_type cb) then Done 0 else
      if negb (c_not_null ca =? c_not_null cb) then Done 0 else
      if negb (c_primary_key ca =? c_primary_key cb) then Done 0 else
      columns_equal a b
  | _, _ => Done 1
  end.

Definition schema_equal (a b : Schema) : outcome Z :=
  let* r := strcmp (s_table_name a) (s_table_name b) in
  if negb (r =? 0) then Done 0 else
  if negb (s_col_count a =? s_col_count b) then Done 0 else
  let* ca := buf_read 0 (s_col_count a) (s_columns a) in
  let* cb := buf_read 0 (s_col_count b) (s_columns b) in
  columns_equal ca cb.

(** ** The serialized form *)

Definition column_ok (c : Column) : Prop :=
  char_array MAX_COLUMN_NAME (c_name c) /\ char_array 256 (c_default_value c) /\ 0 <= c_type c < 2 ^ 32.

(** A schema as schema_create builds it. *)
Definition schema_ok (s : Schema) : Prop :=
  char_array MAX_TABLE_NAME (s_table_name s) /\ Forall column_ok (s_columns s) /\
  s_col_count s = len (s_columns s) /\ 1 <= s_col_count s <= MAX_COLUMNS /\
  0 <= s_auto_increment s < 2 ^ 64.

Definition column_bytes (c : Column) : list Z :=
  pad 64 (text (c_name c)) ++ le_bytes 4 (c_type c) ++ le_bytes 4 (flag (c_not_null c)) ++
  le_bytes 4 (flag (c_primary_key c)) ++ le_bytes 4 (flag (c_auto_increment c)) ++
  pad 256 (text (c_default_value c)).

(** What is left of a column and a schema after a round trip: arrays padded with
    zeros, flags 0 or 1, no root page. *)
Definition norm_column (c : Column) : Column :=
  mkColumn (pad 64 (text (c_name c))) (c_type c) (flag (c_not_null c)) (flag (c_primary_key c))
    (flag (c_auto_increment c)) (pad 256 (text (c_default_value c))).

Definition norm_schema (s : Schema) : Schema :=
  mkSchema (pad 64 (text (s_table_name s))) (norm_column <$> s_columns s) (s_col_count s) 0
    (s_auto_increment s) 1.

Lemma flag_bound z : 0 <= flag z < 2 ^ 32.
Proof. unfold flag. zcase. Qed.

Lemma flag_flag z : flag (flag z) = flag z.
Proof. unfold flag. by destruct (z =? 0). Qed.

Lemma length_column_bytes c : length (column_bytes c) = 336%nat.
Proof. unfold column_bytes. rewrite !length_app, !length_pad, !length_le_bytes by lia. done. Qed.

Lemma length_columns_bytes cols : length (concat (column_bytes <$> cols)) = (336 * length cols)%nat.
Proof.
  induction cols as [|c cols IH]; [done|]. rewrite fmap_cons. cbn [concat].
  rewrite length_app, length_column_bytes, IH. simpl length. lia.
Qed.

Lemma serialize_column_app c cols (w r : list Z) :
  column_ok c -> (336 <= length r)%nat ->
  serialize_columns (c :: cols) (w ++ r) (len w) =
  serialize_columns cols ((w ++ column_bytes c) ++ drop 336 r) (len (w ++ column_bytes c)).
Proof.
  intros (Hn & Hd & Ht) Hr. cbn [serialize_columns].
  assert (forall v, 0 <= v < 2 ^ 32 -> u32 v = v) as Hu by (intros; by apply u32_id).
  rewrite (put_field_app w 64 _ (text (c_name c))), bind_Done by (lia || apply text_cstr, Hn).
  set (w1 := w ++ pad 64 _).
  assert (len w + 64 = len w1) as -> by (unfold w1; rewrite length_app, length_pad; lia).
  rewrite put32_app, bind_Done by (rewrite length_drop; lia). rewrite Hu by done. set (w2 := w1 ++ _).
  assert (len w + 68 = len w2) as ->
    by (unfold w2, w1; rewrite !length_app, length_pad, length_le_bytes; lia).
  rewrite put32_app, bind_Done by (rewrite !length_drop; lia). set (w3 := w2 ++ _).
  assert (len w + 72 = len w3) as ->
    by (unfold w3, w2, w1; rewrite !length_app, length_pad, !length_le_bytes; lia).
  rewrite put32_app, bind_Done by (rewrite !length_drop; lia). set (w4 := w3 ++ _).
  assert (len w + 76 = len w4) as ->
    by (unfold w4, w3, w2, w1; rewrite !length_app, length_pad, !length_le_bytes; lia).
  rewrite put32_app, bind_Done by (rewrite !length_drop; lia). set (w5 := w4 ++ _).
  assert (len w + 80 = len w5) as ->
    by (unfold w5, w4, w3, w2, w1; rewrite !length_app, length_pad, !length_le_bytes; lia).
  rewrite put_field_if_app, bind_Done by (apply Hd || (rewrite !length_drop; lia)). rewrite !drop_drop.
  assert (w5 ++ pad 256 (text (c_default_value c)) = w ++ column_bytes c) as ->
    by (unfold w5, w4, w3, w2, w1, column_bytes; by rewrite <- !app_assoc).
  f_equal. rewrite length_app, length_column_bytes. lia.
Qed.

Lemma serialize_columns_app cols (w r : list Z) :
  Forall column_ok cols -> (336 * length cols <= length r)%nat ->
  serialize_columns cols (w ++ r) (len w) =
  Done ((w ++ concat (column_bytes <$> cols)) ++ drop (336 * length cols) r, len w + 336 * len cols).
Proof.
  intros Hc. revert w r. induction Hc as [|c cols Hc Hcs IH]; intros w r Hr.
  - simpl. rewrite app_nil_r. do 2 f_equal. lia.
  - simpl length in *. rewrite serialize_column_app by (done || lia).
    rewrite IH by (rewrite length_drop; lia). rewrite fmap_cons. cbn [concat].
    rewrite drop_drop, <- !app_assoc. do 2 f_equal.
    + do 4 f_equal. lia.
    + rewrite length_app, length_column_bytes. lia.
Qed.

Definition header_bytes_of (s : Schema) : list Z :=
  le_bytes 4 SCHEMA_MAGIC ++ le_bytes 4 SCHEMA_VERSION ++ pad 64 (text (s_table_name s)) ++
  le_bytes 4 (s_col_count s) ++ le_bytes 4 (s_auto_increment s / 2 ^ 32) ++
  le_bytes 4 (s_auto_increment s mod 2 ^ 32).

Definition schema_bytes (s : Schema) : list Z :=
  header_bytes_of s ++ concat (column_bytes <$> s_columns s).

Lemma length_header_bytes_of s : length (header_bytes_of s) = 84%nat.
Proof. unfold header_bytes_of. rewrite !length_app, length_pad, !length_le_bytes by lia. done. Qed.

Lemma serialize_header s (buf : list Z) :
  schema_ok s -> (84 <= length buf)%nat ->
  schema_serialize s buf =
  serialize_columns (s_columns s) (header_bytes_of s ++ drop 84 buf) (len (header_bytes_of s)).
Proof.
  intros (Hn & _ & Hcount & Hle & Hai) Hb. unfold schema_serialize.
  change buf with ([] ++ buf) at 1. change 0 with (len (@nil Z)) at 1.
  rewrite put32_app, bind_Done by lia. cbn [app]. set (w1 := le_bytes 4 SCHEMA_MAGIC).
  change 4 with (len w1) at 1.
  rewrite put32_app, bind_Done by (rewrite length_drop; lia). set (w2 := w1 ++ _).
  change 8 with (len w2).
  rewrite (put_field_app w2 64 _ (text (s_table_name s))), bind_Done
    by (rewrite ?length_drop; lia || apply text_cstr, Hn).
  set (w3 := w2 ++ _). assert (72 = len w3) as -> by (unfold w3; rewrite length_app, length_pad; simpl; lia).
  rewrite put32_app, bind_Done by (rewrite !length_drop; lia). set (w4 := w3 ++ _).
  assert (76 = len w4) as -> by (unfold w4, w3; rewrite !length_app, length_pad; simpl; lia).
  rewrite put32_app, bind_Done by (rewrite !length_drop; lia). set (w5 := w4 ++ _).
  assert (80 = len w5) as -> by (unfold w5, w4, w3; rewrite !length_app, length_pad; simpl; lia).
  rewrite put32_app, bind_Done by (rewrite !length_drop; lia).
  rewrite buf_read_all, bind_Done by done.
  assert (w5 ++ le_bytes 4 (Z.land (s_auto_increment s) 0xFFFFFFFF) = header_bytes_of s) as ->.
  { change 0xFFFFFFFF with (Z.ones 32). rewrite Z.land_ones by lia.
    unfold w5, w4, w3, w2, w1, header_bytes_of. unfold MAX_COLUMNS in Hle.
    rewrite Z.shiftr_div_pow2 by lia. rewrite (u32_id (s_col_count s)) by lia.
    rewrite u32_id by (split; [apply Z.div_pos|apply Z.div_lt_upper_bound]; lia).
    by rewrite <- !app_assoc. }
  rewrite !drop_drop. rewrite length_header_bytes_of. change (Z.of_nat 84) with 84.
  by destruct (serialize_columns _ _ _) as [[d o]| |].
Qed.

(** Serializing writes the bytes of the schema and leaves the rest of the buffer. *)
Lemma schema_serialize_ok s (buf : list Z) :
  schema_ok s -> (84 + 336 * length (s_columns s) <= length buf)%nat ->
  schema_serialize s buf =
    Done (schema_bytes s ++ drop (length (schema_bytes s)) buf, 84 + 336 * s_col_count s).
Proof.
  intros Hs Hb. rewrite serialize_header by (done || lia).
  pose proof Hs as (_ & Hcols & Hcount & _).
  rewrite serialize_columns_app by (rewrite ?length_drop; done || lia).
  unfold schema_bytes. rewrite drop_drop, length_app, length_columns_bytes, length_header_bytes_of.
  rewrite Hcount. do 2 f_equal.
Qed.

(** ** Reading back *)

Lemma deserialize_column_ok c (w r : list Z) :
  0 <= c_type c < 2 ^ 32 ->
  deserialize_column (w ++ column_bytes c ++ r) (len w) = Done (norm_column c).
Proof.
  intros Ht. unfold deserialize_column, column_bytes, MAX_COLUMN_NAME. rewrite <- !app_assoc.
  rewrite <- bind_assoc, get_padded, bind_Done by (lia || apply text_no_zero).
  rewrite (app_assoc w). set (w1 := w ++ pad 64 _).
  assert (len w + 64 = len w1) as -> by (unfold w1; rewrite length_app, length_pad; lia).
  rewrite get32_app, bind_Done by done. rewrite (app_assoc w1). set (w2 := w1 ++ _).
  assert (len w + 68 = len w2) as ->
    by (unfold w2, w1; rewrite !length_app, length_pad, length_le_bytes; lia).
  rewrite get32_app, bind_Done by apply flag_bound. rewrite (app_assoc w2). set (w3 := w2 ++ _).
  assert (len w + 72 = len w3) as ->
    by (unfold w3, w2, w1; rewrite !length_app, length_pad, !length_le_bytes; lia).
  rewrite get32_app, bind_Done by apply flag_bound. rewrite (app_assoc w3). set (w4 := w3 ++ _).
  assert (len w + 76 = len w4) as ->
    by (unfold w4, w3, w2, w1; rewrite !length_app, length_pad, !length_le_bytes; lia).
  rewrite get32_app, bind_Done by apply flag_bound. rewrite (app_assoc w4). set (w5 := w4 ++ _).
  assert (len w + 80 = len w5) as ->
    by (unfold w5, w4, w3, w2, w1; rewrite !length_app, length_pad, !length_le_bytes; lia).
  rewrite <- bind_assoc, get_padded, bind_Done by (lia || apply text_no_zero).
  by rewrite !flag_flag.
Qed.

Lemma deserialize_columns_ok cols (w r : list Z) :
  Forall column_ok cols ->
  deserialize_columns (length cols) (w ++ concat (column_bytes <$> cols) ++ r) (len w) =
    Done (norm_column <$> cols).
Proof.
  intros Hc. revert w. induction Hc as [|c cols (Hn & Hd & Ht) Hcs IH]; intros w; [done|].
  rewrite !fmap_cons. cbn [concat length deserialize_columns]. rewrite <- app_assoc.
  rewrite deserialize_column_ok, bind_Done by done. rewrite (app_assoc w).
  assert (len w + 336 = len (w ++ column_bytes c)) as ->
    by (rewrite length_app, length_column_bytes; lia).
  by rewrite IH.
Qed.

(** Reading the fixed part. *)
Lemma deserialize_header s (r : list Z) size :
  schema_ok s -> 148 <= size ->
  schema_deserialize (header_bytes_of s ++ r) size =
  let* columns := deserialize_columns (Z.to_nat (s_col_count s)) (header_bytes_of s ++ r) 84 in
  let* schema := schema_create (pad 64 (text (s_table_name s))) columns (s_col_count s) in
  Done (match schema with
        | Some s' => Some (mkSchema (s_table_name s') (s_columns s') (s_col_count s') (s_root_page s')
                             (s_auto_increment s) (s_is_open s'))
        | None => None
        end).
Proof.
  intros (Hn & _ & Hcount & Hle & Hai) Hs. unfold schema_deserialize.
  destruct (Z.ltb_spec size 148); [lia|]. unfold MAX_COLUMNS in *.
  set (m := le_bytes 4 SCHEMA_MAGIC). set (v := le_bytes 4 SCHEMA_VERSION).
  set (nm := pad 64 (text (s_table_name s))). set (cn := le_bytes 4 (s_col_count s)).
  set (hi := s_auto_increment s / 2 ^ 32). set (lo := s_auto_increment s mod 2 ^ 32).
  assert (header_bytes_of s ++ r = m ++ v ++ nm ++ cn ++ le_bytes 4 hi ++ le_bytes 4 lo ++ r) as Hb
    by (unfold header_bytes_of; by rewrite <- !app_assoc).
  set (buf := header_bytes_of s ++ r) in *. clearbody buf.
  assert (length m = 4%nat /\ length v = 4%nat /\ length nm = 64%nat /\ length cn = 4%nat /\
    forall z, length (le_bytes 4 z) = 4%nat) as (Hm & Hv & Hnm & Hcn & Hle4)
    by (split_and!; try apply length_pad; intros; try apply length_le_bytes; lia).
  assert (forall (w : list Z) x k, buf = w ++ le_bytes 4 x ++ k -> 0 <= x < 2 ^ 32 ->
    forall o, o = len w -> get32 buf o = Done x) as Hget by (intros w x k -> ? ? ->; by apply get32_app).
  rewrite (Hget [] SCHEMA_MAGIC _ Hb), bind_Done by (done || (unfold SCHEMA_MAGIC; lia)).
  rewrite Z.eqb_refl. cbn [negb].
  rewrite (Hget m SCHEMA_VERSION _ Hb), bind_Done by (done || (unfold SCHEMA_VERSION; lia)).
  rewrite Z.eqb_refl. cbn [negb]. rewrite <- bind_assoc.
  assert (buf = (m ++ v) ++ nm ++ cn ++ le_bytes 4 hi ++ le_bytes 4 lo ++ r) as Hb2
    by (rewrite Hb; by rewrite <- !app_assoc).
  rewrite Hb2 at 1 2. change 8 with (len (m ++ v)).
  unfold nm at 1. rewrite get_padded, bind_Done by (lia || apply text_no_zero).
  rewrite (Hget ((m ++ v) ++ nm) (s_col_count s) (le_bytes 4 hi ++ le_bytes 4 lo ++ r)), bind_Done
    by (done || lia || (by rewrite Hb, <- !app_assoc) || (rewrite !length_app, ?Hle4; lia)).
  destruct (Z.ltb_spec 64 (s_col_count s)); [lia|].
  assert (0 <= hi < 2 ^ 32) as Hhi.
  { unfold hi. split; [apply Z.div_pos; lia|]. apply Z.div_lt_upper_bound; lia. }
  assert (0 <= lo < 2 ^ 32) as Hlo by (unfold lo; apply Z.mod_pos_bound; lia).
  rewrite (Hget (((m ++ v) ++ nm) ++ cn) hi (le_bytes 4 lo ++ r)), bind_Done
    by (done || lia || (by rewrite Hb, <- !app_assoc) || (rewrite !length_app, ?Hle4; lia)).
  rewrite (Hget ((((m ++ v) ++ nm) ++ cn) ++ le_bytes 4 hi) lo r), bind_Done
    by (done || lia || (by rewrite Hb, <- !app_assoc) || (rewrite !length_app, ?Hle4; lia)).
  assert (Z.lor (Z.shiftl hi 32) lo = s_auto_increment s) as ->; [|by rewrite <- Hb2].
  unfold hi, lo. rewrite <- Z.shiftr_div_pow2, <- Z.land_ones by lia.
  apply Z.bits_inj'. intros n Hn'. rewrite Z.lor_spec, Z.land_spec, Z.testbit_ones_nonneg by lia.
  destruct (Z.ltb_spec n 32).
  - rewrite Z.shiftl_spec_low, andb_true_r by lia. done.
  - rewrite Z.shiftl_spec, Z.shiftr_spec, andb_false_r, orb_false_r by lia. f_equal. lia.
Qed.

(** ** Theorems *)

Lemma schema_create_ok name cols n :
  1 <= n -> n = len cols -> 0 ∈ name ->
  schema_create name cols n = Done (Some (mkSchema (pad 64 (text name)) cols n 0 1 1)).
Proof.
  intros Hn Hl Hz. unfold schema_create. destruct (Z.leb_spec n 0); [lia|].
  unfold strncpy, MAX_TABLE_NAME. rewrite (strncpy_bytes_cstr _ _ _ (text_cstr _ Hz)), !bind_Done.
  set (t := take (64 - 1) (text name) ++ _).
  assert (length t = 63%nat) as Ht by (unfold t; rewrite length_app, length_replicate, length_take; lia).
  change (replicate 64 0) with ([] ++ replicate 64 0). change 0 with (len (@nil Z)) at 1.
  rewrite buf_write_app, bind_Done by (rewrite length_replicate; lia).
  rewrite buf_read_all, bind_Done by done. do 3 f_equal.
  rewrite pad_eq by lia. fold t. by rewrite Ht.
Qed.

(** The bytes that are written, read back. *)
Lemma schema_bytes_roundtrip (s : Schema) (buf : list Z) :
  schema_ok s -> 84 + 336 * s_col_count s <= len buf ->
  exists buf' size, schema_serialize s buf = Done (buf', size) /\
    size = 84 + 336 * s_col_count s /\ len buf' = len buf /\
    drop (Z.to_nat size) buf' = drop (Z.to_nat size) buf /\
    schema_deserialize buf' size = Done (Some (norm_schema s)).
Proof.
  intros Hs Hb. pose proof Hs as ((_ & Hz & _) & Hcols & Hcount & Hle & _).
  assert (length (schema_bytes s) = Z.to_nat (84 + 336 * s_col_count s)) as Hl.
  { unfold schema_bytes. rewrite length_app, length_columns_bytes, length_header_bytes_of. lia. }
  eexists _, _. split; [apply schema_serialize_ok; [done|lia]|]. split; [done|]. split_and!.
  - rewrite length_app, length_drop. lia.
  - rewrite drop_app_ge by lia. rewrite Hl, Nat.sub_diag. done.
  - unfold schema_bytes. rewrite <- app_assoc. rewrite deserialize_header by (done || lia).
    replace 84 with (len (header_bytes_of s)) by (by rewrite length_header_bytes_of).
    rewrite Hcount, Nat2Z.id, deserialize_columns_ok, bind_Done by done.
    rewrite schema_create_ok, bind_Done; [|lia|by rewrite length_fmap|].
    + cbn [s_table_name s_columns s_col_count s_root_page s_is_open]. unfold norm_schema.
      rewrite <- Hcount. do 3 f_equal.
      rewrite <- (app_nil_r (pad 64 (text (s_table_name s)))) at 1.
      rewrite (cstr_text _ (take (64 - 1) (text (s_table_name s)))); [apply (pad_take 64)|].
      apply pad_cstr; [lia|apply text_no_zero].
    + unfold pad. apply elem_of_app. right.
      destruct (64 - length (take (64 - 1) (text (s_table_name s))))%nat eqn:E.
      * rewrite length_take in E. lia.
      * simpl. left.
Qed.

(** A column as a C program sees it: two arrays are the same when their strings
    are, two flags when both or none are 0. *)
Definition same_column (a b : Column) : Prop :=
  text (c_name a) = text (c_name b) /\ c_type a = c_type b /\
  flag (c_not_null a) = flag (c_not_null b) /\ flag (c_primary_key a) = flag (c_primary_key b) /\
  flag (c_auto_increment a) = flag (c_auto_increment b) /\
  text (c_default_value a) = text (c_default_value b).

Lemma norm_column_same c : column_ok c -> same_column c (norm_column c).
Proof.
  intros (Hn & Hd & _). unfold same_column, norm_column.
  cbn [c_name c_type c_not_null c_primary_key c_auto_increment c_default_value].
  pose proof (text_length _ _ Hn). pose proof (text_length _ _ Hd). unfold MAX_COLUMN_NAME in *.
  rewrite !flag_flag. rewrite <- (app_nil_r (pad 64 _)), <- (app_nil_r (pad 256 _)).
  by rewrite !text_pad by (lia || apply text_no_zero).
Qed.

(** C8: serialization of a schema (as schema_create builds one, with 1 to 64
    columns). Written into any buffer with room for 84 bytes and 336 per column,
    its table name, its columns (names, types, the three flags, defaults) and its
    AUTOINCREMENT counter are read back by schema_deserialize with the size
    schema_serialize reports; arrays come back zero-padded and flags as 0 or 1.
    The root page and the open flag are not kept: the format has no field for
    them, so the schema that is read back has root page 0 and is_open 1 whatever
    they were. Bytes of the buffer behind the schema are untouched. *)
Theorem schema_roundtrip (s : Schema) (buf : list Z) :
  schema_ok s -> 84 + 336 * s_col_count s <= len buf ->
  exists buf' size s', schema_serialize s buf = Done (buf', size) /\
    size = 84 + 336 * s_col_count s /\ len buf' = len buf /\
    drop (Z.to_nat size) buf' = drop (Z.to_nat size) buf /\
    schema_deserialize buf' size = Done (Some s') /\
    s_table_name s' = pad 64 (text (s_table_name s)) /\
    s_col_count s' = s_col_count s /\ s_auto_increment s' = s_auto_increment s /\
    Forall2 same_column (s_columns s) (s_columns s') /\
    s_root_page s' = 0 /\ s_is_open s' = 1.
Proof.
  intros Hs Hb. destruct (schema_bytes_roundtrip s buf Hs Hb) as (buf' & size & E & Hl & Hb' & Hd & Er).
  exists buf', size, (norm_schema s). split_and!; try done. cbn [norm_schema s_columns].
  destruct Hs as (_ & Hc & _). clear -Hc. induction Hc; constructor; auto using norm_column_same.
Qed.


(** The last integer of a column is at offset 76 of it. *)
Lemma serialize_columns_bound cols data offset :
  terminates (serialize_columns cols data offset) (fun _ =>
    cols <> [] -> offset + 336 * len cols - 256 <= len data).
Proof.
  revert data offset. induction cols as [|c cols IH]; intros data offset; [by intros []|].
  cbn [serialize_columns].
  eapply terminates_bind; [apply put_field_bound|]. intros d1 H1.
  eapply terminates_bind; [apply put32_bound|]. intros d2 [_ H2].
  eapply terminates_bind; [apply put32_bound|]. intros d3 [_ H3].
  eapply terminates_bind; [apply put32_bound|]. intros d4 [_ H4].
  eapply terminates_bind; [apply put32_bound|]. intros d5 [Hb H5].
  eapply terminates_bind; [apply put_field_if_bound|]. intros d6 H6. eapply terminates_mono; [apply IH|]. intros x Hx _. simpl length.
  cbn beta in *. destruct cols as [|c' cols]; [simpl; lia|]. specialize (Hx ltac:(done)). cbn beta in *. simpl length in Hx |- *. lia.
Qed.

(** The buffer schema.h prescribes is too small: serializing a schema of 25 or
    more columns (a table may have 64) into SCHEMA_MAX_SIZE bytes writes past its
    end. *)
Theorem schema_serialize_overflow (s : Schema) (buf : list Z) :
  schema_ok s -> len buf = SCHEMA_MAX_SIZE -> 25 <= s_col_count s -> schema_serialize s buf = Undef.
Proof.
  intros Hs Hb H25. pose proof Hs as (_ & _ & Hcount & Hle & _). unfold SCHEMA_MAX_SIZE in Hb.
  rewrite serialize_header by (done || lia).
  pose proof (serialize_columns_bound (s_columns s) (header_bytes_of s ++ drop 84 buf)
    (len (header_bytes_of s))) as Ht.
  destruct (serialize_columns _ _ _) as [x| |]; [|done|by destruct Ht]. exfalso. cbn [terminates] in Ht.
  rewrite length_app, length_drop, length_header_bytes_of in Ht.
  assert (s_columns s <> []) as Hne by (intros E; rewrite E in Hcount; simpl in Hcount; lia).
  specialize (Ht Hne). lia.
Qed.

Lemma deserialize_columns_bound n buf offset :
  terminates (deserialize_columns n buf offset) (fun cols =>
    length cols = n /\ (n <> 0%nat -> offset + 336 * Z.of_nat n - 256 <= len buf)).
Proof.
  revert offset. induction n as [|n IH]; intros offset; [split; [done|by intros []]|]. cbn [deserialize_columns].
  eapply (terminates_bind _ _ (fun _ => offset + 80 <= len buf)).
  - unfold deserialize_column.
    eapply terminates_bind; [apply at_off_bound|]. intros src _.
    eapply terminates_bind; [apply get_field_bound|]. intros name _.
    eapply terminates_bind; [apply get32_bound|]. intros ty _.
    eapply terminates_bind; [apply get32_bound|]. intros nn _.
    eapply terminates_bind; [apply get32_bound|]. intros pk _.
    eapply terminates_bind; [apply get32_bound|]. intros ai Hb.
    eapply terminates_bind; [apply at_off_bound|]. intros src2 _.
    eapply terminates_bind; [apply get_field_bound|]. intros dv _. cbn beta in *. simpl. lia.
  - intros c Hb. eapply terminates_bind; [apply IH|]. intros cols [Hl Hc]. cbn beta in *. simpl. split; [lia|]. intros _.
    destruct n as [|n]; lia.
Qed.

(** Schema_deserialize trusts the column count. A buffer that passes its checks
    (148 bytes or more, magic and version right, 1 to 64 columns) but ends before
    the integers of the last column it announces is read past its end. *)
Theorem schema_deserialize_overread (buf : list Z) (n : Z) :
  148 <= len buf -> get32 buf 0 = Done SCHEMA_MAGIC -> get32 buf 4 = Done SCHEMA_VERSION ->
  get32 buf 72 = Done n -> 1 <= n <= MAX_COLUMNS -> len buf < 84 + 336 * n - 256 ->
  schema_deserialize buf (len buf) = Undef.
Proof.
  intros Hb Hm Hv Hn Hle Hshort. unfold schema_deserialize. destruct (Z.ltb_spec (len buf) 148); [lia|].
  rewrite Hm, bind_Done, Z.eqb_refl. cbn [negb]. rewrite Hv, bind_Done, Z.eqb_refl. cbn [negb].
  pose proof (at_off_bound buf 8) as H1. destruct (at_off buf 8) as [src| |]; [|done|by destruct H1]. rewrite bind_Done.
  pose proof (get_field_bound 64 src) as H2. destruct (get_field 64 src) as [name| |]; [|done|by destruct H2].
  rewrite bind_Done, Hn, bind_Done. destruct (Z.ltb_spec MAX_COLUMNS n); [lia|].
  pose proof (get32_bound buf 76) as H3. destruct (get32 buf 76) as [hi| |]; [|done|by destruct H3]. rewrite bind_Done.
  pose proof (get32_bound buf 80) as H4. destruct (get32 buf 80) as [lo| |]; [|done|by destruct H4]. rewrite bind_Done.
  pose proof (deserialize_columns_bound (Z.to_nat n) buf 84) as H5.
  destruct (deserialize_columns _ buf 84) as [cols| |]; [|done|by destruct H5]. simpl in H5. lia.
Qed.

(** ** Comparison *)

(** What schema_equal looks at. *)
Definition column_key (c : Column) : list Z * Z * Z * Z :=
  (text (c_name c), c_type c, c_not_null c, c_primary_key c).

Definition schema_key (s : Schema) : list Z * list (list Z * Z * Z * Z) :=
  (text (s_table_name s), column_key <$> s_columns s).

(** The relation schema_equal decides; it is coarser than equality of the structs. *)
Definition schema_eqv (a b : Schema) : Prop := schema_key a = schema_key b.

#[export] Instance schema_eqv_equivalence : Equivalence schema_eqv.
Proof. unfold schema_eqv. split; intros ?; congruence. Qed.

#[export] Instance schema_eqv_decision a b : Decision (schema_eqv a b).
Proof. unfold schema_eqv. apply _. Defined.

(** Names that end inside their arrays. *)
Definition named (s : Schema) : Prop :=
  0 ∈ s_table_name s /\ Forall (fun c => 0 ∈ c_name c) (s_columns s) /\ s_col_count s = len (s_columns s).

#[export] Instance named_dec s : Decision (named s).
Proof. unfold named. apply _. Defined.

Lemma schema_ok_named s : schema_ok s -> named s.
Proof.
  intros ((_ & Hz & _) & Hc & Hn & _). split_and!; [done| |done]. eapply Forall_impl; [exact Hc|].
  by intros c ((_ & ? & _) & _).
Qed.

Lemma columns_equal_spec a b :
  Forall (fun c => 0 ∈ c_name c) a -> Forall (fun c => 0 ∈ c_name c) b -> length a = length b ->
  columns_equal a b = Done (if decide (column_key <$> a = column_key <$> b) then 1 else 0).
Proof.
  intros Ha. revert b. induction Ha as [|x a Hx Ha IH]; intros b Hb Hl; destruct Hb as [|y b Hy Hb]; try done.
  cbn [columns_equal]. rewrite !fmap_cons. destruct (strcmp_text (c_name x) (c_name y) Hx Hy) as (r & -> & Hr).
  rewrite bind_Done, Hr, IH by (done || by injection Hl).
  repeat case_decide; repeat case_bool_decide; zcase; try done; unfold column_key in *; simplify_eq; try congruence.
Qed.

Lemma length_eqv a b : named a -> named b -> schema_eqv a b -> s_col_count a = s_col_count b.
Proof.
  intros (_ & _ & ->) (_ & _ & ->) [= _ E]. apply (f_equal length) in E. rewrite !length_fmap in E. lia.
Qed.

(** Schema_equal decides an equivalence: for schemas with terminated names it
    answers 1 exactly when the table names, and in order the columns' names, types,
    NOT NULL and PRIMARY KEY flags agree (default values, AUTOINCREMENT, counters and
    root pages are not compared), and 0 otherwise, whatever the lengths. *)
Theorem schema_equal_spec (a b : Schema) :
  named a -> named b -> schema_equal a b = Done (if decide (schema_eqv a b) then 1 else 0).
Proof.
  intros Ha Hb. pose proof Ha as (Hza & Hca & Hna). pose proof Hb as (Hzb & Hcb & Hnb). unfold schema_equal.
  destruct (strcmp_text _ _ Hza Hzb) as (r & -> & Hr). rewrite bind_Done, Hr.
  case_bool_decide as Ht; cbn [negb];
    [|case_decide as He; [by injection He|done]].
  destruct (Z.eqb_spec (s_col_count a) (s_col_count b)) as [Hn|Hn]; cbn [negb];
    [|case_decide as He; [by destruct Hn; apply length_eqv|done]].
  rewrite !buf_read_all, !bind_Done, columns_equal_spec by (done || lia).
  repeat case_decide; try done; unfold schema_eqv, schema_key in *; congruence.
Qed.

(** The lookup sees the names, the row size the types. *)
Lemma column_index_loop_key a b name i :
  Forall (fun c => 0 ∈ c_name c) a -> Forall (fun c => 0 ∈ c_name c) b -> 0 ∈ name ->
  column_key <$> a = column_key <$> b -> column_index_loop a name i = column_index_loop b name i.
Proof.
  intros Ha Hb Hz. revert b i Hb. induction Ha as [|x a Hx Ha IH]; intros b i Hb E; destruct Hb as [|y b Hy Hb]; try done.
  rewrite !fmap_cons in E. cbn [column_index_loop].
  destruct (strcmp_text (c_name x) name Hx Hz) as (r & -> & Hr).
  destruct (strcmp_text (c_name y) name Hy Hz) as (r' & -> & Hr'). rewrite !bind_Done, Hr, Hr'.
  injection E as E1 _ _ _ E. rewrite E1. case_bool_decide; [done|]. by apply IH.
Qed.

#[export] Instance row_size_proper :
  Proper ((fun a b => named a /\ named b /\ schema_eqv a b) ==> eq) schema_row_size.
Proof.
  intros a b (Ha & Hb & E). pose proof Ha as (_ & _ & Hna). pose proof Hb as (_ & _ & Hnb).
  unfold schema_row_size. rewrite !buf_read_all, !bind_Done by done. f_equal.
  injection E as _ E. revert E. generalize (s_columns b) 0. clear.
  induction (s_columns a) as [|x l IH]; intros [|y l'] acc E; try done.
  injection E as _ Ht _ _ E. simpl. rewrite Ht. by apply IH.
Qed.

(** Schemas that schema_equal accepts as equal are interchangeable for the
    operations on columns: the same names resolve to the same indices and the rows
    have the same size. *)
Theorem schema_equal_congruence (a b : Schema) (name : list Z) :
  named a -> named b -> 0 ∈ name -> schema_equal a b = Done 1 ->
  schema_column_index a name = schema_column_index b name /\ schema_row_size a = schema_row_size b.
Proof.
  intros Ha Hb Hz He. rewrite schema_equal_spec in He by done. case_decide as E; [|done].
  split; [|by apply row_size_proper]. pose proof Ha as (_ & Hca & Hna). pose proof Hb as (_ & Hcb & Hnb).
  unfold schema_column_index. rewrite !buf_read_all, !bind_Done by done.
  injection E as _ E. by apply column_index_loop_key.
Qed.

(** Schema_column_index is the search of the first column of that name: an index
    it returns is the least one whose column has the name, and -1 is returned exactly
    when no column has it. *)
Theorem schema_column_index_spec (s : Schema) (name : list Z) :
  named s -> 0 ∈ name ->
  schema_column_index s name = Done (match list_find (fun c => text (c_name c) = text name) (s_columns s) with
                                     | Some (i, _) => Z.of_nat i
                                     | None => -1
                                     end).
Proof.
  intros (_ & Hc & Hn) Hz. unfold schema_column_index. rewrite buf_read_all, bind_Done by done.
  assert (forall i, column_index_loop (s_columns s) name i =
    Done (match list_find (fun c => text (c_name c) = text name) (s_columns s) with
          | Some (j, _) => i + Z.of_nat j
          | None => -1 end)) as ->; [|done].
  clear Hn. induction Hc as [|c cols Hx Hcs IH]; intros i; [done|]. cbn [column_index_loop list_find].
  destruct (strcmp_text (c_name c) name Hx Hz) as (r & -> & Hr). rewrite bind_Done, Hr.
  case_bool_decide as E; case_decide; try done; [f_equal; lia|]. rewrite IH.
  destruct (list_find _ cols) as [[j ?]|]; simpl; f_equal; lia.
Qed.

(** ** Witnesses *)

Definition column_of (name : string) (type nn pk : Z) : Column :=
  mkColumn (pad 64 (zstr name)) type nn pk 0 (pad 256 (zstr "'x'")).

Definition users : Schema :=
  mkSchema (pad 64 (zstr "users")) [column_of "id" 0 1 1; column_of "name" 2 0 0] 2 7 42 1.

Definition wide : Schema :=
  mkSchema (pad 64 (zstr "wide")) (replicate 25 (column_of "c" 0 0 0)) 25 0 1 1.

#[local] Instance column_ok_dec c : Decision (column_ok c).
Proof. unfold column_ok. apply _. Defined.

#[local] Instance schema_ok_dec s : Decision (schema_ok s).
Proof. unfold schema_ok. apply _. Defined.

Lemma schema_roundtrip_witness :
  exists buf' size s', schema_serialize users (replicate 1000 255) = Done (buf', size) /\
    size = 84 + 336 * s_col_count users /\ len buf' = len (replicate 1000 255) /\
    drop (Z.to_nat size) buf' = drop (Z.to_nat size) (replicate 1000 255) /\
    schema_deserialize buf' size = Done (Some s') /\
    s_table_name s' = pad 64 (text (s_table_name users)) /\
    s_col_count s' = s_col_count users /\ s_auto_increment s' = s_auto_increment users /\
    Forall2 same_column (s_columns users) (s_columns s') /\
    s_root_page s' = 0 /\ s_is_open s' = 1.
Proof.
  apply (schema_roundtrip users (replicate 1000 255)); [apply (bool_decide_unpack _); by vm_compute|].
  by vm_compute.
Defined.

Lemma schema_serialize_overflow_witness :
  schema_serialize wide (replicate 8192 0) = Undef.
Proof.
  apply (schema_serialize_overflow wide (replicate 8192 0)); [apply (bool_decide_unpack _); by vm_compute| |].
  all: by vm_compute.
Defined.

Definition short_buffer : list Z :=
  le_bytes 4 SCHEMA_MAGIC ++ le_bytes 4 SCHEMA_VERSION ++ pad 64 (zstr "t") ++ le_bytes 4 1 ++ replicate 72 0.

Lemma schema_deserialize_overread_witness : schema_deserialize short_buffer (len short_buffer) = Undef.
Proof.
  apply (schema_deserialize_overread short_buffer 1); try by vm_compute.
Defined.

Lemma schema_equal_spec_witness :
  schema_equal users (norm_schema users) = Done 1 /\ schema_equal users wide = Done 0.
Proof.
  split; [exact (schema_equal_spec users (norm_schema users) ltac:(apply (bool_decide_unpack _); by vm_compute) ltac:(apply (bool_decide_unpack _); by vm_compute))|].
  exact (schema_equal_spec users wide ltac:(apply (bool_decide_unpack _); by vm_compute) ltac:(apply (bool_decide_unpack _); by vm_compute)).
Defined.

Lemma schema_equal_congruence_witness :
  schema_column_index users (pad 64 (zstr "name")) = schema_column_index (norm_schema users) (pad 64 (zstr "name")) /\
  schema_row_size users = schema_row_size (norm_schema users).
Proof.
  apply schema_equal_congruence; try (apply (bool_decide_unpack _); by vm_compute). by vm_compute.
Defined.

Lemma schema_column_index_spec_witness :
  schema_column_index users (pad 64 (zstr "name")) = Done 1.
Proof.
  exact (schema_column_index_spec users (pad 64 (zstr "name")) ltac:(apply (bool_decide_unpack _); by vm_compute) ltac:(apply (bool_decide_unpack _); by vm_compute)).
Defined.
