(* ===== verification/Catalog.v ===== *)
(** Model of src/sql/catalog.c: the catalog of tables and indexes, a B-tree of
    652-byte entries; the list of entries it implements, and where the keys the code
    chooses make it lose tables. *)
From Stdlib Require Import ZArith Lia String.
From stdpp Require Import base numbers option list.
From S2P Require Import Prelude Pager PageCache PageStore BTree CString Fields Errors.

Definition CATALOG_TYPE_TABLE : Z := 1.
Definition CATALOG_TYPE_INDEX : Z := 2.
Definition CATALOG_ENTRY_SIZE : Z := 652.
Definition CATALOG_TABLE_NAME : list Z := zstr "tinydb_master".

Record CatalogEntry : Type := mkEntry {
  ce_type : Z;
  ce_name : list Z;
  ce_tbl_name : list Z;
  ce_sql : list Z;
  ce_root_page : Z;
  ce_is_valid : Z }.

(** ** Entries as bytes *)

Definition serialize_entry (entry : CatalogEntry) (buf : list Z) : outcome (list Z) :=
  let* data := put32 buf 0 (u32 (ce_type entry)) in
  let* data := put_field data 4 64 (ce_name entry) in
  let* data := put_field data 68 64 (ce_tbl_name entry) in
  let* data := put_field_if data 132 512 (ce_sql entry) in
  let* data := put32 data 644 (u32 (ce_root_page entry)) in
  put32 data 648 (if ce_is_valid entry =? 0 then 0 else 1).

Definition deserialize_entry (data : list Z) : outcome CatalogEntry :=
  let* type := get32 data 0 in
  let* src := at_off data 4 in
  let* name := get_field 64 src in
  let* src := at_off data 68 in
  let* tbl_name := get_field 64 src in
  let* src := at_off data 132 in
  let* sql := get_field 512 src in
  let* root := get32 data 644 in
  let* valid := get32 data 648 in
  Done (mkEntry type name tbl_name sql root (if valid =? 0 then 0 else 1)).

(** ** The catalog *)

(** The pager and the cache are the store [S]; [stack] is what the uninitialized
    652-byte arrays of the functions hold. *)
Section catalog.
Context {S : Type} `{PageStore S}.
Variable stack : list Z.

Record Catalog : Type := mkCatalog { cat_tree : BTree; cat_is_open : bool }.

Definition catalog_open (fuel : nat) (s : S) : outcome (option Catalog * S) :=
  let* '(tree, s) := btree_create fuel s in
  match tree with
  | Some tree => Done (Some (mkCatalog tree true), s)
  | None => Done (None, s)
  end.

Definition catalog_close (fuel : nat) (s : S) (catalog : Catalog) : outcome S :=
  let* '(_, s) := btree_close fuel s (cat_tree catalog) in Done s.

(** strcpy into the zeroed array of an entry. *)
Definition entry_array (n : nat) (s : list Z) : outcome (list Z) :=
  buf_write 0 (s ++ [0]) (replicate n 0).

Definition catalog_init (fuel : nat) (s : S) (catalog : Catalog) : outcome (Z * S) :=
  let* name := entry_array 64 CATALOG_TABLE_NAME in
  let* tbl_name := entry_array 64 CATALOG_TABLE_NAME in
  let* sql := entry_array 512
    (zstr "CREATE TABLE tinydb_master (type TEXT, name TEXT, tbl_name TEXT, sql TEXT)") in
  let* buf := serialize_entry (mkEntry CATALOG_TYPE_TABLE name tbl_name sql 0 0) stack in
  btree_insert fuel s (cat_tree catalog) 0 buf CATALOG_ENTRY_SIZE.

(** The key under which an entry is stored. *)
Definition catalog_key (entry : CatalogEntry) : outcome Z :=
  let* n := str_len (ce_name entry) in
  Done (if ce_type entry =? CATALOG_TYPE_TABLE then u64 (1 + n) else u64 (0x80000000 + n)).

Definition catalog_insert (fuel : nat) (s : S) (catalog : Catalog) (entry : CatalogEntry)
    : outcome (Z * S) :=
  let* key := catalog_key entry in
  let* buf := serialize_entry entry stack in
  btree_insert fuel s (cat_tree catalog) key buf CATALOG_ENTRY_SIZE.

Definition catalog_delete (catalog : Catalog) (type : Z) (name : list Z) : Z := error_code ERR_INTERNAL.

(** ** Cursors *)

Record CatalogCursor : Type := mkCatCursor { btree_cursor : option BTreeCursor; cc_is_end : bool }.

Definition catalog_cursor_create (fuel : nat) (s : S) (catalog : Catalog) : outcome (CatalogCursor * S) :=
  let* '(c, s) := btree_first fuel s (cat_tree catalog) in
  Done (mkCatCursor c (match c with None => true | Some _ => false end), s).

Definition catalog_cursor_next (fuel : nat) (s : S) (cursor : CatalogCursor) : outcome (CatalogCursor * S) :=
  if cc_is_end cursor then Done (cursor, s) else
  match btree_cursor cursor with
  | None => Done (cursor, s)
  | Some c =>
      let* '(c, s) := btree_cursor_next fuel s c in
      Done (mkCatCursor (Some c) (if btree_cursor_valid (Some c) then cc_is_end cursor else true), s)
  end.

Definition catalog_cursor_get (fuel : nat) (s : S) (cursor : CatalogCursor)
    : outcome (option CatalogEntry * S) :=
  if cc_is_end cursor then Done (None, s) else
  match btree_cursor cursor with
  | None => Done (None, s)
  | Some c =>
      let* '(r, s) := btree_get fuel s c stack in
      match r with
      | None => Done (None, s)
      | Some (_, buf, _) => let* entry := deserialize_entry buf in Done (Some entry, s)
      end
  end.

Definition catalog_cursor_valid (cursor : CatalogCursor) : bool :=
  if cc_is_end cursor then false else
  match btree_cursor cursor with
  | None => false
  | Some c => btree_cursor_valid (Some c)
  end.

(** ** Searches: one turn of the loop per unit of [n] *)

Fixpoint lookup_loop (n : nat) (fuel : nat) (s : S) (cursor : CatalogCursor) (type : Z) (name : list Z)
    : outcome (option CatalogEntry * S) :=
  match n with
  | O => NoFuel
  | Datatypes.S n =>
      if catalog_cursor_valid cursor then
        let* '(entry, s) := catalog_cursor_get fuel s cursor in
        let* found := match entry with
                      | None => Done None
                      | Some entry =>
                          let* r := strcmp (ce_name entry) name in
                          Done (if (ce_type entry =? type) && (r =? 0) then Some entry else None)
                      end in
        match found with
        | Some entry => Done (Some entry, s)
        | None =>
            let* '(cursor, s) := catalog_cursor_next fuel s cursor in
            lookup_loop n fuel s cursor type name
        end
      else Done (None, s)
  end.

Definition catalog_lookup_type_name (n fuel : nat) (s : S) (catalog : Catalog) (type : Z) (name : list Z)
    : outcome (option CatalogEntry * S) :=
  let* '(cursor, s) := catalog_cursor_create fuel s catalog in
  lookup_loop n fuel s cursor type name.

(** The loops that collect entries; [keep] is the test in the loop. *)
Fixpoint collect_loop (n : nat) (fuel : nat) (s : S) (cursor : CatalogCursor)
    (keep : CatalogEntry -> outcome bool) (entries : list CatalogEntry)
    : outcome (list CatalogEntry * S) :=
  match n with
  | O => NoFuel
  | Datatypes.S n =>
      if catalog_cursor_valid cursor then
        let* '(entry, s) := catalog_cursor_get fuel s cursor in
        let* entries := match entry with
                        | None => Done entries
                        | Some entry =>
                            let* k := keep entry in
                            Done (if k : bool then entries ++ [entry] else entries)
                        end in
        let* '(cursor, s) := catalog_cursor_next fuel s cursor in
        collect_loop n fuel s cursor keep entries
      else Done (entries, s)
  end.

Definition catalog_get_tables (n fuel : nat) (s : S) (catalog : Catalog) : outcome (list CatalogEntry * S) :=
  let* '(cursor, s) := catalog_cursor_create fuel s catalog in
  collect_loop n fuel s cursor (fun e => Done (ce_type e =? CATALOG_TYPE_TABLE)) [].

Definition catalog_get_indexes (n fuel : nat) (s : S) (catalog : Catalog) (table_name : list Z)
    : outcome (list CatalogEntry * S) :=
  let* '(cursor, s) := catalog_cursor_create fuel s catalog in
  collect_loop n fuel s cursor (fun e =>
    if ce_type e =? CATALOG_TYPE_INDEX then let* r := strcmp (ce_tbl_name e) table_name in Done (r =? 0)
    else Done false) [].
End catalog.

(** ** The bytes of an entry *)

Definition entry_ok (e : CatalogEntry) : Prop :=
  char_array 64 (ce_name e) /\ char_array 64 (ce_tbl_name e) /\ char_array 512 (ce_sql e) /\
  0 <= ce_type e < 2 ^ 32 /\ 0 <= ce_root_page e < 2 ^ 32.

Definition valid_flag (z : Z) : Z := if z =? 0 then 0 else 1.

Definition entry_bytes (e : CatalogEntry) : list Z :=
  le_bytes 4 (ce_type e) ++ pad 64 (text (ce_name e)) ++ pad 64 (text (ce_tbl_name e)) ++
  pad 512 (text (ce_sql e)) ++ le_bytes 4 (ce_root_page e) ++ le_bytes 4 (valid_flag (ce_is_valid e)).

(** What reading an entry back gives. *)
Definition norm_entry (e : CatalogEntry) : CatalogEntry :=
  mkEntry (ce_type e) (pad 64 (text (ce_name e))) (pad 64 (text (ce_tbl_name e))) (pad 512 (text (ce_sql e)))
    (ce_root_page e) (valid_flag (ce_is_valid e)).

Lemma length_catalog_entry e : length (entry_bytes e) = 652%nat.
Proof. unfold entry_bytes. rewrite !length_app, !length_pad, !length_le_bytes by lia. done. Qed.

Lemma entry_bytes_byte e : entry_ok e -> Forall is_byte (entry_bytes e).
Proof.
  intros (Hn & Ht & Hs & _). unfold entry_bytes.
  rewrite !Forall_app. split_and!; try apply le_bytes_byte; by eapply pad_byte, text_byte, char_array_byte.
Qed.

Lemma serialize_entry_ok e stack :
  entry_ok e -> length stack = 652%nat -> serialize_entry e stack = Done (entry_bytes e).
Proof.
  intros ((_ & Hn & _) & (_ & Ht & _) & (_ & Hs & _) & Hty & Hrt) Hl. unfold serialize_entry.
  change stack with ([] ++ stack) at 1. change 0 with (len (@nil Z)) at 1.
  rewrite put32_app, bind_Done by lia. cbn [app]. rewrite u32_id by done.
  set (w1 := le_bytes 4 (ce_type e)). change 4 with (len w1) at 1.
  rewrite (put_field_app w1 64 _ (text (ce_name e))), bind_Done
    by (rewrite ?length_drop; lia || by apply text_cstr).
  set (w2 := w1 ++ _). assert (68 = len w2) as -> by (unfold w2; rewrite length_app, length_pad; simpl; lia).
  rewrite (put_field_app w2 64 _ (text (ce_tbl_name e))), bind_Done
    by (rewrite ?length_drop; lia || by apply text_cstr).
  set (w3 := w2 ++ _).
  assert (132 = len w3) as -> by (unfold w3, w2; rewrite !length_app, !length_pad; simpl; lia).
  rewrite put_field_if_app, bind_Done by (done || (rewrite !length_drop; lia)).
  set (w4 := w3 ++ _).
  assert (644 = len w4) as -> by (unfold w4, w3, w2; rewrite !length_app, !length_pad; simpl; lia).
  rewrite put32_app, bind_Done by (rewrite !length_drop; lia). rewrite u32_id by done. set (w5 := w4 ++ _).
  assert (648 = len w5) as -> by (unfold w5, w4, w3, w2; rewrite !length_app, !length_pad; simpl; lia).
  change (if ce_is_valid e =? 0 then 0 else 1) with (valid_flag (ce_is_valid e)).
  rewrite put32_app by (rewrite !length_drop; lia). rewrite !drop_drop, drop_ge by lia.
  unfold w5, w4, w3, w2, w1, entry_bytes. by rewrite <- !app_assoc.
Qed.

Lemma deserialize_entry_ok e : entry_ok e -> deserialize_entry (entry_bytes e) = Done (norm_entry e).
Proof.
  intros (_ & _ & _ & Hty & Hrt). unfold deserialize_entry, entry_bytes.
  assert (0 <= valid_flag (ce_is_valid e) < 2 ^ 32) as Hv by (unfold valid_flag; zcase).
  rewrite <- (app_nil_l (le_bytes 4 (ce_type e) ++ _)). change 0 with (len (@nil Z)) at 1.
  rewrite get32_app, bind_Done by done. cbn [app]. rewrite <- bind_assoc.
  set (w1 := le_bytes 4 (ce_type e)). change 4 with (len w1) at 1.
  rewrite get_padded, bind_Done by (lia || apply text_no_zero). rewrite (app_assoc w1), <- bind_assoc.
  set (w2 := w1 ++ _). assert (68 = len w2) as -> by (unfold w2; rewrite length_app, length_pad; simpl; lia).
  rewrite get_padded, bind_Done by (lia || apply text_no_zero). rewrite (app_assoc w2), <- bind_assoc.
  set (w3 := w2 ++ _).
  assert (132 = len w3) as -> by (unfold w3, w2; rewrite !length_app, !length_pad; simpl; lia).
  rewrite get_padded, bind_Done by (lia || apply text_no_zero). rewrite (app_assoc w3). set (w4 := w3 ++ _).
  assert (644 = len w4) as -> by (unfold w4, w3, w2; rewrite !length_app, !length_pad; simpl; lia).
  rewrite get32_app, bind_Done by done. rewrite (app_assoc w4). set (w5 := w4 ++ _).
  assert (648 = len w5) as -> by (unfold w5, w4, w3, w2; rewrite !length_app, !length_pad; simpl; lia).
  rewrite <- (app_nil_r (le_bytes 4 (valid_flag _))), get32_app, bind_Done by done.
  unfold norm_entry. do 2 f_equal. unfold valid_flag. by destruct (ce_is_valid e =? 0).
Qed.

(** ** The catalog as a list of entries *)

(** The key catalog_insert computes: it depends on the length of the name alone. *)
Definition key_of (e : CatalogEntry) : Z :=
  if ce_type e =? CATALOG_TYPE_TABLE then 1 + len (text (ce_name e))
  else 0x80000000 + len (text (ce_name e)).

(** What catalog_insert promises, on the list of stored entries: an entry whose key
    is taken is dropped with SUCCESS, six entries fill the catalog. *)
Definition spec_insert (es : list CatalogEntry) (e : CatalogEntry) : Z * list CatalogEntry :=
  if bool_decide (key_of e ∈ key_of <$> es) then (0, es)
  else if (length es <? 6)%nat then (0, es ++ [e]) else (-1, es).

(** Its searches. *)
Definition is_named (type : Z) (name : list Z) (e : CatalogEntry) : bool :=
  (ce_type e =? type) && bool_decide (text (ce_name e) = text name).

Definition is_table (e : CatalogEntry) : bool := ce_type e =? CATALOG_TYPE_TABLE.

Definition is_index_of (name : list Z) (e : CatalogEntry) : bool :=
  (ce_type e =? CATALOG_TYPE_INDEX) && bool_decide (text (ce_tbl_name e) = text name).

Definition find_entry (type : Z) (name : list Z) (es : list CatalogEntry) : option CatalogEntry :=
  List.find (is_named type name) es.

Lemma text_norm n b : (0 < n)%nat -> char_array n b -> text (pad n (text b)) = text b.
Proof.
  intros Hn Hb. rewrite <- (app_nil_r (pad n (text b))). apply text_pad; [by apply text_length|apply text_no_zero].
Qed.

Lemma norm_entry_texts e : entry_ok e ->
  text (ce_name (norm_entry e)) = text (ce_name e) /\ text (ce_tbl_name (norm_entry e)) = text (ce_tbl_name e) /\
  text (ce_sql (norm_entry e)) = text (ce_sql e).
Proof. intros (Hn & Ht & Hs & _). split_and!; apply text_norm; (lia || done). Qed.

Lemma pad_char_array n s : (0 < n)%nat -> Forall is_byte s -> char_array n (pad n s).
Proof.
  intros Hn Hs. split_and!; [by apply length_pad| |by apply pad_byte]. unfold pad. apply elem_of_app. right.
  destruct (n - length (take (n - 1) s))%nat eqn:E; [rewrite length_take in E; lia|]. left.
Qed.

Lemma norm_entry_ok e : entry_ok e -> entry_ok (norm_entry e).
Proof.
  intros (Hn & Ht & Hs & Hty & Hr).
  refine (conj _ (conj _ (conj _ (conj Hty Hr)))); apply pad_char_array; try lia; by eapply text_byte, char_array_byte.
Qed.

Fixpoint spec_insert_entries (es : list CatalogEntry) (ops : list CatalogEntry) : list Z * list CatalogEntry :=
  match ops with
  | [] => ([], es)
  | e :: ops =>
      let '(r, es) := spec_insert es e in
      let '(rs, es) := spec_insert_entries es ops in
      (r :: rs, es)
  end.

Section spec.
Context {S : Type} `{PageStoreLaws S}.
Variable stack : list Z.
Hypothesis Hstack : length stack = 652%nat.
Implicit Types (s : S) (cat : Catalog) (es : list CatalogEntry).

Definition entry_kvs es : list kv := (fun e => (key_of e, entry_bytes e)) <$> es.

(** The catalog holds [es], in the order of their insertion. *)
Definition cat_rep s cat es : Prop :=
  tree_rep s (cat_tree cat) (entry_kvs es) /\ Forall entry_ok es.

Lemma entry_kvs_keys es : (entry_kvs es).*1 = key_of <$> es.
Proof. unfold entry_kvs. by rewrite <- list_fmap_compose. Qed.

Lemma cat_rep_same s s' cat es : same_reads s s' -> cat_rep s cat es -> cat_rep s' cat es.
Proof. intros Hs [Hr He]. split; [by apply (tree_rep_same s)|done]. Qed.

Lemma leaf_space_entries es : leaf_space (entry_kvs es) = 4086 - 670 * len es.
Proof.
  induction es as [|e es IH] using rev_ind; [done|].
  unfold entry_kvs in *. rewrite fmap_app. cbn [fmap list_fmap]. rewrite leaf_space_snoc, IH.
  rewrite length_catalog_entry, length_app. simpl. lia.
Qed.

Lemma text_len_bound n b : char_array n b -> 0 <= len (text b) < Z.of_nat n.
Proof. intros Hb. pose proof (text_length n b Hb). lia. Qed.

Lemma catalog_key_ok e : entry_ok e -> catalog_key e = Done (key_of e) /\ 0 <= key_of e < 2 ^ 64.
Proof.
  intros (Hn & _). pose proof (text_len_bound _ _ Hn). unfold catalog_key, key_of.
  rewrite (str_len_ok _ _ (text_cstr _ (proj1 (proj2 Hn)))), bind_Done.
  destruct (_ =? _); split; try lia; f_equal; apply Z.mod_small; lia.
Qed.

(** Insertion. *)
Lemma catalog_insert_ok fuel s cat es e :
  ready fuel s (cat_tree cat) -> cat_rep s cat es -> entry_ok e ->
  exists s', catalog_insert stack fuel s cat e = Done (fst (spec_insert es e), s') /\
    ready fuel s' (cat_tree cat) /\ cat_rep s' cat (snd (spec_insert es e)) /\ ps_frame s s' /\
    forall m d, m <> root_page (cat_tree cat) -> ps_reads s' m d <-> ps_reads s m d.
Proof.
  intros Hrd [Hrep Hes] He. unfold catalog_insert. destruct (catalog_key_ok e He) as [-> Hk].
  rewrite bind_Done, serialize_entry_ok, bind_Done by done.
  change CATALOG_ENTRY_SIZE with 652. replace 652 with (len (entry_bytes e)) by (by rewrite length_catalog_entry).
  pose proof (entry_bytes_byte e He) as Hby. pose proof (leaf_space_entries es) as Hsp.
  unfold spec_insert. case_bool_decide as Hin.
  - rewrite <- entry_kvs_keys in Hin.
    destruct (btree_insert_present fuel s _ _ _ (entry_bytes e) (len (entry_bytes e)) Hrd Hrep Hin)
      as (s' & -> & Hrd' & Hs).
    exists s'. split_and!; try done; first [by apply (cat_rep_same s) | apply Hs | intros m d _; apply Hs].
  - rewrite <- entry_kvs_keys in Hin. destruct (Nat.ltb_spec (length es) 6); cbn [fst snd].
    + destruct (btree_insert_new fuel s _ _ _ (entry_bytes e) Hrd Hrep Hin) as (s' & -> & Hrd' & Hrep' & Hfr & Ho);
        [rewrite Hsp, length_catalog_entry; lia|done|done|].
      exists s'. split_and!; try done. split; [|apply Forall_app; auto].
      unfold entry_kvs in *. by rewrite fmap_app.
    + destruct (btree_insert_full fuel s _ _ _ (entry_bytes e) Hrd Hrep Hin) as (s' & -> & Hrd' & Hs);
        [rewrite Hsp, length_catalog_entry; lia|rewrite length_catalog_entry; lia|].
      exists s'. split_and!; try done; first [by apply (cat_rep_same s) | apply Hs | intros m d _; apply Hs].
Qed.

(** ** Cursors at an entry *)

Lemma splice_whole {A} (v b : list A) : length v = length b -> splice 0 v b = v.
Proof. intros E. unfold splice. rewrite take_0, drop_ge by lia. by rewrite app_nil_l, app_nil_r. Qed.

Definition cursor_at cat es (cursor : CatalogCursor) (i : nat) : Prop :=
  exists c, btree_cursor cursor = Some c /\ cur_page c = root_page (cat_tree cat) /\ cur_cell c = Z.of_nat i /\
    is_end c = bool_decide (length es = i) /\ (cc_is_end cursor = true -> length es = i).

Lemma valid_at cat es cursor i :
  cursor_at cat es cursor i -> catalog_cursor_valid cursor = negb (bool_decide (length es = i)).
Proof.
  intros (c & Hc & _ & _ & He & Hi). unfold catalog_cursor_valid. rewrite Hc. unfold btree_cursor_valid.
  destruct (cc_is_end cursor); [|by rewrite He]. by rewrite bool_decide_eq_true_2 by auto.
Qed.

Lemma first_at fuel s cat es :
  ready fuel s (cat_tree cat) -> cat_rep s cat es ->
  exists cursor s', catalog_cursor_create fuel s cat = Done (cursor, s') /\ cursor_at cat es cursor 0 /\
    ready fuel s' (cat_tree cat) /\ same_reads s s'.
Proof.
  intros Hrd [Hrep _]. unfold catalog_cursor_create.
  destruct (btree_first_ok fuel s _ _ Hrd Hrep) as (c & s' & -> & Hp & Hc & He & Hrd' & Hs). rewrite bind_Done.
  eexists _, s'. split; [done|]. split_and!; try done. exists c. cbn [btree_cursor cc_is_end]. split_and!; try done.
  rewrite He. unfold entry_kvs. rewrite length_fmap. by destruct es.
Qed.

Lemma get_at fuel s cat es cursor i e :
  ready fuel s (cat_tree cat) -> cat_rep s cat es -> cursor_at cat es cursor i -> es !! i = Some e ->
  exists s', catalog_cursor_get stack fuel s cursor = Done (Some (norm_entry e), s') /\
    ready fuel s' (cat_tree cat) /\ same_reads s s'.
Proof.
  intros Hrd [Hrep Hes] (c & Hc & Hp & Hcell & He & Hi) Hx. pose proof (lookup_lt_Some _ _ _ Hx).
  rewrite bool_decide_eq_false_2 in He by lia. unfold catalog_cursor_get. rewrite Hc.
  destruct (cc_is_end cursor); [specialize (Hi eq_refl); lia|].
  destruct (btree_get_ok fuel s _ _ c i (key_of e) (entry_bytes e) stack Hrd Hrep Hp He Hcell) as (s' & -> & Hrd' & Hs).
  { unfold entry_kvs. by rewrite list_lookup_fmap, Hx. }
  { rewrite length_catalog_entry. lia. }
  rewrite bind_Done, splice_whole by (rewrite length_catalog_entry; lia).
  rewrite deserialize_entry_ok, bind_Done by (by eapply Forall_lookup_1).
  by exists s'.
Qed.

Lemma next_at fuel s cat es cursor i :
  ready fuel s (cat_tree cat) -> cat_rep s cat es -> cursor_at cat es cursor i -> (i < length es)%nat ->
  exists cursor' s', catalog_cursor_next fuel s cursor = Done (cursor', s') /\
    cursor_at cat es cursor' (Datatypes.S i) /\ ready fuel s' (cat_tree cat) /\ same_reads s s'.
Proof.
  intros Hrd [Hrep _] (c & Hc & Hp & Hcell & He & Hi) Hlt. rewrite bool_decide_eq_false_2 in He by lia.
  unfold catalog_cursor_next. rewrite Hc. destruct (cc_is_end cursor); [specialize (Hi eq_refl); lia|].
  destruct (btree_cursor_next_ok fuel s _ _ c i Hrd Hrep Hp He Hcell) as (c' & s' & -> & Hp' & Hc' & He' & Hrd' & Hs).
  { unfold entry_kvs. by rewrite length_fmap. }
  rewrite bind_Done. eexists _, s'. split; [done|]. split_and!; try done. exists c'. cbn [btree_cursor cc_is_end].
  unfold entry_kvs in He'. rewrite length_fmap in He'. split_and!; try done.
  unfold btree_cursor_valid. rewrite He'. case_bool_decide; [done|]. done.
Qed.

(** ** The searches *)

Lemma strcmp_norm n b name : (0 < n)%nat -> char_array n b -> 0 ∈ name ->
  exists r, strcmp (pad n (text b)) name = Done r /\ (r =? 0) = bool_decide (text b = text name).
Proof.
  intros Hn Hb Hz. destruct (strcmp_text (pad n (text b)) name) as (r & E & Hr); [|done|].
  - apply (pad_char_array n); [done|]. by eapply text_byte, char_array_byte.
  - exists r. by rewrite Hr, text_norm.
Qed.

Lemma lookup_loop_ok n fuel s cat es cursor i r type name :
  ready fuel s (cat_tree cat) -> cat_rep s cat es -> cursor_at cat es cursor i -> drop i es = r ->
  0 ∈ name -> (length r < n)%nat -> (i <= length es)%nat ->
  exists s', lookup_loop stack n fuel s cursor type name =
      Done (norm_entry <$> find_entry type name r, s') /\
    ready fuel s' (cat_tree cat) /\ same_reads s s'.
Proof.
  intros Hrd Hrep Hat Hr Hz Hn Hle. revert n s cursor i Hrd Hrep Hat Hr Hn Hle.
  induction r as [|e r IH]; intros n s cursor i Hrd Hrep Hat Hr Hn Hle;
    (destruct n as [|n]; [simpl in Hn; lia|]); cbn [lookup_loop]; rewrite (valid_at _ _ _ _ Hat).
  - apply (f_equal length) in Hr. rewrite length_drop in Hr. simpl in Hr.
    rewrite bool_decide_eq_true_2 by lia. exists s. split_and!; try done. apply same_reads_refl.
  - assert (es !! i = Some e) as Hx by (rewrite <- (Nat.add_0_r i), <- lookup_drop, Hr; done).
    pose proof (lookup_lt_Some _ _ _ Hx) as Hi. rewrite bool_decide_eq_false_2 by lia. cbn [negb].
    destruct (get_at fuel s cat es cursor i e Hrd Hrep Hat Hx) as (s1 & -> & Hrd1 & Hs1). rewrite bind_Done.
    assert (entry_ok e) as He by (by eapply Forall_lookup_1; [apply Hrep|]).
    destruct (strcmp_norm 64 (ce_name e) name ltac:(lia) ltac:(apply He) Hz) as (q & Hq & Hq0).
    cbn [norm_entry ce_name ce_type]. rewrite Hq, !bind_Done, Hq0.
    change ((ce_type e =? type) && bool_decide (text (ce_name e) = text name)) with (is_named type name e).
    unfold find_entry. cbn [List.find]. destruct (is_named type name e).
    + exists s1. by split_and!.
    + destruct (next_at fuel s1 cat es cursor i) as (cursor' & s2 & -> & Hat' & Hrd2 & Hs2); auto.
      { by apply (cat_rep_same s). }
      rewrite bind_Done. destruct (IH n s2 cursor' (Datatypes.S i)) as (s3 & -> & Hrd3 & Hs3); auto.
      * apply (cat_rep_same s1); [done|]. by apply (cat_rep_same s).
      * apply (f_equal (drop 1)) in Hr. rewrite drop_drop in Hr. by rewrite Nat.add_comm in Hr.
      * simpl in Hn. lia.
      * exists s3. split_and!; auto. apply (same_reads_trans s s1); [done|]. by apply (same_reads_trans s1 s2).
Qed.

Lemma collect_loop_ok n fuel s cat es cursor i r keep kept acc :
  ready fuel s (cat_tree cat) -> cat_rep s cat es -> cursor_at cat es cursor i -> drop i es = r ->
  (forall e, entry_ok e -> keep (norm_entry e) = Done (kept e)) -> (length r < n)%nat -> (i <= length es)%nat ->
  exists s', collect_loop stack n fuel s cursor keep acc =
      Done (acc ++ (norm_entry <$> List.filter kept r), s') /\
    ready fuel s' (cat_tree cat) /\ same_reads s s'.
Proof.
  intros Hrd Hrep Hat Hr Hk Hn Hle. revert n s cursor i acc Hrd Hrep Hat Hr Hn Hle.
  induction r as [|e r IH]; intros n s cursor i acc Hrd Hrep Hat Hr Hn Hle;
    (destruct n as [|n]; [simpl in Hn; lia|]); cbn [collect_loop]; rewrite (valid_at _ _ _ _ Hat).
  - apply (f_equal length) in Hr. rewrite length_drop in Hr. simpl in Hr.
    rewrite bool_decide_eq_true_2 by lia. exists s. rewrite app_nil_r. split_and!; try done. apply same_reads_refl.
  - assert (es !! i = Some e) as Hx by (rewrite <- (Nat.add_0_r i), <- lookup_drop, Hr; done).
    pose proof (lookup_lt_Some _ _ _ Hx) as Hi. rewrite bool_decide_eq_false_2 by lia. cbn [negb].
    destruct (get_at fuel s cat es cursor i e Hrd Hrep Hat Hx) as (s1 & -> & Hrd1 & Hs1). rewrite bind_Done.
    assert (entry_ok e) as He by (by eapply Forall_lookup_1; [apply Hrep|]).
    rewrite Hk by done. rewrite !bind_Done.
    destruct (next_at fuel s1 cat es cursor i) as (cursor' & s2 & -> & Hat' & Hrd2 & Hs2); auto.
    { by apply (cat_rep_same s). }
    rewrite bind_Done.
    destruct (IH n s2 cursor' (Datatypes.S i) (if kept e then acc ++ [norm_entry e] else acc))
      as (s3 & -> & Hrd3 & Hs3); auto.
    * apply (cat_rep_same s1); [done|]. by apply (cat_rep_same s).
    * apply (f_equal (drop 1)) in Hr. rewrite drop_drop in Hr. by rewrite Nat.add_comm in Hr.
    * simpl in Hn. lia.
    * exists s3. split_and!; auto.
      -- do 2 f_equal. cbn [List.filter]. destruct (kept e); [|done]. by rewrite fmap_cons, <- app_assoc.
      -- apply (same_reads_trans s s1); [done|]. by apply (same_reads_trans s1 s2).
Qed.

(** The searches of a catalog find what they would find in the list. *)
Lemma catalog_lookup_ok n fuel s cat es type name :
  ready fuel s (cat_tree cat) -> cat_rep s cat es -> 0 ∈ name -> (length es < n)%nat ->
  exists s', catalog_lookup_type_name stack n fuel s cat type name =
      Done (norm_entry <$> find_entry type name es, s') /\
    ready fuel s' (cat_tree cat) /\ same_reads s s'.
Proof.
  intros Hrd Hrep Hz Hn. unfold catalog_lookup_type_name.
  destruct (first_at fuel s cat es Hrd Hrep) as (cursor & s1 & -> & Hat & Hrd1 & Hs1). rewrite bind_Done.
  destruct (lookup_loop_ok n fuel s1 cat es cursor 0 es type name) as (s2 & -> & Hrd2 & Hs2); auto; [|lia|].
  { by apply (cat_rep_same s). }
  exists s2. split_and!; auto. by apply (same_reads_trans s s1).
Qed.

Lemma catalog_collect_ok n fuel s cat es keep kept :
  ready fuel s (cat_tree cat) -> cat_rep s cat es ->
  (forall e, entry_ok e -> keep (norm_entry e) = Done (kept e)) -> (length es < n)%nat ->
  exists s', (let* '(cursor, s) := catalog_cursor_create fuel s cat in
              collect_loop stack n fuel s cursor keep []) =
      Done (norm_entry <$> List.filter kept es, s') /\
    ready fuel s' (cat_tree cat) /\ same_reads s s'.
Proof.
  intros Hrd Hrep Hk Hn. destruct (first_at fuel s cat es Hrd Hrep) as (cursor & s1 & -> & Hat & Hrd1 & Hs1).
  rewrite bind_Done.
  destruct (collect_loop_ok n fuel s1 cat es cursor 0 es keep kept []) as (s2 & -> & Hrd2 & Hs2); auto; [|lia|].
  { by apply (cat_rep_same s). }
  exists s2. split_and!; auto. by apply (same_reads_trans s s1).
Qed.

Lemma catalog_get_tables_ok n fuel s cat es :
  ready fuel s (cat_tree cat) -> cat_rep s cat es -> (length es < n)%nat ->
  exists s', catalog_get_tables stack n fuel s cat = Done (norm_entry <$> List.filter is_table es, s') /\
    ready fuel s' (cat_tree cat) /\ same_reads s s'.
Proof. intros Hrd Hrep Hn. by apply catalog_collect_ok. Qed.

Lemma catalog_get_indexes_ok n fuel s cat es name :
  ready fuel s (cat_tree cat) -> cat_rep s cat es -> 0 ∈ name -> (length es < n)%nat ->
  exists s', catalog_get_indexes stack n fuel s cat name =
      Done (norm_entry <$> List.filter (is_index_of name) es, s') /\
    ready fuel s' (cat_tree cat) /\ same_reads s s'.
Proof.
  intros Hrd Hrep Hz Hn. apply catalog_collect_ok; try done. intros e (_ & Ht & _).
  cbn [norm_entry ce_type ce_tbl_name]. unfold is_index_of. destruct (ce_type e =? CATALOG_TYPE_INDEX); [|done].
  destruct (strcmp_norm 64 (ce_tbl_name e) name ltac:(lia) Ht Hz) as (r & -> & Hr). by rewrite bind_Done, Hr.
Qed.

Lemma catalog_open_ok fuel s :
  ps_inv 0 s -> (ps_bound s < fuel)%nat -> ps_can_allocate s -> (forall m, ps_room s m) ->
  exists cat s', catalog_open fuel s = Done (Some cat, s') /\ ready fuel s' (cat_tree cat) /\ cat_rep s' cat [] /\
    cached s' (cat_tree cat) /\ ps_frame s s' /\
    forall m d, m <> root_page (cat_tree cat) -> ps_reads s m d -> ps_reads s' m d.
Proof.
  intros Hi Hf Ha Hr. unfold catalog_open.
  destruct (btree_create_ok fuel s Hi Hf Ha Hr) as (t & s' & -> & Hrd & Hrep & Hca & Hfr & Ho). rewrite bind_Done.
  exists (mkCatalog t true), s'. by split_and!.
Qed.

(** ** Sequences of insertions *)

Fixpoint insert_entries (fuel : nat) s cat (ops : list CatalogEntry) : outcome (list Z * S) :=
  match ops with
  | [] => Done ([], s)
  | e :: ops =>
      let* '(r, s) := catalog_insert stack fuel s cat e in
      let* '(rs, s) := insert_entries fuel s cat ops in
      Done (r :: rs, s)
  end.

Lemma insert_entries_ok fuel s cat es ops :
  ready fuel s (cat_tree cat) -> cat_rep s cat es -> Forall entry_ok ops ->
  exists s', insert_entries fuel s cat ops = Done (fst (spec_insert_entries es ops), s') /\
    ready fuel s' (cat_tree cat) /\ cat_rep s' cat (snd (spec_insert_entries es ops)).
Proof.
  intros Hrd Hrep Hok. revert s es Hrd Hrep. induction Hok as [|e ops He Hok IH]; intros s es Hrd Hrep;
    cbn [insert_entries spec_insert_entries].
  - by exists s.
  - destruct (catalog_insert_ok fuel s cat es e Hrd Hrep He) as (s1 & -> & Hrd1 & Hrep1 & _). rewrite bind_Done.
    destruct (spec_insert es e) as [r es1]. cbn [fst snd] in *.
    destruct (IH s1 es1 Hrd1 Hrep1) as (s2 & -> & Hrd2 & Hrep2). rewrite bind_Done.
    destruct (spec_insert_entries es1 ops) as [rs es2]. by exists s2.
Qed.
End spec.

(** ** Theorems *)

(** The entries the catalog can tell apart: it numbers them by kind (a table or
    not) and by the length of the name, see [catalog_insert_same_length_lost]. *)
Definition distinct_lengths (ops : list CatalogEntry) : Prop :=
  NoDup ((fun e => (ce_type e =? CATALOG_TYPE_TABLE, len (text (ce_name e)))) <$> ops).

Lemma key_of_inj e e' :
  entry_ok e -> entry_ok e' -> key_of e = key_of e' ->
  (ce_type e =? CATALOG_TYPE_TABLE, len (text (ce_name e))) =
  (ce_type e' =? CATALOG_TYPE_TABLE, len (text (ce_name e'))).
Proof.
  intros (Hn & _) (Hn' & _). pose proof (text_length _ _ Hn). pose proof (text_length _ _ Hn').
  unfold key_of. destruct (ce_type e =? _), (ce_type e' =? _); intros; try (exfalso; lia);
    (assert (len (text (ce_name e)) = len (text (ce_name e'))) as -> by lia; done).
Qed.

Lemma distinct_keys ops : Forall entry_ok ops -> distinct_lengths ops -> NoDup (key_of <$> ops).
Proof.
  unfold distinct_lengths. induction 1 as [|e ops He Hok IH]; [constructor|].
  rewrite !fmap_cons, !NoDup_cons. intros [Hne Hnd]. split; [|by apply IH].
  intros (e' & Hk & Hin)%list_elem_of_fmap. apply Hne, list_elem_of_fmap. exists e'. split; [|done].
  rewrite Forall_forall in Hok. by apply key_of_inj; [|apply Hok|].
Qed.

Lemma spec_insert_distinct es ops :
  NoDup (key_of <$> es ++ ops) -> (length es <= 6)%nat ->
  spec_insert_entries es ops =
    (replicate (length ops `min` (6 - length es)) 0 ++ replicate (length ops - (6 - length es)) (-1),
     take 6 (es ++ ops)).
Proof.
  revert es. induction ops as [|e ops IH]; intros es Hnd Hl; cbn [spec_insert_entries length].
  { by rewrite (app_nil_r es), (take_ge es) by lia. }
  unfold spec_insert. rewrite bool_decide_eq_false_2.
  2: { rewrite fmap_app in Hnd. apply NoDup_app in Hnd as (_ & Hd & _). intros Hin. apply (Hd _ Hin).
       rewrite fmap_cons. left. }
  destruct (Nat.ltb_spec (length es) 6) as [H6|H6].
  - rewrite IH.
    + rewrite length_app. cbn [length]. rewrite <- app_assoc. cbn [app].
      replace (6 - (length es + 1))%nat with (6 - length es - 1)%nat by lia.
      destruct (6 - length es)%nat as [|k] eqn:Ek; [lia|]. cbn [Nat.min Nat.sub]. rewrite Nat.sub_0_r. done.
    + by rewrite <- app_assoc.
    + rewrite length_app. cbn [length]. lia.
  - assert (NoDup (key_of <$> es ++ ops)) as Hnd'.
    { rewrite <- Permutation_middle, fmap_cons, NoDup_cons in Hnd. apply Hnd. }
    rewrite IH by (done || lia).
    replace (6 - length es)%nat with 0%nat by lia. rewrite !Nat.min_0_r, !Nat.sub_0_r. cbn [replicate app].
    f_equal. by rewrite !take_app_le by lia.
Qed.

(** C9: the catalog implements a list, for entries it can tell apart (no two
    tables, and no two entries that are not tables, have names of equal length: the
    key of an entry is made of the length of its name, catalog.c:163; entries that
    collide are lost, see [catalog_insert_same_length_lost]). After opening the
    catalog and inserting any sequence of such entries, the first six are stored
    and every later one is refused with -1 (the tree has one page and does not
    split); a lookup returns the stored entry of that type and name,
    catalog_get_tables all stored tables and catalog_get_indexes the stored indexes
    of a table, in the order of insertion and with arrays zero-padded; all loops
    end. *)
Theorem catalog_refines_list {S} `{PageStoreLaws S} (stack : list Z) (fuel n : nat) (s : S) (ops : list CatalogEntry)
    (type : Z) (name : list Z) :
  length stack = 652%nat -> ps_inv 0 s -> (ps_bound s < fuel)%nat -> ps_can_allocate s -> (forall m, ps_room s m) ->
  Forall entry_ok ops -> distinct_lengths ops -> 0 ∈ name -> (6 < n)%nat ->
  exists cat s1 s2, catalog_open fuel s = Done (Some cat, s1) /\
    insert_entries stack fuel s1 cat ops =
      Done (replicate (length ops `min` 6) 0 ++ replicate (length ops - 6) (-1), s2) /\
    (exists s3, catalog_lookup_type_name stack n fuel s2 cat type name =
       Done (norm_entry <$> find_entry type name (take 6 ops), s3)) /\
    (exists s3, catalog_get_tables stack n fuel s2 cat = Done (norm_entry <$> List.filter is_table (take 6 ops), s3)) /\
    (exists s3, catalog_get_indexes stack n fuel s2 cat name =
       Done (norm_entry <$> List.filter (is_index_of name) (take 6 ops), s3)).
Proof.
  intros Hst Hi Hf Ha Hr Hok Hd Hz Hn. destruct (catalog_open_ok fuel s Hi Hf Ha Hr) as (cat & s1 & E1 & Hrd1 & Hrep1 & _).
  destruct (insert_entries_ok stack Hst fuel s1 cat [] ops Hrd1 Hrep1 Hok) as (s2 & E2 & Hrd2 & Hrep2).
  rewrite (spec_insert_distinct [] ops (distinct_keys ops Hok Hd)) in E2, Hrep2 by (simpl; lia).
  cbn [fst snd length app Nat.sub] in E2, Hrep2. pose proof (length_take_le ops 6) as Hlen.
  assert (length (take 6 ops) < n)%nat as Hlt by (rewrite length_take; lia). clear Hlen.
  destruct (catalog_lookup_ok stack Hst n fuel s2 cat _ type name Hrd2 Hrep2 Hz Hlt) as (s3 & E4 & _).
  destruct (catalog_get_tables_ok stack Hst n fuel s2 cat _ Hrd2 Hrep2 Hlt) as (s4 & E5 & _).
  destruct (catalog_get_indexes_ok stack Hst n fuel s2 cat _ name Hrd2 Hrep2 Hz Hlt) as (s5 & E6 & _).
  exists cat, s1, s2. split_and!; eauto.
Qed.

(** An entry read back from its 652 bytes is the entry that was serialized, with
    its strings zero-padded in their arrays and the validity flag 0 or 1; type, root
    page and the texts of name, table name and SQL are kept. *)
Theorem catalog_entry_roundtrip (e : CatalogEntry) (stack : list Z) :
  entry_ok e -> length stack = 652%nat ->
  exists buf, serialize_entry e stack = Done buf /\ length buf = 652%nat /\
    deserialize_entry buf = Done (norm_entry e) /\
    text (ce_name (norm_entry e)) = text (ce_name e) /\
    text (ce_tbl_name (norm_entry e)) = text (ce_tbl_name e) /\
    text (ce_sql (norm_entry e)) = text (ce_sql e).
Proof.
  intros He Hs. exists (entry_bytes e). split; [by apply serialize_entry_ok|].
  split; [apply length_catalog_entry|]. split; [by apply deserialize_entry_ok|]. by apply norm_entry_texts.
Qed.

(** A table whose name is as long as the name of a table already in the catalog is
    lost: catalog_insert answers SUCCESS, and a lookup of the new name finds what it
    found before, nothing. *)
Theorem catalog_insert_same_length_lost {S} `{PageStoreLaws S} (stack : list Z) (fuel n : nat) (s : S)
    (cat : Catalog) (es : list CatalogEntry) (old new : CatalogEntry) :
  length stack = 652%nat -> ready fuel s (cat_tree cat) -> cat_rep s cat es -> (length es < n)%nat ->
  old ∈ es -> entry_ok new -> ce_type old = CATALOG_TYPE_TABLE -> ce_type new = CATALOG_TYPE_TABLE ->
  len (text (ce_name new)) = len (text (ce_name old)) ->
  find_entry CATALOG_TYPE_TABLE (ce_name new) es = None ->
  exists s1 s2, catalog_insert stack fuel s cat new = Done (0, s1) /\
    catalog_lookup_type_name stack n fuel s1 cat CATALOG_TYPE_TABLE (ce_name new) = Done (None, s2).
Proof.
  intros Hst Hrd Hrep Hn Hin He Hto Htn Hl Hf.
  destruct (catalog_insert_ok stack Hst fuel s cat es new Hrd Hrep He) as (s1 & -> & Hrd1 & Hrep1 & _).
  assert (spec_insert es new = (0, es)) as Hsp.
  { unfold spec_insert. rewrite bool_decide_eq_true_2; [done|]. apply list_elem_of_fmap. exists old. split; [|done].
    unfold key_of. by rewrite Hto, Htn, Hl. }
  rewrite Hsp in *. cbn [fst snd] in *.
  destruct (catalog_lookup_ok stack Hst n fuel s1 cat es CATALOG_TYPE_TABLE (ce_name new)) as (s2 & E2 & _); auto.
  { apply He. }
  exists s1, s2. by rewrite E2, Hf.
Qed.

(** ** Witnesses *)

Definition table_named (name : string) (root : Z) : CatalogEntry :=
  mkEntry CATALOG_TYPE_TABLE (pad 64 (zstr name)) (pad 64 (zstr name)) (pad 512 []) root 1.

#[local] Instance entry_ok_dec e : Decision (entry_ok e).
Proof. unfold entry_ok. apply _. Defined.

Definition demo_stack : list Z := replicate 652 170.

Definition index_on (name table : string) : CatalogEntry :=
  mkEntry CATALOG_TYPE_INDEX (pad 64 (zstr name)) (pad 64 (zstr table)) (pad 512 []) 9 1.

Definition demo_entries : list CatalogEntry :=
  [table_named "users" 2; table_named "a" 3; index_on "by_id" "users"].

Lemma demo_entries_ok : Forall entry_ok demo_entries.
Proof. apply (bool_decide_unpack _). by vm_compute. Qed.

Lemma catalog_refines_list_witness :
  exists c cat s1 s2 s3, page_cache_create 100 4 (Some demo_pager) = Done c /\
    catalog_open 5 c = Done (Some cat, s1) /\
    insert_entries demo_stack 5 s1 cat demo_entries = Done ([0; 0; 0], s2) /\
    catalog_lookup_type_name demo_stack 7 5 s2 cat CATALOG_TYPE_INDEX (pad 64 (zstr "by_id")) =
      Done (Some (norm_entry (index_on "by_id" "users")), s3).
Proof.
  destruct demo_store as (c & E & Hi & Hf & Ha & Hr).
  destruct (catalog_refines_list demo_stack 5 7 c demo_entries CATALOG_TYPE_INDEX (pad 64 (zstr "by_id")))
    as (cat & s1 & s2 & E1 & E2 & [s3 E4] & _); auto.
  - apply demo_entries_ok.
  - apply (bool_decide_unpack _). by vm_compute.
  - apply (bool_decide_unpack _). by vm_compute.
  - exists c, cat, s1, s2, s3. split_and!; try done.
Defined.

Lemma catalog_entry_roundtrip_witness :
  exists buf, serialize_entry (table_named "users" 2) demo_stack = Done buf /\ length buf = 652%nat /\
    deserialize_entry buf = Done (norm_entry (table_named "users" 2)) /\
    text (ce_name (norm_entry (table_named "users" 2))) = text (ce_name (table_named "users" 2)) /\
    text (ce_tbl_name (norm_entry (table_named "users" 2))) = text (ce_tbl_name (table_named "users" 2)) /\
    text (ce_sql (norm_entry (table_named "users" 2))) = text (ce_sql (table_named "users" 2)).
Proof.
  apply (catalog_entry_roundtrip (table_named "users" 2) demo_stack); [apply (bool_decide_unpack _); by vm_compute|done].
Defined.

Lemma catalog_insert_same_length_lost_witness :
  exists c cat s1 s2 s3 s4, page_cache_create 100 4 (Some demo_pager) = Done c /\
    catalog_open 5 c = Done (Some cat, s1) /\
    catalog_insert demo_stack 5 s1 cat (table_named "users" 2) = Done (0, s2) /\
    catalog_insert demo_stack 5 s2 cat (table_named "items" 4) = Done (0, s3) /\
    catalog_lookup_type_name demo_stack 2 5 s3 cat CATALOG_TYPE_TABLE (pad 64 (zstr "items")) = Done (None, s4).
Proof.
  destruct demo_store as (c & E & Hi & Hf & Ha & Hr).
  destruct (catalog_open_ok 5 c Hi Hf Ha Hr) as (cat & s1 & E1 & Hrd1 & Hrep1 & _).
  destruct (catalog_insert_ok demo_stack eq_refl 5 s1 cat [] (table_named "users" 2) Hrd1 Hrep1)
    as (s2 & E2 & Hrd2 & Hrep2 & _); [apply (bool_decide_unpack _); by vm_compute|].
  assert (spec_insert [] (table_named "users" 2) = (0, [table_named "users" 2])) as Hsp by (by vm_compute).
  rewrite Hsp in E2, Hrep2. cbn [fst snd] in E2, Hrep2.
  assert (entry_ok (table_named "items" 4)) as Hok by (apply (bool_decide_unpack _); by vm_compute).
  assert (len (text (ce_name (table_named "items" 4))) = len (text (ce_name (table_named "users" 2)))) as Hlen
    by (by vm_compute).
  assert (find_entry CATALOG_TYPE_TABLE (ce_name (table_named "items" 4)) [table_named "users" 2] = None) as Hfind
    by (by vm_compute).
  destruct (catalog_insert_same_length_lost demo_stack 5 2 s2 cat [table_named "users" 2]
    (table_named "users" 2) (table_named "items" 4) eq_refl Hrd2 Hrep2 (le_n 2) (list_elem_of_here _ _) Hok
    eq_refl eq_refl Hlen Hfind) as (s3 & s4 & E3 & E4).
  exists c, cat, s1, s2, s3, s4. repeat split; assumption.
Defined.
