(* ===== verification/Executor.v ===== *)
(** Model of src/sql/executor.c (statement dispatch, transactions, CREATE TABLE,
    INSERT, SELECT, result sets and the SELECT helpers) and of the part of
    src/sql/storage.c it calls. *)
From Stdlib Require Import ZArith Lia String SpecFloat.
From stdpp Require Import base numbers option list.
From S2P Require Import Prelude Pager PageCache PageStore BTree CString Fields Errors Double Ast Expression Catalog.

Definition SUCCESS_CODE : Z := error_code SUCCESS.

(** ** Rows as bytes *)

(** The bits of a double in memory. *)
Definition double_bits (d : double) : Z :=
  let sign (s : bool) := if s then 2 ^ 63 else 0 in
  match d with
  | S754_zero s => sign s
  | S754_infinity s => sign s + 2047 * 2 ^ 52
  | S754_nan => 2047 * 2 ^ 52 + 2 ^ 51
  | S754_finite s m e =>
      sign s + (if 2 ^ 52 <=? Zpos m then (e + 1075) * 2 ^ 52 + (Zpos m - 2 ^ 52) else Zpos m)
  end.

(** One value of a row, written at [offset]. *)
Definition serialize_value (buf : list Z) (offset : Z) (expr : Expression) : outcome (list Z * Z) :=
  match expr with
  | EXPR_LITERAL_INT z => let* buf := buf_write offset (le_bytes 8 (u64 z)) buf in Done (buf, offset + 8)
  | EXPR_LITERAL_FLOAT d => let* buf := buf_write offset (le_bytes 8 (double_bits d)) buf in Done (buf, offset + 8)
  | EXPR_LITERAL_STRING str =>
      let t := text str in
      let* buf := buf_write offset (t ++ [0]) buf in Done (buf, offset + len t + 1)
  | ExprNULL => Undef
  | _ => let* buf := buf_write offset [0] buf in Done (buf, offset + 1)
  end.

(** for (i = 0; i < count && i < 16; i++) *)
Fixpoint serialize_row (n : nat) (values : ValueList) (buf : list Z) (offset : Z) : outcome (list Z * Z) :=
  match n, values with
  | S n, expr :: values =>
      let* '(buf, offset) := serialize_value buf offset expr in serialize_row n values buf offset
  | _, _ => Done (buf, offset)
  end.

Fixpoint serialize_rows (rows : list ValueList) (buf : list Z) (offset : Z) : outcome (list Z * Z) :=
  match rows with
  | [] => Done (buf, offset)
  | vl :: rows =>
      let* '(buf, offset) := serialize_row 16 vl buf offset in serialize_rows rows buf offset
  end.

(** ** The CREATE TABLE text *)

(** snprintf(sql + offset, sizeof(sql) - offset, ..) of the text [t]: the length it
    would have, and the array. Behind the end of the array the size wraps around. *)
Definition sql_snprintf (sql : list Z) (offset : Z) (t : list Z) : outcome (Z * list Z) :=
  if 512 <? offset then Undef
  else if offset =? 512 then Done (len t, sql)
  else let* sql := buf_write offset (take (Z.to_nat (511 - offset)) t ++ [0]) sql in Done (len t, sql).

Definition sql_put (sql : list Z) (offset : Z) (t : list Z) : outcome (list Z * Z) :=
  let* '(n, sql) := sql_snprintf sql offset t in Done (sql, offset + n).

Definition column_type_text (t : ColumnType) : list Z :=
  match t with
  | COL_TYPE_INTEGER => zstr "INT"
  | COL_TYPE_FLOAT => zstr "FLOAT"
  | COL_TYPE_TEXT => zstr "TEXT"
  | COL_TYPE_BLOB => zstr "BLOB"
  end.

Fixpoint sql_columns (cols : list ColumnDef) (first : bool) (sql : list Z) (offset : Z)
    : outcome (list Z * Z) :=
  match cols with
  | [] => Done (sql, offset)
  | col :: cols =>
      if offset <? 512 - 50 then
        let* '(sql, offset) := if first then Done (sql, offset) else sql_put sql offset (zstr ", ") in
        let* '(sql, offset) := sql_put sql offset (cd_name col ++ zstr " ") in
        let* '(sql, offset) := sql_put sql offset (column_type_text (cd_type col)) in
        let* '(sql, offset) := if cd_not_null col then sql_put sql offset (zstr " NOT NULL")
                               else Done (sql, offset) in
        let* '(sql, offset) := if cd_primary_key col then sql_put sql offset (zstr " PRIMARY KEY")
                               else Done (sql, offset) in
        sql_columns cols false sql offset
      else Done (sql, offset)
  end.

(** [sql]: the uninitialized array. *)
Definition build_sql (sql : list Z) (table_name : list Z) (cols : list ColumnDef) : outcome (list Z) :=
  let* '(sql, offset) := sql_put sql 0 (zstr "CREATE TABLE " ++ table_name ++ zstr " (") in
  let* '(sql, offset) := sql_columns cols true sql offset in
  let* '(sql, offset) := if offset <? 512 - 2 then sql_put sql offset (zstr ")") else Done (sql, offset) in
  Done sql.

(** ** The storage handle and the executor *)

Inductive TxnState : Type := TXN_NONE | TXN_ACTIVE | TXN_COMMITTED | TXN_ROLLED_BACK.

#[export] Instance TxnState_eq_dec : EqDecision TxnState.
Proof. solve_decision. Defined.

Section executor.
Context {S : Type} `{PageStore S}.

(** Pager and cache are the store. *)
Record Storage : Type := mkStorage { st_store : S; st_catalog : Catalog; st_is_open : bool }.

Definition tinydb_begin (storage : option Storage) : Z :=
  match storage with
  | Some st => if st_is_open st then SUCCESS_CODE else error_code ERR_INTERNAL
  | None => error_code ERR_INTERNAL
  end.

Definition tinydb_commit (storage : option Storage) : Z := tinydb_begin storage.
Definition tinydb_rollback (storage : option Storage) : Z := tinydb_begin storage.

(** [storage] is [None] for a NULL handle. *)
Record Executor : Type := mkExecutor {
  ex_storage : option Storage;
  in_transaction : Z;
  txn_state : TxnState;
  rows_read : Z;
  rows_written : Z;
  scans_performed : Z }.

Definition executor_create (storage : option Storage) : Executor := mkExecutor storage 0 TXN_NONE 0 0 0.

Definition set_txn (ex : Executor) (active : Z) (t : TxnState) : Executor :=
  mkExecutor (ex_storage ex) active t (rows_read ex) (rows_written ex) (scans_performed ex).

(** The pages changed. *)
Definition set_store (ex : Executor) (st : Storage) (s : S) : Executor :=
  mkExecutor (Some (mkStorage s (st_catalog st) (st_is_open st))) (in_transaction ex) (txn_state ex)
    (rows_read ex) (rows_written ex) (scans_performed ex).

(** ** Transactions *)

Definition executor_exec_begin (ex : Executor) : Z * Executor :=
  if negb (in_transaction ex =? 0) then (error_code ERR_TX_ALREADY_ACTIVE, ex) else
  let result := tinydb_begin (ex_storage ex) in
  (result, if result =? SUCCESS_CODE then set_txn ex 1 TXN_ACTIVE else ex).

Definition executor_exec_commit (ex : Executor) : Z * Executor :=
  if in_transaction ex =? 0 then (error_code ERR_TX_NOT_ACTIVE, ex) else
  let result := tinydb_commit (ex_storage ex) in
  (result, if result =? SUCCESS_CODE then set_txn ex 0 TXN_COMMITTED else ex).

Definition executor_exec_rollback (ex : Executor) : Z * Executor :=
  if in_transaction ex =? 0 then (error_code ERR_TX_NOT_ACTIVE, ex) else
  let result := tinydb_rollback (ex_storage ex) in
  (result, if result =? SUCCESS_CODE then set_txn ex 0 TXN_ROLLED_BACK else ex).

Definition executor_exec_transaction (ex : Executor) (t : TransactionType) : Z * Executor :=
  match t with
  | TX_BEGIN => executor_exec_begin ex
  | TX_COMMIT => executor_exec_commit ex
  | TX_ROLLBACK => executor_exec_rollback ex
  end.

(** ** Statements *)

(** The uninitialized arrays of the functions: the 652 bytes of catalog.c, sql[512],
    value_buf[1024] and row_buf[2048]. *)
Variables (entry_stack sql_stack value_stack row_stack : list Z).

(** [n] bounds the loops over a tree, [fuel] the chains of the cache. *)
Variables (n fuel : nat).

(** A pointer to a tree: None once btree_close has freed it. *)
Definition btree_close_ptr (s : S) (tree : option BTree) : outcome (option BTree * S) :=
  match tree with
  | None => Undef
  | Some t => let* '(_, s) := btree_close fuel s t in Done (None, s)
  end.

(** CREATE TABLE as far as the catalog entry: its return code and the pointer
    [table_tree], which btree_close has already freed. *)
Definition create_table_entry (s : S) (catalog : Catalog) (table_name : list Z) (columns : list ColumnDef)
    : outcome (Z * option (option BTree) * S) :=
  let* sql := build_sql sql_stack table_name columns in
  let* '(tree, s) := btree_create fuel s in
  match tree with
  | None => Done (error_code ERR_STORAGE_IO, None, s)
  | Some t =>
      let root := root_page t in
      let* '(tree, s) := btree_close_ptr s (Some t) in
      let* name := get_field 64 (table_name ++ [0]) in
      let* tbl_name := get_field 64 (table_name ++ [0]) in
      let* entry_sql := get_field 512 sql in
      let* '(ret, s) := catalog_insert entry_stack fuel s catalog
        (mkEntry CATALOG_TYPE_TABLE name tbl_name entry_sql root 1) in
      Done (ret, Some tree, s)
  end.

Definition executor_exec_create_table (ex : Executor) (table_name : list Z) (columns : list ColumnDef)
    : outcome (Z * Executor) :=
  match ex_storage ex with
  | None => Done (error_code ERR_INTERNAL, ex)
  | Some st =>
      let* '(ret, tree, s) := create_table_entry (st_store st) (st_catalog st) table_name columns in
      match tree with
      | None => Done (ret, set_store ex st s)
      | Some tree => let* '(_, s) := btree_close_ptr s tree in Done (ret, set_store ex st s)
      end
  end.

(** The table's tree, if the entry has a root page. *)
Definition open_table (s : S) (entry : CatalogEntry) : option BTree :=
  if 0 <? ce_root_page entry then Some (btree_open s (ce_root_page entry)) else None.

(** [rowid] is the static counter, which all executors of the process share. *)
Definition executor_exec_insert (ex : Executor) (rowid : Z) (table_name : list Z) (values : list ValueList)
    : outcome (Z * Executor * Z) :=
  match ex_storage ex with
  | None => Done (error_code ERR_INTERNAL, ex, rowid)
  | Some st =>
      let* '(entry, s) := catalog_lookup_type_name entry_stack n fuel (st_store st) (st_catalog st)
        CATALOG_TYPE_TABLE (table_name ++ [0]) in
      match entry with
      | None => Done (error_code ERR_EXEC_TABLE_NOT_FOUND, set_store ex st s, rowid)
      | Some entry =>
          match open_table s entry with
          | None => Done (error_code ERR_STORAGE_IO, set_store ex st s, rowid)
          | Some tree =>
              let rowid := u64 (rowid + 1) in
              let* '(value_buf, offset) := serialize_rows values value_stack 0 in
              let* '(ret, s) := btree_insert fuel s tree rowid value_buf offset in
              let* '(_, s) := btree_close_ptr s (Some tree) in
              Done (ret, set_store ex st s, rowid)
          end
      end
  end.

(** The scan: rows that are read and not empty are counted. *)
Fixpoint select_loop (k : nat) (s : S) (cursor : BTreeCursor) (row_count : Z) : outcome (Z * S) :=
  match k with
  | O => NoFuel
  | Datatypes.S k =>
      if btree_cursor_valid (Some cursor) then
        let* '(r, s) := btree_get fuel s cursor row_stack in
        let row_count := match r with
                         | Some (_, _, n) => if 0 <? n then row_count + 1 else row_count
                         | None => row_count
                         end in
        let* '(cursor, s) := btree_cursor_next fuel s cursor in
        select_loop k s cursor row_count
      else Done (row_count, s)
  end.

Definition select_scan (s : S) (tree : BTree) : outcome (Z * S) :=
  let* '(cursor, s) := btree_first fuel s tree in
  match cursor with
  | None => Done (0, s)
  | Some cursor => select_loop n s cursor 0
  end.

Definition executor_exec_select (ex : Executor) (table_name : list Z) : outcome (Z * Executor) :=
  match ex_storage ex with
  | None => Done (error_code ERR_INTERNAL, ex)
  | Some st =>
      let* '(entry, s) := catalog_lookup_type_name entry_stack n fuel (st_store st) (st_catalog st)
        CATALOG_TYPE_TABLE (table_name ++ [0]) in
      match entry with
      | None => Done (error_code ERR_EXEC_TABLE_NOT_FOUND, set_store ex st s)
      | Some entry =>
          match open_table s entry with
          | None => Done (SUCCESS_CODE, set_store ex st s)
          | Some tree =>
              let* '(_, s) := select_scan s tree in
              let* '(_, s) := btree_close_ptr s (Some tree) in
              Done (SUCCESS_CODE, set_store ex st s)
          end
      end
  end.

(** The statements that are not implemented answer SUCCESS. *)
Definition executor_exec_drop_table (ex : Executor) : Z := SUCCESS_CODE.
Definition executor_exec_create_index (ex : Executor) : Z := SUCCESS_CODE.
Definition executor_exec_drop_index (ex : Executor) : Z := SUCCESS_CODE.
Definition executor_exec_update (ex : Executor) : Z := SUCCESS_CODE.
Definition executor_exec_delete (ex : Executor) : Z := SUCCESS_CODE.

Definition executor_exec (ex : Executor) (rowid : Z) (stmt : AstNode) : outcome (Z * Executor * Z) :=
  match stmt with
  | AST_CREATE_TABLE table_name _ columns =>
      let* '(r, ex) := executor_exec_create_table ex table_name columns in Done (r, ex, rowid)
  | AST_DROP_TABLE _ _ => Done (executor_exec_drop_table ex, ex, rowid)
  | AST_CREATE_INDEX _ _ _ _ => Done (executor_exec_create_index ex, ex, rowid)
  | AST_DROP_INDEX _ => Done (executor_exec_drop_index ex, ex, rowid)
  | AST_INSERT table_name _ values => executor_exec_insert ex rowid table_name values
  | AST_UPDATE _ _ _ => Done (executor_exec_update ex, ex, rowid)
  | AST_DELETE _ _ => Done (executor_exec_delete ex, ex, rowid)
  | AST_SELECT _ _ table_name _ _ _ _ =>
      let* '(r, ex) := executor_exec_select ex table_name in Done (r, ex, rowid)
  | AST_TRANSACTION t => let '(r, ex) := executor_exec_transaction ex t in Done (r, ex, rowid)
  end.
End executor.
Arguments Storage S : clear implicits.
Arguments Executor S : clear implicits.

(** ** Encoding of rows *)

(** The bytes INSERT stores for a value: 8 for numbers, the text and a NUL for
    strings, one zero byte for anything else. *)
Definition value_bytes (e : Expression) : list Z :=
  match e with
  | EXPR_LITERAL_INT z => le_bytes 8 (u64 z)
  | EXPR_LITERAL_FLOAT d => le_bytes 8 (double_bits d)
  | EXPR_LITERAL_STRING s => text s ++ [0]
  | _ => [0]
  end.

Definition row_bytes (vl : ValueList) : list Z := concat (value_bytes <$> take 16 vl).
Definition rows_bytes (rows : list ValueList) : list Z := concat (row_bytes <$> rows).

(** Expressions the parser builds: no NULL pointer, strings of bytes. *)
Definition expr_ok (e : Expression) : Prop :=
  match e with
  | ExprNULL => False
  | EXPR_LITERAL_STRING s => Forall is_byte s
  | _ => True
  end.

Definition rows_ok (rows : list ValueList) : Prop := Forall (Forall expr_ok) rows.

Lemma value_bytes_byte e : expr_ok e -> Forall is_byte (value_bytes e).
Proof.
  assert (Forall is_byte [0]) as H0 by (constructor; [unfold is_byte; lia|done]).
  destruct e; simpl; intros He; try done; try apply (le_bytes_byte 8).
  apply Forall_app. split; [by apply text_byte|done].
Qed.

Lemma rows_bytes_byte rows : rows_ok rows -> Forall is_byte (rows_bytes rows).
Proof.
  intros Hr. unfold rows_bytes. apply Forall_concat, Forall_fmap. eapply Forall_impl; [exact Hr|].
  intros vl Hvl. unfold compose, row_bytes. apply Forall_concat, Forall_fmap.
  eapply Forall_impl; [by apply Forall_take|]. apply value_bytes_byte.
Qed.

(** Writing [bs] behind [w], if there is room. *)
Definition append_at (w r bs : list Z) : outcome (list Z * Z) :=
  if len bs <=? len r then Done ((w ++ bs) ++ drop (length bs) r, len (w ++ bs)) else Undef.

Lemma buf_write_append (w r bs : list Z) :
  buf_write (len w) bs (w ++ r) =
  if len bs <=? len r then Done ((w ++ bs) ++ drop (length bs) r) else Undef.
Proof.
  destruct (Z.leb_spec (len bs) (len r)); [apply buf_write_app; lia|].
  unfold buf_write. rewrite length_app. destruct (Z.leb_spec (len w + len bs) (Z.of_nat (length w + length r))); [lia|].
  by rewrite andb_false_r.
Qed.

Lemma serialize_value_ok (w r : list Z) e :
  expr_ok e -> serialize_value (w ++ r) (len w) e = append_at w r (value_bytes e).
Proof.
  intros He. unfold append_at. destruct e; cbn [serialize_value value_bytes]; try done;
    rewrite buf_write_append; (case_match; [|done]); rewrite bind_Done; do 2 f_equal;
    rewrite !length_app, ?length_le_bytes; simpl; lia.
Qed.

(** One append after the other. *)
Lemma append_append (w r a b : list Z) :
  (let* '(buf, offset) := append_at w r a in
   append_at (w ++ a) (drop (length a) r) b) = append_at w r (a ++ b).
Proof.
  unfold append_at. rewrite (length_app a b).
  destruct (Z.leb_spec (len a) (len r)), (Z.leb_spec (Z.of_nat (length a + length b)) (len r)); try done.
  - rewrite bind_Done, length_drop.
    destruct (Z.leb_spec (len b) (Z.of_nat (length r - length a))); [|lia].
    by rewrite drop_drop, <- !app_assoc.
  - rewrite bind_Done, length_drop.
    destruct (Z.leb_spec (len b) (Z.of_nat (length r - length a))); [lia|done].
  - lia.
Qed.

Lemma append_bind {B} (w r a : list Z) (k : list Z -> Z -> outcome B) (k' : outcome B) :
  k ((w ++ a) ++ drop (length a) r) (len (w ++ a)) = k' ->
  (let* '(buf, offset) := append_at w r a in k buf offset) = let* '(buf, offset) := append_at w r a in k'.
Proof. intros E. unfold append_at. destruct (len a <=? len r); [|done]. by rewrite !bind_Done. Qed.

Lemma append_nil (w r : list Z) : Done (w ++ r, len w) = append_at w r [].
Proof.
  unfold append_at. rewrite app_nil_r, drop_0. change (len (@nil Z)) with 0.
  destruct (Z.leb_spec 0 (len r)); [done|lia].
Qed.

Lemma serialize_row_ok n vl (w r : list Z) :
  Forall expr_ok vl -> serialize_row n vl (w ++ r) (len w) = append_at w r (concat (value_bytes <$> take n vl)).
Proof.
  intros Hv. revert n w r. induction Hv as [|e vl He Hv IH]; intros n w r; destruct n as [|n]; cbn [serialize_row take];
    try apply append_nil.
  rewrite serialize_value_ok by done. rewrite fmap_cons. cbn [concat]. rewrite <- append_append.
  apply append_bind. apply IH.
Qed.

Lemma serialize_rows_ok rows (w r : list Z) :
  rows_ok rows -> serialize_rows rows (w ++ r) (len w) = append_at w r (rows_bytes rows).
Proof.
  intros Hr. revert w r. induction Hr as [|vl rows Hv Hr IH]; intros w r; cbn [serialize_rows]; [apply append_nil|].
  rewrite serialize_row_ok by done. unfold rows_bytes. rewrite fmap_cons. cbn [concat]. rewrite <- append_append.
  apply append_bind. apply IH.
Qed.

(** The value buffer of INSERT: filled from the start, or overrun. *)
Lemma serialize_rows_spec rows (buf : list Z) :
  rows_ok rows ->
  serialize_rows rows buf 0 =
  if len (rows_bytes rows) <=? len buf
  then Done (rows_bytes rows ++ drop (length (rows_bytes rows)) buf, len (rows_bytes rows))
  else Undef.
Proof. intros Hr. exact (serialize_rows_ok rows [] buf Hr). Qed.

(** ** The text of CREATE TABLE *)

Definition sql_column (c : ColumnDef) : list Z :=
  cd_name c ++ zstr " " ++ column_type_text (cd_type c) ++
  (if cd_not_null c then zstr " NOT NULL" else []) ++ (if cd_primary_key c then zstr " PRIMARY KEY" else []).

(** The columns, each behind a comma except the first. *)
Fixpoint sql_list (first : bool) (cols : list ColumnDef) : list Z :=
  match cols with
  | [] => []
  | c :: cols => (if first then [] else zstr ", ") ++ sql_column c ++ sql_list false cols
  end.

Definition sql_text (table_name : list Z) (cols : list ColumnDef) : list Z :=
  zstr "CREATE TABLE " ++ table_name ++ zstr " (" ++ sql_list true cols ++ zstr ")".

(** The array holds the text [t], terminated. *)
Definition sql_holds (sql t : list Z) : Prop := exists r, sql = t ++ 0 :: r /\ length sql = 512%nat.

Lemma sql_put_start sql t :
  length sql = 512%nat -> len t < 512 ->
  exists sql', sql_put sql 0 t = Done (sql', len t) /\ sql_holds sql' t.
Proof.
  intros Hl Ht. unfold sql_put, sql_snprintf. simpl. rewrite take_ge by lia.
  pose proof (buf_write_append [] sql (t ++ [0])) as E. cbn [app] in E. change (len []) with 0 in E. rewrite E.
  rewrite length_app. simpl. destruct (Z.leb_spec (Z.of_nat (length t + 1)) (len sql)); [|lia]. rewrite !bind_Done.
  eexists. split; [done|]. exists (drop (length t + 1) sql). split; [by rewrite <- app_assoc|].
  rewrite !length_app, length_drop. simpl. lia.
Qed.

Lemma sql_put_ok sql w t :
  sql_holds sql w -> len (w ++ t) < 512 ->
  exists sql', sql_put sql (len w) t = Done (sql', len (w ++ t)) /\ sql_holds sql' (w ++ t).
Proof.
  intros (r & -> & Hl) Ht. rewrite length_app in Ht, Hl. simpl in Hl. unfold sql_put, sql_snprintf.
  destruct (Z.ltb_spec 512 (len w)); [lia|]. destruct (Z.eqb_spec (len w) 512); [lia|].
  rewrite take_ge by lia. rewrite buf_write_append, length_app. simpl length.
  destruct (Z.leb_spec (Z.of_nat (length t + 1)) (Z.of_nat (Datatypes.S (length r)))); [|lia]. rewrite !bind_Done.
  eexists. split; [do 2 f_equal; rewrite length_app; lia|].
  exists (drop (length t + 1) (0 :: r)). split; [by rewrite <- !app_assoc|].
  rewrite !length_app, length_drop. simpl. lia.
Qed.

Lemma sql_put_opt sql w t (b : bool) :
  sql_holds sql w -> len (w ++ (if b then t else [])) < 512 ->
  exists sql', (if b then sql_put sql (len w) t else Done (sql, len w)) =
      Done (sql', len (w ++ (if b then t else []))) /\
    sql_holds sql' (w ++ (if b then t else [])).
Proof.
  intros Hs Ht. destruct b; [by apply sql_put_ok|]. exists sql. by rewrite app_nil_r.
Qed.

Lemma sql_columns_ok cols first sql w :
  sql_holds sql w -> len (w ++ sql_list first cols) < 462 ->
  exists sql', sql_columns cols first sql (len w) = Done (sql', len (w ++ sql_list first cols)) /\
    sql_holds sql' (w ++ sql_list first cols).
Proof.
  revert first sql w. induction cols as [|c cols IH]; intros first sql w Hs Hl; cbn [sql_columns sql_list] in *.
  { exists sql. by rewrite app_nil_r. }
  unfold sql_column in *. rewrite !length_app in Hl.
  destruct (Z.ltb_spec (len w) (512 - 50)) as [_|]; [|lia].
  assert ((if first then Done (sql, len w) else sql_put sql (len w) (zstr ", ")) =
          (if negb first then sql_put sql (len w) (zstr ", ") else Done (sql, len w))) as -> by (by destruct first).
  assert ((if first then [] else zstr ", ") = (if negb first then zstr ", " else [])) as Hsep by (by destruct first).
  rewrite Hsep in *.
  destruct (sql_put_opt sql w (zstr ", ") (negb first) Hs) as (s1 & -> & H1); [rewrite length_app; lia|]. rewrite bind_Done.
  destruct (sql_put_ok s1 _ (cd_name c ++ zstr " ") H1) as (s2 & -> & H2); [rewrite !length_app; lia|]. rewrite bind_Done.
  destruct (sql_put_ok s2 _ (column_type_text (cd_type c)) H2) as (s3 & -> & H3); [rewrite !length_app; lia|].
  rewrite bind_Done.
  destruct (sql_put_opt s3 _ (zstr " NOT NULL") (cd_not_null c) H3) as (s4 & -> & H4); [rewrite !length_app; lia|].
  rewrite bind_Done.
  destruct (sql_put_opt s4 _ (zstr " PRIMARY KEY") (cd_primary_key c) H4) as (s5 & -> & H5); [rewrite !length_app; lia|].
  rewrite bind_Done.
  destruct (IH false s5 _ H5) as (s6 & -> & H6); [rewrite !length_app; lia|].
  exists s6. rewrite <- !app_assoc in *. done.
Qed.

(** The SQL text stored in the catalog is the CREATE TABLE statement spelled out,
    whenever that takes at most 462 bytes: nothing is truncated and the array of 512
    bytes is not overrun. *)
Theorem build_sql_spec (sql table_name : list Z) (cols : list ColumnDef) :
  length sql = 512%nat -> len (sql_text table_name cols) <= 462 -> 0 ∉ sql_text table_name cols ->
  exists sql', build_sql sql table_name cols = Done sql' /\ length sql' = 512%nat /\
    cstr sql' (sql_text table_name cols).
Proof.
  intros Hl Ht Hz. unfold sql_text in *. unfold build_sql.
  set (a := zstr "CREATE TABLE " ++ table_name ++ zstr " (") in *.
  assert (zstr "CREATE TABLE " ++ table_name ++ zstr " (" ++ sql_list true cols ++ zstr ")" =
    a ++ sql_list true cols ++ zstr ")") as E by (unfold a; by rewrite <- !app_assoc).
  rewrite E in *. rewrite !length_app in Ht. change (length (zstr ")")) with 1%nat in Ht.
  destruct (sql_put_start sql a Hl) as (s1 & -> & H1); [lia|]. rewrite bind_Done.
  destruct (sql_columns_ok cols true s1 a H1) as (s2 & -> & H2); [rewrite length_app; lia|]. rewrite bind_Done.
  destruct (Z.ltb_spec (len (a ++ sql_list true cols)) (512 - 2)) as [_|Hx]; [|rewrite length_app in Hx; lia].
  destruct (sql_put_ok s2 _ (zstr ")") H2) as (s3 & -> & H3).
  { rewrite !length_app. change (length (zstr ")")) with 1%nat. lia. }
  rewrite bind_Done. rewrite <- app_assoc in H3. destruct H3 as (r & -> & H3).
  eexists. split; [done|]. split; [done|]. split; [by exists r|done].
Qed.

(** The column loop checks the room before a column, not for its name: a first
    column whose name takes the text past the 512 bytes makes the next snprintf
    write outside the array (its size argument wraps around). *)
Theorem build_sql_overflow (sql table_name : list Z) (col : ColumnDef) (cols : list ColumnDef) :
  length sql = 512%nat -> len table_name < 447 -> 496 < len table_name + len (cd_name col) ->
  build_sql sql table_name (col :: cols) = Undef.
Proof.
  intros Hl Ht Hc. unfold build_sql. set (a := zstr "CREATE TABLE " ++ table_name ++ zstr " (").
  assert (len a = 15 + len table_name) as Ha.
  { unfold a. rewrite !length_app. change (length (zstr "CREATE TABLE ")) with 13%nat.
    change (length (zstr " (")) with 2%nat. lia. }
  destruct (sql_put_start sql a Hl) as (s1 & -> & (r & -> & H1)); [lia|]. rewrite bind_Done.
  cbn [sql_columns]. destruct (Z.ltb_spec (len a) (512 - 50)) as [_|]; [|lia]. rewrite bind_Done.
  unfold sql_put, sql_snprintf. destruct (Z.ltb_spec 512 (len a)); [lia|]. destruct (Z.eqb_spec (len a) 512); [lia|].
  rewrite buf_write_append. rewrite length_app in H1.
  case_match; [|done]. rewrite !bind_Done.
  assert (512 <? len a + len (cd_name col ++ zstr " ") = true) as ->; [|done].
  apply Z.ltb_lt. rewrite length_app. change (length (zstr " ")) with 1%nat. lia.
Qed.

(** ** Statements on a table *)

(** What inserting a row does to the table's records: return code and records. *)
Definition spec_insert_row (kvs : list kv) (key : Z) (v : list Z) : Z * list kv :=
  if bool_decide (key ∈ kvs.*1) then (0, kvs)
  else if 18 + len v <=? leaf_space kvs then (0, kvs ++ [(key, v)]) else (-1, kvs).

Section laws.
Context {S : Type} `{PageStoreLaws S}.
Variables (entry_stack sql_stack value_stack row_stack : list Z) (n fuel : nat).
Hypothesis Hentry : length entry_stack = 652%nat.
Hypothesis Hvalue : length value_stack = 1024%nat.
Hypothesis Hrow : length row_stack = 2048%nat.
Implicit Types (s : S) (cat : Catalog) (es : list CatalogEntry) (e : CatalogEntry) (ex : Executor S) (kvs : list kv).

#[local] Notation insert := (executor_exec_insert entry_stack value_stack n fuel).
#[local] Notation select := (executor_exec_select entry_stack row_stack n fuel).

Definition table_tree e : BTree := mkBTree (ce_root_page e) 0 true.

(** A store with the catalog [es] and the table of entry [e], which holds [kvs]; both
    root pages are in the cache. *)
Record table_at s cat es e kvs : Prop := {
  ta_ready : ready fuel s (cat_tree cat);
  ta_cat : cat_rep s cat es;
  ta_cat_held : cached s (cat_tree cat);
  ta_tree : tree_rep s (table_tree e) kvs;
  ta_held : cached s (table_tree e);
  ta_root : 0 < ce_root_page e;
  ta_other : ce_root_page e <> root_page (cat_tree cat) }.

(** Steps that lose no page contents keep it. *)
Lemma tree_rep_mono s s' t kvs :
  (forall d, ps_reads s (root_page t) d -> ps_reads s' (root_page t) d) -> tree_rep s t kvs -> tree_rep s' t kvs.
Proof. intros Hm (Ho & d & Hd & Hl). split; [done|]. exists d. auto. Qed.

Lemma table_at_keeps s s' cat es e kvs :
  ps_inv 0 s' -> ps_frame s s' -> (forall m d, ps_reads s m d -> ps_reads s' m d) ->
  table_at s cat es e kvs -> table_at s' cat es e kvs.
Proof.
  intros Hi Hf Hr [Hrd [Hc He] Hch Ht Hh Hroot Ho].
  pose proof (cached_frame s s' _ Hf Hch) as Hch'. pose proof (cached_frame s s' _ Hf Hh) as Hh'.
  constructor; try done.
  - destruct Hch' as [p Hp]. destruct Hrd as [_ Hb _]. by apply (ready_frame fuel s s' _ p).
  - split; [|done]. eapply tree_rep_mono; [|exact Hc]. auto.
  - eapply tree_rep_mono; [|exact Ht]. auto.
Qed.

Lemma table_at_same s s' cat es e kvs :
  ps_inv 0 s' -> same_reads s s' -> table_at s cat es e kvs -> table_at s' cat es e kvs.
Proof. intros Hi [Hf Hr]. apply table_at_keeps; [done|done|]. intros m d. apply Hr. Qed.

Lemma table_ready s cat es e kvs : table_at s cat es e kvs -> ready fuel s (table_tree e).
Proof. intros Ht. by apply (ready_cached fuel s _ (cat_tree cat)); apply Ht. Qed.

(** Closing a tree: everything is flushed. *)
Lemma btree_close_ptr_ok s t cat es e kvs :
  table_at s cat es e kvs ->
  exists s', btree_close_ptr fuel s (Some t) = Done (None, s') /\ table_at s' cat es e kvs.
Proof.
  intros Ht. pose proof (ta_ready _ _ _ _ _ Ht) as [Hi Hf _]. unfold btree_close_ptr, btree_close.
  destruct (ps_flush_ok fuel s Hi Hf) as (k & s' & -> & Hi' & Hfr & Hr). rewrite !bind_Done.
  exists s'. split; [done|]. by apply (table_at_keeps s).
Qed.

(** The lookup that INSERT and SELECT start with. *)
Lemma lookup_table s cat es e kvs name :
  table_at s cat es e kvs -> (length es < n)%nat ->
  exists s', catalog_lookup_type_name entry_stack n fuel s cat CATALOG_TYPE_TABLE (name ++ [0]) =
      Done (norm_entry <$> find_entry CATALOG_TYPE_TABLE (name ++ [0]) es, s') /\ table_at s' cat es e kvs.
Proof using Hentry.
  clear Hvalue Hrow.
  intros Ht Hn.
  destruct (catalog_lookup_ok entry_stack Hentry n fuel s cat es CATALOG_TYPE_TABLE (name ++ [0])) as (s' & -> & Hrd & Hs);
    [apply Ht|apply Ht|apply elem_of_app; right; by left|done|].
  exists s'. split; [done|]. apply (table_at_same s); [apply Hrd|done|done].
Qed.

Lemma open_table_entry s e : 0 < ce_root_page e -> open_table s (norm_entry e) = Some (table_tree e).
Proof using.
  clear Hentry Hvalue Hrow. intros Hr. unfold open_table. cbn [norm_entry ce_root_page]. by destruct (Z.ltb_spec 0 (ce_root_page e)); [|lia].
Qed.

(** Inserting a record. *)
Lemma btree_insert_row s cat es e kvs key v r :
  table_at s cat es e kvs -> 0 <= key < 2 ^ 64 -> Forall is_byte v -> len v <= 1024 ->
  exists s', btree_insert fuel s (table_tree e) key (v ++ r) (len v) =
      Done (fst (spec_insert_row kvs key v), s') /\
    table_at s' cat es e (snd (spec_insert_row kvs key v)).
Proof using.
  clear Hentry Hvalue Hrow.
  intros Ht Hk Hv Hl. rewrite btree_insert_prefix. pose proof (table_ready _ _ _ _ _ Ht) as Hrd.
  pose proof (ta_tree _ _ _ _ _ Ht) as Hrep. unfold spec_insert_row. case_bool_decide as Hin.
  - destruct (btree_insert_present fuel s _ _ key v (len v) Hrd Hrep Hin) as (s' & -> & Hrd' & Hs).
    exists s'. split; [done|]. apply (table_at_same s); [apply Hrd'|done|done].
  - destruct (Z.leb_spec (18 + len v) (leaf_space kvs)) as [Hsp|Hsp].
    + destruct (btree_insert_new fuel s _ _ key v Hrd Hrep Hin Hsp Hv Hk) as (s' & -> & Hrd' & Hrep' & Hf & Ho).
      exists s'. split; [done|]. destruct Ht as [Hrc [Hc Hok] Hch _ Hh Hroot Hne]. cbn [fst snd].
      constructor; try done.
      * apply (ready_cached fuel s' _ (table_tree e)); [done|]. by apply (cached_frame s).
      * split; [|done]. eapply tree_rep_mono; [|exact Hc]. intros d Hd. apply Ho; [|done]. simpl. congruence.
      * by apply (cached_frame s).
      * by apply (cached_frame s).
    + destruct (btree_insert_full fuel s _ _ key v Hrd Hrep Hin Hsp) as (s' & -> & Hrd' & Hs); [lia|].
      exists s'. split; [done|]. apply (table_at_same s); [apply Hrd'|done|done].
Qed.

(** INSERT into a table that the catalog knows. *)
Lemma insert_ok ex st es e kvs rowid name values :
  ex_storage ex = Some st -> table_at (st_store st) (st_catalog st) es e kvs -> (length es < n)%nat ->
  find_entry CATALOG_TYPE_TABLE (name ++ [0]) es = Some e -> rows_ok values -> len (rows_bytes values) <= 1024 ->
  exists s', insert ex rowid name values =
      Done (fst (spec_insert_row kvs (u64 (rowid + 1)) (rows_bytes values)), set_store ex st s', u64 (rowid + 1)) /\
    table_at s' (st_catalog st) es e (snd (spec_insert_row kvs (u64 (rowid + 1)) (rows_bytes values))).
Proof using Hentry Hvalue.
  clear Hrow.
  intros Hst Ht Hn Hf Hok Hl. unfold executor_exec_insert. rewrite Hst.
  destruct (lookup_table _ _ es e kvs name Ht Hn) as (s1 & -> & Ht1). rewrite Hf, bind_Done. cbn [fmap option_fmap option_map].
  rewrite open_table_entry by apply Ht. rewrite serialize_rows_spec by done.
  destruct (Z.leb_spec (len (rows_bytes values)) (len value_stack)); [|lia]. rewrite bind_Done.
  destruct (btree_insert_row s1 _ es e kvs (u64 (rowid + 1)) (rows_bytes values) (drop (length (rows_bytes values)) value_stack) Ht1)
    as (s2 & -> & Ht2); [by apply Z.mod_pos_bound|by apply rows_bytes_byte|done|]. rewrite bind_Done.
  destruct (btree_close_ptr_ok s2 (table_tree e) _ es e _ Ht2) as (s3 & -> & Ht3). rewrite bind_Done.
  by exists s3.
Qed.

(** The scan of SELECT. *)
Definition nonempty_rows kvs : Z := len (List.filter (fun x : kv => 0 <? len (snd x)) kvs).

Lemma select_loop_ok k s t kvs c i r count :
  ready fuel s t -> tree_rep s t kvs -> cur_page c = root_page t -> cur_cell c = Z.of_nat i ->
  drop i kvs = r -> is_end c = bool_decide (r = []) -> Forall (fun x => len (snd x) <= 2048) kvs ->
  (length r < k)%nat ->
  exists s', select_loop row_stack fuel k s c count = Done (count + nonempty_rows r, s') /\
    ready fuel s' t /\ same_reads s s'.
Proof using Hrow.
  clear Hentry Hvalue.
  intros Hrd Hrep Hp Hc Hr He Hb Hk. revert k s c i count Hrd Hrep Hp Hc Hr He Hk.
  induction r as [|[key v] r IH]; intros k s c i count Hrd Hrep Hp Hc Hr He Hk;
    (destruct k as [|k]; [simpl in Hk; lia|]); cbn [select_loop]; unfold btree_cursor_valid; rewrite He.
  - rewrite bool_decide_eq_true_2 by done. exists s. split_and!; [|done|apply same_reads_refl].
    cbn [negb]. do 2 f_equal. unfold nonempty_rows. simpl. lia.
  - rewrite bool_decide_eq_false_2 by done. cbn [negb]. rewrite bool_decide_eq_false_2 in He by done.
    assert (kvs !! i = Some (key, v)) as Hx by (rewrite <- (Nat.add_0_r i), <- lookup_drop, Hr; done).
    assert (drop (Datatypes.S i) kvs = r) as Hr'.
    { apply (f_equal (drop 1)) in Hr. rewrite drop_drop in Hr. by rewrite Nat.add_comm in Hr. }
    destruct (btree_get_ok fuel s t kvs c i key v row_stack) as (s1 & -> & Hrd1 & Hs1); auto.
    { rewrite Forall_forall in Hb. rewrite Hrow. apply (Hb (key, v)). by eapply list_elem_of_lookup_2. }
    rewrite bind_Done. pose proof (lookup_lt_Some _ _ _ Hx) as Hi.
    assert (tree_rep s1 t kvs) as Hrep1 by (by apply (tree_rep_same s)).
    destruct (btree_cursor_next_ok fuel s1 t kvs c i) as (c' & s2 & -> & Hp' & Hc' & He' & Hrd2 & Hs2); auto.
    rewrite bind_Done. assert (tree_rep s2 t kvs) as Hrep2 by (by apply (tree_rep_same s1)).
    destruct (IH k s2 c' (Datatypes.S i) (if 0 <? len v then count + 1 else count)) as (s3 & -> & Hrd3 & Hs3); auto.
    { rewrite He', <- Hr'. apply bool_decide_ext. pose proof (length_drop kvs (Datatypes.S i)) as Hld.
      destruct (drop (Datatypes.S i) kvs); simpl in Hld; split; intros; try done; lia. }
    { simpl in Hk. lia. }
    exists s3. split_and!; [|done|apply (same_reads_trans s s1); [done|]; by apply (same_reads_trans s1 s2)].
    do 2 f_equal. unfold nonempty_rows. cbn [List.filter snd]. destruct (0 <? len v); simpl length; lia.
Qed.

Lemma select_scan_ok s cat es e kvs :
  table_at s cat es e kvs -> Forall (fun x => len (snd x) <= 2048) kvs -> (length kvs < n)%nat ->
  exists s', select_scan row_stack n fuel s (table_tree e) = Done (nonempty_rows kvs, s') /\ table_at s' cat es e kvs.
Proof using Hrow.
  clear Hentry Hvalue.
  intros Ht Hb Hn. pose proof (table_ready _ _ _ _ _ Ht) as Hrd. pose proof (ta_tree _ _ _ _ _ Ht) as Hrep.
  unfold select_scan. destruct (btree_first_ok fuel s _ kvs Hrd Hrep) as (c & s1 & -> & Hp & Hc & He & Hrd1 & Hs1).
  rewrite bind_Done.
  destruct (select_loop_ok n s1 (table_tree e) kvs c 0 kvs 0) as (s2 & E & Hrd2 & Hs2); auto.
  - by apply (tree_rep_same s).
  - rewrite He. by destruct kvs.
  - exists s2. split; [by rewrite E|]. apply (table_at_same s); [apply Hrd2|by apply (same_reads_trans s s1)|done].
Qed.

(** The entry CREATE TABLE stores. *)
Definition table_entry (name : list Z) (cols : list ColumnDef) (root : Z) : CatalogEntry :=
  mkEntry CATALOG_TYPE_TABLE (pad 64 name) (pad 64 name) (pad 512 (sql_text name cols)) root 1.

(** A table definition whose SQL text fits. *)
Definition table_def_ok (name : list Z) (cols : list ColumnDef) : Prop :=
  Forall is_byte name /\ 0 ∉ name /\ Forall is_byte (sql_text name cols) /\ 0 ∉ sql_text name cols /\
  len (sql_text name cols) <= 462.

Lemma table_entry_ok name cols root :
  table_def_ok name cols -> 0 < root < 2 ^ 32 -> entry_ok (table_entry name cols root).
Proof using.
  clear Hentry Hvalue Hrow. intros (Hb & _ & Hs & _) Hr.
  refine (conj _ (conj _ (conj _ (conj _ _)))); try apply pad_char_array; try done; try lia.
  all: cbn [table_entry ce_type ce_root_page]; unfold CATALOG_TYPE_TABLE; lia.
Qed.

(** CREATE TABLE up to the catalog entry: the table is in the catalog, with an empty
    tree of its own. *)
Lemma create_table_entry_ok s cat es name cols :
  length sql_stack = 512%nat -> ready fuel s (cat_tree cat) -> cat_rep s cat es -> cached s (cat_tree cat) ->
  ps_fresh s -> (forall m, ps_room s m) -> table_def_ok name cols ->
  (length es < 6)%nat -> 1 + len (take 63 name) ∉ key_of <$> es ->
  exists root s', create_table_entry entry_stack sql_stack fuel s cat name cols = Done (0, Some None, s') /\
    table_at s' cat (es ++ [table_entry name cols root]) (table_entry name cols root) [].
Proof using Hentry.
  clear Hvalue Hrow.
  intros Hsql Hrd Hcat Hch Hfr Hroom Hok Hes Hkey. pose proof Hok as (Hb & Hz & Hsb & Hsz & Hsl).
  unfold create_table_entry. destruct (build_sql_spec sql_stack name cols Hsql Hsl Hsz) as (sql & -> & _ & Hcs).
  rewrite bind_Done. pose proof Hrd as [Hi Hf _].
  destruct (btree_create_ok fuel s Hi Hf (ps_fresh_allocate s Hfr) Hroom)
    as (t & s1 & E1 & Hrd1 & Hrep1 & Hheld1 & Hfr1 & Ho1).
  destruct (btree_create_fresh fuel s t s1 Hi Hfr E1) as [Hroot Hnew]. rewrite E1, bind_Done.
  pose proof Hcat as [(_ & d & Hd & _) _].
  assert (root_page t <> root_page (cat_tree cat)) as Hne by (intros E; apply (Hnew d); by rewrite E).
  unfold btree_close_ptr, btree_close.
  destruct (ps_flush_ok fuel s1) as (k & s2 & -> & Hi2 & Hfr2 & Hr2);
    [apply Hrd1|by rewrite (ps_frame_bound s s1)|]. rewrite !bind_Done.
  assert (cstr (name ++ [0]) name) as Hcn by (split; [by exists []|done]).
  rewrite (get_field_cstr 64 _ _ ltac:(lia) Hcn), !bind_Done.
  rewrite (get_field_cstr 512 _ _ ltac:(lia) Hcs), bind_Done.
  set (e := table_entry name cols (root_page t)).
  change (mkEntry CATALOG_TYPE_TABLE (pad 64 name) (pad 64 name) (pad 512 (sql_text name cols)) (root_page t) 1) with e.
  assert (ps_frame s s2) as Hfr' by (by eapply ps_frame_trans).
  assert (ready fuel s2 (cat_tree cat)) as Hrd2.
  { destruct (cached_frame _ _ _ Hfr' Hch) as [p Hp]. by apply (ready_frame fuel s s2 _ p). }
  assert (cat_rep s2 cat es) as Hcat2.
  { split; [|apply Hcat]. eapply tree_rep_mono; [|apply Hcat]. intros d' Hd'. apply Hr2, Ho1; [done|done]. }
  assert (entry_ok e) as He by by apply table_entry_ok.
  assert (text (ce_name e) = take 63 name) as Htx.
  { unfold e. simpl. pose proof (pad_cstr 64 name [] ltac:(lia) Hz) as Hc. rewrite app_nil_r in Hc. by apply cstr_text. }
  destruct (catalog_insert_ok entry_stack Hentry fuel s2 cat es e Hrd2 Hcat2 He) as (s3 & -> & Hrd3 & Hcat3 & Hfr3 & Ho3).
  assert (spec_insert es e = (0, es ++ [e])) as Hsp.
  { unfold spec_insert. rewrite bool_decide_eq_false_2; [by destruct (Nat.ltb_spec (length es) 6); [|lia]|].
    unfold key_of at 1. rewrite Htx. simpl. done. }
  rewrite Hsp in *. cbn [fst snd] in *. rewrite bind_Done. exists (root_page t), s3. split; [done|].
  assert (tree_rep s2 (table_tree e) []) as Hrep2.
  { destruct Hrep1 as (_ & d' & Hd' & Hl'). split; [done|]. exists d'. split; [by apply Hr2|done]. }
  constructor; try done.
  - apply (cached_frame s2); [done|]. by apply (cached_frame s).
  - eapply tree_rep_mono; [|exact Hrep2]. intros d' Hd'. apply Ho3; [|done]. done.
  - apply (cached_frame s2); [done|]. by apply (cached_frame s1 s2 t).
  - simpl. lia.
Qed.
End laws.

(** ** Sessions *)

Section sessions.
Context {S : Type} `{PageStore S}.
Variables (entry_stack sql_stack value_stack row_stack : list Z) (n fuel : nat).
Implicit Types (ex : Executor S) (stmt : AstNode).

#[local] Notation exec := (executor_exec entry_stack sql_stack value_stack row_stack n fuel).

(** A session: one statement after the other; the row counter is the process's. *)
Inductive session (ex0 : Executor S) : Executor S -> Prop :=
  | session_start : session ex0 ex0
  | session_step ex rowid stmt r ex' rowid' :
      session ex0 ex -> exec ex rowid stmt = Done (r, ex', rowid') -> session ex0 ex'.

(** The executor's own fields. *)
Definition txn_inv ex : Prop :=
  (in_transaction ex = 1 /\ txn_state ex = TXN_ACTIVE) \/ (in_transaction ex = 0 /\ txn_state ex <> TXN_ACTIVE).

Definition handle_of ex : option (Catalog * bool) := (fun st => (st_catalog st, st_is_open st)) <$> ex_storage ex.

(** Everything but the transaction fields and the pages. *)
Definition same_session ex ex' : Prop :=
  handle_of ex' = handle_of ex /\ rows_read ex' = rows_read ex /\ rows_written ex' = rows_written ex /\
  scans_performed ex' = scans_performed ex.

(** A statement other than a transaction statement changes the pages at most. *)
Definition only_pages ex ex' : Prop :=
  ex' = ex \/ exists st s, ex_storage ex = Some st /\ ex' = set_store ex st s.

Lemma only_pages_spec ex ex' :
  only_pages ex ex' ->
  same_session ex ex' /\ in_transaction ex' = in_transaction ex /\ txn_state ex' = txn_state ex.
Proof.
  intros [->|(st & s & Hst & ->)]; [done|]. unfold same_session, handle_of, set_store. simpl. by rewrite Hst.
Qed.

Lemma create_table_only_pages ex name cols r ex' :
  executor_exec_create_table entry_stack sql_stack fuel ex name cols = Done (r, ex') -> only_pages ex ex'.
Proof.
  unfold executor_exec_create_table. destruct (ex_storage ex) as [st|] eqn:Hst; intros E; outcome_inv; [|by left].
  destruct o as [tree|]; outcome_inv; right; eauto.
Qed.

Lemma insert_only_pages ex rowid name values r ex' rowid' :
  executor_exec_insert entry_stack value_stack n fuel ex rowid name values = Done (r, ex', rowid') -> only_pages ex ex'.
Proof.
  unfold executor_exec_insert. destruct (ex_storage ex) as [st|] eqn:Hst; intros E; outcome_inv; [|by left].
  repeat (case_match || (progress outcome_inv)); simplify_eq; right; eauto.
Qed.

Lemma select_only_pages ex name r ex' :
  executor_exec_select entry_stack row_stack n fuel ex name = Done (r, ex') -> only_pages ex ex'.
Proof.
  unfold executor_exec_select. destruct (ex_storage ex) as [st|] eqn:Hst; intros E; outcome_inv; [|by left].
  repeat (case_match || (progress outcome_inv)); simplify_eq; right; eauto.
Qed.

(** The transaction automaton: what a transaction statement answers, and whether a
    transaction is active afterwards. *)
Definition tx_step (active : bool) (t : TransactionType) : Z * bool :=
  match t, active with
  | TX_BEGIN, false => (SUCCESS_CODE, true)
  | TX_BEGIN, true => (error_code ERR_TX_ALREADY_ACTIVE, true)
  | (TX_COMMIT | TX_ROLLBACK), true => (SUCCESS_CODE, false)
  | (TX_COMMIT | TX_ROLLBACK), false => (error_code ERR_TX_NOT_ACTIVE, false)
  end.

Definition active ex : bool := negb (in_transaction ex =? 0).

Lemma exec_step_cases ex rowid stmt r ex' rowid' :
  exec ex rowid stmt = Done (r, ex', rowid') ->
  match stmt with
  | AST_TRANSACTION t => executor_exec_transaction ex t = (r, ex') /\ rowid' = rowid
  | _ => only_pages ex ex'
  end.
Proof.
  destruct stmt; simpl; intros E; outcome_inv; try (by left).
  - by eapply create_table_only_pages.
  - by eapply insert_only_pages.
  - by eapply select_only_pages.
  - destruct (executor_exec_transaction ex transaction_type). outcome_inv. done.
Qed.

Lemma transaction_cases ex t r ex' :
  executor_exec_transaction ex t = (r, ex') ->
  ex' = ex \/ (ex' = set_txn ex 1 TXN_ACTIVE) \/
  (exists u, u <> TXN_ACTIVE /\ ex' = set_txn ex 0 u).
Proof.
  unfold executor_exec_transaction, executor_exec_begin, executor_exec_commit, executor_exec_rollback.
  destruct t; repeat case_match; intros [= <- <-]; eauto; right; right;
    first [exists TXN_COMMITTED; split; [discriminate|reflexivity] | exists TXN_ROLLED_BACK; split; [discriminate|reflexivity]].
Qed.

(** C37: in every state a session reaches, in_transaction is 1 exactly when txn_state is
    TXN_ACTIVE and 0 otherwise; the storage handle stays the one the executor was
    created with, and the counters rows_read, rows_written and scans_performed are
    still 0 whatever has been executed. *)
Theorem session_invariant (storage : option (Storage S)) ex :
  session (executor_create storage) ex ->
  txn_inv ex /\ handle_of ex = handle_of (executor_create storage) /\
  rows_read ex = 0 /\ rows_written ex = 0 /\ scans_performed ex = 0.
Proof.
  induction 1 as [|ex rowid stmt r ex' rowid' _ (IH & Hh & H1 & H2 & H3) E]; [split_and!; try done; right; split; [done|discriminate]|].
  apply exec_step_cases in E. destruct stmt;
    try (apply only_pages_spec in E as ((? & ? & ? & ?) & Ht & Hs); unfold txn_inv in *; rewrite Ht, Hs;
         split_and!; congruence).
  destruct E as [E _]. apply transaction_cases in E as [->|[->|(u & Hu & ->)]]; [done| |];
    (split_and!; [|done..]); unfold txn_inv; simpl; auto.
Qed.

(** C10: on an open storage, the executor runs the transaction automaton: in every
    state a session reaches, a transaction statement answers what the automaton
    answers and moves as it moves, never fails otherwise and does not touch the
    storage; every other statement leaves the transaction as it is. *)
Theorem transactions_refine_automaton (storage : Storage S) ex rowid :
  st_is_open storage = true -> session (executor_create (Some storage)) ex ->
  (forall t, exists ex', exec ex rowid (AST_TRANSACTION t) = Done (fst (tx_step (active ex) t), ex', rowid) /\
     active ex' = snd (tx_step (active ex) t) /\ ex_storage ex' = ex_storage ex) /\
  (forall stmt r ex' rowid', exec ex rowid stmt = Done (r, ex', rowid') ->
     (forall t, stmt <> AST_TRANSACTION t) -> active ex' = active ex).
Proof.
  intros Ho Hs. destruct (session_invariant _ _ Hs) as (Hinv & Hh & _). split.
  - intros t. unfold handle_of in Hh. simpl in Hh. destruct (ex_storage ex) as [st|] eqn:Hst; [|done].
    simpl in Hh. injection Hh as _ Hop. rewrite Ho in Hop.
    assert (tinydb_begin (Some st) = SUCCESS_CODE) as Hb by (simpl; by rewrite Hop).
    unfold active. destruct Hinv as [[Ha Hb']|[Ha Hb']], t; unfold executor_exec, executor_exec_transaction,
      executor_exec_begin, executor_exec_commit, executor_exec_rollback, tinydb_commit, tinydb_rollback;
      rewrite Ha, ?Hst, ?Hb; eexists; (split; [reflexivity|]); simpl; by rewrite ?Ha, ?Hst.
  - intros stmt r ex' rowid' E Hne. apply exec_step_cases in E. unfold active.
    destruct stmt; try (apply only_pages_spec in E as (_ & -> & _); done). by destruct (Hne transaction_type).
Qed.

(** Running a list of statements: the codes, the executor and the row counter. *)
Fixpoint exec_all ex (rowid : Z) (stmts : list AstNode) : outcome (list Z * Executor S * Z) :=
  match stmts with
  | [] => Done ([], ex, rowid)
  | stmt :: stmts =>
      let* '(r, ex, rowid) := exec ex rowid stmt in
      let* '(rs, ex, rowid) := exec_all ex rowid stmts in
      Done (r :: rs, ex, rowid)
  end.
End sessions.

(** ** Theorems on tables *)

Section tables.
Context {S : Type} `{PageStoreLaws S}.
Variables (entry_stack sql_stack value_stack row_stack : list Z) (n fuel : nat).
Hypothesis Hentry : length entry_stack = 652%nat.
Hypothesis Hsql : length sql_stack = 512%nat.
Hypothesis Hvalue : length value_stack = 1024%nat.
Hypothesis Hrow : length row_stack = 2048%nat.
Implicit Types (s : S) (st : Storage S) (ex : Executor S).

(** CREATE TABLE of a new table gets as far as it should (the catalog then holds an
    entry with the name, the SQL text and the root page of a new empty tree, and a
    lookup finds it), but the function closes the tree a second time, after btree_close
    has freed it: no execution that creates a table is defined. *)
Theorem create_table_uses_freed_tree ex st es name cols :
  ex_storage ex = Some st -> ready fuel (st_store st) (cat_tree (st_catalog st)) ->
  cat_rep (st_store st) (st_catalog st) es -> cached (st_store st) (cat_tree (st_catalog st)) ->
  ps_fresh (st_store st) -> (forall m, ps_room (st_store st) m) -> table_def_ok name cols ->
  (length es < 6)%nat -> (6 < n)%nat -> 1 + len (take 63 name) ∉ key_of <$> es ->
  find_entry CATALOG_TYPE_TABLE name es = None -> (length name < 64)%nat ->
  (exists root s1 s2, create_table_entry entry_stack sql_stack fuel (st_store st) (st_catalog st) name cols =
      Done (0, Some None, s1) /\
    table_at fuel s1 (st_catalog st) (es ++ [table_entry name cols root]) (table_entry name cols root) [] /\
    catalog_lookup_type_name entry_stack n fuel s1 (st_catalog st) CATALOG_TYPE_TABLE (name ++ [0]) =
      Done (Some (table_entry name cols root), s2)) /\
  executor_exec_create_table entry_stack sql_stack fuel ex name cols = Undef.
Proof using Hentry Hsql.
  clear Hvalue Hrow.
  intros Hst Hrd Hcat Hch Hfr Hroom Hok Hes Hn Hkey Hfind Hlen. pose proof Hok as (Hb & Hz & Hsb & Hsz & Hsl).
  destruct (create_table_entry_ok entry_stack sql_stack fuel Hentry (st_store st) (st_catalog st) es name cols)
    as (root & s1 & E & Ht); auto.
  split; [|unfold executor_exec_create_table; by rewrite Hst, E].
  assert (text (name ++ [0]) = name) as Htn by (apply cstr_text; split; [by exists []|done]).
  assert (text (pad 64 name) = name) as Htp by (rewrite <- (app_nil_r (pad 64 name)); by apply text_pad).
  assert (text (pad 512 (sql_text name cols)) = sql_text name cols) as Hts
    by (rewrite <- (app_nil_r (pad 512 _)); apply text_pad; [lia|done]).
  destruct (lookup_table entry_stack n fuel Hentry s1 _ _ _ _ name Ht) as (s2 & E2 & _);
    [rewrite length_app; simpl; lia|].
  exists root, s1, s2. split; [done|]. split; [done|]. rewrite E2.
  assert (find_entry CATALOG_TYPE_TABLE (name ++ [0]) (es ++ [table_entry name cols root]) =
    Some (table_entry name cols root)) as ->.
  { clear -Hfind Htn Htp Hz. revert Hfind. unfold find_entry, is_named. rewrite Htn.
    assert (text name = name) as -> by (clear -Hz; induction name as [|c nm IH]; [done|];
      apply not_elem_of_cons in Hz as [Hc Hz]; simpl; destruct (Z.eqb_spec c 0); [congruence|]; by rewrite IH).
    induction es as [|e es IH]; simpl.
    - rewrite Htp. by rewrite bool_decide_eq_true_2.
    - case_match; [done|]. exact IH. }
  cbn [fmap option_fmap option_map]. unfold norm_entry, table_entry.
  cbn [ce_type ce_name ce_tbl_name ce_sql ce_root_page ce_is_valid]. by rewrite Htp, Hts.
Qed.

(** A row of at most sixteen literals: what INSERT encodes value by value. *)
Definition is_literal (e : Expression) : bool :=
  match e with
  | EXPR_LITERAL_INT _ | EXPR_LITERAL_FLOAT _ | EXPR_LITERAL_STRING _ | EXPR_LITERAL_NULL => true
  | _ => false
  end.

Definition literal_row (row : ValueList) : Prop :=
  (length row <= 16)%nat /\ Forall (fun e => is_literal e = true /\ expr_ok e) row.

Lemma literal_row_ok row : literal_row row -> rows_ok [row].
Proof using.
  clear Hentry Hsql Hvalue Hrow.
  intros [_ Hr]. repeat constructor. eapply Forall_impl; [exact Hr|]. by intros e [].
Qed.

Lemma literal_row_bytes row : literal_row row -> rows_bytes [row] = concat (value_bytes <$> row).
Proof using.
  clear Hentry Hsql Hvalue Hrow.
  intros [Hl _]. unfold rows_bytes, row_bytes. cbn. by rewrite app_nil_r, take_ge by done.
Qed.

(** An overrun of the value buffer. *)
Lemma insert_overrun ex st es e kvs rowid name values :
  ex_storage ex = Some st -> table_at fuel (st_store st) (st_catalog st) es e kvs -> (length es < n)%nat ->
  find_entry CATALOG_TYPE_TABLE (name ++ [0]) es = Some e -> rows_ok values -> 1024 < len (rows_bytes values) ->
  executor_exec_insert entry_stack value_stack n fuel ex rowid name values = Undef.
Proof using Hentry Hvalue.
  clear Hsql Hrow. intros Hst Ht Hn Hf Hok Hl. unfold executor_exec_insert. rewrite Hst.
  destruct (lookup_table entry_stack n fuel Hentry _ _ es e kvs name Ht Hn) as (s1 & -> & Ht1).
  rewrite Hf, bind_Done. cbn [fmap option_fmap option_map]. rewrite open_table_entry by apply Ht.
  rewrite serialize_rows_spec, Hvalue by done.
  destruct (Z.leb_spec (len (rows_bytes values)) (Z.of_nat 1024)); [lia|done].
Qed.

(** C39: INSERT of one row of at most sixteen literals, on every branch of the
    code. Without a storage, ERR_INTERNAL and no change. Into a table the catalog does
    not know, ERR_EXEC_TABLE_NOT_FOUND, and into one whose entry has no root page,
    ERR_STORAGE_IO; both leave all pages and the row counter as they were. Otherwise the
    counter goes up by one (modulo 2^64) and its value becomes the row number, under
    which the encoded values are stored in the table's tree when the tree has no such
    key and room for the record; when the key is there nothing is stored and the answer
    is SUCCESS, when there is no room it is -1 (the tree does not split). The values
    are not compared with the table's columns, and values that take more than 1024
    bytes overrun the buffer of the function. Rows beyond the first are
    [insert_merges_rows]. *)
Theorem executor_insert_spec ex rowid name row :
  literal_row row ->
  match ex_storage ex with
  | None => executor_exec_insert entry_stack value_stack n fuel ex rowid name [row] =
      Done (error_code ERR_INTERNAL, ex, rowid)
  | Some st => forall es, ready fuel (st_store st) (cat_tree (st_catalog st)) ->
      cat_rep (st_store st) (st_catalog st) es -> (length es < n)%nat ->
      match find_entry CATALOG_TYPE_TABLE (name ++ [0]) es with
      | None => exists s', executor_exec_insert entry_stack value_stack n fuel ex rowid name [row] =
          Done (error_code ERR_EXEC_TABLE_NOT_FOUND, set_store ex st s', rowid) /\ same_reads (st_store st) s'
      | Some e =>
          (ce_root_page e = 0 -> exists s', executor_exec_insert entry_stack value_stack n fuel ex rowid name [row] =
             Done (error_code ERR_STORAGE_IO, set_store ex st s', rowid) /\ same_reads (st_store st) s') /\
          (forall kvs, table_at fuel (st_store st) (st_catalog st) es e kvs ->
             let v := concat (value_bytes <$> row) in
             let key := (rowid + 1) mod 2 ^ 64 in
             if len v <=? 1024
             then exists s', executor_exec_insert entry_stack value_stack n fuel ex rowid name [row] =
                 Done (fst (spec_insert_row kvs key v), set_store ex st s', key) /\
               table_at fuel s' (st_catalog st) es e (snd (spec_insert_row kvs key v))
             else executor_exec_insert entry_stack value_stack n fuel ex rowid name [row] = Undef)
      end
  end.
Proof using Hentry Hvalue.
  clear Hsql Hrow.
  intros Hrow. pose proof (literal_row_ok row Hrow) as Hok. rewrite <- (literal_row_bytes row Hrow).
  destruct (ex_storage ex) as [st|] eqn:Hst; [|unfold executor_exec_insert; by rewrite Hst].
  intros es Hrd Hcat Hn.
  destruct (catalog_lookup_ok entry_stack Hentry n fuel _ _ es CATALOG_TYPE_TABLE (name ++ [0]) Hrd Hcat)
    as (s1 & E1 & _ & Hs1); [apply elem_of_app; right; by left|done|].
  destruct (find_entry _ _ es) as [e|] eqn:Hf; [split|].
  - intros Hzero. exists s1. unfold executor_exec_insert. rewrite Hst, E1, bind_Done. split; [|done].
    cbn [fmap option_fmap option_map]. unfold open_table, norm_entry. cbn [ce_root_page]. by rewrite Hzero.
  - intros kvs Ht. cbv zeta. destruct (Z.leb_spec (len (rows_bytes [row])) 1024) as [Hl|Hl].
    + by apply (insert_ok entry_stack value_stack n fuel Hentry Hvalue).
    + by apply (insert_overrun ex st es e kvs).
  - exists s1. unfold executor_exec_insert. by rewrite Hst, E1, bind_Done.
Qed.

(** All rows of one INSERT become one record, the concatenation of their values, under
    one row number, where specs/storage-engine wants a row number for each. *)
Theorem insert_merges_rows ex st es e kvs rowid name values :
  ex_storage ex = Some st -> table_at fuel (st_store st) (st_catalog st) es e kvs -> (length es < n)%nat ->
  find_entry CATALOG_TYPE_TABLE (name ++ [0]) es = Some e -> rows_ok values -> len (rows_bytes values) <= 1024 ->
  exists s', executor_exec_insert entry_stack value_stack n fuel ex rowid name values =
      Done (fst (spec_insert_row kvs (u64 (rowid + 1)) (rows_bytes values)), set_store ex st s', u64 (rowid + 1)) /\
    table_at fuel s' (st_catalog st) es e (snd (spec_insert_row kvs (u64 (rowid + 1)) (rows_bytes values))).
Proof using Hentry Hvalue. clear Hsql Hrow. by apply insert_ok. Qed.

(** SELECT answers SUCCESS and changes nothing: the scan over a table visits every
    record, ends, stays inside its row buffer for records INSERT can have stored, and
    counts the records that are not empty; no row is handed to the caller. *)
Theorem executor_select_spec ex st es e kvs name :
  ex_storage ex = Some st -> table_at fuel (st_store st) (st_catalog st) es e kvs ->
  find_entry CATALOG_TYPE_TABLE (name ++ [0]) es = Some e -> (length es < n)%nat ->
  Forall (fun x : kv => len (snd x) <= 1024) kvs -> (length kvs < n)%nat ->
  (exists s', executor_exec_select entry_stack row_stack n fuel ex name = Done (SUCCESS_CODE, set_store ex st s') /\
     table_at fuel s' (st_catalog st) es e kvs) /\
  (exists s', select_scan row_stack n fuel (st_store st) (table_tree e) =
     Done (nonempty_rows kvs, s')).
Proof using Hentry Hrow.
  clear Hsql Hvalue.
  intros Hst Ht Hf Hn Hb Hk.
  assert (Forall (fun x : kv => len (snd x) <= 2048) kvs) as Hb' by (eapply Forall_impl; [exact Hb|]; simpl; lia).
  split.
  - unfold executor_exec_select. rewrite Hst.
    destruct (lookup_table entry_stack n fuel Hentry _ _ es e kvs name Ht Hn) as (s1 & -> & Ht1).
    rewrite Hf, bind_Done. cbn [fmap option_fmap option_map]. rewrite open_table_entry by apply Ht.
    destruct (select_scan_ok row_stack n fuel Hrow s1 _ es e kvs Ht1 Hb' Hk) as (s2 & -> & Ht2). rewrite bind_Done.
    destruct (btree_close_ptr_ok fuel s2 (table_tree e) _ es e kvs Ht2) as (s3 & -> & Ht3). rewrite bind_Done.
    by exists s3.
  - destruct (select_scan_ok row_stack n fuel Hrow _ _ es e kvs Ht Hb' Hk) as (s2 & -> & _). by exists s2.
Qed.

(** ROLLBACK undoes nothing: after BEGIN, an INSERT that stores its record, and
    ROLLBACK, all of which answer SUCCESS, the record is in the table. *)
Theorem rollback_keeps_insert ex st es e kvs rowid name cols values :
  ex_storage ex = Some st -> st_is_open st = true -> in_transaction ex = 0 ->
  table_at fuel (st_store st) (st_catalog st) es e kvs ->
  find_entry CATALOG_TYPE_TABLE (name ++ [0]) es = Some e -> (length es < n)%nat -> rows_ok values ->
  len (rows_bytes values) <= 1024 -> 0 <= rowid -> rowid + 1 < 2 ^ 64 ->
  rowid + 1 ∉ kvs.*1 -> 18 + len (rows_bytes values) <= leaf_space kvs ->
  exists ex' s', exec_all entry_stack sql_stack value_stack row_stack n fuel ex rowid
      [AST_TRANSACTION TX_BEGIN; AST_INSERT name cols values; AST_TRANSACTION TX_ROLLBACK] =
      Done ([SUCCESS_CODE; SUCCESS_CODE; SUCCESS_CODE], ex', rowid + 1) /\
    txn_state ex' = TXN_ROLLED_BACK /\
    ex_storage ex' = Some (mkStorage s' (st_catalog st) true) /\
    table_at fuel s' (st_catalog st) es e (kvs ++ [(rowid + 1, rows_bytes values)]).
Proof using Hentry Hvalue.
  clear Hsql Hrow.
  intros Hst Hop Htx Ht Hf Hn Hok Hl Hr0 Hr1 Hkey Hsp. cbn [exec_all executor_exec executor_exec_transaction].
  assert (tinydb_begin (Some st) = SUCCESS_CODE) as Hb by (simpl; by rewrite Hop).
  unfold executor_exec_begin. rewrite Htx, Hst, Hb. cbn [negb]. change (0 =? 0) with true. cbn [negb].
  rewrite Z.eqb_refl, bind_Done. set (ex1 := set_txn ex 1 TXN_ACTIVE).
  destruct (insert_ok entry_stack value_stack n fuel Hentry Hvalue ex1 st es e kvs rowid name values)
    as (s1 & -> & Ht1); auto.
  assert (u64 (rowid + 1) = rowid + 1) as Hu by (apply Z.mod_small; lia). rewrite Hu in *.
  rewrite bind_Done. unfold spec_insert_row in *. rewrite bool_decide_eq_false_2 in * by done.
  destruct (Z.leb_spec (18 + len (rows_bytes values)) (leaf_space kvs)); [|lia]. cbn [fst snd] in *.
  unfold executor_exec_rollback. cbn [set_store in_transaction ex1 set_txn]. change (1 =? 0) with false. cbv iota.
  unfold tinydb_rollback. cbn [ex_storage set_store].
  assert (tinydb_begin (Some (mkStorage s1 (st_catalog st) (st_is_open st))) = SUCCESS_CODE) as Hb1
    by (simpl; by rewrite Hop).
  rewrite Hb1, Z.eqb_refl, !bind_Done. eexists _, s1. split; [reflexivity|].
  split; [done|]. split; [simpl; by rewrite Hop|done].
Qed.
End tables.

(** ** Witnesses *)

(** A bool that computes whether a cache can take another new page. *)
Definition roomy (c : PageCache) : bool :=
  match pager c with
  | Some p => (first_free_page p =? 0) && (free_page_count p =? 0) && (page_count p + 1 <? 2 ^ 32)
  | None => false
  end && (count c <? max_pages c).

Lemma roomy_spec c : roomy c = true -> ps_fresh c /\ forall m, ps_room c m.
Proof.
  unfold roomy. destruct (pager c) as [p|] eqn:Hp; [|done]. intros ((( Hf & Hc)%andb_true_iff & Hn)%andb_true_iff & Hm)%andb_true_iff.
  apply Z.eqb_eq in Hf, Hc. apply Z.ltb_lt in Hn, Hm. split; [|by left].
  exists p. split_and!; [done| |done]. constructor; [done|apply NoDup_nil_2|done].
Qed.

Definition demo_columns : list ColumnDef :=
  [mkColumnDef (zstr "id") COL_TYPE_INTEGER true true false None;
   mkColumnDef (zstr "name") COL_TYPE_TEXT false false false None].

Definition demo_sql_stack : list Z := replicate 512 85.
Definition demo_value_stack : list Z := replicate 1024 85.
Definition demo_row_stack : list Z := replicate 2048 85.

Lemma demo_catalog :
  exists c cat s, page_cache_create 100 4 (Some demo_pager) = Done c /\ catalog_open 5 c = Done (Some cat, s) /\
    ready 5 s (cat_tree cat) /\ cat_rep s cat [] /\ cached s (cat_tree cat) /\ ps_fresh s /\ forall m, ps_room s m.
Proof.
  destruct demo_store as (c & E & Hi & Hf & Ha & Hr).
  destruct (catalog_open_ok 5 c Hi Hf Ha Hr) as (cat & s & E1 & Hrd & Hrep & Hca & _).
  exists c, cat, s. split; [done|]. split; [done|]. split; [done|]. split; [done|]. split; [done|].
  apply roomy_spec.
  assert (match page_cache_create 100 4 (Some demo_pager) with
          | Done c => match catalog_open 5 c with Done (_, s) => roomy s | _ => false end
          | _ => false
          end = true) as Hb by (by vm_compute).
  by rewrite E, E1 in Hb.
Qed.

#[local] Instance table_def_ok_dec name cols : Decision (table_def_ok name cols).
Proof. unfold table_def_ok. apply _. Defined.

Lemma demo_table :
  exists cat root s, table_at 5 s cat [table_entry (zstr "users") demo_columns root]
    (table_entry (zstr "users") demo_columns root) [] /\
    find_entry CATALOG_TYPE_TABLE (zstr "users" ++ [0]) [table_entry (zstr "users") demo_columns root] =
      Some (table_entry (zstr "users") demo_columns root).
Proof.
  destruct demo_catalog as (c & cat & s & _ & _ & Hrd & Hrep & Hca & Hfr & Hroom).
  destruct (create_table_entry_ok demo_stack demo_sql_stack 5 eq_refl s cat [] (zstr "users") demo_columns)
    as (root & s1 & _ & Ht); try done.
  - apply (bool_decide_unpack _). by vm_compute.
  - simpl. lia.
  - apply not_elem_of_nil.
  - by exists cat, root, s1.
Qed.

Lemma build_sql_spec_witness :
  exists sql', build_sql demo_sql_stack (zstr "users") demo_columns = Done sql' /\ length sql' = 512%nat /\
    cstr sql' (sql_text (zstr "users") demo_columns).
Proof.
  apply (build_sql_spec demo_sql_stack (zstr "users") demo_columns); [done|by vm_compute|].
  apply (bool_decide_unpack _). by vm_compute.
Defined.

Lemma build_sql_overflow_witness :
  build_sql demo_sql_stack (zstr "t") [mkColumnDef (replicate 500 97) COL_TYPE_TEXT false false false None] = Undef.
Proof.
  apply (build_sql_overflow demo_sql_stack (zstr "t") (mkColumnDef (replicate 500 97) COL_TYPE_TEXT false false false None));
    by vm_compute.
Defined.

Lemma session_invariant_witness :
  exists st : Storage PageCache,
    let ex := set_txn (executor_create (Some st)) 1 TXN_ACTIVE in
    txn_inv ex /\ handle_of ex = handle_of (executor_create (Some st)) /\
    rows_read ex = 0 /\ rows_written ex = 0 /\ scans_performed ex = 0.
Proof.
  destruct demo_catalog as (c & cat & s & _). exists (mkStorage s cat true).
  apply (session_invariant demo_stack demo_sql_stack demo_value_stack demo_row_stack 7 5 (Some (mkStorage s cat true))).
  apply (session_step _ _ _ _ _ _ _ (executor_create (Some (mkStorage s cat true))) 0 (AST_TRANSACTION TX_BEGIN)
    SUCCESS_CODE _ 0); [apply session_start|reflexivity].
Defined.

Lemma transactions_refine_automaton_witness :
  exists (st : Storage PageCache) ex', st_is_open st = true /\
    executor_exec demo_stack demo_sql_stack demo_value_stack demo_row_stack 7 5 (executor_create (Some st)) 0
      (AST_TRANSACTION TX_BEGIN) = Done (SUCCESS_CODE, ex', 0) /\ active ex' = true.
Proof.
  destruct demo_catalog as (c & cat & s & _).
  destruct (proj1 (transactions_refine_automaton demo_stack demo_sql_stack demo_value_stack demo_row_stack 7 5
    (mkStorage s cat true) (executor_create (Some (mkStorage s cat true))) 0 eq_refl
    (session_start _ _ _ _ _ _ _)) TX_BEGIN) as (ex' & E & Ha & _).
  by exists (mkStorage s cat true), ex'.
Defined.

Lemma create_table_uses_freed_tree_witness :
  exists c cat (s : PageCache), page_cache_create 100 4 (Some demo_pager) = Done c /\ catalog_open 5 c = Done (Some cat, s) /\
    executor_exec_create_table demo_stack demo_sql_stack 5 (executor_create (Some (mkStorage s cat true)))
      (zstr "users") demo_columns = Undef.
Proof.
  destruct demo_catalog as (c & cat & s & E & E1 & Hrd & Hrep & Hca & Hfr & Hroom).
  exists c, cat, s. split; [exact E|]. split; [exact E1|].
  assert (table_def_ok (zstr "users") demo_columns) as Hok by (apply (bool_decide_unpack _); by vm_compute).
  apply (create_table_uses_freed_tree demo_stack demo_sql_stack 7 5 eq_refl eq_refl
    (executor_create (Some (mkStorage s cat true))) (mkStorage s cat true) [] (zstr "users") demo_columns
    eq_refl Hrd Hrep Hca Hfr Hroom Hok); [simpl; lia|lia|apply not_elem_of_nil|reflexivity|simpl; lia].
Defined.

Definition demo_row : ValueList := [EXPR_LITERAL_INT 7; EXPR_LITERAL_STRING (zstr "ann" ++ [0]); EXPR_LITERAL_NULL].

Lemma executor_insert_spec_witness :
  exists cat root (s s' : PageCache), executor_exec_insert demo_stack demo_value_stack 7 5
      (executor_create (Some (mkStorage s cat true))) 0 (zstr "users") [demo_row] =
      Done (0, set_store (executor_create (Some (mkStorage s cat true))) (mkStorage s cat true) s', 1) /\
    table_at 5 s' cat [table_entry (zstr "users") demo_columns root] (table_entry (zstr "users") demo_columns root)
      [(1, [7; 0; 0; 0; 0; 0; 0; 0; 97; 110; 110; 0; 0])].
Proof.
  destruct demo_table as (cat & root & s & Ht & Hf).
  assert (literal_row demo_row) as Hok.
  { split; [simpl; lia|]. unfold demo_row. repeat constructor; unfold is_byte; lia. }
  pose proof (executor_insert_spec demo_stack demo_value_stack 7 5 eq_refl eq_refl
    (executor_create (Some (mkStorage s cat true))) 0 (zstr "users") demo_row Hok
    [table_entry (zstr "users") demo_columns root] (ta_ready _ _ _ _ _ _ Ht) (ta_cat _ _ _ _ _ _ Ht)
    ltac:(simpl; lia)) as Hi.
  rewrite Hf in Hi. destruct (proj2 Hi [] Ht) as (s' & E & Ht').
  exists cat, root, s, s'. split; [exact E|exact Ht'].
Defined.

Lemma executor_select_spec_witness :
  exists cat root (s s' : PageCache), executor_exec_select demo_stack demo_row_stack 7 5
      (executor_create (Some (mkStorage s cat true))) (zstr "users") =
      Done (SUCCESS_CODE, set_store (executor_create (Some (mkStorage s cat true))) (mkStorage s cat true) s') /\
    table_at 5 s' cat [table_entry (zstr "users") demo_columns root] (table_entry (zstr "users") demo_columns root) [].
Proof.
  destruct demo_table as (cat & root & s & Ht & Hf).
  destruct (proj1 (executor_select_spec demo_stack demo_row_stack 7 5 eq_refl eq_refl
    (executor_create (Some (mkStorage s cat true))) (mkStorage s cat true)
    [table_entry (zstr "users") demo_columns root] (table_entry (zstr "users") demo_columns root) [] (zstr "users")
    eq_refl Ht Hf ltac:(simpl; lia) (Forall_nil_2 _) ltac:(simpl; lia))) as (s' & E & Ht').
  by exists cat, root, s, s'.
Defined.

Lemma rollback_keeps_insert_witness :
  exists cat root (s : PageCache) ex' s',
    exec_all demo_stack demo_sql_stack demo_value_stack demo_row_stack 7 5
      (executor_create (Some (mkStorage s cat true))) 0
      [AST_TRANSACTION TX_BEGIN; AST_INSERT (zstr "users") [] [[EXPR_LITERAL_INT 7]]; AST_TRANSACTION TX_ROLLBACK] =
      Done ([SUCCESS_CODE; SUCCESS_CODE; SUCCESS_CODE], ex', 1) /\
    txn_state ex' = TXN_ROLLED_BACK /\ ex_storage ex' = Some (mkStorage s' cat true) /\
    table_at 5 s' cat [table_entry (zstr "users") demo_columns root] (table_entry (zstr "users") demo_columns root)
      [(1, [7; 0; 0; 0; 0; 0; 0; 0])].
Proof.
  destruct demo_table as (cat & root & s & Ht & Hf).
  destruct (rollback_keeps_insert demo_stack demo_sql_stack demo_value_stack demo_row_stack 7 5 eq_refl eq_refl
    (executor_create (Some (mkStorage s cat true))) (mkStorage s cat true)
    [table_entry (zstr "users") demo_columns root] (table_entry (zstr "users") demo_columns root) [] 0 (zstr "users")
    [] [[EXPR_LITERAL_INT 7]] eq_refl eq_refl eq_refl Ht Hf) as (ex' & s' & H); try done;
    [simpl; lia|repeat constructor|apply not_elem_of_nil|].
  exists cat, root, s, ex', s'. exact H.
Defined.
