(* ===== verification/ResultSet.v ===== *)
(** Model of the result sets and the SELECT helpers of src/sql/executor.c: WHERE,
    DISTINCT, LIMIT and OFFSET, and the projection of columns. *)
From Stdlib Require Import ZArith Lia String SpecFloat.
From stdpp Require Import base numbers option list.
From S2P Require Import Prelude CString Double Fields Ast Expression.

(** [rs_rows] are the slots of the array that have been written; [row_count] of them
    are the rows of the result. *)
Record ResultSet : Type := mkResultSet {
  rs_rows : list (list Value);
  row_count : Z;
  rs_column_count : Z;
  rs_capacity : Z }.

(** A result of type int. *)
Definition int32 (z : Z) : outcome Z := if (- 2 ^ 31 <=? z) && (z <? 2 ^ 31) then Done z else Undef.

Definition set_rows (rs : ResultSet) (rows : list (list Value)) (count : Z) : ResultSet :=
  mkResultSet rows count (rs_column_count rs) (rs_capacity rs).

Definition result_set_create (initial_capacity : Z) : ResultSet :=
  mkResultSet [] 0 0 (if 0 <? initial_capacity then initial_capacity else 16).

Definition result_set_add_row (rs : ResultSet) (row : list Value) : outcome (Z * ResultSet) :=
  let* capacity := if rs_capacity rs <=? row_count rs then int32 (rs_capacity rs * 2) else Done (rs_capacity rs) in
  if (row_count rs <? 0) || (len (rs_rows rs) <? row_count rs) then Undef else
  let i := Z.to_nat (row_count rs) in
  Done (0, mkResultSet (take i (rs_rows rs) ++ row :: drop (S i) (rs_rows rs)) (row_count rs + 1)
             (rs_column_count rs) capacity).

(** executor_select, not implemented. *)
Definition executor_select : ResultSet := result_set_create 16.

(** ** WHERE *)

Definition select_apply_where (fuel : nat) (row : Row) (where_ : option Expression) : outcome bool :=
  match where_ with
  | None => Done true
  | Some e => let* v := expr_eval fuel row e in Done (value_is_truthy v)
  end.

(** ** DISTINCT *)

(** The columns of two rows, until one differs. *)
Fixpoint same_columns (n : nat) (a b : list Value) : outcome bool :=
  match n with
  | O => Done true
  | S n =>
      match a, b with
      | x :: a, y :: b =>
          let* r := value_compare x y in
          if negb (r =? 0) then Done false else same_columns n a b
      | _, _ => Undef
      end
  end.

(** The comparison with the rows kept so far. *)
Fixpoint is_duplicate (cols : nat) (row : list Value) (kept : list (list Value)) : outcome bool :=
  match kept with
  | [] => Done false
  | k :: kept =>
      let* same := same_columns cols row k in
      if same : bool then Done true else is_duplicate cols row kept
  end.

(** [k] turns of the outer loop, at [read_idx] and [write_idx], in place. *)
Fixpoint distinct_loop (k cols read_idx write_idx : nat) (rows : list (list Value))
    : outcome (list (list Value) * nat) :=
  match k with
  | O => Done (rows, write_idx)
  | S k =>
      let* row := outcome_of_option (rows !! read_idx) in
      let* dup := is_duplicate cols row (take write_idx rows) in
      if dup : bool then distinct_loop k cols (S read_idx) write_idx rows
      else
        let rows := if decide (write_idx = read_idx) then rows else <[write_idx := row]> rows in
        distinct_loop k cols (S read_idx) (S write_idx) rows
  end.

Definition select_apply_distinct (rs : ResultSet) : outcome ResultSet :=
  if row_count rs =? 0 then Done rs else
  let* '(rows, write_idx) := distinct_loop (Z.to_nat (row_count rs)) (Z.to_nat (rs_column_count rs)) 0 0 (rs_rows rs) in
  Done (set_rows rs rows (Z.of_nat write_idx)).

(** ** ORDER BY: not implemented *)

Definition select_apply_order_by (rs : ResultSet) (order_by : list OrderByItem) : ResultSet := rs.

(** ** LIMIT and OFFSET *)

(** An int from an expression; [dflt] when there is none or it is no integer. *)
Definition limit_value (fuel : nat) (e : option Expression) (dflt : Z) : outcome Z :=
  match e with
  | None => Done dflt
  | Some e =>
      let* v := expr_eval fuel no_row e in
      Done (match v with VInt z => i32 z | _ => dflt end)
  end.

(** for (i = offset_val; i < row_count; i++) rows[i - offset_val] = rows[i]; [k] turns. *)
Fixpoint shift_rows (k i offset : nat) (rows : list (list Value)) : outcome (list (list Value)) :=
  match k with
  | O => Done rows
  | S k =>
      let* row := outcome_of_option (rows !! i) in
      shift_rows k (S i) offset (<[(i - offset)%nat := row]> rows)
  end.

Definition select_apply_limit (fuel : nat) (rs : ResultSet) (limit offset : option Expression) : outcome ResultSet :=
  if row_count rs =? 0 then Done rs else
  let* offset_val := limit_value fuel offset 0 in
  let* limit_val := limit_value fuel limit (row_count rs) in
  if row_count rs <=? offset_val then Done (set_rows rs (rs_rows rs) 0) else
  let* sum := int32 (offset_val + limit_val) in
  let* limit_val := if row_count rs <? sum then int32 (row_count rs - offset_val) else Done limit_val in
  let* rs :=
    if 0 <? offset_val then
      let* rows := shift_rows (Z.to_nat (row_count rs - offset_val)) (Z.to_nat offset_val) (Z.to_nat offset_val)
                     (rs_rows rs) in
      Done (set_rows rs rows (row_count rs - offset_val))
    else Done rs in
  Done (if limit_val <? row_count rs then set_rows rs (rs_rows rs) limit_val else rs).

(** ** Columns *)

(** The count of columns, their names (None: not initialized) and the zeroed row. *)
Definition select_init_query (columns : list ColumnList) : Z * list (option (list Z)) * list Value :=
  match columns with
  | [] => (16, replicate 16 None, replicate 16 VNull)
  | _ => (len columns, (fun c => Some (cl_name c)) <$> columns, replicate (length columns) VNull)
  end.

(** The search of a source column; a name may be NULL. *)
Fixpoint find_source (names : list (option (list Z))) (name : list Z) (i : Z) : outcome Z :=
  match names with
  | [] => Done (-1)
  | n :: names =>
      let* eq := match n with
                 | Some n => let* r := strcmp (name ++ [0]) (n ++ [0]) in Done (r =? 0)
                 | None => Done false
                 end in
      if eq : bool then Done i else find_source names name (i + 1)
  end.

(** One output column: its value and its name (None: not initialized). *)
Definition project_column (row : list Value) (names : list (option (list Z))) (col : ColumnList)
    : outcome (Value * option (option (list Z))) :=
  let* src_idx := find_source names (cl_name col) 0 in
  if 0 <=? src_idx then
    let* name := outcome_of_option (names !! Z.to_nat src_idx) in
    let* v := outcome_of_option (row !! Z.to_nat src_idx) in
    Done (v, Some name)
  else Done (VNull, None).

Fixpoint project_columns (row : list Value) (names : list (option (list Z))) (columns : list ColumnList)
    : outcome (list (Value * option (option (list Z)))) :=
  match columns with
  | [] => Done []
  | col :: columns =>
      let* x := project_column row names col in
      let* xs := project_columns row names columns in
      Done (x :: xs)
  end.

(** SELECT * is the row itself with the source names. *)
Definition select_project_columns (row : list Value) (src_column_count : Z) (src_column_names : list (option (list Z)))
    (columns : list ColumnList) : outcome (list Value * list (option (option (list Z)))) :=
  let* names := buf_read 0 src_column_count src_column_names in
  match columns with
  | [] => Done (row, Some <$> names)
  | _ => let* xs := project_columns row names columns in Done (xs.*1, xs.*2)
  end.

(** ** DISTINCT computes the first occurrences *)

Lemma value_compare_total a b : exists r, value_compare a b = Done r.
Proof.
  unfold value_compare. destruct (value_is_null a && value_is_null b); [by eexists|].
  destruct (value_is_null a); [by eexists|]. destruct (value_is_null b); [by eexists|].
  destruct a, b; try (by eexists); rewrite compare_bytes_lex; by eexists.
Qed.

(** Two rows agree on the first [n] columns. *)
Definition same_row (n : nat) (a b : list Value) : bool :=
  match same_columns n a b with Done b => b | _ => false end.

Definition wide_enough (n : nat) (row : list Value) : Prop := (n <= length row)%nat.

Lemma same_columns_ok n a b :
  wide_enough n a -> wide_enough n b -> same_columns n a b = Done (same_row n a b).
Proof.
  unfold same_row, wide_enough. intros Ha Hb.
  assert (exists x, same_columns n a b = Done x) as [x ->]; [|done].
  revert a b Ha Hb. induction n as [|n IH]; intros [|x a] [|y b] Ha Hb; simpl in *; try (by eexists); try lia.
  destruct (value_compare_total x y) as [r ->]. rewrite bind_Done. destruct (negb (r =? 0)); [by eexists|].
  apply IH; lia.
Qed.

(** The reference: keep a row unless a kept row agrees with it. *)
Fixpoint distinct_rows (n : nat) (kept rows : list (list Value)) : list (list Value) :=
  match rows with
  | [] => kept
  | row :: rows =>
      if existsb (same_row n row) kept then distinct_rows n kept rows
      else distinct_rows n (kept ++ [row]) rows
  end.

Lemma is_duplicate_ok n row kept :
  wide_enough n row -> Forall (wide_enough n) kept -> is_duplicate n row kept = Done (existsb (same_row n row) kept).
Proof.
  intros Hr Hk. induction Hk as [|k kept Hw Hk IH]; [done|]. cbn [is_duplicate existsb].
  rewrite same_columns_ok, bind_Done by done. destruct (same_row n row k); [done|exact IH].
Qed.

Lemma distinct_loop_ok n rest rows read_idx write_idx tail :
  Forall (wide_enough n) rest -> Forall (wide_enough n) (take write_idx rows) ->
  drop read_idx rows = rest ++ tail -> (write_idx <= read_idx)%nat -> (read_idx <= length rows)%nat ->
  exists rows' w, distinct_loop (length rest) n read_idx write_idx rows = Done (rows', w) /\
    take w rows' = distinct_rows n (take write_idx rows) rest /\ (w <= length rows')%nat /\ length rows' = length rows.
Proof.
  intros Hrest. revert rows read_idx write_idx.
  induction Hrest as [|row rest Hrow Hrest IH]; intros rows read_idx write_idx Hk Hd Hle Hlen; cbn [length distinct_loop distinct_rows].
  { exists rows, write_idx. split_and!; try done. lia. }
  assert (rows !! read_idx = Some row) as Hx by (rewrite <- (Nat.add_0_r read_idx), <- lookup_drop, Hd; done).
  pose proof (lookup_lt_Some _ _ _ Hx) as Hlt. rewrite Hx. cbn [outcome_of_option]. rewrite bind_Done, is_duplicate_ok, bind_Done by done.
  assert (drop (S read_idx) rows = rest ++ tail) as Hd'.
  { apply (f_equal (drop 1)) in Hd. rewrite drop_drop in Hd. by rewrite Nat.add_comm in Hd. }
  destruct (existsb (same_row n row) (take write_idx rows)); [apply IH; try done; lia|].
  set (rows1 := if decide (write_idx = read_idx) then rows else <[write_idx:=row]> rows).
  assert (rows1 = <[write_idx:=row]> rows) as E1.
  { unfold rows1. case_decide as E; [|done]. subst. by rewrite list_insert_id. }
  assert (take (S write_idx) rows1 = take write_idx rows ++ [row]) as Ht.
  { rewrite E1, (take_S_r _ _ row) by (apply list_lookup_insert_eq; lia). by rewrite take_insert_ge. }
  destruct (IH rows1 (S read_idx) (S write_idx)) as (rows' & w & -> & Hw & Hwl & Hl).
  - rewrite Ht. apply Forall_app. split; [done|by constructor].
  - rewrite E1, drop_insert_lt by lia. done.
  - lia.
  - rewrite E1, length_insert. lia.
  - exists rows', w. split; [done|]. rewrite Hw, Ht. split_and!; try done. by rewrite Hl, E1, length_insert.
Qed.

(** What the reference computes. *)
Lemma distinct_rows_pairwise n kept rows :
  (forall i j a b, kept !! i = Some a -> kept !! j = Some b -> (i < j)%nat -> same_row n b a = false) ->
  forall i j a b, distinct_rows n kept rows !! i = Some a -> distinct_rows n kept rows !! j = Some b ->
    (i < j)%nat -> same_row n b a = false.
Proof.
  revert kept. induction rows as [|row rows IH]; intros kept Hk; cbn [distinct_rows]; [done|].
  destruct (existsb (same_row n row) kept) eqn:E; [by apply IH|]. apply IH. intros i j a b Ha Hb Hij.
  destruct (decide (j < length kept)%nat) as [Hj|Hj].
  - rewrite lookup_app_l in Ha, Hb by lia. by eapply (Hk i j).
  - pose proof (lookup_lt_Some _ _ _ Hb) as Hlt. rewrite length_app in Hlt. simpl in Hlt.
    rewrite lookup_app_r in Hb by lia. replace (j - length kept)%nat with 0%nat in Hb by lia. injection Hb as <-.
    rewrite lookup_app_l in Ha by lia. apply not_true_is_false. intros Hs.
    assert (existsb (same_row n row) kept = true) as Hex; [|congruence].
    apply existsb_exists. exists a. split; [|done]. by eapply list_elem_of_In, list_elem_of_lookup_2.
Qed.

Lemma distinct_rows_sublist n kept rows : distinct_rows n kept rows `sublist_of` kept ++ rows.
Proof.
  revert kept. induction rows as [|row rows IH]; intros kept; cbn [distinct_rows]; [by rewrite app_nil_r|].
  destruct (existsb (same_row n row) kept).
  - etrans; [apply IH|]. apply sublist_app; [done|]. by constructor.
  - etrans; [apply IH|]. by rewrite <- app_assoc.
Qed.

Lemma distinct_rows_kept n kept rows k : k ∈ kept -> k ∈ distinct_rows n kept rows.
Proof.
  revert kept. induction rows as [|row rows IH]; intros kept Hk; cbn [distinct_rows]; [done|].
  destruct (existsb (same_row n row) kept); apply IH; [done|]. apply elem_of_app. by left.
Qed.

Lemma distinct_rows_cover n kept rows row :
  row ∈ rows -> row ∈ distinct_rows n kept rows \/ exists k, k ∈ distinct_rows n kept rows /\ same_row n row k = true.
Proof.
  revert kept. induction rows as [|r rows IH]; intros kept; [by intros ?%elem_of_nil|]. cbn [distinct_rows].
  intros [->|Hin]%elem_of_cons.
  - destruct (existsb (same_row n r) kept) eqn:E.
    + right. apply existsb_exists in E as (k & Hk & Hs). exists k. split; [|done].
      by apply distinct_rows_kept, list_elem_of_In.
    + left. apply distinct_rows_kept, elem_of_app. right. by left.
  - destruct (existsb (same_row n r) kept); by apply IH.
Qed.

(** C13: the in-place DISTINCT is the reference algorithm: the rows left are, in their
    order, the rows that agree with no earlier row left; no two of them agree on the
    columns, and every row of the result agrees with one that is left. *)
Theorem select_apply_distinct_spec (rs : ResultSet) :
  0 <= row_count rs <= len (rs_rows rs) -> Forall (wide_enough (Z.to_nat (rs_column_count rs))) (rs_rows rs) ->
  let cols := Z.to_nat (rs_column_count rs) in
  let rows := take (Z.to_nat (row_count rs)) (rs_rows rs) in
  exists rs', select_apply_distinct rs = Done rs' /\
    let rows' := take (Z.to_nat (row_count rs')) (rs_rows rs') in
    rows' = distinct_rows cols [] rows /\ rows' `sublist_of` rows /\
    (forall i j a b, rows' !! i = Some a -> rows' !! j = Some b -> (i < j)%nat -> same_row cols b a = false) /\
    (forall row, row ∈ rows -> row ∈ rows' \/ exists k, k ∈ rows' /\ same_row cols row k = true).
Proof.
  intros Hc Hw cols rows.
  assert (exists rs', select_apply_distinct rs = Done rs' /\
    take (Z.to_nat (row_count rs')) (rs_rows rs') = distinct_rows cols [] rows) as (rs' & E & Hr).
  { unfold select_apply_distinct. destruct (Z.eqb_spec (row_count rs) 0) as [E0|E0].
    - exists rs. unfold rows. rewrite E0. done.
    - assert (length rows = Z.to_nat (row_count rs)) as Hl by (unfold rows; rewrite length_take; lia).
      destruct (distinct_loop_ok cols rows (rs_rows rs) 0 0 (drop (Z.to_nat (row_count rs)) (rs_rows rs)))
        as (rows' & w & E & Hw' & Hwl & _); [by apply Forall_take| |by unfold rows; rewrite drop_0, take_drop|lia|lia|].
      { by rewrite take_0. }
      fold cols. rewrite <- Hl, E, bind_Done. eexists. split; [done|]. simpl. rewrite Nat2Z.id, Hw'. by rewrite take_0. }
  exists rs'. split; [done|]. cbv zeta. rewrite Hr. split_and!; [done| | |].
  - apply (distinct_rows_sublist cols [] rows).
  - apply distinct_rows_pairwise. by intros i j a b Ha.
  - intros row. apply distinct_rows_cover.
Qed.

(** ** LIMIT and OFFSET take a segment *)

Lemma shift_rows_ok k off (rows : list (list Value)) i :
  (off <= i)%nat -> (i + k <= length rows)%nat ->
  exists rows', shift_rows k i off rows = Done rows' /\ length rows' = length rows /\
    take (i - off + k) rows' = take (i - off) rows ++ take k (drop i rows).
Proof.
  revert i rows. induction k as [|k IH]; intros i rows Ho Hl; cbn [shift_rows].
  { exists rows. rewrite Nat.add_0_r, take_0, app_nil_r. done. }
  destruct (rows !! i) as [row|] eqn:Hx; [|apply lookup_ge_None in Hx; lia]. cbn [outcome_of_option]. rewrite bind_Done.
  destruct (IH (S i) (<[(i - off)%nat:=row]> rows)) as (rows' & -> & Hl' & Ht); [lia|rewrite length_insert; lia|].
  exists rows'. split; [done|]. rewrite length_insert in Hl'. split; [done|].
  replace (S i - off)%nat with (S (i - off)) in Ht by lia.
  replace (i - off + S k)%nat with (S (i - off) + k)%nat by lia. rewrite Ht.
  rewrite (take_S_r _ _ row) by (apply list_lookup_insert_eq; lia). rewrite take_insert_ge by lia.
  rewrite drop_insert_lt by lia. rewrite <- app_assoc. f_equal. by rewrite (drop_S rows row i).
Qed.

Lemma int32_Done z : - 2 ^ 31 <= z < 2 ^ 31 -> int32 z = Done z.
Proof. intros Hz. unfold int32. destruct (Z.leb_spec (- 2 ^ 31) z), (Z.ltb_spec z (2 ^ 31)); done || lia. Qed.

(** [e] evaluates to the int [v]; a clause that is missing stands for [dflt]. *)
Definition clause_value (fuel : nat) (e : option Expression) (dflt v : Z) : Prop :=
  match e with
  | None => v = dflt
  | Some e => expr_eval fuel no_row e = Done (VInt v)
  end.

Lemma limit_value_ok fuel e dflt v :
  clause_value fuel e dflt v -> - 2 ^ 31 <= v < 2 ^ 31 -> limit_value fuel e dflt = Done v.
Proof.
  intros Hv Hb. destruct e as [e|]; simpl in *; [|by subst]. rewrite Hv, bind_Done. f_equal.
  unfold i32, signed. destruct (Z.ltb_spec (v mod 2 ^ 32) (2 ^ (32 - 1))) as [Hm|Hm].
  - destruct (Z_lt_le_dec v 0); [|rewrite Z.mod_small; lia].
    rewrite <- (Z.mod_add v 1) in Hm by lia. rewrite Z.mod_small in Hm; lia.
  - destruct (Z_lt_le_dec v 0); [|rewrite Z.mod_small in Hm; lia].
    rewrite <- (Z.mod_add v 1) by lia. rewrite Z.mod_small; lia.
Qed.

(** LIMIT l OFFSET o with nonnegative ints leaves the rows o to o + l - 1 of the
    result, fewer where it ends earlier; a missing LIMIT leaves the rest and a missing
    OFFSET starts at the first row. The sum must fit an int: LIMIT 2147483647 with an
    OFFSET of 1 or more (inside the result) is a signed overflow. *)
Theorem select_apply_limit_spec (fuel : nat) (rs : ResultSet) (limit offset : option Expression) (l o : Z) :
  0 <= row_count rs <= len (rs_rows rs) -> row_count rs < 2 ^ 31 ->
  clause_value fuel limit (row_count rs) l -> clause_value fuel offset 0 o -> 0 <= l < 2 ^ 31 -> 0 <= o < 2 ^ 31 ->
  if (o + l <? 2 ^ 31) || (row_count rs <=? o)
  then exists rs', select_apply_limit fuel rs limit offset = Done rs' /\
    take (Z.to_nat (row_count rs')) (rs_rows rs') =
      take (Z.to_nat l) (drop (Z.to_nat o) (take (Z.to_nat (row_count rs)) (rs_rows rs)))
  else select_apply_limit fuel rs limit offset = Undef.
Proof.
  intros Hc Hc31 Hl Ho Hlb Hob. unfold select_apply_limit.
  destruct (Z.eqb_spec (row_count rs) 0) as [E0|E0].
  { rewrite E0. destruct (Z.leb_spec 0 o); [|lia]. rewrite orb_true_r. exists rs. split; [done|].
    rewrite E0. simpl. by rewrite take_0, drop_nil, take_nil. }
  rewrite (limit_value_ok fuel offset 0 o Ho), bind_Done by lia.
  rewrite (limit_value_ok fuel limit (row_count rs) l Hl), bind_Done by lia.
  destruct (Z.leb_spec (row_count rs) o) as [Hoc|Hoc].
  { rewrite orb_true_r. eexists. split; [done|]. simpl.
    rewrite take_0, drop_ge, take_nil by (rewrite length_take; lia). done. }
  rewrite orb_false_r. destruct (Z.ltb_spec (o + l) (2 ^ 31)) as [Hs|Hs].
  2: { unfold int32. destruct (Z.ltb_spec (o + l) (2 ^ 31)); [lia|]. by rewrite andb_false_r. }
  rewrite int32_Done, bind_Done by lia.
  set (m := Z.min l (row_count rs - o)).
  assert ((if row_count rs <? o + l then int32 (row_count rs - o) else Done l) = Done m) as ->.
  { unfold m. destruct (Z.ltb_spec (row_count rs) (o + l)); [rewrite int32_Done by lia|]; f_equal; lia. }
  rewrite bind_Done. set (rows := take (Z.to_nat (row_count rs)) (rs_rows rs)).
  assert (take (Z.to_nat l) (drop (Z.to_nat o) rows) = take (Z.to_nat m) (drop (Z.to_nat o) (rs_rows rs))) as ->.
  { unfold rows. rewrite skipn_firstn_comm, take_take. f_equal. unfold m. lia. }
  destruct (Z.ltb_spec 0 o) as [Hop|Hop].
  - destruct (shift_rows_ok (Z.to_nat (row_count rs - o)) (Z.to_nat o) (rs_rows rs) (Z.to_nat o))
      as (rows' & -> & _ & Ht); [lia|lia|].
    rewrite !bind_Done. rewrite Nat.sub_diag, take_0 in Ht. cbn [Nat.add app] in Ht.
    eexists. split; [done|]. cbn [set_rows row_count rs_rows].
    assert (forall a, a <= row_count rs - o -> take (Z.to_nat a) rows' = take (Z.to_nat a) (drop (Z.to_nat o) (rs_rows rs))) as Ha.
    { intros a Ha. apply (f_equal (take (Z.to_nat a))) in Ht. rewrite !take_take, Nat.min_l in Ht by lia. done. }
    destruct (Z.ltb_spec m (row_count rs - o)); cbn [set_rows row_count rs_rows]; rewrite Ha by lia; f_equal; lia.
  - rewrite bind_Done. assert (o = 0) as -> by lia. rewrite drop_0. eexists. split; [done|].
    destruct (Z.ltb_spec m (row_count rs)); cbn [set_rows row_count rs_rows]; [done|]. f_equal. lia.
Qed.

(** A negative LIMIT is neither refused nor ignored: it becomes the row count, and
    adding a row to that result writes in front of its array. *)
Theorem negative_limit_row_count (fuel : nat) (rs : ResultSet) (limit : option Expression) (l : Z) (row : list Value) :
  0 < row_count rs < 2 ^ 31 -> clause_value fuel limit (row_count rs) l -> - 2 ^ 31 <= l < 0 ->
  exists rs', select_apply_limit fuel rs limit None = Done rs' /\ row_count rs' = l /\
    (0 < rs_capacity rs -> result_set_add_row rs' row = Undef).
Proof.
  intros Hc Hl Hlb. unfold select_apply_limit. destruct (Z.eqb_spec (row_count rs) 0); [lia|].
  cbn [limit_value]. rewrite bind_Done, (limit_value_ok fuel limit (row_count rs) l Hl), bind_Done by lia.
  destruct (Z.leb_spec (row_count rs) 0); [lia|]. rewrite int32_Done, bind_Done by lia.
  destruct (Z.ltb_spec (row_count rs) (0 + l)); [lia|]. rewrite bind_Done. change (0 <? 0) with false. cbv iota. rewrite bind_Done.
  destruct (Z.ltb_spec l (row_count rs)); [|lia]. eexists. split; [done|]. split; [done|]. intros Hcap.
  unfold result_set_add_row. cbn [set_rows row_count rs_capacity rs_rows].
  destruct (Z.leb_spec (rs_capacity rs) l); [lia|]. rewrite bind_Done. by destruct (Z.ltb_spec l 0); [|lia].
Qed.

(** ** Projection *)

(** The first source column of a name. *)
Definition source_index (names : list (option (list Z))) (name : list Z) : option nat :=
  fst <$> list_find (fun n => n = Some name) names.

Definition terminated_names (names : list (option (list Z))) : Prop :=
  Forall (fun n => match n with Some n => 0 ∉ n | None => True end) names.

Lemma find_source_ok names name i :
  0 ∉ name -> terminated_names names ->
  find_source names name i = Done (match source_index names name with Some j => i + Z.of_nat j | None => -1 end).
Proof.
  intros Hz Hn. unfold source_index. revert i. induction Hn as [|n names Hx Hn IH]; intros i; [done|].
  cbn [find_source list_find].
  assert ((match n with
           | Some n => let* r := strcmp (name ++ [0]) (n ++ [0]) in Done (r =? 0)
           | None => Done false
           end) = Done (bool_decide (n = Some name))) as ->.
  { destruct n as [n|]; [|done].
    destruct (strcmp_cstr (name ++ [0]) (n ++ [0]) name n) as (r & -> & Hr); [by split; [exists []|]..|].
    rewrite bind_Done. f_equal. case_bool_decide as E; destruct (Z.eqb_spec r 0); try done.
    - injection E as ->. tauto.
    - destruct E. f_equal. symmetry. tauto. }
  rewrite bind_Done. case_bool_decide as E; case_decide; try done; [simpl; f_equal; lia|].
  rewrite IH. destruct (list_find _ names) as [[j x]|]; simpl; f_equal; lia.
Qed.

Definition projected (row : list Value) (names : list (option (list Z))) (col : ColumnList) : Value :=
  match source_index names (cl_name col) with
  | Some i => default VNull (row !! i)
  | None => VNull
  end.

(** The projection gives for every selected column the value of the first source
    column with its name, and NULL where there is none; SELECT * gives the row. *)
Theorem select_project_columns_spec (row : list Value) (names : list (option (list Z))) (columns : list ColumnList) :
  length row = length names -> terminated_names names -> Forall (fun c => 0 ∉ cl_name c) columns ->
  exists out_names, select_project_columns row (len names) names columns =
    Done (match columns with [] => row | _ => projected row names <$> columns end, out_names) /\
    length out_names = match columns with [] => length names | _ => length columns end.
Proof.
  intros Hl Hn Hc. unfold select_project_columns. rewrite buf_read_all, bind_Done by done.
  assert (exists xs, project_columns row names columns = Done xs /\ xs.*1 = projected row names <$> columns /\
    length xs = length columns) as (xs & E & Hx & Hlx).
  { clear -Hl Hn Hc. induction Hc as [|c columns Hz Hc (xs & IH & Hx & Hlx)]; [by exists []|].
    cbn [project_columns]. unfold project_column. rewrite find_source_ok, bind_Done by done.
    destruct (source_index names (cl_name c)) as [i|] eqn:Hi.
    - destruct (Z.leb_spec 0 (0 + Z.of_nat i)); [|lia]. replace (Z.to_nat (0 + Z.of_nat i)) with i by lia.
      assert (i < length names)%nat as Hlt.
      { unfold source_index in Hi. destruct (list_find _ names) as [[j x]|] eqn:Hf; [|done].
        apply list_find_Some in Hf as (Hf & _). injection Hi as ->. by eapply lookup_lt_Some. }
      destruct (lookup_lt_is_Some_2 names i Hlt) as [x Hxi].
      destruct (lookup_lt_is_Some_2 row i ltac:(lia)) as [v Hv]. rewrite Hxi, Hv. cbn [outcome_of_option].
      rewrite !bind_Done, IH, bind_Done. eexists. split; [done|]. rewrite !fmap_cons, Hx. simpl. split; [|by rewrite Hlx].
      f_equal. unfold projected. by rewrite Hi, Hv.
    - change (0 <=? -1) with false. cbv iota. rewrite bind_Done, IH, bind_Done. eexists. split; [done|].
      rewrite !fmap_cons, Hx. simpl. split; [|by rewrite Hlx]. f_equal. unfold projected. by rewrite Hi. }
  destruct columns as [|c columns].
  - eexists. split; [done|]. by rewrite length_fmap.
  - rewrite E, bind_Done, Hx. eexists. split; [done|]. by rewrite length_fmap.
Qed.

(** ** Result sets grow without losing rows *)

(** Rows 0 to row_count - 1 of a result set. *)
Definition rows_of (rs : ResultSet) : list (list Value) := take (Z.to_nat (row_count rs)) (rs_rows rs).

Record rs_wf (rs : ResultSet) : Prop := {
  rw_count : 0 <= row_count rs <= len (rs_rows rs);
  rw_capacity : 0 < rs_capacity rs < 2 ^ 31;
  rw_room : row_count rs <= rs_capacity rs }.

Lemma result_set_create_wf n : n < 2 ^ 31 -> rs_wf (result_set_create n) /\ rows_of (result_set_create n) = [].
Proof. intros Hn. split; [|done]. constructor; simpl; destruct (Z.ltb_spec 0 n); lia. Qed.

(** Adding a row to a result set of fewer than 2^30 rows succeeds, appends it behind
    the rows already there, and leaves room within the capacity, doubled when it was
    used up. *)
Theorem result_set_add_row_spec (rs : ResultSet) (row : list Value) :
  rs_wf rs -> rs_capacity rs < 2 ^ 30 ->
  exists rs', result_set_add_row rs row = Done (0, rs') /\ rs_wf rs' /\ rows_of rs' = rows_of rs ++ [row] /\
    row_count rs' = row_count rs + 1.
Proof.
  intros [Hc Hcap Hroom] Hlt. unfold result_set_add_row.
  set (cap := if rs_capacity rs <=? row_count rs then rs_capacity rs * 2 else rs_capacity rs).
  assert ((if rs_capacity rs <=? row_count rs then int32 (rs_capacity rs * 2) else Done (rs_capacity rs)) = Done cap) as ->.
  { unfold cap. destruct (rs_capacity rs <=? row_count rs); [|done]. by rewrite int32_Done by lia. }
  rewrite bind_Done. destruct (Z.ltb_spec (row_count rs) 0); [lia|].
  destruct (Z.ltb_spec (len (rs_rows rs)) (row_count rs)); [lia|]. cbn [orb].
  eexists. split; [done|]. split; [|split; [|done]].
  - assert (row_count rs + 1 <= cap < 2 ^ 31 /\ 0 < cap) as Hcc by (unfold cap; zcase).
    constructor; cbn [row_count rs_rows rs_capacity]; [|lia|lia].
    rewrite length_app, length_take. simpl. lia.
  - unfold rows_of. cbn [row_count rs_rows]. rewrite Z2Nat.inj_add by lia. change (Z.to_nat 1) with 1%nat.
    rewrite Nat.add_1_r. assert (length (take (Z.to_nat (row_count rs)) (rs_rows rs)) = Z.to_nat (row_count rs)) as Hl
      by (rewrite length_take; lia).
    rewrite take_app_ge, Hl by lia. by replace (S (Z.to_nat (row_count rs)) - Z.to_nat (row_count rs))%nat with 1%nat by lia.
Qed.

(** ** Witnesses *)

Definition demo_rows : list (list Value) :=
  [[VInt 1; VText [97]]; [VInt 2; VNull]; [VInt 1; VText [97]]; [VInt 3; VInt 4]].

Definition demo_rs : ResultSet := mkResultSet demo_rows 4 2 16.

Lemma select_apply_distinct_spec_witness :
  exists rs', select_apply_distinct demo_rs = Done rs' /\
    take (Z.to_nat (row_count rs')) (rs_rows rs') = [[VInt 1; VText [97]]; [VInt 2; VNull]; [VInt 3; VInt 4]].
Proof.
  destruct (select_apply_distinct_spec demo_rs) as (rs' & E & Hr & _).
  - unfold demo_rs. simpl. lia.
  - unfold demo_rs, demo_rows, wide_enough. simpl. repeat constructor.
  - exists rs'. split; [exact E|]. exact Hr.
Defined.

Lemma select_apply_limit_spec_witness :
  (exists rs', select_apply_limit 1 demo_rs (Some (EXPR_LITERAL_INT 2)) (Some (EXPR_LITERAL_INT 1)) = Done rs' /\
    take (Z.to_nat (row_count rs')) (rs_rows rs') = [[VInt 2; VNull]; [VInt 1; VText [97]]]) /\
  select_apply_limit 1 demo_rs (Some (EXPR_LITERAL_INT 2147483647)) (Some (EXPR_LITERAL_INT 1)) = Undef.
Proof.
  split.
  - exact (select_apply_limit_spec 1 demo_rs (Some (EXPR_LITERAL_INT 2)) (Some (EXPR_LITERAL_INT 1)) 2 1
      ltac:(simpl; lia) ltac:(simpl; lia) eq_refl eq_refl ltac:(lia) ltac:(lia)).
  - exact (select_apply_limit_spec 1 demo_rs (Some (EXPR_LITERAL_INT 2147483647)) (Some (EXPR_LITERAL_INT 1)) 2147483647 1
      ltac:(simpl; lia) ltac:(simpl; lia) eq_refl eq_refl ltac:(lia) ltac:(lia)).
Defined.

Lemma negative_limit_row_count_witness :
  exists rs', select_apply_limit 1 demo_rs (Some (EXPR_LITERAL_INT (-1))) None = Done rs' /\ row_count rs' = -1 /\
    (0 < rs_capacity demo_rs -> result_set_add_row rs' [] = Undef).
Proof.
  apply (negative_limit_row_count 1 demo_rs (Some (EXPR_LITERAL_INT (-1))) (-1) []); [simpl; lia|reflexivity|lia].
Defined.

Lemma select_project_columns_spec_witness :
  exists out_names, select_project_columns [VInt 1; VInt 2] 2 [Some (zstr "a"); Some (zstr "b")]
    [mkColumnList (zstr "b") None; mkColumnList (zstr "c") None] = Done ([VInt 2; VNull], out_names) /\
    length out_names = 2%nat.
Proof.
  apply (select_project_columns_spec [VInt 1; VInt 2] [Some (zstr "a"); Some (zstr "b")]
    [mkColumnList (zstr "b") None; mkColumnList (zstr "c") None]); [done| |];
    repeat constructor; apply (bool_decide_unpack _); by vm_compute.
Defined.

Lemma result_set_add_row_spec_witness :
  exists rs', result_set_add_row (result_set_create 16) [VInt 1] = Done (0, rs') /\ rs_wf rs' /\
    rows_of rs' = rows_of (result_set_create 16) ++ [[VInt 1]] /\ row_count rs' = row_count (result_set_create 16) + 1.
Proof.
  apply (result_set_add_row_spec (result_set_create 16) [VInt 1]); [|simpl; lia].
  constructor; simpl; lia.
Defined.
