(* ===== verification/ValueMem.v ===== *)
(** The memory of src/sql/expression.c: values are structs on a heap, their texts and
    blobs are blocks of their own, and the evaluation of an expression allocates and
    frees them. [expr_eval_mem] is [Expression.expr_eval] with every allocation, copy
    and free of the code; it has the same results, frees all it allocates but the
    result, and touches nothing else. The expression and the column names are only
    read and stay values. malloc(0) gives a block like any other. *)
From Stdlib Require Import ZArith Lia String.
From stdpp Require Import base numbers option list gmap.
From S2P Require Import Prelude Heaps CString Double Lexer Fields Ast Expression ResultSet.

(** ** Objects *)

(** A Value struct: its type and its union. *)
Inductive VCell : Type :=
  | CUninit
  | CNull
  | CInt (z : Z)
  | CFloat (d : double)
  | CText (str : loc) (n : Z)
  | CBlob (blob : loc) (n : Z).

(** The struct of a result set. *)
Record RsCell : Type := mkRsCell {
  rc_column_names : loc;
  rc_column_types : loc;
  rc_rows : loc;
  rc_row_count : Z;
  rc_column_count : Z;
  rc_capacity : Z }.

(** An array of values (one for a Value struct), the bytes of a text or a blob, an
    array of row pointers (None: not written), a result set. *)
Inductive VObj : Type :=
  | OValues (vs : list VCell)
  | OBytes (b : list Z)
  | ORows (rows : list (option loc))
  | OResultSet (rs : RsCell).

Notation Heap := (Heaps.Heap VObj).
Implicit Types (h : Heap) (p q l r : loc) (v : Value).

(** &p[i], read. *)
Definition load_cell h p (i : nat) : outcome VCell :=
  match cells h !! p with Some (OValues cs) => outcome_of_option (cs !! i) | _ => Undef end.

Definition load_bytes h p (n : Z) : outcome (list Z) :=
  match cells h !! p with Some (OBytes b) => buf_read 0 n b | _ => Undef end.

(** A whole value; a text has its terminator. *)
Definition load h p (i : nat) : outcome Value :=
  let* c := load_cell h p i in
  match c with
  | CUninit => Undef
  | CNull => Done VNull
  | CInt z => Done (VInt z)
  | CFloat d => Done (VFloat d)
  | CText t n =>
      let* b := load_bytes h t (n + 1) in
      if bool_decide (b !! Z.to_nat n = Some 0) then Done (VText (take (Z.to_nat n) b)) else Undef
  | CBlob t n => let* b := load_bytes h t n in Done (VBlob b)
  end.

(** ** Creation and release *)

Definition new_scalar h (c : VCell) : loc * Heap := alloc h (OValues [c]).

Definition value_from_int_mem h (val : Z) : loc * Heap := new_scalar h (CInt val).
Definition value_from_float_mem h (val : double) : loc * Heap := new_scalar h (CFloat val).
Definition value_from_null_mem h : loc * Heap := new_scalar h CNull.

Definition value_from_text_mem h (str : list Z) (n : Z) : outcome (loc * Heap) :=
  let '(v, h) := new_scalar h CUninit in
  let* s := buf_read 0 n str in
  let '(t, h) := alloc h (OBytes (s ++ [0])) in
  Done (v, put h v (OValues [CText t n])).

Definition value_from_blob_mem h (blob : list Z) (n : Z) : outcome (loc * Heap) :=
  let '(v, h) := new_scalar h CUninit in
  let* s := buf_read 0 n blob in
  let '(t, h) := alloc h (OBytes s) in
  Done (v, put h v (OValues [CBlob t n])).

(** The constructor for a result. *)
Definition value_from h v : outcome (loc * Heap) :=
  match v with
  | VNull => Done (value_from_null_mem h)
  | VInt z => Done (value_from_int_mem h z)
  | VFloat d => Done (value_from_float_mem h d)
  | VText s => value_from_text_mem h s (len s)
  | VBlob b => value_from_blob_mem h b (len b)
  end.

(** value_free(&p[i]): only the address of a block can be freed. *)
Definition value_free h p (i : nat) : outcome Heap :=
  if p =? 0 then Done h else
  let* c := load_cell h p i in
  let* h :=
    match c with
    | CText t _ => free h t
    | CBlob t _ => free h t
    | CUninit => Undef
    | _ => Done h
    end in
  if (i =? 0)%nat then free h p else Undef.

(** ** Columns *)

(** What an evaluation gets: the address of the row, the count and the names. *)
Record RowMem : Type := mkRowMem {
  rm_data : loc;
  rm_count : Z;
  rm_names : option (list (option (list Z))) }.

Definition no_row_mem : RowMem := mkRowMem 0 0 None.

(** The column an EXPR_COLUMN stands for. *)
Definition column_index (col_index : Z) (col_name : option (list Z)) (count : Z) (names : list (option (list Z)))
    : outcome Z :=
  let* own := outcome_of_option (names !! Z.to_nat col_index) in
  match col_name, own with
  | Some name, Some n =>
      let* r := strcmp (name ++ [0]) (n ++ [0]) in
      if negb (r =? 0) then find_column (Z.to_nat count) 0 count names name col_index
      else Done col_index
  | _, _ => Done col_index
  end.

(** The struct is copied first, with the address of the original's text. *)
Definition copy_value h (src : VCell) : outcome (loc * Heap) :=
  let '(copy, h) := new_scalar h src in
  match src with
  | CText t n =>
      let* s := load_bytes h t n in
      let '(u, h) := alloc h (OBytes (s ++ [0])) in
      Done (copy, put h copy (OValues [CText u n]))
  | CBlob t n =>
      let* s := load_bytes h t n in
      let '(u, h) := alloc h (OBytes s) in
      Done (copy, put h copy (OValues [CBlob u n]))
  | CUninit => Undef
  | _ => Done (copy, h)
  end.

Definition eval_column_mem h (col_index : Z) (col_name : option (list Z)) (rm : RowMem) : outcome (loc * Heap) :=
  match rm_names rm with
  | Some names =>
      if rm_data rm =? 0 then Done (value_from_null_mem h) else
      if (col_index <? 0) || (rm_count rm <=? col_index) then Done (value_from_null_mem h) else
      let* idx := column_index col_index col_name (rm_count rm) names in
      let* src := load_cell h (rm_data rm) (Z.to_nat idx) in
      copy_value h src
  | None => Done (value_from_null_mem h)
  end.

(** ** Operators *)

Definition free_both h l r : outcome Heap := let* h := value_free h l 0 in value_free h r 0.

(** The operands are freed, then the result is made. *)
Definition free_then_make h l r (res : outcome Value) : outcome (loc * Heap) :=
  let* res := res in
  let* h := free_both h l r in
  value_from h res.

(** The result is made, then the operands are freed. *)
Definition make_then_free h l r (res : outcome Value) : outcome (loc * Heap) :=
  let* res := res in
  let* '(result, h) := value_from h res in
  let* h := free_both h l r in
  Done (result, h).

Definition eval_binary_mem (op : Z) h l r : outcome (loc * Heap) :=
  let* a := load h l 0 in
  let* b := load h r 0 in
  if op =? token_code TOKEN_AND then
    free_then_make h l r (Done (value_from_bool (value_is_truthy a && value_is_truthy b)))
  else if op =? token_code TOKEN_OR then
    free_then_make h l r (Done (value_from_bool (value_is_truthy a || value_is_truthy b)))
  else if op =? token_code TOKEN_IS then
    free_then_make h l r (Done (value_from_bool (Bool.eqb (value_is_null a) (value_is_null b))))
  else if is_numericComparison op then free_then_make h l r (eval_comparison op a b)
  else if op =? CH_PLUS then make_then_free h l r (eval_arith Z.add d_add a b)
  else if op =? CH_MINUS then make_then_free h l r (eval_arith Z.sub d_sub a b)
  else if op =? CH_STAR then make_then_free h l r (eval_arith Z.mul d_mul a b)
  else if op =? CH_SLASH then
    let* d := as_double b in
    if d_eq d d_zero then free_then_make h l r (Done value_from_null)
    else make_then_free h l r (eval_divide a b)
  else if (op =? token_code TOKEN_LIKE) || (op =? token_code TOKEN_IN) || (op =? token_code TOKEN_BETWEEN) then
    make_then_free h l r (Done value_from_null)
  else free_then_make h l r (Done value_from_null).

(** Every branch of [eval_unary] frees the operand first. *)
Definition eval_unary_mem (op : Z) h p : outcome (loc * Heap) :=
  let* v := load h p 0 in
  let* res := eval_unary op v in
  let* h := value_free h p 0 in
  value_from h res.

Definition eval_like_mem (fuel : nat) h l r (not : bool) : outcome (loc * Heap) :=
  let* a := load h l 0 in
  let* b := load h r 0 in
  free_then_make h l r (eval_like fuel a b not).

Definition eval_between_mem h p l r (not : bool) : outcome (loc * Heap) :=
  let* v := load h p 0 in
  let* a := load h l 0 in
  let* b := load h r 0 in
  let* res := eval_between v a b not in
  let* h := value_free h p 0 in
  let* h := free_both h l r in
  value_from h res.

(** Each item is freed after its comparison. *)
Definition eval_in_loop_mem (eval : Heap -> Expression -> outcome (loc * Heap)) (value : loc)
    : Heap -> list Expression -> outcome (bool * Heap) :=
  fix go h items :=
    match items with
    | [] => Done (false, h)
    | i :: items =>
        let* '(item, h) := eval h i in
        let* a := load h value 0 in
        let* b := load h item 0 in
        let* c := value_compare a b in
        let* h := value_free h item 0 in
        if c =? 0 then Done (true, h) else go h items
    end.

(** ** Evaluation *)

Fixpoint expr_eval_mem (fuel : nat) (rm : RowMem) h (expr : Expression) {struct expr} : outcome (loc * Heap) :=
  match expr with
  | ExprNULL => Done (value_from_null_mem h)
  | EXPR_LITERAL_INT z => Done (value_from_int_mem h z)
  | EXPR_LITERAL_FLOAT d => Done (value_from_float_mem h d)
  | EXPR_LITERAL_STRING s => value_from_text_mem h s (len s)
  | EXPR_LITERAL_NULL => Done (value_from_null_mem h)
  | EXPR_COLUMN idx name => eval_column_mem h idx name rm
  | EXPR_BINARY e1 op e2 =>
      let* '(l, h) := expr_eval_mem fuel rm h e1 in
      let* '(r, h) := expr_eval_mem fuel rm h e2 in
      eval_binary_mem op h l r
  | EXPR_UNARY op operand =>
      let* '(p, h) := expr_eval_mem fuel rm h operand in
      eval_unary_mem op h p
  | EXPR_LIKE str pattern not =>
      let* '(l, h) := expr_eval_mem fuel rm h str in
      let* '(r, h) := expr_eval_mem fuel rm h pattern in
      eval_like_mem fuel h l r not
  | EXPR_IN value items not =>
      let* '(p, h) := expr_eval_mem fuel rm h value in
      let* '(result, h) := eval_in_loop_mem (expr_eval_mem fuel rm) p h items in
      let* h := value_free h p 0 in
      value_from h (value_from_bool (if not then negb result else result))
  | EXPR_BETWEEN value low high not =>
      let* '(p, h) := expr_eval_mem fuel rm h value in
      let* '(l, h) := expr_eval_mem fuel rm h low in
      let* '(r, h) := expr_eval_mem fuel rm h high in
      eval_between_mem h p l r not
  | EXPR_FUNC | EXPR_CASE | EXPR_SUBQUERY => Done (value_from_null_mem h)
  end.

(** ** Callers *)

Definition select_apply_where_mem (fuel : nat) h (rm : RowMem) (where_ : option Expression) : outcome (bool * Heap) :=
  match where_ with
  | None => Done (true, h)
  | Some e =>
      let* '(result, h) := expr_eval_mem fuel rm h e in
      let* v := load h result 0 in
      let* h := value_free h result 0 in
      Done (value_is_truthy v, h)
  end.

(** The int of a LIMIT or an OFFSET clause. *)
Definition limit_value_mem (fuel : nat) h (e : option Expression) (dflt : Z) : outcome (Z * Heap) :=
  match e with
  | None => Done (dflt, h)
  | Some e =>
      let* '(p, h) := expr_eval_mem fuel no_row_mem h e in
      let* v := load h p 0 in
      let* h := value_free h p 0 in
      Done (match v with VInt z => i32 z | _ => dflt end, h)
  end.

(** ** Values on the heap *)

(** The objects of a value at [p]: the struct, then its text or blob. *)
Definition image p v : list (loc * VObj) :=
  match v with
  | VNull => [(p, OValues [CNull])]
  | VInt z => [(p, OValues [CInt z])]
  | VFloat d => [(p, OValues [CFloat d])]
  | VText s => [(p, OValues [CText (p + 1) (len s)]); (p + 1, OBytes (s ++ [0]))]
  | VBlob b => [(p, OValues [CBlob (p + 1) (len b)]); (p + 1, OBytes b)]
  end.

(** A field of a row. *)
Definition cell_holds h (c : VCell) v : Prop :=
  match c, v with
  | CNull, VNull => True
  | CInt a, VInt b => a = b
  | CFloat a, VFloat b => a = b
  | CText t n, VText s => n = len s /\ cells h !! t = Some (OBytes (s ++ [0]))
  | CBlob t n, VBlob b => n = len b /\ cells h !! t = Some (OBytes b)
  | _, _ => False
  end.

(** The row [row] at the address in [rm]. *)
Definition row_at h (rm : RowMem) (row : Row) : Prop :=
  rm_count rm = column_count row /\ rm_names rm = column_names row /\
  match row_data row with
  | None => rm_data rm = 0
  | Some vs =>
      rm_data rm <> 0 /\
      exists cs, cells h !! rm_data rm = Some (OValues cs) /\ Forall2 (cell_holds h) cs vs
  end.

(** [m] made the value of [o] and nothing else. *)
Definition makes h (m : outcome (loc * Heap)) (o : outcome Value) : Prop :=
  agrees (fun x v => extends h (snd x) (image (fst x) v)) m o.

Lemma load_bytes_all h t b n : cells h !! t = Some (OBytes b) -> n = len b -> load_bytes h t n = Done b.
Proof. intros Ht Hn. unfold load_bytes. rewrite Ht. by apply buf_read_all. Qed.

Lemma load_text h t s : cells h !! t = Some (OBytes (s ++ [0])) -> load_bytes h t (len s) = Done s.
Proof.
  intros Ht. unfold load_bytes. rewrite Ht, buf_read_Done by (rewrite ?len_app; cbn; lia).
  unfold slice. by rewrite drop_0, Nat2Z.id, take_app_length.
Qed.

Lemma load_image h p v : Forall (present h) (image p v) -> load h p 0 = Done v.
Proof.
  intros Hp. destruct v as [|z|d|s|b]; cbn [image] in Hp; apply Forall_cons in Hp as [[_ Hs] Hp];
    unfold load, load_cell; cbn [fst snd] in Hs; rewrite Hs; try done; cbn [outcome_of_option lookup list_lookup];
    rewrite bind_Done; apply Forall_singleton in Hp as [_ Ht]; cbn [fst snd] in Ht.
  - rewrite (load_bytes_all _ _ _ _ Ht), bind_Done by (rewrite len_app; done).
    rewrite Nat2Z.id, lookup_app_r, Nat.sub_diag by lia. rewrite bool_decide_eq_true_2 by done.
    by rewrite take_app_length.
  - by rewrite (load_bytes_all _ _ _ _ Ht).
Qed.

Lemma value_free_releases p v : releases (fun h => value_free h p 0) (image p v).
Proof.
  destruct v as [|z|d|s|b]; cbn [image];
    (eapply releases_node; [first [apply releases_nothing|apply releases_block]|]);
    intros h Ho Hp; unfold value_free, load_cell; by rewrite (proj2 (Z.eqb_neq _ _) Hp), Ho.
Qed.

Lemma free_both_releases p q v w : releases (fun h => free_both h p q) (image p v ++ image q w).
Proof. apply (releases_seq (fun h => value_free h p 0)); apply value_free_releases. Qed.

(** ** Making values *)

Lemma value_from_text_makes h s : heap_ok h -> makes h (value_from_text_mem h s (len s)) (Done (VText s)).
Proof.
  intros Hok. unfold value_from_text_mem. cbn [new_scalar alloc]. rewrite buf_read_all, bind_Done by done.
  apply agrees_Done. cbn [fst snd image]. by apply (extends_pair h (OValues [CUninit])).
Qed.

Lemma value_from_makes h v : heap_ok h -> makes h (value_from h v) (Done v).
Proof.
  intros Hok. destruct v as [|z|d|s|b]; cbn [value_from].
  1,2,3: apply agrees_Done; by apply extends_alloc.
  - by apply value_from_text_makes.
  - unfold value_from_blob_mem. cbn [new_scalar alloc]. rewrite buf_read_all, bind_Done by done.
    apply agrees_Done. cbn [fst snd image]. by apply (extends_pair h (OValues [CUninit])).
Qed.

Lemma copy_value_makes h c v : heap_ok h -> cell_holds h c v -> makes h (copy_value h c) (Done v).
Proof.
  intros Hok Hc. unfold copy_value. cbn [new_scalar alloc].
  destruct c as [| |z|d|t n|t n], v as [|z'|d'|s|b]; try done; cbn [cell_holds] in Hc.
  - apply agrees_Done. by apply extends_alloc.
  - subst. apply agrees_Done. by apply extends_alloc.
  - subst. apply agrees_Done. by apply extends_alloc.
  - destruct Hc as [-> Ht]. apply (extends_old h _ _ _ _ Hok (extends_alloc h (OValues [CText t (len s)]) Hok)) in Ht.
    cbn [alloc snd] in Ht. rewrite (load_text _ _ _ Ht), bind_Done. apply agrees_Done.
    by apply (extends_pair h (OValues [CText t (len s)])).
  - destruct Hc as [-> Ht]. apply (extends_old h _ _ _ _ Hok (extends_alloc h (OValues [CBlob t (len b)]) Hok)) in Ht.
    cbn [alloc snd] in Ht. rewrite (load_bytes_all _ _ _ _ Ht), bind_Done by done. apply agrees_Done.
    by apply (extends_pair h (OValues [CBlob t (len b)])).
Qed.

(** ** Operands freed before or after the result is made *)

(** Everything new is freed, then a value is made. *)
Lemma release_then_make h h' f img v :
  heap_ok h -> extends h h' img -> releases f img ->
  makes h (let* h := f h' in value_from h v) (Done v).
Proof.
  intros Hok He Hf. rewrite <- (app_nil_r img) in He.
  destruct (extends_release f h h' img [] Hok He Hf) as (h'' & -> & He'). rewrite bind_Done.
  destruct (value_from_makes h'' v (ex_ok _ _ _ He')) as ([p h3] & E & H3). rewrite E.
  apply agrees_Done. cbn [fst snd] in *. by apply (extends_trans h h'' h3 []).
Qed.

Lemma make_then_release h h' f img v :
  heap_ok h -> extends h h' img -> releases f img ->
  makes h (let* '(p, h) := value_from h' v in let* h := f h in Done (p, h)) (Done v).
Proof.
  intros Hok He Hf. destruct (value_from_makes h' v (ex_ok _ _ _ He)) as ([p h3] & E & H3). rewrite E, bind_Done.
  cbn [fst snd] in *. destruct (extends_release f h h3 img (image p v) Hok (extends_trans _ _ _ _ _ He H3) Hf) as (h4 & -> & H4).
  rewrite bind_Done. by apply agrees_Done.
Qed.

Lemma free_then_make_ok h h' l r a b res :
  heap_ok h -> extends h h' (image l a ++ image r b) -> makes h (free_then_make h' l r res) res.
Proof.
  intros Hok He. destruct res as [v| |]; [|done..]. unfold free_then_make. rewrite bind_Done.
  by apply (release_then_make h h' (fun h => free_both h l r) _ v Hok He), free_both_releases.
Qed.

Lemma make_then_free_ok h h' l r a b res :
  heap_ok h -> extends h h' (image l a ++ image r b) -> makes h (make_then_free h' l r res) res.
Proof.
  intros Hok He. destruct res as [v| |]; [|done..]. unfold make_then_free. rewrite bind_Done.
  by apply (make_then_release h h' (fun h => free_both h l r) _ v Hok He), free_both_releases.
Qed.

(** A value among what is new can be read. *)
Lemma load_new h h' i1 i2 p v : extends h h' (i1 ++ image p v ++ i2) -> load h' p 0 = Done v.
Proof.
  intros He. apply load_image. pose proof (ex_present _ _ _ He) as Hp.
  apply Forall_app in Hp as [_ Hp]. by apply Forall_app in Hp as [Hp _].
Qed.

Lemma eval_binary_makes h h' op l r a b :
  heap_ok h -> extends h h' (image l a ++ image r b) -> makes h (eval_binary_mem op h' l r) (eval_binary op a b).
Proof.
  intros Hok He. unfold eval_binary_mem, eval_binary.
  rewrite (load_new h h' [] _ _ _ He), bind_Done. rewrite <- (app_nil_r (image r b)) in He.
  rewrite (load_new h h' _ [] _ _ He), bind_Done. rewrite app_nil_r in He.
  repeat match goal with |- context [if op =? ?c then _ else _] => destruct (op =? c) end;
    try destruct (is_numericComparison op);
    try solve [eapply free_then_make_ok; eassumption | eapply make_then_free_ok; eassumption].
  - unfold eval_divide at 2. destruct (as_double b) as [d| |] eqn:Hd; [|done..]. rewrite !bind_Done.
    destruct (d_eq d d_zero) eqn:Hz; [by eapply free_then_make_ok|].
    replace (eval_divide a b) with
      (match a, b with
       | VInt x, VInt _ => let* y := d_to_int64 d in if y =? 0 then Undef else
           let* z := int64 (Z.quot x y) in Done (value_from_int z)
       | _, _ => let* a := as_double a in Done (value_from_float (d_div a d))
       end) by (unfold eval_divide; by rewrite Hd, bind_Done, Hz).
    by eapply make_then_free_ok.
  - destruct (_ || _); [by eapply make_then_free_ok|by eapply free_then_make_ok].
Qed.

Lemma eval_unary_makes h h' op p v :
  heap_ok h -> extends h h' (image p v) -> makes h (eval_unary_mem op h' p) (eval_unary op v).
Proof.
  intros Hok He. unfold eval_unary_mem. rewrite <- (app_nil_r (image p v)) in He.
  rewrite (load_new h h' [] [] _ _ He), bind_Done. rewrite app_nil_r in He.
  destruct (eval_unary op v) as [res| |]; [|done..]. rewrite bind_Done.
  by apply (release_then_make h h' (fun h => value_free h p 0) _ res Hok He), value_free_releases.
Qed.

Lemma eval_like_makes fuel h h' l r a b not :
  heap_ok h -> extends h h' (image l a ++ image r b) ->
  makes h (eval_like_mem fuel h' l r not) (eval_like fuel a b not).
Proof.
  intros Hok He. unfold eval_like_mem. rewrite (load_new h h' [] _ _ _ He), bind_Done.
  rewrite <- (app_nil_r (image r b)) in He. rewrite (load_new h h' _ [] _ _ He), bind_Done. rewrite app_nil_r in He.
  by eapply free_then_make_ok.
Qed.

Lemma eval_between_makes h h' p l r v a b not :
  heap_ok h -> extends h h' (image p v ++ image l a ++ image r b) ->
  makes h (eval_between_mem h' p l r not) (eval_between v a b not).
Proof.
  intros Hok He. unfold eval_between_mem.
  rewrite (load_new h h' [] _ _ _ He), (load_new h h' _ _ _ _ He), !bind_Done.
  assert (load h' r 0 = Done b) as ->.
  { apply (load_new h h' (image p v ++ image l a) []). by rewrite app_nil_r, <- app_assoc. }
  rewrite bind_Done. destruct (eval_between v a b not) as [res| |]; [|done..]. rewrite bind_Done.
  rewrite <- (bind_assoc (value_free h' p 0) (fun h => free_both h l r)).
  apply (release_then_make h h' (fun h => let* h := value_free h p 0 in free_both h l r) _ res Hok He).
  apply (releases_seq (fun h => value_free h p 0)); [apply value_free_releases|apply free_both_releases].
Qed.

(** ** Columns and rows *)

Lemma cell_holds_old h h' img c v : heap_ok h -> extends h h' img -> cell_holds h c v -> cell_holds h' c v.
Proof.
  intros Hok He. destruct c, v; cbn; try done; intros [-> Ht]; split; [done| |done|]; by eapply extends_old.
Qed.

Lemma row_at_old h h' img rm row : heap_ok h -> extends h h' img -> row_at h rm row -> row_at h' rm row.
Proof.
  intros Hok He (Hc & Hn & Hd). split_and!; [done|done|]. destruct (row_data row) as [vs|]; [|done].
  destruct Hd as (Hz & cs & Hcs & Hf). split; [done|]. exists cs. split; [by eapply extends_old|].
  eapply Forall2_impl; [done|]. intros c v. by apply (cell_holds_old h h' img).
Qed.

Lemma eval_column_makes h rm row idx name :
  heap_ok h -> row_at h rm row -> makes h (eval_column_mem h idx name rm) (eval_column idx name row).
Proof.
  intros Hok (Hc & Hn & Hd). unfold eval_column_mem, eval_column. rewrite Hn, Hc.
  pose proof (value_from_makes h VNull Hok) as Hnull. cbn [value_from] in Hnull.
  destruct (row_data row) as [vs|], (column_names row) as [names|]; [| |by rewrite Hd|done]; [|done].
  destruct Hd as (Hz & cs & Hcs & Hf). rewrite (proj2 (Z.eqb_neq _ _) Hz). destruct (_ || _); [done|].
  unfold column_index. rewrite bind_assoc. apply agrees_same. intros own. apply agrees_same. intros i.
  unfold load_cell. rewrite Hcs. destruct (vs !! Z.to_nat i) as [v|] eqn:Hv.
  - destruct (Forall2_lookup_r _ _ _ _ _ Hf Hv) as (c & -> & Hcv). by apply copy_value_makes.
  - destruct (cs !! Z.to_nat i) as [c|] eqn:Hci; [|done].
    destruct (Forall2_lookup_l _ _ _ _ _ Hf Hci) as (v & Hv' & _). by rewrite Hv in Hv'.
Qed.


(** ** Evaluation *)

(** Evaluation of [e] makes its value, in every heap that holds the row. *)
Definition evaluates (fuel : nat) (rm : RowMem) (row : Row) (e : Expression) : Prop :=
  forall h, heap_ok h -> row_at h rm row -> makes h (expr_eval_mem fuel rm h e) (expr_eval fuel row e).

(** A second evaluation leaves the first value where it is. *)
Lemma evaluates_after fuel rm row e h h' img :
  heap_ok h -> row_at h rm row -> extends h h' img -> evaluates fuel rm row e ->
  agrees (fun x v => extends h (snd x) (img ++ image (fst x) v)) (expr_eval_mem fuel rm h' e) (expr_eval fuel row e).
Proof.
  intros Hok Hr He Hev. specialize (Hev h' (ex_ok _ _ _ He) (row_at_old _ _ _ _ _ Hok He Hr)). unfold makes in Hev.
  destruct (expr_eval fuel row e) as [v| |]; [|done..]. destruct Hev as (x & -> & Hx). apply agrees_Done.
  by eapply extends_trans.
Qed.

Lemma eval_in_loop_makes fuel rm row h h' p v items :
  heap_ok h -> row_at h rm row -> extends h h' (image p v) -> Forall (evaluates fuel rm row) items ->
  agrees (fun x b => fst x = b /\ extends h (snd x) (image p v))
    (eval_in_loop_mem (expr_eval_mem fuel rm) p h' items) (eval_in_loop (expr_eval fuel row) v items).
Proof.
  intros Hok Hr. revert h'. induction items as [|i items IH]; intros h' He Hi; cbn [eval_in_loop_mem eval_in_loop];
    [by apply agrees_Done|]. apply Forall_cons in Hi as [Hi His].
  eapply agrees_bind; [by apply (evaluates_after fuel rm row i h h')|]. intros [q h1] x H1. cbn [fst snd] in H1.
  rewrite (load_new h h1 [] _ _ _ H1), bind_Done.
  assert (extends h h1 (image p v ++ image q x ++ [])) as H2 by (by rewrite app_nil_r).
  rewrite (load_new h h1 _ [] _ _ H2), bind_Done. apply agrees_same. intros c.
  destruct (extends_release (fun h => value_free h q 0) h h1 (image q x) (image p v) Hok) as (h2 & -> & H3);
    [by eapply extends_perm, Permutation_app_comm|apply value_free_releases|]. rewrite bind_Done.
  destruct (c =? 0); [by apply agrees_Done|by apply IH].
Qed.

Lemma evaluates_leaf fuel rm row e :
  match e with
  | EXPR_BINARY _ _ _ | EXPR_UNARY _ _ | EXPR_IN _ _ _ | EXPR_BETWEEN _ _ _ _ | EXPR_LIKE _ _ _ => False
  | _ => True
  end -> evaluates fuel rm row e.
Proof.
  intros Hl h Hok Hr. destruct e; try done; cbn [expr_eval_mem expr_eval].
  1,2,3,5,7,8,9: first [exact (value_from_makes h VNull Hok)|exact (value_from_makes h (VInt _) Hok)
    |exact (value_from_makes h (VFloat _) Hok)].
  - unfold value_from_text. rewrite buf_read_all, bind_Done by done. by apply value_from_text_makes.
  - by apply eval_column_makes.
Qed.

Lemma evaluates_in fuel rm row e items not :
  evaluates fuel rm row e -> Forall (evaluates fuel rm row) items -> evaluates fuel rm row (EXPR_IN e items not).
Proof.
  intros He Hi h Hok Hr. cbn [expr_eval_mem expr_eval].
  eapply agrees_bind; [by apply He|]. intros [p h1] v H1. cbn [fst snd] in H1.
  eapply agrees_bind; [by apply (eval_in_loop_makes fuel rm row h h1)|]. intros [b h2] b' [<- H2]. cbn [fst snd] in *.
  apply (release_then_make h h2 (fun h => value_free h p 0) _ _ Hok H2), value_free_releases.
Qed.

Lemma evaluates_all fuel rm row e : evaluates fuel rm row e.
Proof.
  induction e as [e He|e1 op e2 IH1 IH2|op e IH|e items not IH IHs|e1 e2 e3 not IH1 IH2 IH3
                 |e1 e2 not IH1 IH2] using expression_induction.
  - by apply evaluates_leaf.
  - intros h Hok Hr. cbn [expr_eval_mem expr_eval].
    eapply agrees_bind; [by apply IH1|]. intros [l h1] a H1. cbn [fst snd] in H1.
    eapply agrees_bind; [by apply (evaluates_after fuel rm row e2 h h1)|]. intros [r h2] b H2.
    by apply eval_binary_makes.
  - intros h Hok Hr. cbn [expr_eval_mem expr_eval].
    eapply agrees_bind; [by apply IH|]. intros [l h1] a H1. by apply eval_unary_makes.
  - by apply evaluates_in.
  - intros h Hok Hr. cbn [expr_eval_mem expr_eval].
    eapply agrees_bind; [by apply IH1|]. intros [p h1] v H1. cbn [fst snd] in H1.
    eapply agrees_bind; [by apply (evaluates_after fuel rm row e2 h h1)|]. intros [l h2] a H2. cbn [fst snd] in H2.
    eapply agrees_bind; [by apply (evaluates_after fuel rm row e3 h h2)|]. intros [r h3] b H3. cbn [fst snd] in H3.
    apply eval_between_makes; [done|]. by rewrite app_assoc.
  - intros h Hok Hr. cbn [expr_eval_mem expr_eval].
    eapply agrees_bind; [by apply IH1|]. intros [l h1] a H1. cbn [fst snd] in H1.
    eapply agrees_bind; [by apply (evaluates_after fuel rm row e2 h h1)|]. intros [r h2] b H2.
    by apply eval_like_makes.
Qed.

(** C5: values are memory safe and do not leak. Evaluating an expression on a row with
    the code's allocations, copies and frees has the outcome of evaluating it on values:
    where that gives a value, the heap afterwards is the heap before and the objects of
    that value at a fresh address (no object of the caller is changed or freed, no
    temporary is left, nothing is freed twice or read after its release); where C leaves
    an operation open, or a LIKE does not finish, so does this evaluation. *)
Theorem expr_eval_mem_refines fuel rm row e h :
  heap_ok h -> row_at h rm row ->
  match expr_eval fuel row e with
  | Done v => exists p h', expr_eval_mem fuel rm h e = Done (p, h') /\ extends h h' (image p v)
  | Undef => expr_eval_mem fuel rm h e = Undef
  | NoFuel => expr_eval_mem fuel rm h e = NoFuel
  end.
Proof.
  intros Hok Hr. pose proof (evaluates_all fuel rm row e h Hok Hr) as Hev. unfold makes, agrees in Hev. destruct (expr_eval fuel row e); [|done..].
  destruct Hev as ([p h'] & E & He). by exists p, h'.
Qed.

(** ** Callers *)

(** What a caller reads and frees leaves nothing behind. *)
Lemma read_and_free {A} h h' p v (f : Value -> A) :
  heap_ok h -> extends h h' (image p v) ->
  agrees (fun x a => fst x = a /\ extends h (snd x) [])
    (let* v := load h' p 0 in let* h := value_free h' p 0 in Done (f v, h)) (Done (f v)).
Proof.
  intros Hok He. assert (extends h h' (image p v ++ [])) as He' by (by rewrite app_nil_r).
  rewrite (load_new h h' [] _ _ _ He'), bind_Done.
  destruct (extends_release (fun h => value_free h p 0) h h' _ [] Hok He') as (h2 & -> & H2);
    [apply value_free_releases|]. by apply agrees_Done.
Qed.

(** The WHERE filter is the one on values; the heap has the same objects afterwards. *)
Lemma select_apply_where_mem_refines fuel rm row where_ h :
  heap_ok h -> row_at h rm row ->
  agrees (fun x b => fst x = b /\ extends h (snd x) [])
    (select_apply_where_mem fuel h rm where_) (select_apply_where fuel row where_).
Proof.
  intros Hok Hr. destruct where_ as [e|]; cbn [select_apply_where_mem select_apply_where];
    [|apply agrees_Done; split; [done|by apply extends_refl]].
  eapply agrees_bind; [by apply evaluates_all|]. intros [p h1] v H1. by apply read_and_free.
Qed.

Lemma limit_value_mem_refines fuel e dflt h :
  heap_ok h ->
  agrees (fun x z => fst x = z /\ extends h (snd x) []) (limit_value_mem fuel h e dflt) (limit_value fuel e dflt).
Proof.
  intros Hok. destruct e as [e|]; cbn [limit_value_mem limit_value];
    [|apply agrees_Done; split; [done|by apply extends_refl]].
  eapply agrees_bind; [by apply evaluates_all|]. intros [p h1] v H1.
  by apply (read_and_free h h1 p v (fun v => match v with VInt z => i32 z | _ => dflt end)).
Qed.

(** ** Result sets *)

Section result_sets.
Implicit Types (rs row : loc) (c : RsCell).

Definition load_rs h rs : outcome RsCell :=
  match cells h !! rs with Some (OResultSet c) => Done c | _ => Undef end.

Definition load_rows h p : outcome (list (option loc)) :=
  match cells h !! p with Some (ORows rows) => Done rows | _ => Undef end.

(** rs->rows[i] *)
Definition row_slot h rs (i : nat) : outcome loc :=
  let* c := load_rs h rs in
  let* slots := load_rows h (rc_rows c) in
  let* slot := outcome_of_option (slots !! i) in
  outcome_of_option slot.

Definition result_set_create_mem h (initial_capacity : Z) : loc * Heap :=
  let '(rs, h) := alloc h (OResultSet (mkRsCell 0 0 0 0 0 0)) in
  let capacity := if 0 <? initial_capacity then initial_capacity else 16 in
  let '(rows, h) := alloc h (ORows (replicate (Z.to_nat capacity) None)) in
  (rs, put h rs (OResultSet (mkRsCell 0 0 rows 0 0 capacity))).

(** realloc of the array: a new one, the old slots copied, the old one freed. *)
Definition realloc_rows h p (n : Z) : outcome (loc * Heap) :=
  let* slots := load_rows h p in
  let '(q, h) := alloc h (ORows (take (Z.to_nat n) slots ++ replicate (Z.to_nat n - length slots) None)) in
  let* h := free h p in
  Done (q, h).

Definition result_set_add_row_mem h rs row : outcome (Z * Heap) :=
  let* c := load_rs h rs in
  let* '(c, h) :=
    if rc_capacity c <=? rc_row_count c then
      let* capacity := int32 (rc_capacity c * 2) in
      let* '(rows, h) := realloc_rows h (rc_rows c) capacity in
      Done (mkRsCell (rc_column_names c) (rc_column_types c) rows (rc_row_count c) (rc_column_count c) capacity, h)
    else Done (c, h) in
  let* slots := load_rows h (rc_rows c) in
  if (rc_row_count c <? 0) || (len slots <=? rc_row_count c) then Undef else
  let h := put h (rc_rows c) (ORows (<[Z.to_nat (rc_row_count c) := Some row]> slots)) in
  Done (0, put h rs (OResultSet (mkRsCell (rc_column_names c) (rc_column_types c) (rc_rows c)
                                   (rc_row_count c + 1) (rc_column_count c) (rc_capacity c)))).

(** for (j...) value_free(&rs->rows[i][j]); [k] turns from [j]. *)
Fixpoint free_values (k j : nat) h rs (i : nat) : outcome Heap :=
  match k with
  | O => Done h
  | S k =>
      let* row := row_slot h rs i in
      let* h := value_free h row j in
      free_values k (S j) h rs i
  end.

Fixpoint free_rows (k i : nat) h rs : outcome Heap :=
  match k with
  | O => Done h
  | S k =>
      let* row := row_slot h rs i in
      let* h :=
        if row =? 0 then Done h else
        let* c := load_rs h rs in
        let* h := free_values (Z.to_nat (rc_column_count c)) 0 h rs i in
        let* row := row_slot h rs i in
        free h row in
      free_rows k (S i) h rs
  end.

Definition result_set_free_mem h rs : outcome Heap :=
  if rs =? 0 then Done h else
  let* c := load_rs h rs in
  let* h := free_rows (Z.to_nat (rc_row_count c)) 0 h rs in
  let* h := free h (rc_rows c) in
  let* h := free h (rc_column_names c) in
  let* h := free h (rc_column_types c) in
  free h rs.

(** *** A row with columns cannot be freed *)

(** [h'] is [h] without some objects. *)
Definition shrinks h h' : Prop := forall k o, cells h' !! k = Some o -> cells h !! k = Some o.

Lemma free_shrinks h l h' : free h l = Done h' -> shrinks h h' /\ (l <> 0 -> cells h' !! l = None).
Proof.
  unfold free. destruct (Z.eqb_spec l 0) as [->|Hl]; [intros [= <-]; split; [by intros k o|done]|].
  destruct (cells h !! l); [|done]. intros [= <-]. split; [|intros _; by apply lookup_delete_eq].
  intros k o. cbn [cells]. rewrite lookup_delete_Some. tauto.
Qed.

Lemma value_free_shrinks h p h' :
  p <> 0 -> value_free h p 0 = Done h' -> shrinks h h' /\ cells h' !! p = None.
Proof.
  intros Hp. unfold value_free. rewrite (proj2 (Z.eqb_neq _ _) Hp). intros H. outcome_inv.
  apply free_shrinks in H as [Hs Hn]. split; [|by apply Hn].
  assert (shrinks h a0) as Hs0; [|intros k o Hk; by apply Hs0, Hs].
  destruct a; try done; first [by apply free_shrinks in E0 as [? _]|injection E0 as <-; by intros k o].
Qed.

Lemma free_fuel h l : free h l <> NoFuel.
Proof. unfold free. destruct (l =? 0); [done|]. by destruct (cells h !! l). Qed.

Lemma value_free_fuel h p j : value_free h p j <> NoFuel.
Proof.
  unfold value_free. destruct (p =? 0); [done|]. unfold load_cell.
  destruct (cells h !! p) as [[cs| | |]|]; [|done..]. destruct (cs !! j) as [c|]; [|done]. cbn [outcome_of_option].
  rewrite bind_Done. intros E.
  assert (forall t, (let* h := free h t in if (j =? 0)%nat then free h p else Undef) <> NoFuel) as Hf.
  { intros t. pose proof (free_fuel h t). destruct (free h t); [|done..]. rewrite bind_Done.
    destruct (j =? 0)%nat; [apply free_fuel|done]. }
  destruct c; try done; try (by apply (Hf str)); try (by apply (Hf blob)); by apply (Hf 0).
Qed.

(** A smaller heap has no other row in the slot. *)
Lemma row_slot_shrinks h h' rs i row : shrinks h h' -> row_slot h rs i = Done row ->
  row_slot h' rs i = Undef \/ row_slot h' rs i = Done row.
Proof.
  intros Hs Hr. unfold row_slot, load_rs, load_rows in *.
  destruct (cells h' !! rs) as [o|] eqn:E1; [|by left]. rewrite (Hs _ _ E1) in Hr. destruct o as [| | |c]; try by left.
  rewrite bind_Done in Hr |- *. destruct (cells h' !! rc_rows c) as [o|] eqn:E2; [|by left].
  rewrite (Hs _ _ E2) in Hr. by right.
Qed.

Lemma freed_row_undef h row j : row <> 0 -> cells h !! row = None -> free h row = Undef /\ value_free h row j = Undef.
Proof.
  intros Hz Hn. unfold free, value_free, load_cell. by rewrite (proj2 (Z.eqb_neq _ _) Hz), Hn.
Qed.

Lemma free_row_undef h rs i row n :
  row <> 0 -> row_slot h rs i = Done row -> (0 < n)%nat ->
  (let* h := free_values n 0 h rs i in let* row := row_slot h rs i in free h row) = Undef.
Proof.
  intros Hz Hr Hn. destruct n as [|n]; [lia|]. cbn [free_values]. rewrite Hr, bind_Done.
  destruct (value_free h row 0) as [h'| |] eqn:E; cbn [obind]; [|done|].
  - destruct (value_free_shrinks h row h' Hz E) as [Hs Hgone].
    destruct n as [|n]; cbn [free_values]; [rewrite bind_Done|];
      destruct (row_slot_shrinks h h' rs i row Hs Hr) as [->| ->]; try done; rewrite bind_Done;
      by rewrite (proj1 (freed_row_undef h' row 1 Hz Hgone)) || by rewrite (proj2 (freed_row_undef h' row 1 Hz Hgone)).
  - by apply value_free_fuel in E.
Qed.
(** The loop reaches a row of the array, or stops before it. *)
Lemma free_rows_undef h rs c k i j row :
  cells h !! rs = Some (OResultSet c) -> 0 < rc_column_count c ->
  (i <= j < i + k)%nat -> row_slot h rs j = Done row -> row <> 0 -> free_rows k i h rs = Undef.
Proof.
  intros Hc Hn. revert i. induction k as [|k IH]; intros i Hj Hr Hz; [lia|]. cbn [free_rows].
  assert (load_rs h rs = Done c) as Hl by (unfold load_rs; by rewrite Hc).
  destruct (row_slot h rs i) as [r| |] eqn:E; [|done|].
  - rewrite bind_Done. destruct (Z.eqb_spec r 0) as [->|Hr0].
    + rewrite bind_Done. apply IH; [|done..]. destruct (decide (i = j)) as [->|]; [congruence|lia].
    + rewrite Hl, bind_Done, (free_row_undef h rs i r); [done..|lia].
  - unfold row_slot in E. rewrite Hl, bind_Done in E. unfold load_rows in E.
    destruct (cells h !! rc_rows c) as [[| |slots|]|]; try done. rewrite bind_Done in E.
    by destruct (slots !! i) as [[]|].
Qed.

(** C38: a result set with a row of columns cannot be freed. result_set_free hands
    value_free the addresses of the row's fields, which value_free frees as structs of
    their own: the first is the row itself, and the next field, or the row, is then used
    after its release. Whatever else is in memory, freeing a result set that has a column
    and a row that is not NULL is undefined. *)
Theorem result_set_free_undef h rs c slots (i : nat) row :
  cells h !! rs = Some (OResultSet c) -> cells h !! rc_rows c = Some (ORows slots) ->
  slots !! i = Some (Some row) -> row <> 0 -> Z.of_nat i < rc_row_count c -> 0 < rc_column_count c -> rs <> 0 ->
  result_set_free_mem h rs = Undef.
Proof.
  intros Hc Hs Hi Hz Hlt Hn Hrs. unfold result_set_free_mem. rewrite (proj2 (Z.eqb_neq _ _) Hrs).
  unfold load_rs. rewrite Hc, bind_Done, (free_rows_undef h rs c _ 0 i row); [done|done|done|lia| |done].
  unfold row_slot, load_rs, load_rows. by rewrite Hc, bind_Done, Hs, bind_Done, Hi.
Qed.

(** *** Result sets as the executor makes them: without columns *)

Definition slots_of (rows : list loc) (capacity : nat) : list (option loc) :=
  (Some <$> rows) ++ replicate (capacity - length rows) None.

Definition rs_image rs arr (capacity : nat) (rows : list loc) : list (loc * VObj) :=
  [(rs, OResultSet (mkRsCell 0 0 arr (len rows) 0 (Z.of_nat capacity)));
   (arr, ORows (slots_of rows capacity))].

Lemma result_set_create_mem_ok h n :
  heap_ok h ->
  let x := result_set_create_mem h n in
  extends h (snd x) (rs_image (fst x) (brk h + 1) (Z.to_nat (if 0 <? n then n else 16)) []).
Proof.
  intros Hok. cbn [result_set_create_mem alloc fst snd]. unfold rs_image, slots_of.
  rewrite Z2Nat.id by (destruct (Z.ltb_spec 0 n); lia). cbn [length fmap list_fmap app Z.of_nat].
  rewrite Nat.sub_0_r. by apply (extends_pair h (OResultSet (mkRsCell 0 0 0 0 0 0))).
Qed.

Lemma load_rs_image h rs arr capacity rows img :
  Forall (present h) (rs_image rs arr capacity rows ++ img) ->
  load_rs h rs = Done (mkRsCell 0 0 arr (len rows) 0 (Z.of_nat capacity)) /\
  load_rows h arr = Done (slots_of rows capacity).
Proof.
  intros [Hp _]%Forall_app. apply Forall_cons in Hp as [[_ H1] [[_ H2] _]%Forall_cons]. cbn [fst snd] in *.
  unfold load_rs, load_rows. by rewrite H1, H2.
Qed.

Lemma slots_of_insert rows capacity row :
  (length rows < capacity)%nat ->
  <[length rows := Some row]> (slots_of rows capacity) = slots_of (rows ++ [row]) capacity.
Proof.
  intros Hl. unfold slots_of. replace (capacity - length rows)%nat with (S (capacity - S (length rows))) by lia.
  rewrite insert_app_r_alt by (rewrite length_fmap; lia). rewrite length_fmap, Nat.sub_diag, fmap_app, <- app_assoc.
  cbn. do 3 f_equal. rewrite length_app. cbn. f_equal. lia.
Qed.

Lemma slots_of_grow rows capacity n :
  (length rows = capacity)%nat -> (capacity <= n)%nat ->
  take n (slots_of rows capacity) ++ replicate (n - length (slots_of rows capacity)) None = slots_of rows n.
Proof.
  intros Hl Hn. unfold slots_of. rewrite Hl, Nat.sub_diag. cbn [replicate]. rewrite app_nil_r, length_fmap.
  rewrite take_ge by (rewrite length_fmap; lia). by rewrite Hl.
Qed.

(** The two stores, in an array with room. *)
Lemma store_row h0 h rs o arr capacity rows row :
  extends h0 h [(rs, o); (arr, ORows (slots_of rows capacity))] -> (length rows < capacity)%nat ->
  exists h',
    (let* slots := load_rows h arr in
     if (len rows <? 0) || (len slots <=? len rows) then Undef else
     let h := put h arr (ORows (<[Z.to_nat (len rows) := Some row]> slots)) in
     Done (0, put h rs (OResultSet (mkRsCell 0 0 arr (len rows + 1) 0 (Z.of_nat capacity))))) = Done (0, h') /\
    extends h0 h' (rs_image rs arr capacity (rows ++ [row])).
Proof.
  intros He Hl. pose proof (ex_present _ _ _ He) as Hp. apply Forall_cons in Hp as [_ [[_ Ha] _]%Forall_cons].
  cbn [fst snd] in Ha. unfold load_rows. rewrite Ha, bind_Done.
  assert (len (slots_of rows capacity) = Z.of_nat capacity) as ->
    by (unfold slots_of; rewrite len_app, length_fmap, length_replicate; lia).
  rewrite (proj2 (Z.ltb_ge _ _)), (proj2 (Z.leb_gt _ _)), Nat2Z.id, slots_of_insert by lia. cbn [orb].
  eexists. split; [done|]. unfold rs_image. rewrite len_app. cbn [length].
  apply (extends_put _ _ _ o). eapply extends_perm; [|apply perm_swap].
  apply (extends_put _ _ _ (ORows (slots_of rows capacity))). by eapply extends_perm; [|apply perm_swap].
Qed.

(** A row is stored after the others, in an array twice as large when it is full. *)
Lemma result_set_add_row_mem_ok h0 h rs arr capacity rows row :
  heap_ok h0 -> extends h0 h (rs_image rs arr capacity rows) ->
  (0 < capacity)%nat -> (length rows <= capacity)%nat -> Z.of_nat capacity * 2 < 2 ^ 31 ->
  exists h' arr',
    result_set_add_row_mem h rs row = Done (0, h') /\
    extends h0 h' (rs_image rs arr'
      (if decide (length rows = capacity) then capacity * 2 else capacity)%nat (rows ++ [row])).
Proof.
  intros Hok He Hc Hl Hb. unfold result_set_add_row_mem.
  destruct (load_rs_image h rs arr capacity rows []) as [-> Hslots]; [rewrite app_nil_r; apply He|].
  rewrite bind_Done. cbn [rc_capacity rc_row_count rc_rows rc_column_names rc_column_types rc_column_count].
  destruct (decide (length rows = capacity)) as [Heq|Hne].
  - rewrite (proj2 (Z.leb_le _ _)) by lia. rewrite int32_Done, bind_Done by lia.
    unfold realloc_rows. rewrite Hslots, bind_Done. cbn [alloc].
    replace (Z.to_nat (Z.of_nat capacity * 2)) with (capacity * 2)%nat by lia.
    rewrite slots_of_grow by lia.
    pose proof (extends_trans _ _ _ _ _ He (extends_alloc h (ORows (slots_of rows (capacity * 2))) (ex_ok _ _ _ He))) as H1.
    eapply extends_perm in H1; [|apply perm_swap].
    destruct (extends_release _ h0 _ [(arr, ORows (slots_of rows capacity))] _ Hok H1 (releases_block _ _))
      as (h2 & E & H2).
    cbn [alloc snd] in E. rewrite E, !bind_Done. cbn [rc_rows rc_row_count].
    edestruct (store_row h0 h2 rs) as (h' & E' & He'); [exact H2|lia|].
    replace (Z.of_nat capacity * 2) with (Z.of_nat (capacity * 2)) by lia. by eexists h', _.
  - rewrite (proj2 (Z.leb_gt _ _)), bind_Done by lia. cbn [rc_rows rc_row_count].
    edestruct (store_row h0 h rs) as (h' & E' & He'); [exact He|lia|]. by eexists h', _.
Qed.
Lemma row_slot_image h rs arr capacity rows img i row :
  Forall (present h) (rs_image rs arr capacity rows ++ img) -> rows !! i = Some row -> row_slot h rs i = Done row.
Proof.
  intros Hp Hi. apply load_rs_image in Hp as [H1 H2]. unfold row_slot. rewrite H1, bind_Done. cbn [rc_rows].
  rewrite H2, bind_Done. unfold slots_of.
  rewrite lookup_app_l by (rewrite length_fmap; by eapply lookup_lt_Some). by rewrite list_lookup_fmap, Hi.
Qed.

Lemma free_rows_ok h rs arr capacity before bs :
  let rows := before ++ map fst bs in
  Forall (present h) (rs_image rs arr capacity rows ++ bs) ->
  NoDup (map fst (rs_image rs arr capacity rows ++ bs)) ->
  free_rows (length bs) (length before) h rs = Done (del (map fst bs) h).
Proof.
  cbn zeta. revert h before. induction bs as [|[row o] bs IH]; intros h before Hp Hd; [by destruct h|].
  cbn [free_rows length map fst] in *. set (rows := before ++ row :: map fst bs) in *.
  rewrite (row_slot_image h rs arr capacity rows _ (length before) row Hp) by (by apply list_lookup_middle).
  rewrite bind_Done. pose proof Hp as Hp'. apply Forall_app in Hp' as [Hpi [[Hz Ho] Hpb]%Forall_cons]. cbn [fst snd] in Hz, Ho.
  rewrite (proj2 (Z.eqb_neq _ _) Hz). destruct (load_rs_image h rs arr capacity rows _ Hp) as [-> _].
  rewrite bind_Done. cbn [rc_column_count]. change (Z.to_nat 0) with 0%nat. cbn [free_values].
  rewrite bind_Done.
  rewrite (row_slot_image h rs arr capacity rows _ (length before) row Hp) by (by apply list_lookup_middle).
  rewrite bind_Done, (free_ok h row o Hz Ho), bind_Done.
  rewrite map_app in Hd. cbn [map fst] in Hd. apply NoDup_app in Hd as (Hd1 & Hd2 & Hd3%NoDup_cons). destruct Hd3 as [Hn Hd3].
  assert (rows = (before ++ [row]) ++ map fst bs) as Erows by (unfold rows; by rewrite <- app_assoc).
  specialize (IH (del [row] h) (before ++ [row])). rewrite <- Erows in IH.
  replace (S (length before)) with (length (before ++ [row])) by (rewrite length_app; cbn; lia). rewrite IH.
  - f_equal. rewrite del_app. apply del_ext; [done| |done]. intros k. set_solver.
  - apply (present_frame h).
    + apply Forall_app. by split.
    + intros a Ha. apply del_keep. intros ->%list_elem_of_singleton. rewrite map_app in Ha.
      apply elem_of_app in Ha as [Ha|Ha]; [|done]. apply (Hd2 row Ha). left.
  - rewrite map_app. apply NoDup_app. split_and!; [done| |done]. intros a Ha Hb. apply (Hd2 a Ha). by right.
Qed.

(** Without columns the struct, the array and the rows are released, and only they. *)
Lemma result_set_free_mem_ok rs arr capacity bs :
  releases (fun h => result_set_free_mem h rs) (rs_image rs arr capacity (map fst bs) ++ bs).
Proof.
  intros h Hp Hd. unfold result_set_free_mem. destruct (load_rs_image h rs arr capacity _ _ Hp) as [-> _].
  pose proof Hp as Hp'. apply Forall_app in Hp' as [Hpi Hpb].
  pose proof (Forall_inv Hpi) as [Hz _]. cbn [fst] in Hz. rewrite (proj2 (Z.eqb_neq _ _) Hz), bind_Done.
  cbn [rc_row_count rc_rows rc_column_names rc_column_types]. rewrite length_map, Nat2Z.id.
  pose proof (free_rows_ok h rs arr capacity [] bs Hp Hd) as Hrows. cbn [length] in Hrows. rewrite Hrows, bind_Done.
  assert (free_all (del (map fst bs) h) [arr; rs] = Done (del [arr; rs] (del (map fst bs) h))) as Hfree.
  { apply (free_all_ok _ [(arr, ORows (slots_of (map fst bs) capacity));
      (rs, OResultSet (mkRsCell 0 0 arr (len (map fst bs)) 0 (Z.of_nat capacity)))]).
    - apply (present_frame h); [by eapply Permutation_Forall; [apply perm_swap|]|].
      intros a Ha. apply del_keep. rewrite map_app in Hd. apply NoDup_app in Hd as (_ & Hdis & _).
      apply Hdis. cbn in *. set_solver.
    - rewrite map_app in Hd. apply NoDup_app in Hd as (Hd & _). by eapply NoDup_Permutation_proper; [apply perm_swap|]. }
  cbn [free_all] in Hfree. destruct (free (del (map fst bs) h) arr) as [h1| |]; [|done..].
  rewrite bind_Done in Hfree |- *. do 2 (change (free h1 0) with (Done h1); rewrite bind_Done).
  destruct (free h1 rs) as [h2| |]; [|done..]. rewrite bind_Done in Hfree. rewrite Hfree. f_equal.
  rewrite del_app. apply del_ext; [done| |done]. intros k. rewrite map_app. cbn. set_solver.
Qed.
(** The rows added one after the other, as a caller does. *)
Fixpoint add_rows h rs (rows : list loc) : outcome Heap :=
  match rows with
  | [] => Done h
  | row :: rows =>
      let* '(code, h) := result_set_add_row_mem h rs row in
      if code =? 0 then add_rows h rs rows else Undef
  end.

Lemma add_rows_ok h0 h rs arr capacity before rows M :
  heap_ok h0 -> extends h0 h (rs_image rs arr capacity before) ->
  (0 < capacity <= M)%nat -> (length before <= capacity)%nat -> (2 * (length before + length rows) <= M)%nat ->
  Z.of_nat M * 2 < 2 ^ 31 ->
  exists h' arr' capacity',
    add_rows h rs rows = Done h' /\ extends h0 h' (rs_image rs arr' capacity' (before ++ rows)).
Proof.
  intros Hok. revert h arr capacity before.
  induction rows as [|row rows IH]; intros h arr capacity before He Hc Hl HM Hb; cbn [add_rows].
  - exists h, arr, capacity. by rewrite app_nil_r.
  - destruct (result_set_add_row_mem_ok h0 h rs arr capacity before row) as (h' & arr' & -> & H1); [done..|lia|done|lia|].
    rewrite bind_Done. change (0 =? 0) with true. cbn [length] in HM.
    destruct (IH _ _ _ _ H1) as (h2 & arr2 & cap2 & -> & H2); [..|by eexists _, _, _; rewrite <- app_assoc in H2].
    + case_decide; lia.
    + rewrite length_app. cbn. case_decide; lia.
    + rewrite length_app. cbn. lia.
    + done.
Qed.

(** A result set owns its rows. Creating a result set, adding rows to it (the array
    doubles when it is full) and freeing it succeeds, as long as the capacity stays an
    int, and leaves exactly the objects there were before without the rows. *)
Theorem result_set_lifecycle h n (bs : list (loc * VObj)) :
  heap_ok h -> Forall (present h) bs -> NoDup (map fst bs) ->
  Z.max (Z.max n 16) (2 * len bs) * 2 < 2 ^ 31 ->
  let '(rs, h1) := result_set_create_mem h n in
  exists h2 h3,
    add_rows h1 rs (map fst bs) = Done h2 /\
    result_set_free_mem h2 rs = Done h3 /\
    cells h3 = cells (del (map fst bs) h).
Proof.
  intros Hok Hp Hd Hb. pose proof (result_set_create_mem_ok h n Hok) as He.
  destruct (result_set_create_mem h n) as [rs h1]. cbn [fst snd] in He.
  destruct (add_rows_ok h h1 rs _ _ [] (map fst bs) (Z.to_nat (Z.max (Z.max n 16) (2 * len bs))) Hok He)
    as (h2 & arr & capacity & E2 & H2); [destruct (Z.ltb_spec 0 n); lia|cbn; lia|cbn; rewrite length_map; lia|lia|].
  cbn [app] in H2. assert (forall k, k ∈ map fst bs -> k ∉ map fst (rs_image rs arr capacity (map fst bs))) as Hdis.
  { intros k (x & -> & Hx)%list_elem_of_fmap Hk. rewrite Forall_forall in Hp. destruct (Hp x Hx) as [_ Hc].
    apply (below h _ _ Hok) in Hc. pose proof (ex_fresh _ _ _ H2) as Hf. rewrite Forall_forall in Hf.
    specialize (Hf _ Hk). cbn in Hf. lia. }
  exists h2. eexists. split_and!; [done|apply (result_set_free_mem_ok rs arr capacity bs)|].
  - apply Forall_app. split; [apply H2|]. apply (present_frame h); [done|]. intros a Ha. by apply H2, Hdis.
  - rewrite map_app. apply NoDup_app. split_and!; [apply H2| |done]. intros a Ha Hb'. by apply (Hdis a).
  - apply map_eq. intros k. rewrite !del_lookup, map_app. case_decide as Hin; case_decide as Hin2; [done| | |].
    + apply elem_of_app in Hin as [Hin|]; [|done]. pose proof (ex_fresh _ _ _ H2) as Hf. rewrite Forall_forall in Hf.
      specialize (Hf _ Hin). cbn in Hf. symmetry. apply (proj2 Hok). lia.
    + exfalso. apply Hin, elem_of_app. by right.
    + apply not_elem_of_app in Hin as [Hin _]. by apply H2.
Qed.
End result_sets.

(** ** Witnesses *)

(** A row (7, 'cat') at address 1, its text at address 2. *)
Definition sample_heap : Heap :=
  mkHeap (<[1 := OValues [CInt 7; CText 2 3]]> {[ 2 := OBytes (zstr "cat" ++ [0]) ]}) 3.

Definition sample_row_mem : RowMem := mkRowMem 1 2 (Some [Some (zstr "id"); Some (zstr "name")]).

Lemma sample_heap_ok : heap_ok sample_heap.
Proof. split; [done|]. intros l Hl. cbn [sample_heap cells brk] in *. by rewrite lookup_insert_ne, lookup_singleton_ne by lia. Qed.

Lemma sample_row_at : row_at sample_heap sample_row_mem sample_row.
Proof.
  split; [done|]. split; [done|]. split; [done|].
  exists [CInt 7; CText 2 3]. split; [done|]. repeat constructor.
Qed.

(** Of the ten objects made only the result, at 12, is left beside the row. *)
Lemma expr_eval_mem_refines_witness :
  (exists p h', expr_eval_mem 3 sample_row_mem sample_heap sample_expr = Done (p, h') /\ extends sample_heap h' (image p (VInt 1))) /\
  (let* '(p, h) := expr_eval_mem 3 sample_row_mem sample_heap sample_expr in Done (map fst (map_to_list (cells h)))) =
    Done [12; 2; 1].
Proof.
  split; [|vm_compute; reflexivity].
  pose proof (expr_eval_mem_refines 3 sample_row_mem sample_row sample_expr sample_heap sample_heap_ok sample_row_at) as H.
  change (expr_eval 3 sample_row sample_expr) with (Done (VInt 1)) in H. exact H.
Defined.

(** A result set with the row of [sample_heap] and two columns. *)
Definition sample_rs : RsCell := mkRsCell 0 0 4 1 2 16.

Definition sample_rs_heap : Heap :=
  mkHeap (<[3 := OResultSet sample_rs]> (<[4 := ORows (slots_of [1] 16)]> (cells sample_heap))) 5.

Lemma result_set_free_undef_witness : result_set_free_mem sample_rs_heap 3 = Undef.
Proof.
  apply (result_set_free_undef sample_rs_heap 3 sample_rs (slots_of [1] 16) 0 1); reflexivity || discriminate.
Defined.

Lemma result_set_lifecycle_witness :
  let '(rs, h1) := result_set_create_mem sample_heap 0 in
  exists h2 h3,
    add_rows h1 rs [1] = Done h2 /\ result_set_free_mem h2 rs = Done h3 /\
    cells h3 = cells (del [1] sample_heap).
Proof.
  apply (result_set_lifecycle sample_heap 0 [(1, OValues [CInt 7; CText 2 3])] sample_heap_ok).
  - repeat constructor; discriminate.
  - apply (bool_decide_unpack _); by vm_compute.
  - reflexivity.
Defined.
