(* ===== verification/Storage.v ===== *)
(** Model of src/sql/storage.c: opening and closing a database over the pager, the page
    cache and the catalog, and the API functions that are not implemented. *)
From Stdlib Require Import ZArith Lia String.
From stdpp Require Import base numbers option list.
From S2P Require Import Prelude Posix Pager PageCache PageStore BTree CString Fields Errors Ast Catalog Executor.

Definition STORAGE_CACHE_PAGES : Z := 256.

Section storage.
(** DEFAULT_CACHE_SIZE, and the bound for the chains of the cache. *)
Variables (dflt : Z) (fuel : nat).

(** The pager of a new handle. [named]: a path is given; [node]: the file of that path,
    or of the name ":memory:". Each attempt has its own kernel events. *)
Definition storage_pager (named : bool) (node : fs_node) (open_io create_io : list io_event)
    : outcome (option Pager) :=
  if named then
    let* pgr := pager_open node open_io in
    match pgr with
    | Some pgr => Done (Some pgr)
    | None => pager_create node create_io
    end
  else pager_create node create_io.

Definition tinydb_open (named : bool) (node : fs_node) (open_io create_io : list io_event)
    : outcome (Z * option (Storage PageCache)) :=
  let* pgr := storage_pager named node open_io create_io in
  match pgr with
  | None => Done (error_code ERR_STORAGE_IO, None)
  | Some pgr =>
      let* cache := page_cache_create dflt STORAGE_CACHE_PAGES (Some pgr) in
      let* '(catalog, cache) := catalog_open fuel cache in
      match catalog with
      | None => let* _ := page_cache_destroy fuel cache in Done (error_code ERR_STORAGE_IO, None)
      | Some catalog => Done (SUCCESS_CODE, Some (mkStorage cache catalog true))
      end
  end.

(** What the file holds after closing. *)
Definition tinydb_close (storage : Storage PageCache) : outcome (list Z) :=
  let* cache := catalog_close fuel (st_store storage) (st_catalog storage) in
  let* pgr := page_cache_destroy fuel cache in
  let* pgr := outcome_of_option pgr in
  Done (pager_close pgr).
End storage.

(** ** Functions of the API that are not implemented *)

Definition tinydb_insert : Z := SUCCESS_CODE.
Definition tinydb_update : Z := SUCCESS_CODE.
Definition tinydb_delete : Z := SUCCESS_CODE.
Definition tinydb_select : Z := SUCCESS_CODE.
Definition tinydb_create_table : Z := SUCCESS_CODE.
Definition tinydb_drop_table : Z := SUCCESS_CODE.
Definition tinydb_create_index : Z := SUCCESS_CODE.
Definition tinydb_drop_index : Z := SUCCESS_CODE.
Definition tinydb_set_isolation : Z := SUCCESS_CODE.

(** A connection is its handle. *)
Record Connection (S : Type) : Type := mkConnection { conn_storage : Storage S; is_connected : bool }.
Arguments mkConnection {S}.

Definition tinydb_connect {S} (storage : option (Storage S)) : option (Connection S) :=
  (fun st => mkConnection st true) <$> storage.

Definition storage_get_catalog {S} (storage : option (Storage S)) : option Catalog := st_catalog <$> storage.
Definition storage_get_store {S} (storage : option (Storage S)) : option S := st_store <$> storage.

(** ** Theorems *)

Section theorems.
Variables (dflt : Z) (fuel : nat) (stack : list Z) (n : nat).
Hypothesis Hdflt : 0 < dflt.
Hypothesis Hfuel : (Z.to_nat STORAGE_CACHE_PAGES < fuel)%nat.
Hypothesis Hstack : length stack = 652%nat.
Hypothesis Hn : (0 < n)%nat.

(** A cache and a catalog over a pager that is in order: the catalog is empty. *)
Lemma open_over_pager pgr l :
  pager_wf pgr -> freelist pgr l -> page_count pgr + 1 < 2 ^ 32 -> (forall m, m ∈ l -> m < page_count pgr) ->
  exists cache cat cache', page_cache_create dflt STORAGE_CACHE_PAGES (Some pgr) = Done cache /\
    catalog_open fuel cache = Done (Some cat, cache') /\ ready fuel cache' (cat_tree cat) /\ cat_rep cache' cat [] /\
    cached cache' (cat_tree cat).
Proof using Hdflt Hfuel.
  clear Hstack Hn. intros Hwf Hfl Hc Hl.
  destruct (page_cache_create_spec dflt STORAGE_CACHE_PAGES pgr Hdflt Hwf) as (cache & E & Hinv & Hh & Hp & Hm & Hcnt).
  assert (effective_max dflt STORAGE_CACHE_PAGES = STORAGE_CACHE_PAGES) as He by reflexivity.
  destruct (catalog_open_ok fuel cache) as (cat & cache' & E2 & Hrd & Hrep & Hca & _).
  - split; [done|]. by apply synced_empty.
  - simpl. rewrite Hm, He. exact Hfuel.
  - by exists pgr, l.
  - intros m. left. rewrite Hm, Hcnt, He. reflexivity.
  - by exists cache, cat, cache'.
Qed.

Lemma tinydb_open_ok named node open_io create_io pgr l :
  storage_pager named node open_io create_io = Done (Some pgr) ->
  pager_wf pgr -> freelist pgr l -> page_count pgr + 1 < 2 ^ 32 -> (forall m, m ∈ l -> m < page_count pgr) ->
  exists st, tinydb_open dflt fuel named node open_io create_io = Done (SUCCESS_CODE, Some st) /\
    st_is_open st = true /\ ready fuel (st_store st) (cat_tree (st_catalog st)) /\
    cat_rep (st_store st) (st_catalog st) [] /\ cached (st_store st) (cat_tree (st_catalog st)).
Proof using Hdflt Hfuel.
  clear Hstack Hn. intros E Hwf Hfl Hc Hl.
  destruct (open_over_pager pgr l Hwf Hfl Hc Hl) as (cache & cat & cache' & E1 & E2 & Hrd & Hrep & Hca).
  exists (mkStorage cache' cat true). unfold tinydb_open. by rewrite E, bind_Done, E1, bind_Done, E2, bind_Done.
Qed.

(** Opening a database forgets its tables: whatever a valid file holds,
    tinydb_open makes a new, empty catalog in it, and every table name is unknown. *)
Theorem tinydb_open_forgets (b : list Z) (open_io create_io : list io_event) (pgr : Pager) (l : list Z)
    (type : Z) (name : list Z) :
  pager_open (FsReadWrite b) open_io = Done (Some pgr) -> pager_wf pgr -> freelist pgr l ->
  page_count pgr + 1 < 2 ^ 32 -> (forall m, m ∈ l -> m < page_count pgr) -> 0 ∈ name ->
  exists st s1 s2, tinydb_open dflt fuel true (FsReadWrite b) open_io create_io = Done (SUCCESS_CODE, Some st) /\
    catalog_lookup_type_name stack n fuel (st_store st) (st_catalog st) type name = Done (None, s1) /\
    catalog_get_tables stack n fuel (st_store st) (st_catalog st) = Done ([], s2).
Proof using Hdflt Hfuel Hstack Hn.
  intros E Hwf Hfl Hc Hl Hz.
  assert (storage_pager true (FsReadWrite b) open_io create_io = Done (Some pgr)) as Ep
    by (unfold storage_pager; by rewrite E).
  destruct (tinydb_open_ok _ _ _ _ _ _ Ep Hwf Hfl Hc Hl) as (st & E1 & _ & Hrd & Hrep & _).
  destruct (catalog_lookup_ok stack Hstack n fuel _ _ [] type name Hrd Hrep Hz Hn) as (s1 & E2 & _).
  destruct (catalog_get_tables_ok stack Hstack n fuel _ _ [] Hrd Hrep Hn) as (s2 & E3 & _).
  by exists st, s1, s2.
Qed.

(** A file that pager_open refuses, for whatever reason (a transient read error on a
    sound database included), is erased: tinydb_open then creates a database in its
    place and answers SUCCESS, exactly as if the file had not been there. *)
Theorem tinydb_open_erases (b : list Z) (open_io create_io : list io_event) :
  pager_open (FsReadWrite b) open_io = Done None -> benign create_io ->
  tinydb_open dflt fuel true (FsReadWrite b) open_io create_io =
    tinydb_open dflt fuel true FsAbsent open_io create_io /\
  exists st, tinydb_open dflt fuel true (FsReadWrite b) open_io create_io = Done (SUCCESS_CODE, Some st).
Proof using Hdflt Hfuel.
  clear Hstack Hn. intros E Hio.
  assert (storage_pager true (FsReadWrite b) open_io create_io = storage_pager true FsAbsent open_io create_io) as Ep
    by (unfold storage_pager; by rewrite E).
  split; [unfold tinydb_open; by rewrite Ep|].
  destruct (pager_create_ok (FsReadWrite b) create_io) as (pgr & Ec & Hwf & Hfl & Hcnt & _); [right; by exists b|done|].
  destruct (tinydb_open_ok true (FsReadWrite b) open_io create_io pgr []) as (st & E1 & _); try done.
  - unfold storage_pager. by rewrite E.
  - by rewrite Hcnt.
  - by intros m ?%elem_of_nil.
  - by exists st.
Qed.
End theorems.

(** ** Witnesses *)

(** A new database, a table "users" in its catalog, and the file after closing. *)
Definition demo_session : outcome (list Z) :=
  let* '(_, st) := tinydb_open 100 300 true FsAbsent [] [] in
  let* st := outcome_of_option st in
  let* '(_, s) := catalog_insert demo_stack 300 (st_store st) (st_catalog st) (table_named "users" 2) in
  tinydb_close 300 (mkStorage s (st_catalog st) true).

Definition demo_file : list Z := match demo_session with Done b => b | _ => [] end.

Definition demo_reopened : Pager :=
  match pager_open (FsReadWrite demo_file) [] with Done (Some p) => p | _ => demo_pager end.

Lemma demo_file_opens : pager_open (FsReadWrite demo_file) [] = Done (Some demo_reopened).
Proof. vm_compute. reflexivity. Qed.

Lemma demo_reopened_wf : pager_wf demo_reopened.
Proof.
  constructor; try (apply (bool_decide_unpack _); by vm_compute).
  assert (f_script (fd demo_reopened) = []) as -> by (by vm_compute). constructor.
Qed.

Lemma tinydb_open_forgets_witness :
  demo_session = Done demo_file /\
  exists st s1 s2, tinydb_open 100 300 true (FsReadWrite demo_file) [] [] = Done (SUCCESS_CODE, Some st) /\
    catalog_lookup_type_name demo_stack 1 300 (st_store st) (st_catalog st) CATALOG_TYPE_TABLE (zstr "users" ++ [0]) =
      Done (None, s1) /\
    catalog_get_tables demo_stack 1 300 (st_store st) (st_catalog st) = Done ([], s2).
Proof.
  split; [vm_compute; reflexivity|].
  apply (tinydb_open_forgets 100 300 demo_stack 1 eq_refl ltac:(apply Nat.ltb_lt; by vm_compute) eq_refl (le_n 1)
    demo_file [] [] demo_reopened []).
  - exact demo_file_opens.
  - exact demo_reopened_wf.
  - constructor; [by vm_compute|apply NoDup_nil_2|by vm_compute].
  - by vm_compute.
  - by intros m ?%elem_of_nil.
  - apply (bool_decide_unpack _). by vm_compute.
Defined.

Lemma tinydb_open_erases_witness :
  pager_open (FsReadWrite demo_file) [] = Done (Some demo_reopened) /\
  tinydb_open 100 300 true (FsReadWrite demo_file) [IoFail] [] =
    tinydb_open 100 300 true FsAbsent [IoFail] [] /\
  exists st, tinydb_open 100 300 true (FsReadWrite demo_file) [IoFail] [] = Done (SUCCESS_CODE, Some st).
Proof.
  split; [exact demo_file_opens|].
  apply (tinydb_open_erases 100 300 eq_refl ltac:(apply Nat.ltb_lt; by vm_compute) demo_file [IoFail] []);
    [vm_compute; reflexivity|constructor].
Defined.
