(* ===== verification/Memory.v ===== *)
(** Model of the mem_* functions of src/util/string.c over a heap of blocks, with
    what the allocator answers as an argument. *)
From Stdlib Require Import ZArith Lia String.
From stdpp Require Import base numbers option list gmap.
From S2P Require Import Prelude CString Double.

(** ** The allocator *)

(** A block: its bytes, None for one that was never set. Addresses are not reused. *)
Record Mem : Type := mkMem { blocks : gmap Z (list (option Z)); next_block : Z }.

Implicit Types m : Mem.

Definition SIZE_MAX : Z := 2 ^ 64 - 1.

(** A new block; NULL (0) when the allocator refuses, as [ok] says. *)
Definition new_block (ok : bool) m (b : list (option Z)) : Z * Mem :=
  if ok then (next_block m, mkMem (<[next_block m := b]> (blocks m)) (next_block m + 1)) else (0, m).

Definition malloc (ok : bool) m (size : Z) : Z * Mem := new_block ok m (replicate (Z.to_nat size) None).

(** The C library refuses a product that does not fit size_t. *)
Definition calloc (ok : bool) m (nmemb size : Z) : Z * Mem :=
  if SIZE_MAX <? nmemb * size then (0, m) else new_block ok m (replicate (Z.to_nat (nmemb * size)) (Some 0)).

Definition free m (p : Z) : outcome Mem :=
  if p =? 0 then Done m else
  match blocks m !! p with Some _ => Done (mkMem (delete p (blocks m)) (next_block m)) | None => Undef end.

(** Size 0 frees, as glibc does. *)
Definition realloc (ok : bool) m (p size : Z) : outcome (Z * Mem) :=
  if p =? 0 then Done (malloc ok m size) else
  match blocks m !! p with
  | None => Undef
  | Some b =>
      if size =? 0 then let* m := free m p in Done (0, m) else
      let n := Z.to_nat size in
      let '(q, m') := new_block ok m (take n b ++ replicate (n - length b) None) in
      if q =? 0 then Done (0, m') else let* m' := free m' p in Done (q, m')
  end.

(** ** The wrappers *)

(** A call returns, or panics with a message. *)
Inductive called (A : Type) : Type := Returns (a : A) | Panics (message : list Z).
Arguments Returns {A} a.
Arguments Panics {A} message.

Definition cannot (verb : list Z) (size : Z) : list Z :=
  zstr "Out of memory: cannot " ++ verb ++ print_int size ++ zstr " bytes".

Definition mem_alloc (ok : bool) m (size : Z) : called (Z * Mem) :=
  if size =? 0 then Returns (0, m) else
  let '(p, m) := malloc ok m size in
  if p =? 0 then Panics (cannot (zstr "allocate ") size) else Returns (p, m).

Definition mem_calloc (ok : bool) m (nmemb size : Z) : called (Z * Mem) :=
  if (nmemb =? 0) || (size =? 0) then Returns (0, m) else
  if SIZE_MAX / size <? nmemb then
    Panics (zstr "Out of memory: overflow in calloc(" ++ print_int nmemb ++ zstr ", " ++ print_int size ++ zstr ")")
  else
  let '(p, m) := calloc ok m nmemb size in
  if p =? 0 then Panics (cannot (zstr "allocate ") (u64 (nmemb * size))) else Returns (p, m).

Definition mem_realloc (ok : bool) m (p size : Z) : outcome (called (Z * Mem)) :=
  let* '(q, m) := realloc ok m p size in
  Done (if (q =? 0) && (0 <? size) then Panics (cannot (zstr "reallocate to ") size) else Returns (q, m)).

Definition mem_free m (p : Z) : outcome Mem := if p =? 0 then Done m else free m p.

(** The overflow flag is the last result (the variants with a NULL flag only lose it). *)
Definition mem_alloc_ovf (ok : bool) m (size : Z) : Z * Mem * Z :=
  if size =? 0 then (0, m, 0) else
  let '(p, m) := malloc ok m size in (p, m, if p =? 0 then 1 else 0).

Definition mem_calloc_ovf (ok : bool) m (nmemb size : Z) : Z * Mem * Z :=
  if (nmemb =? 0) || (size =? 0) then (0, m, 0) else
  if SIZE_MAX / size <? nmemb then (0, m, 1) else
  let '(p, m) := calloc ok m nmemb size in (p, m, if p =? 0 then 1 else 0).

(** ** Facts *)

(** The guard of the callocs is exact: the product overflows or it does not. *)
Lemma overflow_guard nmemb size : 0 <= nmemb -> 0 < size -> (SIZE_MAX / size <? nmemb) = (SIZE_MAX <? nmemb * size).
Proof.
  intros Hn Hs. destruct (Z.ltb_spec (SIZE_MAX / size) nmemb) as [H|H], (Z.ltb_spec SIZE_MAX (nmemb * size)) as [H'|H'];
    try done; exfalso.
  - assert (nmemb <= SIZE_MAX / size) by (apply Z.div_le_lower_bound; lia). lia.
  - pose proof (Z.mul_div_le SIZE_MAX size Hs). nia.
Qed.

Lemma new_block_spec ok m b :
  0 < next_block m ->
  new_block ok m b = (if ok then next_block m else 0,
    if ok then mkMem (<[next_block m := b]> (blocks m)) (next_block m + 1) else m).
Proof. intros Hm. by destruct ok. Qed.

(** ** Theorems *)

(** C35: mem_calloc_ovf never returns a block that is too small. For any two size_t
    arguments it returns NULL without the flag when one of them is 0; NULL with the
    flag, and nothing allocated, when the product does not fit size_t or the allocator
    refuses; and otherwise a new block of exactly nmemb * size zeros. mem_calloc
    agrees, with a panic in place of the flag. *)
Theorem calloc_checked (ok : bool) (m : Mem) (nmemb size : Z) :
  0 <= nmemb <= SIZE_MAX -> 0 <= size <= SIZE_MAX -> 0 < next_block m ->
  let '(p, m', flag) := mem_calloc_ovf ok m nmemb size in
  (flag = 1 <-> 0 < nmemb * size /\ (SIZE_MAX < nmemb * size \/ ok = false)) /\
  (p = 0 -> m' = m) /\
  (p <> 0 -> 0 < nmemb * size <= SIZE_MAX /\
     blocks m' = <[p := replicate (Z.to_nat (nmemb * size)) (Some 0)]> (blocks m)) /\
  match mem_calloc ok m nmemb size with
  | Returns r => flag = 0 /\ r = (p, m')
  | Panics _ => flag = 1
  end.
Proof.
  intros Hn Hs Hm. unfold mem_calloc_ovf, mem_calloc.
  destruct (Z.eqb_spec nmemb 0) as [->|Hn0]; [cbn [orb]; intuition lia|].
  destruct (Z.eqb_spec size 0) as [->|Hs0]; [cbn [orb]; intuition lia|]. cbn [orb].
  rewrite overflow_guard by lia. assert (0 < nmemb * size) as Hp by nia.
  destruct (Z.ltb_spec SIZE_MAX (nmemb * size)) as [Ho|Ho]; [intuition lia|].
  unfold calloc. rewrite (proj2 (Z.ltb_ge _ _)) by done. rewrite new_block_spec by done. destruct ok; cbn [Z.eqb].
  - rewrite (proj2 (Z.eqb_neq _ _)) by lia. intuition (try lia; try congruence).
  - intuition (try lia; try congruence).
Qed.

Lemma calloc_checked_witness :
  let '(p, m', flag) := mem_calloc_ovf true (mkMem ∅ 1) (2 ^ 61) 8 in
  (flag = 1 <-> 0 < 2 ^ 61 * 8 /\ (SIZE_MAX < 2 ^ 61 * 8 \/ true = false)) /\
  (p = 0 -> m' = mkMem ∅ 1) /\
  (p <> 0 -> 0 < 2 ^ 61 * 8 <= SIZE_MAX /\
     blocks m' = <[p := replicate (Z.to_nat (2 ^ 61 * 8)) (Some 0)]> (blocks (mkMem ∅ 1))) /\
  match mem_calloc true (mkMem ∅ 1) (2 ^ 61) 8 with
  | Returns r => flag = 0 /\ r = (p, m')
  | Panics _ => flag = 1
  end.
Proof. apply (calloc_checked true (mkMem ∅ 1) (2 ^ 61) 8); [split; done|split; done|done]. Defined.
