(* ===== verification/Auxiliary.v ===== *)
(** Model of the thin files src/storage/page.c and src/storage/file.c, which forward
    to the page cache and the pager, of page_cache_hit_rate, of the functions that do
    nothing yet, and of those that only read a field or print. What is printed is the
    bytes on stdout. *)
From Stdlib Require Import ZArith Lia String.
From stdpp Require Import base numbers option list.
From S2P Require Import Prelude Posix Pager PageCache BTree CString Double Lexer Parser Schema.

Definition page_init : Z := 0.
Definition page_pin_from_cache (fuel : nat) (cache : PageCache) (page_id : Z) := page_pin fuel cache page_id.
Definition page_unpin_from_cache (c : PageCache) (page : ptr) := page_unpin c page.
Definition page_mark_dirty_page (c : PageCache) (page : ptr) := page_mark_dirty c page.

Definition file_init : Z := 0.
Definition pager_create_file (node : fs_node) (script : list io_event) := pager_create node script.
Definition pager_open_file (node : fs_node) (script : list io_event) := pager_open node script.

(** The sum is that of two ints. *)
Definition page_cache_hit_rate (cache : PageCache) : outcome double :=
  let '(hits, misses, _, _) := page_cache_stats cache in
  let total := hits + misses in
  if negb ((- 2 ^ 31 <=? total) && (total <? 2 ^ 31)) then Undef else
  Done (if total =? 0 then d_zero else d_div (d_of_int hits) (d_of_int total)).

(** The init functions of the placeholder files. *)
Definition arena_init : Z := 0.
Definition btree_insert_init : Z := 0.
Definition btree_delete_init : Z := 0.
Definition table_init : Z := 0.
Definition scanner_init : Z := 0.
Definition analyzer_init : Z := 0.

(** No storage keeps an error; security and signals need no set-up. *)
Definition tinydb_error : option Z := None.
Definition tinydb_error_clear : outcome unit := Done tt.
Definition security_init : outcome unit := Done tt.
Definition security_shutdown : outcome unit := Done tt.

(** ** Accessors *)

Definition lexer_error_line (l : option Lexer) : Z := from_option Lexer.error_line 0 l.
Definition lexer_error_column (l : option Lexer) : Z := from_option Lexer.error_column 0 l.
Definition parser_error_line {L} (p : option (Parser L)) : Z := from_option p_error_line 0 p.
Definition parser_error_column {L} (p : option (Parser L)) : Z := from_option p_error_column 0 p.

Definition is_alpha (c : Z) : bool := isalpha c.
Definition is_digit (c : Z) : bool := isdigit c.
Definition is_alphanumeric (c : Z) : bool := is_alpha c || is_digit c.

(** ** Printing *)

(** "%s" *)
Definition print_str (b : list Z) : outcome (list Z) :=
  let* n := str_len b in buf_read 0 n b.

Definition btree_print (t : BTree) : list Z :=
  zstr "BTree: root=" ++ print_int (root_page t) ++ zstr ", pages=" ++ print_int (tree_page_count t) ++ [10].

(** One line per column, from [i]. *)
Fixpoint print_columns (i : Z) (columns : list Column) : outcome (list Z) :=
  match columns with
  | [] => Done []
  | col :: columns =>
      let* name := print_str (c_name col) in
      let* rest := print_columns (i + 1) columns in
      Done (zstr "  " ++ print_int i ++ zstr ": " ++ name ++ zstr " " ++ column_type_name (c_type col) ++
            (if c_not_null col =? 0 then [] else zstr " NOT NULL") ++
            (if c_primary_key col =? 0 then [] else zstr " PRIMARY KEY") ++
            (if c_auto_increment col =? 0 then [] else zstr " AUTOINCREMENT") ++ [10] ++ rest)
  end.

Definition schema_print (s : Schema) : outcome (list Z) :=
  let* name := print_str (s_table_name s) in
  let* columns := buf_read 0 (Z.max 0 (s_col_count s)) (s_columns s) in
  let* lines := print_columns 0 columns in
  Done (zstr "Schema: " ++ name ++ zstr " (columns: " ++ print_int (s_col_count s) ++
        zstr ", auto_inc: " ++ print_int (s_auto_increment s) ++ zstr ")" ++ [10] ++ lines).

Definition print_version : list Z := zstr "TinyDB Server v2.0.0" ++ [10].

Definition print_help (prog : list Z) : outcome (list Z) :=
  let* prog := print_str prog in
  Done (zstr "Usage: " ++ prog ++ zstr " [OPTIONS]" ++ [10] ++
    [10] ++ zstr "Options:" ++ [10] ++
    zstr "  -h, --help             Show this help message" ++ [10] ++
    zstr "  -v, --version          Show version" ++ [10] ++
    zstr "  -d, --db-path <path>    Database file path" ++ [10] ++
    zstr "  -s, --socket-path <path>  Unix socket path" ++ [10] ++
    zstr "  -l, --log-level <level> Log level (error, warn, info, debug)" ++ [10] ++
    [10] ++ zstr "Environment variables:" ++ [10] ++
    zstr "  TINYDB_DB_PATH         Database file path" ++ [10] ++
    zstr "  TINYDB_SOCKET_PATH     Unix socket path" ++ [10] ++
    zstr "  TINYDB_LOG_LEVEL       Log level" ++ [10]).
