(* ===== verification/Teardown.v ===== *)
(** The functions that only free: who owns what among the handles of the storage and SQL
    layers, in src/storage/btree.c and wal.c, src/sql/catalog.c, schema.c, executor.c and
    storage.c, src/util/string.c and src/security/security.c. Each is shown to release
    the objects of its handle, all of them and only once. *)
From Stdlib Require Import ZArith Lia.
From stdpp Require Import base numbers option list gmap.
From S2P Require Import Prelude Heaps.

(** A handle with the pointers its destructor follows; the other fields are left out. *)
Inductive HObj : Type :=
  | OPlain
  | OBTreeRange (start end_ : loc)
  | OCatalogCursor (btree_cursor : loc)
  | OEntries (entries : list loc)
  | OSchema (columns : loc)
  | OList (items : loc).

Notation Heap := (Heaps.Heap HObj).
Implicit Types (h : Heap) (p : loc).

(** if (p) free(p); *)
Definition free_if h p : outcome Heap := if p =? 0 then Done h else free h p.

Definition btree_cursor_free h p : outcome Heap := free_if h p.

Definition btree_range_free h p : outcome Heap :=
  if p =? 0 then Done h else
  match cells h !! p with
  | Some (OBTreeRange start end_) =>
      let* h := if start =? 0 then Done h else btree_cursor_free h start in
      let* h := if end_ =? 0 then Done h else btree_cursor_free h end_ in
      free h p
  | _ => Undef
  end.

Definition catalog_cursor_free h p : outcome Heap :=
  if p =? 0 then Done h else
  match cells h !! p with
  | Some (OCatalogCursor c) =>
      let* h := if c =? 0 then Done h else btree_cursor_free h c in
      free h p
  | _ => Undef
  end.

(** for (i...) if (entries[i]) free(entries[i]); [k] turns from [i]. *)
Fixpoint free_entries (k i : nat) h p : outcome Heap :=
  match k with
  | O => Done h
  | S k =>
      match cells h !! p with
      | Some (OEntries es) =>
          let* e := outcome_of_option (es !! i) in
          let* h := free_if h e in
          free_entries k (S i) h p
      | _ => Undef
      end
  end.

Definition catalog_free_entries h p (count : Z) : outcome Heap :=
  if p =? 0 then Done h else
  let* h := free_entries (Z.to_nat count) 0 h p in
  free h p.

Definition schema_destroy h p : outcome Heap :=
  if p =? 0 then Done h else
  match cells h !! p with
  | Some (OSchema columns) => let* h := free_if h columns in free h p
  | _ => Undef
  end.

Definition list_destroy h p : outcome Heap :=
  if p =? 0 then Done h else
  match cells h !! p with
  | Some (OList items) => let* h := free h items in free h p
  | _ => Undef
  end.

Definition executor_destroy h p : outcome Heap := free_if h p.
Definition wal_recovery_info_free h p : outcome Heap := free_if h p.
Definition tinydb_disconnect h p : outcome Heap := free_if h p.
Definition security_escape_free h p : outcome Heap := free h p.

(** ** What they release *)

(** The object behind a pointer that may be NULL. *)
Definition owned p (o : HObj) : list (loc * HObj) := if p =? 0 then [] else [(p, o)].

Lemma free_owned p o : releases (fun h => free h p) (owned p o).
Proof.
  unfold owned. destruct (Z.eqb_spec p 0) as [->|]; [by eapply releases_ext; [|apply releases_nothing]|apply releases_block].
Qed.

Lemma free_if_eq h p : free_if h p = free h p.
Proof. unfold free_if, free. by destruct (p =? 0). Qed.

Lemma free_if_owned p o : releases (fun h => free_if h p) (owned p o).
Proof. eapply releases_ext; [|apply free_owned]. intros h. apply free_if_eq. Qed.

(** NULL, or a handle whose parts [img] are freed before it. *)
Lemma releases_handle F body p o img :
  (forall h, F h 0 = Done h) -> releases body img ->
  (forall h, cells h !! p = Some o -> p <> 0 -> F h p = let* h := body h in free h p) ->
  releases (fun h => F h p) (if p =? 0 then [] else (p, o) :: img).
Proof.
  intros H0 Hbody HF. destruct (Z.eqb_spec p 0) as [->|Hp]; [by eapply releases_ext, releases_nothing|].
  by apply (releases_node (fun h => F h p) body).
Qed.

Ltac handle := intros h Ho Hp; unfold btree_range_free, catalog_cursor_free, schema_destroy, list_destroy;
  rewrite (proj2 (Z.eqb_neq _ _) Hp), Ho.

Lemma if_cursor_free h p : (if p =? 0 then Done h else btree_cursor_free h p) = free_if h p.
Proof. unfold btree_cursor_free, free_if. by destruct (p =? 0). Qed.

Lemma btree_range_free_releases p start end_ :
  releases (fun h => btree_range_free h p)
    (if p =? 0 then [] else (p, OBTreeRange start end_) :: owned start OPlain ++ owned end_ OPlain).
Proof.
  apply (releases_handle _ (fun h => let* h := free_if h start in free_if h end_)); [done| |].
  - apply (releases_seq (fun h => free_if h start)); apply free_if_owned.
  - handle. rewrite if_cursor_free, bind_assoc. apply obind_ext. intros h'. by rewrite if_cursor_free.
Qed.

Lemma catalog_cursor_free_releases p c :
  releases (fun h => catalog_cursor_free h p) (if p =? 0 then [] else (p, OCatalogCursor c) :: owned c OPlain).
Proof.
  apply (releases_handle _ (fun h => free_if h c)); [done|apply free_if_owned|]. handle. by rewrite if_cursor_free.
Qed.

Lemma schema_destroy_releases p columns :
  releases (fun h => schema_destroy h p) (if p =? 0 then [] else (p, OSchema columns) :: owned columns OPlain).
Proof. apply (releases_handle _ (fun h => free_if h columns)); [done|apply free_if_owned|]. by handle. Qed.

Lemma list_destroy_releases p items :
  releases (fun h => list_destroy h p) (if p =? 0 then [] else (p, OList items) :: owned items OPlain).
Proof. apply (releases_handle _ (fun h => free h items)); [done|apply free_owned|]. by handle. Qed.

(** The entries of the array, and the array last. *)
Lemma free_entries_eq k i h p es :
  cells h !! p = Some (OEntries es) -> p ∉ es -> (i + k = length es)%nat ->
  free_entries k i h p = free_all h (drop i es).
Proof.
  revert i h. induction k as [|k IH]; intros i h Hp Hn Hl; cbn [free_entries]; [by rewrite drop_ge by lia|].
  rewrite Hp. destruct (lookup_lt_is_Some_2 es i) as [e He]; [lia|]. rewrite He. cbn [outcome_of_option].
  rewrite bind_Done, free_if_eq, (drop_S _ _ _ He). cbn [free_all].
  unfold free. destruct (Z.eqb_spec e 0) as [->|Hz]; [rewrite !bind_Done; by apply IH; [..|lia]|].
  destruct (cells h !! e); [|done]. rewrite !bind_Done. apply IH; [|done|lia]. cbn [cells].
  rewrite lookup_delete_ne; [done|]. intros ->. by apply Hn, (list_elem_of_lookup_2 _ i).
Qed.

Lemma free_all_owned es os :
  length es = length os -> releases (fun h => free_all h es) (concat (zip_with owned es os)).
Proof.
  revert os. induction es as [|e es IH]; intros [|o os] Hl; try done; [apply releases_nothing|].
  cbn [free_all zip_with concat]. apply (releases_seq (fun h => free h e)); [apply free_owned|].
  apply IH. by injection Hl.
Qed.

Lemma catalog_free_entries_releases p es os :
  length es = length os -> p <> 0 ->
  releases (fun h => catalog_free_entries h p (len es)) ((p, OEntries es) :: concat (zip_with owned es os)).
Proof.
  intros Hl Hp h Hpr Hd. pose proof (Forall_inv Hpr) as [_ Ho]. cbn [fst snd] in Ho.
  assert (p ∉ es) as Hn.
  { intros Hin. cbn [map fst] in Hd. apply NoDup_cons in Hd as [Hd _]. apply Hd. clear -Hin Hl Hp. revert os Hl.
    induction es as [|e es IH]; intros [|o os] Hl; [by apply not_elem_of_nil in Hin|done..|].
    cbn [zip_with concat]. rewrite map_app, elem_of_app. apply elem_of_cons in Hin as [<-|Hin].
    - left. unfold owned. rewrite (proj2 (Z.eqb_neq _ _) Hp). left.
    - right. apply IH; [done|]. by injection Hl. }
  pose proof (releases_node (fun h => let* h := free_all h es in free h p) (fun h => free_all h es) p (OEntries es)
    (concat (zip_with owned es os)) (free_all_owned es os Hl) (fun _ _ _ => eq_refl) h Hpr Hd) as H.
  unfold catalog_free_entries. rewrite (proj2 (Z.eqb_neq _ _) Hp), Nat2Z.id.
  by rewrite (free_entries_eq _ 0 h p es).
Qed.
