(* ===== verification/AstMem.v ===== *)
(** Model of src/sql/ast.c: reference-counted expressions and statements on a heap,
    their release and copying. *)
From Stdlib Require Import ZArith Lia.
From stdpp Require Import base numbers option list gmap.
From S2P Require Import Prelude Double Ast Heaps.

(** ** The objects *)

(** The union of struct Expression. *)
Inductive Payload : Type :=
  | P_LITERAL_INT (as_int : Z)
  | P_LITERAL_FLOAT (as_float : double)
  | P_LITERAL_STRING (str : loc) (n : nat)
  | P_LITERAL_NULL
  | P_COLUMN (col_index : Z) (col_name : loc)
  | P_BINARY (left : loc) (op : Z) (right : loc)
  | P_UNARY (op : Z) (operand : loc)
  | P_FUNC (name args : loc) (arg_count : nat)
  | P_CASE (cond then_ else_ : loc)
  | P_SUBQUERY (query : loc)
  | P_IN (value list_ : loc) (count : nat) (not : Z)
  | P_BETWEEN (value low high : loc) (not : Z)
  | P_LIKE (str pattern : loc) (escape not : Z).

(** The structs of ast.h, with the links between them; [OBytes] is a char array,
    [OPtrs] an array of expressions. The fields that release does not look at are
    left out of statements and list nodes. *)
Inductive Stmt : Type :=
  | S_CREATE_TABLE (table_name columns : loc)
  | S_DROP_TABLE (table_name : loc)
  | S_CREATE_INDEX (index_name table_name column_name : loc)
  | S_DROP_INDEX (index_name : loc)
  | S_INSERT (table_name columns values : loc)
  | S_UPDATE (table_name set_clauses where_ : loc)
  | S_DELETE (table_name where_ : loc)
  | S_SELECT (columns table_name alias where_ order_by limit offset : loc)
  | S_TRANSACTION.

Inductive Obj : Type :=
  | OExpr (refcount : Z) (p : Payload)
  | OStmt (refcount : Z) (s : Stmt)
  | OBytes (b : list Z)
  | OPtrs (ptrs : list loc)
  | OColumnDef (name default_value next : loc)
  | OColumnList (name alias next : loc)
  | OValueList (values : loc) (count : nat) (next : loc)
  | OOrderBy (column_name next : loc)
  | OSetClause (column_name value next : loc).

Notation Heap := (Heaps.Heap Obj).

Implicit Types h : Heap.

Definition get_expr h (e : loc) : outcome (Z * Payload) :=
  match cells h !! e with Some (OExpr rc p) => Done (rc, p) | _ => Undef end.

Definition get_ptrs h (a : loc) : outcome (list loc) :=
  match cells h !! a with Some (OPtrs ps) => Done ps | _ => Undef end.

(** ** Expressions *)

Inductive ExprType : Type :=
  | EXPR_T_LITERAL_INT | EXPR_T_LITERAL_FLOAT | EXPR_T_LITERAL_STRING | EXPR_T_LITERAL_NULL | EXPR_T_COLUMN
  | EXPR_T_BINARY | EXPR_T_UNARY | EXPR_T_FUNC | EXPR_T_CASE | EXPR_T_SUBQUERY | EXPR_T_IN | EXPR_T_BETWEEN
  | EXPR_T_LIKE.

(** The union full of zeros. *)
Definition zero_payload (t : ExprType) : Payload :=
  match t with
  | EXPR_T_LITERAL_INT => P_LITERAL_INT 0
  | EXPR_T_LITERAL_FLOAT => P_LITERAL_FLOAT (SpecFloat.S754_zero false)
  | EXPR_T_LITERAL_STRING => P_LITERAL_STRING 0 0
  | EXPR_T_LITERAL_NULL => P_LITERAL_NULL
  | EXPR_T_COLUMN => P_COLUMN 0 0
  | EXPR_T_BINARY => P_BINARY 0 0 0
  | EXPR_T_UNARY => P_UNARY 0 0
  | EXPR_T_FUNC => P_FUNC 0 0 0
  | EXPR_T_CASE => P_CASE 0 0 0
  | EXPR_T_SUBQUERY => P_SUBQUERY 0
  | EXPR_T_IN => P_IN 0 0 0 0
  | EXPR_T_BETWEEN => P_BETWEEN 0 0 0 0
  | EXPR_T_LIKE => P_LIKE 0 0 0 0
  end.

Definition expr_create h (t : ExprType) : loc * Heap := alloc h (OExpr 1 (zero_payload t)).

Definition expr_ref h (e : loc) : outcome Heap :=
  if e =? 0 then Done h else
  let* '(rc, p) := get_expr h e in Done (put h e (OExpr (rc + 1) p)).

(** What release visits for a payload: the children in order, each with the array
    it is read from (0 for a field of the node itself), and the arrays freed after
    them. *)
Definition children h (p : Payload) : outcome (list (loc * loc) * list loc) :=
  match p with
  | P_LITERAL_STRING str _ => Done ([], [str])
  | P_BINARY l _ r => Done ([(0, l); (0, r)], [])
  | P_UNARY _ e => Done ([(0, e)], [])
  | P_FUNC name args n =>
      if (n =? 0)%nat then Done ([], [args; name]) else
      let* ps := get_ptrs h args in
      if (n <=? length ps)%nat then Done (map (pair args) (take n ps), [args; name]) else Undef
  | P_CASE c t e => Done ([(0, c); (0, t); (0, e)], [])
  | P_IN v list n _ =>
      if (n =? 0)%nat then Done ([(0, v)], [list]) else
      let* ps := get_ptrs h list in
      if (n <=? length ps)%nat then Done ((0, v) :: map (pair list) (take n ps), [list]) else Undef
  | P_BETWEEN v l hi _ => Done ([(0, v); (0, l); (0, hi)], [])
  | P_LIKE s p _ _ => Done ([(0, s); (0, p)], [])
  | P_LITERAL_INT _ | P_LITERAL_FLOAT _ | P_LITERAL_NULL | P_COLUMN _ _ | P_SUBQUERY _ => Done ([], [])
  end.

(** The node, and the array, are read again for each child (only reference counts
    change, so with the same result): they must still be there. *)
Fixpoint unref_children (unref : Heap -> loc -> outcome Heap) (e : loc) h (cs : list (loc * loc)) : outcome Heap :=
  match cs with
  | [] => Done h
  | (a, c) :: cs =>
      let* _ := get_expr h e in
      let* _ := if a =? 0 then Done [] else get_ptrs h a in
      let* h := unref h c in
      unref_children unref e h cs
  end.

(** The fuel bounds the depth. *)
Fixpoint expr_unref (fuel : nat) h (e : loc) : outcome Heap :=
  if e =? 0 then Done h else
  match fuel with
  | O => NoFuel
  | S fuel =>
      let* '(rc, p) := get_expr h e in
      let h := put h e (OExpr (rc - 1) p) in
      if rc - 1 <=? 0 then
        let* '(cs, arrays) := children h p in
        let* h := unref_children (expr_unref fuel) e h cs in
        let* h := free_all h arrays in
        free h e
      else Done h
  end.

(** A copy of the bytes of a string: [n] of them. *)
Definition copy_bytes h (str : loc) (n : nat) : outcome (loc * Heap) :=
  match cells h !! str with
  | Some (OBytes b) => let* d := buf_read 0 (Z.of_nat n) b in Done (alloc h (OBytes d))
  | _ => Undef
  end.

Fixpoint expr_copy (fuel : nat) h (e : loc) : outcome (loc * Heap) :=
  if e =? 0 then Done (0, h) else
  match fuel with
  | O => NoFuel
  | S fuel =>
      let* '(_, p) := get_expr h e in
      let '(c, h) := alloc h (OExpr 1 p) in
      match p with
      | P_LITERAL_STRING str n =>
          let* '(s, h) := copy_bytes h str n in
          Done (c, put h c (OExpr 1 (P_LITERAL_STRING s n)))
      | P_BINARY l op r =>
          let* '(l', h) := expr_copy fuel h l in
          let h := put h c (OExpr 1 (P_BINARY l' op r)) in
          let* '(r', h) := expr_copy fuel h r in
          Done (c, put h c (OExpr 1 (P_BINARY l' op r')))
      | P_UNARY op x =>
          let* '(x', h) := expr_copy fuel h x in
          Done (c, put h c (OExpr 1 (P_UNARY op x')))
      | _ => Done (c, h)
      end
  end.

(** ** Statements *)

Inductive AstNodeType : Type :=
  | AST_T_CREATE_TABLE | AST_T_DROP_TABLE | AST_T_CREATE_INDEX | AST_T_DROP_INDEX | AST_T_INSERT | AST_T_UPDATE
  | AST_T_DELETE | AST_T_SELECT | AST_T_TRANSACTION.

(** The fields of a new statement are zeros. *)
Definition zero_stmt (t : AstNodeType) : Stmt :=
  match t with
  | AST_T_CREATE_TABLE => S_CREATE_TABLE 0 0
  | AST_T_DROP_TABLE => S_DROP_TABLE 0
  | AST_T_CREATE_INDEX => S_CREATE_INDEX 0 0 0
  | AST_T_DROP_INDEX => S_DROP_INDEX 0
  | AST_T_INSERT => S_INSERT 0 0 0
  | AST_T_UPDATE => S_UPDATE 0 0 0
  | AST_T_DELETE => S_DELETE 0 0
  | AST_T_SELECT => S_SELECT 0 0 0 0 0 0 0
  | AST_T_TRANSACTION => S_TRANSACTION
  end.

Definition ast_create h (type : AstNodeType) : loc * Heap := alloc h (OStmt 1 (zero_stmt type)).

Definition ast_ref h (node : loc) : outcome Heap :=
  if node =? 0 then Done h else
  match cells h !! node with
  | Some (OStmt rc s) => Done (put h node (OStmt (rc + 1) s))
  | _ => Undef
  end.

Section release.
Variable fuel : nat.

Fixpoint free_column_def (n : nat) h (col : loc) : outcome Heap :=
  if col =? 0 then Done h else
  match n with
  | O => NoFuel
  | S n =>
      match cells h !! col with
      | Some (OColumnDef name dflt next) =>
          let* h := free h name in
          let* h := expr_unref fuel h dflt in
          let* h := free_column_def n h next in
          free h col
      | _ => Undef
      end
  end.

Fixpoint free_column_list (n : nat) h (col : loc) : outcome Heap :=
  if col =? 0 then Done h else
  match n with
  | O => NoFuel
  | S n =>
      match cells h !! col with
      | Some (OColumnList name alias next) =>
          let* h := free h name in
          let* h := free h alias in
          let* h := free_column_list n h next in
          free h col
      | _ => Undef
      end
  end.

(** The loop over the values of a row. *)
Fixpoint unref_values h (vs : list loc) : outcome Heap :=
  match vs with [] => Done h | v :: vs => let* h := expr_unref fuel h v in unref_values h vs end.

Fixpoint free_value_list (n : nat) h (vl : loc) : outcome Heap :=
  if vl =? 0 then Done h else
  match n with
  | O => NoFuel
  | S n =>
      match cells h !! vl with
      | Some (OValueList values count next) =>
          let* ps := if (count =? 0)%nat then Done [] else get_ptrs h values in
          if negb (count <=? length ps)%nat then Undef else
          let* h := unref_values h (take count ps) in
          let* h := free h values in
          let* h := free_value_list n h next in
          free h vl
      | _ => Undef
      end
  end.

Fixpoint free_order_by (n : nat) h (ob : loc) : outcome Heap :=
  if ob =? 0 then Done h else
  match n with
  | O => NoFuel
  | S n =>
      match cells h !! ob with
      | Some (OOrderBy name next) =>
          let* h := free h name in
          let* h := free_order_by n h next in
          free h ob
      | _ => Undef
      end
  end.

Fixpoint free_set_clause (n : nat) h (sc : loc) : outcome Heap :=
  if sc =? 0 then Done h else
  match n with
  | O => NoFuel
  | S n =>
      match cells h !! sc with
      | Some (OSetClause name value next) =>
          let* h := free h name in
          let* h := expr_unref fuel h value in
          let* h := free_set_clause n h next in
          free h sc
      | _ => Undef
      end
  end.

(** The switch of ast_free. *)
Definition free_fields (n : nat) h (s : Stmt) : outcome Heap :=
  match s with
  | S_CREATE_TABLE t cols => let* h := free h t in free_column_def n h cols
  | S_DROP_TABLE t => free h t
  | S_CREATE_INDEX i t c => free_all h [i; t; c]
  | S_DROP_INDEX i => free h i
  | S_INSERT t cols vals =>
      let* h := free h t in let* h := free_column_list n h cols in free_value_list n h vals
  | S_UPDATE t sc w => let* h := free h t in let* h := free_set_clause n h sc in expr_unref fuel h w
  | S_DELETE t w => let* h := free h t in expr_unref fuel h w
  | S_SELECT cols t alias w ob l o =>
      let* h := free_column_list n h cols in
      let* h := free_all h [t; alias] in
      let* h := expr_unref fuel h w in
      let* h := free_order_by n h ob in
      let* h := expr_unref fuel h l in
      expr_unref fuel h o
  | S_TRANSACTION => Done h
  end.

Definition ast_free (n : nat) h (node : loc) : outcome Heap :=
  if node =? 0 then Done h else
  match cells h !! node with
  | Some (OStmt _ s) => let* h := free_fields n h s in free h node
  | _ => Undef
  end.

Definition ast_unref (n : nat) h (node : loc) : outcome Heap :=
  if node =? 0 then Done h else
  match cells h !! node with
  | Some (OStmt rc s) =>
      let h := put h node (OStmt (rc - 1) s) in
      if rc - 1 <=? 0 then ast_free n h node else Done h
  | _ => Undef
  end.
End release.

(** ** Expressions on the heap, as trees *)

(** What a node holds besides its children: where its own arrays are, and what they
    hold. [slack] is the unused end of an array of children; [H_IN_NULL] is an IN
    without items, whose list is NULL. *)
Inductive Head : Type :=
  | H_INT (z : Z)
  | H_FLOAT (d : double)
  | H_STRING (str : loc) (b : list Z) (n : nat)
  | H_NULL
  | H_COLUMN (index : Z) (name : loc)
  | H_BINARY (op : Z)
  | H_UNARY (op : Z)
  | H_FUNC (name : loc) (b : list Z) (args : loc) (slack : list loc)
  | H_CASE
  | H_SUBQUERY (query : loc)
  | H_IN (list_ : loc) (slack : list loc) (not : Z)
  | H_IN_NULL (not : Z)
  | H_BETWEEN (not : Z)
  | H_LIKE (escape not : Z).

Inductive Tree : Type := TNull | TNode (l : loc) (hd : Head) (kids : list Tree).

Section TreeInd.
Variable P : Tree -> Prop.
Hypothesis (Hnull : P TNull) (Hnode : forall l hd kids, Forall P kids -> P (TNode l hd kids)).
Fixpoint tree_induction (t : Tree) : P t.
Proof.
  destruct t as [|l hd kids]; [exact Hnull|]. apply Hnode.
  induction kids as [|k kids IH]; constructor; [apply tree_induction|exact IH].
Qed.
End TreeInd.

Definition root (t : Tree) : loc := match t with TNull => 0 | TNode l _ _ => l end.

Definition payload_of (hd : Head) (rs : list loc) : option Payload :=
  match hd, rs with
  | H_INT z, [] => Some (P_LITERAL_INT z)
  | H_FLOAT d, [] => Some (P_LITERAL_FLOAT d)
  | H_STRING str _ n, [] => Some (P_LITERAL_STRING str n)
  | H_NULL, [] => Some P_LITERAL_NULL
  | H_COLUMN i name, [] => Some (P_COLUMN i name)
  | H_BINARY op, [l; r] => Some (P_BINARY l op r)
  | H_UNARY op, [e] => Some (P_UNARY op e)
  | H_FUNC name _ args _, _ => Some (P_FUNC name args (length rs))
  | H_CASE, [c; t; e] => Some (P_CASE c t e)
  | H_SUBQUERY q, [] => Some (P_SUBQUERY q)
  | H_IN list _ not, v :: items => Some (P_IN v list (length items) not)
  | H_IN_NULL not, [v] => Some (P_IN v 0 0 not)
  | H_BETWEEN not, [v; l; h] => Some (P_BETWEEN v l h not)
  | H_LIKE escape not, [s; p] => Some (P_LIKE s p escape not)
  | _, _ => None
  end.

(** The arrays of a node that release frees, in that order. (The name of a column
    and the query of a subquery are not among them.) *)
Definition blocks (hd : Head) (rs : list loc) : list (loc * Obj) :=
  match hd with
  | H_STRING str b _ => [(str, OBytes b)]
  | H_FUNC name b args slack => [(args, OPtrs (rs ++ slack)); (name, OBytes b)]
  | H_IN list slack _ => [(list, OPtrs (tail rs ++ slack))]
  | _ => []
  end.

(** The tree is in the heap, every node with one reference. *)
Fixpoint rep h (t : Tree) : Prop :=
  match t with
  | TNull => True
  | TNode l hd kids =>
      l <> 0 /\
      match payload_of hd (map root kids) with
      | Some p => cells h !! l = Some (OExpr 1 p)
      | None => False
      end /\
      Forall (present h) (blocks hd (map root kids)) /\
      foldr (fun k acc => rep h k /\ acc) True kids
  end.

(** What release frees. *)
Fixpoint freed (t : Tree) : list loc :=
  match t with
  | TNull => []
  | TNode l hd kids => l :: map fst (blocks hd (map root kids)) ++ concat (map freed kids)
  end.

Fixpoint depth (t : Tree) : nat :=
  match t with TNull => 0 | TNode _ _ kids => S (foldr (fun k acc => Nat.max (depth k) acc) 0%nat kids) end.

(** ** Lemmas *)

Lemma rep_kids h kids : foldr (fun k acc => rep h k /\ acc) True kids <-> Forall (rep h) kids.
Proof.
  induction kids as [|k kids IH]; simpl; [by split; constructor|]. rewrite Forall_cons, IH. done.
Qed.

(** A tree does not notice what happens elsewhere. *)
Lemma rep_frame h h' t :
  rep h t -> (forall k, k ∈ freed t -> cells h' !! k = cells h !! k) -> rep h' t.
Proof.
  induction t as [|l hd kids IH] using tree_induction; [done|]. intros (Hl & Hp & Hb & Hk) Hsame.
  cbn [freed] in Hsame. split; [done|]. split_and!.
  - destruct (payload_of hd (map root kids)); [|done]. rewrite Hsame; [done|by left].
  - apply (present_frame h); [done|]. intros a Ha. apply Hsame. right. apply elem_of_app. by left.
  - apply rep_kids. apply rep_kids in Hk. rewrite Forall_forall in IH, Hk. apply Forall_forall. intros k Hin.
    apply IH; [done|by apply Hk|]. intros x Hx. apply Hsame. right. apply elem_of_app. right.
    apply list_elem_of_In, in_concat. exists (freed k). split; [|by apply list_elem_of_In].
    apply in_map. by apply list_elem_of_In.
Qed.

Lemma map_pair_zip {A} (a : A) (rs : list loc) : map (pair a) rs = zip (replicate (length rs) a) rs.
Proof. induction rs as [|r rs IH]; simpl; [done|]. by rewrite IH. Qed.

(** The children of a node that is in the heap. *)
Lemma children_ok h hd rs p :
  payload_of hd rs = Some p -> Forall (present h) (blocks hd rs) ->
  exists arrs frees, length arrs = length rs /\ children h p = Done (zip arrs rs, frees) /\
    (forall h, free_all h frees = free_all h (map fst (blocks hd rs))) /\
    Forall (fun a => a = 0 \/ exists ps, (a, OPtrs ps) ∈ blocks hd rs) arrs.
Proof.
  intros Hp Hb.
  assert (forall frees q, payload_of hd rs = Some q ->
    children h q = Done (zip (replicate (length rs) 0) rs, frees) ->
    (forall h, free_all h frees = free_all h (map fst (blocks hd rs))) ->
    exists arrs frees, length arrs = length rs /\ children h q = Done (zip arrs rs, frees) /\
    (forall h, free_all h frees = free_all h (map fst (blocks hd rs))) /\
    Forall (fun a => a = 0 \/ exists ps, (a, OPtrs ps) ∈ blocks hd rs) arrs) as Hfields.
  { intros frees q _ Hc Hfr. eexists _, frees. split; [apply length_replicate|]. split; [exact Hc|]. split; [done|].
    apply Forall_replicate. by left. }
  assert (forall v r items ptrs slack, blocks hd rs = (ptrs, OPtrs ((r :: items) ++ slack)) :: v ->
    get_ptrs h ptrs = Done ((r :: items) ++ slack)) as Hptrs.
  { intros v r items ptrs slack E. rewrite E in Hb. apply Forall_cons in Hb as [[_ Ha] _]. cbn [fst snd] in Ha.
    unfold get_ptrs. by rewrite Ha. }
  specialize (fun frees => Hfields frees p Hp).
  destruct hd; cbn [payload_of] in Hp.
  8: {
    simplify_eq. clear Hfields. exists (replicate (length rs) args), [args; name]. split_and!;
      [by rewrite length_replicate| |done|apply Forall_replicate; right; eexists; by left].
    cbn [children]. destruct rs as [|r rs]; [done|]. rewrite (proj2 (Nat.eqb_neq _ _)) by (simpl; lia).
    rewrite (Hptrs _ _ _ _ _ eq_refl), bind_Done. rewrite (proj2 (Nat.leb_le _ _)) by (rewrite length_app; lia).
    rewrite take_app_length. by rewrite map_pair_zip. }
  10: {
    destruct rs as [|v rs]; [done|]. simplify_eq. clear Hfields. exists (0 :: replicate (length rs) list_), [list_].
    split_and!; [simpl; by rewrite length_replicate| |done|constructor; [by left|]; apply Forall_replicate; right;
      eexists; by left].
    cbn [children]. destruct rs as [|r rs]; [done|]. rewrite (proj2 (Nat.eqb_neq _ _)) by (simpl; lia).
    rewrite (Hptrs _ _ _ _ _ eq_refl), bind_Done. rewrite (proj2 (Nat.leb_le _ _)) by (rewrite length_app; lia).
    rewrite take_app_length. by rewrite map_pair_zip. }
  all: eapply Hfields; destruct rs as [|? [|? [|? [|? rs]]]]; by simplify_eq.
Qed.

Lemma unref_children_ok unref e rc p arrs kids : forall h,
  length arrs = length kids ->
  cells h !! e = Some (OExpr rc p) -> e ∉ concat (map freed kids) ->
  Forall (fun a => a = 0 \/ ((exists ps, cells h !! a = Some (OPtrs ps)) /\ a ∉ concat (map freed kids))) arrs ->
  Forall (rep h) kids -> NoDup (concat (map freed kids)) ->
  Forall (fun k => forall h, rep h k -> NoDup (freed k) -> unref h (root k) = Done (del (freed k) h)) kids ->
  unref_children unref e h (zip arrs (map root kids)) = Done (del (concat (map freed kids)) h).
Proof.
  revert arrs. induction kids as [|k kids IH]; intros [|a arrs] h Hl He Hn Ha Hr Hd Hu; simplify_eq/=;
    [by destruct h|].
  apply Forall_cons in Ha as [Ha1 Ha], Hr as [Hr1 Hr], Hu as [Hu1 Hu]. apply NoDup_app in Hd as (Hd1 & Hdis & Hd2).
  rewrite not_elem_of_app in Hn. destruct Hn as [Hn1 Hn2].
  unfold get_expr at 1. rewrite He, bind_Done.
  assert ((if a =? 0 then Done [] else get_ptrs h a) <> Undef /\ (if a =? 0 then Done [] else get_ptrs h a) <> NoFuel)
    as [H1 H2].
  { destruct Ha1 as [-> |[[ps Hps] _]]; [done|]. unfold get_ptrs. rewrite Hps. by destruct (a =? 0). }
  destruct (if a =? 0 then Done [] else get_ptrs h a) as [ps| |]; [|done..]. rewrite bind_Done, Hu1, bind_Done by done.
  rewrite (IH arrs (del (freed k) h)); [| |by rewrite del_keep|done| | |done|done].
  - f_equal. rewrite del_app. apply del_ext; [done| |done]. intros x. rewrite !elem_of_app. tauto.
  - lia.
  - rewrite Forall_forall in Ha |- *. intros x Hx. destruct (Ha x Hx) as [-> |[[qs Hq] Hnx]]; [by left|right].
    rewrite not_elem_of_app in Hnx. split; [|tauto]. exists qs. rewrite del_keep; tauto.
  - rewrite Forall_forall in Hr |- *. intros k' Hk'. apply (rep_frame h); [by apply Hr|].
    intros x Hx. apply del_keep. intros Hx'. apply (Hdis x Hx'). apply list_elem_of_In, in_concat.
    exists (freed k'). split; [apply in_map|]; by apply list_elem_of_In.
Qed.

Lemma depth_kid k kids : k ∈ kids -> (depth k <= foldr (fun k acc => Nat.max (depth k) acc) 0 kids)%nat.
Proof.
  induction kids as [|k' kids IH]; [by intros ?%elem_of_nil|]. intros [-> |Hk]%elem_of_cons; simpl; [lia|].
  specialize (IH Hk). lia.
Qed.

(** Release of a tree nobody else refers to. *)
Lemma unref_tree t : forall fuel h,
  rep h t -> NoDup (freed t) -> (depth t <= fuel)%nat ->
  expr_unref fuel h (root t) = Done (del (freed t) h).
Proof.
  induction t as [|l hd kids IH] using tree_induction; intros fuel h Hr Hd Hf;
    [destruct fuel; by destruct h|].
  destruct Hr as (Hl & Hp & Hb & Hk). apply rep_kids in Hk. cbn [depth] in Hf. destruct fuel as [|fuel]; [lia|].
  cbn [root expr_unref]. rewrite (proj2 (Z.eqb_neq _ _) Hl).
  destruct (payload_of hd (map root kids)) as [p|] eqn:Ep; [|done].
  unfold get_expr. rewrite Hp, bind_Done. change (1 - 1 <=? 0) with true. cbv iota.
  set (h1 := put h l (OExpr (1 - 1) p)). cbn [freed] in Hd. apply NoDup_cons in Hd as [Hnl Hd].
  apply NoDup_app in Hd as (Hdb & Hdis & Hdk). rewrite not_elem_of_app in Hnl. destruct Hnl as [Hnb Hnk].
  assert (forall x, x <> l -> cells h1 !! x = cells h !! x) as Hh1 by (intros x Hx; by apply lookup_insert_ne).
  assert (Forall (present h1) (blocks hd (map root kids))) as Hb1.
  { apply (present_frame h); [done|]. intros a Ha. apply Hh1. by intros ->. }
  destruct (children_ok h1 hd (map root kids) p Ep Hb1) as (arrs & frees & Hla & -> & Hfrees & Harr). rewrite bind_Done.
  rewrite length_map in Hla.
  rewrite (unref_children_ok (expr_unref fuel) l (1 - 1) p arrs kids h1 Hla);
    [|by apply lookup_insert_eq|done| | |done|].
  - rewrite bind_Done, Hfrees, free_all_ok, bind_Done.
    + rewrite (free_ok _ l (OExpr (1 - 1) p) Hl).
      * f_equal. rewrite !del_app. cbn [freed].
        apply del_ext; [done|intros x; rewrite elem_of_cons, !elem_of_app, list_elem_of_singleton; tauto|].
        intros x Hx. apply Hh1. intros ->. apply Hx. apply elem_of_app. left. apply elem_of_app. left. by left.
      * rewrite !del_keep by done. by apply lookup_insert_eq.
    + apply (present_frame h1); [done|]. intros a Ha. apply del_keep. by apply Hdis.
    + done.
  - rewrite Forall_forall in Harr |- *. intros a Ha. destruct (Harr a Ha) as [-> |[ps Hps]]; [by left|right].
    rewrite Forall_forall in Hb1. destruct (Hb1 _ Hps) as [_ Hps']. split; [by exists ps|]. apply Hdis.
    apply list_elem_of_fmap. by exists (a, OPtrs ps).
  - rewrite Forall_forall in Hk |- *. intros k Hk'. apply (rep_frame h); [by apply Hk|].
    intros x Hx. apply Hh1. intros ->. apply Hnk, list_elem_of_In, in_concat.
    exists (freed k). split; [apply in_map|]; by apply list_elem_of_In.
  - rewrite Forall_forall in IH |- *. intros k Hk' h' Hr' Hd'. apply IH; [done|done|done|].
    pose proof (depth_kid k kids Hk'). lia.
Qed.

(** ** The memory of expressions and statements *)

(** A block that may be NULL. *)
Definition Str : Type := option (loc * list Z).
Definition str_loc (s : Str) : loc := match s with Some (l, _) => l | None => 0 end.
Definition str_image (s : Str) : list (loc * Obj) := match s with Some (l, b) => [(l, OBytes b)] | None => [] end.

Lemma releases_str s : releases (fun h => free h (str_loc s)) (str_image s).
Proof. destruct s as [[l b]|]; [apply releases_block|apply releases_nothing]. Qed.

(** Expressions. *)
Fixpoint shaped (t : Tree) : Prop :=
  match t with
  | TNull => True
  | TNode l hd kids => payload_of hd (map root kids) <> None /\ foldr (fun k acc => shaped k /\ acc) True kids
  end.

Fixpoint image (t : Tree) : list (loc * Obj) :=
  match t with
  | TNull => []
  | TNode l hd kids =>
      (l, OExpr 1 (default P_LITERAL_NULL (payload_of hd (map root kids)))) ::
      blocks hd (map root kids) ++ concat (map image kids)
  end.

Lemma image_freed t : map fst (image t) = freed t.
Proof.
  induction t as [|l hd kids IH] using tree_induction; [done|]. cbn [image freed map fst]. f_equal.
  rewrite map_app. f_equal. induction IH as [|k kids Hk _ IHk]; [done|]. cbn [map concat]. by rewrite map_app, Hk, IHk.
Qed.

Lemma image_rep h t : shaped t -> Forall (present h) (image t) -> rep h t.
Proof.
  induction t as [|l hd kids IH] using tree_induction; [done|]. intros [Hs Hk] Hp. cbn [image] in Hp.
  apply Forall_cons in Hp as [[Hl Ho] Hp]. apply Forall_app in Hp as [Hb Hc]. cbn [fst snd] in *.
  split; [done|]. destruct (payload_of hd (map root kids)) as [p|]; [|done]. split_and!; [done|done|].
  clear Hb Ho Hs. induction IH as [|k kids Hk1 _ IHk]; [done|]. cbn [map concat foldr] in *.
  apply Forall_app in Hc as [Hc1 Hc]. destruct Hk as [Hk2 Hk]. split; [by apply Hk1|by apply IHk].
Qed.

Lemma releases_tree fuel t :
  shaped t -> (depth t <= fuel)%nat -> releases (fun h => expr_unref fuel h (root t)) (image t).
Proof.
  intros Hs Hf h Hp Hd. rewrite image_freed in *. by apply unref_tree; [apply image_rep|..].
Qed.

(** The linked lists of statements, as lists of their nodes. *)
Definition col_defs : Type := list (loc * Str * Tree).
Definition col_lists : Type := list (loc * Str * Str).
Definition val_lists : Type := list (loc * loc * list Tree * list loc).
Definition orders : Type := list (loc * Str).
Definition sets : Type := list (loc * Str * Tree).

Definition head_loc {A} (at_ : A -> loc) (l : list A) : loc := match l with [] => 0 | x :: _ => at_ x end.

Fixpoint col_defs_image (l : col_defs) : list (loc * Obj) :=
  match l with
  | [] => []
  | (c, name, d) :: l =>
      (c, OColumnDef (str_loc name) (root d) (head_loc (fun x => fst (fst x)) l)) ::
      str_image name ++ image d ++ col_defs_image l
  end.

Fixpoint col_lists_image (l : col_lists) : list (loc * Obj) :=
  match l with
  | [] => []
  | (c, name, alias) :: l =>
      (c, OColumnList (str_loc name) (str_loc alias) (head_loc (fun x => fst (fst x)) l)) ::
      str_image name ++ str_image alias ++ col_lists_image l
  end.

Fixpoint val_lists_image (l : val_lists) : list (loc * Obj) :=
  match l with
  | [] => []
  | (c, a, vs, slack) :: l =>
      (c, OValueList a (length vs) (head_loc (fun x => fst (fst (fst x))) l)) ::
      concat (map image vs) ++ [(a, OPtrs (map root vs ++ slack))] ++ val_lists_image l
  end.

Fixpoint orders_image (l : orders) : list (loc * Obj) :=
  match l with
  | [] => []
  | (c, name) :: l => (c, OOrderBy (str_loc name) (head_loc fst l)) :: str_image name ++ orders_image l
  end.

Fixpoint sets_image (l : sets) : list (loc * Obj) :=
  match l with
  | [] => []
  | (c, name, v) :: l =>
      (c, OSetClause (str_loc name) (root v) (head_loc (fun x => fst (fst x)) l)) ::
      str_image name ++ image v ++ sets_image l
  end.

(** The expressions have their shape and a depth within the fuel. *)
Definition fits (fuel : nat) (t : Tree) : Prop := shaped t /\ (depth t <= fuel)%nat.

Section releasing.
Variable fuel : nat.

Lemma releases_fit t : fits fuel t -> releases (fun h => expr_unref fuel h (root t)) (image t).
Proof. intros [Hs Hf]. by apply releases_tree. Qed.

(** A node of the code, read and then freed after its body. *)
Ltac node :=
  intros h Hh Hl; cbn [free_column_def free_column_list free_value_list free_order_by free_set_clause];
  rewrite (proj2 (Z.eqb_neq _ _) Hl), Hh, ?bind_assoc;
  repeat (apply obind_ext; intros ?; rewrite ?bind_assoc); reflexivity.

Lemma releases_col_defs (l : col_defs) n :
  Forall (fun x => fits fuel (snd x)) l -> (length l <= n)%nat ->
  releases (fun h => free_column_def fuel n h (head_loc (fun x => fst (fst x)) l)) (col_defs_image l).
Proof.
  revert n. induction l as [|[[c name] d] l IH]; intros n Hf Hn; [destruct n; apply releases_nothing|].
  destruct n as [|n]; [simpl in Hn; lia|]. apply Forall_cons in Hf as [Hd Hf]. cbn [head_loc fst col_defs_image].
  eapply releases_node; [apply releases_seq; [apply releases_str|apply releases_seq; [by apply releases_fit|]]|node].
  apply IH; [done|simpl in Hn; lia].
Qed.

Lemma releases_col_lists (l : col_lists) n : (length l <= n)%nat ->
  releases (fun h => free_column_list n h (head_loc (fun x => fst (fst x)) l)) (col_lists_image l).
Proof.
  revert n. induction l as [|[[c name] alias] l IH]; intros n Hn; [destruct n; apply releases_nothing|].
  destruct n as [|n]; [simpl in Hn; lia|]. cbn [head_loc fst col_lists_image].
  eapply releases_node; [apply releases_seq; [apply releases_str|apply releases_seq; [apply releases_str|]]|node].
  apply IH. simpl in Hn. lia.
Qed.

Lemma releases_orders (l : orders) n : (length l <= n)%nat ->
  releases (fun h => free_order_by n h (head_loc fst l)) (orders_image l).
Proof.
  revert n. induction l as [|[c name] l IH]; intros n Hn; [destruct n; apply releases_nothing|].
  destruct n as [|n]; [simpl in Hn; lia|]. cbn [head_loc fst orders_image].
  eapply releases_node; [apply releases_seq; [apply releases_str|]|node]. apply IH. simpl in Hn. lia.
Qed.

Lemma releases_sets (l : sets) n :
  Forall (fun x => fits fuel (snd x)) l -> (length l <= n)%nat ->
  releases (fun h => free_set_clause fuel n h (head_loc (fun x => fst (fst x)) l)) (sets_image l).
Proof.
  revert n. induction l as [|[[c name] v] l IH]; intros n Hf Hn; [destruct n; apply releases_nothing|].
  destruct n as [|n]; [simpl in Hn; lia|]. apply Forall_cons in Hf as [Hd Hf]. cbn [head_loc fst sets_image].
  eapply releases_node; [apply releases_seq; [apply releases_str|apply releases_seq; [by apply releases_fit|]]|node].
  apply IH; [done|simpl in Hn; lia].
Qed.

Lemma releases_values (vs : list Tree) : Forall (fits fuel) vs ->
  releases (fun h => unref_values fuel h (map root vs)) (concat (map image vs)).
Proof.
  induction 1 as [|v vs Hv _ IH]; [apply releases_nothing|]. cbn [map concat unref_values].
  apply releases_seq; [by apply releases_fit|done].
Qed.

(** The array of a row is read before its expressions are released. *)
Lemma releases_val_lists (l : val_lists) n :
  Forall (fun x => Forall (fits fuel) (snd (fst x))) l -> (length l <= n)%nat ->
  releases (fun h => free_value_list fuel n h (head_loc (fun x => fst (fst (fst x))) l)) (val_lists_image l).
Proof.
  revert n. induction l as [|[[[c a] vs] slack] l IH]; intros n Hf Hn; [destruct n; apply releases_nothing|].
  destruct n as [|n]; [simpl in Hn; lia|]. apply Forall_cons in Hf as [Hv Hf]. cbn [head_loc fst val_lists_image].
  intros h Hp Hd. assert (get_ptrs h a = Done (map root vs ++ slack)) as Hptrs.
  { apply Forall_cons in Hp as [_ Hp]. apply Forall_app in Hp as [_ Hp]. apply Forall_cons in Hp as [[_ Ha] _].
    cbn [fst snd] in Ha. unfold get_ptrs. by rewrite Ha. }
  revert h Hp Hd Hptrs.
  assert (releases (fun h => let* h := unref_values fuel h (map root vs) in
      (fun h => let* h := free h a in free_value_list fuel n h (head_loc (fun x => fst (fst (fst x))) l)) h)
    (concat (map image vs) ++ [(a, OPtrs (map root vs ++ slack))] ++ val_lists_image l)) as Hbody.
  { apply releases_seq; [by apply releases_values|]. apply releases_seq; [apply releases_block|].
    apply IH; [done|simpl in Hn; lia]. }
  intros h Hp Hd Hptrs. pose proof (releases_node
    (fun h => let* h := (let* h := unref_values fuel h (map root vs) in
      (fun h => let* h := free h a in free_value_list fuel n h (head_loc (fun x => fst (fst (fst x))) l)) h) in
      free h c) _ c (OValueList a (length vs) (head_loc (fun x => fst (fst (fst x))) l)) _ Hbody
    (fun h _ _ => eq_refl) h Hp Hd) as E.
  rewrite <- E. apply Forall_cons in Hp as [[Hl Hh] _]. cbn [fst snd] in Hl, Hh.
  cbn [free_value_list]. rewrite (proj2 (Z.eqb_neq _ _) Hl), Hh.
  assert (exists ps, (if (length vs =? 0)%nat then Done [] else get_ptrs h a) = Done ps /\
    (length vs <=? length ps)%nat = true /\ take (length vs) ps = map root vs) as (ps & -> & Hle & Htk).
  { destruct vs as [|v vs]; [by exists []|]. rewrite (proj2 (Nat.eqb_neq _ _)) by (simpl; lia).
    eexists. split; [exact Hptrs|]. split; [apply Nat.leb_le; rewrite length_app, length_map; lia|].
    apply take_app_length'. by rewrite length_map. }
  rewrite bind_Done, Hle, Htk, !bind_assoc. cbn [negb].
  repeat (apply obind_ext; intros ?; rewrite ?bind_assoc); reflexivity.
Qed.
End releasing.

(** The memory of a statement: its strings, lists and expressions. *)
Inductive StmtMem : Type :=
  | M_CREATE_TABLE (table_name : Str) (columns : col_defs)
  | M_DROP_TABLE (table_name : Str)
  | M_CREATE_INDEX (index_name table_name column_name : Str)
  | M_DROP_INDEX (index_name : Str)
  | M_INSERT (table_name : Str) (columns : col_lists) (values : val_lists)
  | M_UPDATE (table_name : Str) (set_clauses : sets) (where_ : Tree)
  | M_DELETE (table_name : Str) (where_ : Tree)
  | M_SELECT (columns : col_lists) (table_name alias : Str) (where_ : Tree) (order_by : orders) (limit offset : Tree)
  | M_TRANSACTION.

Definition stmt_of (m : StmtMem) : Stmt :=
  match m with
  | M_CREATE_TABLE t cols => S_CREATE_TABLE (str_loc t) (head_loc (fun x => fst (fst x)) cols)
  | M_DROP_TABLE t => S_DROP_TABLE (str_loc t)
  | M_CREATE_INDEX i t c => S_CREATE_INDEX (str_loc i) (str_loc t) (str_loc c)
  | M_DROP_INDEX i => S_DROP_INDEX (str_loc i)
  | M_INSERT t cols vals =>
      S_INSERT (str_loc t) (head_loc (fun x => fst (fst x)) cols) (head_loc (fun x => fst (fst (fst x))) vals)
  | M_UPDATE t sc w => S_UPDATE (str_loc t) (head_loc (fun x => fst (fst x)) sc) (root w)
  | M_DELETE t w => S_DELETE (str_loc t) (root w)
  | M_SELECT cols t a w ob l o =>
      S_SELECT (head_loc (fun x => fst (fst x)) cols) (str_loc t) (str_loc a) (root w) (head_loc fst ob) (root l)
        (root o)
  | M_TRANSACTION => S_TRANSACTION
  end.

Definition stmt_image (m : StmtMem) : list (loc * Obj) :=
  match m with
  | M_CREATE_TABLE t cols => str_image t ++ col_defs_image cols
  | M_DROP_TABLE t => str_image t
  | M_CREATE_INDEX i t c => str_image i ++ str_image t ++ str_image c ++ []
  | M_DROP_INDEX i => str_image i
  | M_INSERT t cols vals => str_image t ++ col_lists_image cols ++ val_lists_image vals
  | M_UPDATE t sc w => str_image t ++ sets_image sc ++ image w
  | M_DELETE t w => str_image t ++ image w
  | M_SELECT cols t a w ob l o =>
      col_lists_image cols ++ (str_image t ++ str_image a ++ []) ++ image w ++ orders_image ob ++ image l ++ image o
  | M_TRANSACTION => []
  end.

(** Depths within [fuel], lengths within [n]. *)
Definition stmt_fits (fuel n : nat) (m : StmtMem) : Prop :=
  match m with
  | M_CREATE_TABLE _ cols => Forall (fun x => fits fuel (snd x)) cols /\ (length cols <= n)%nat
  | M_INSERT _ cols vals =>
      (length cols <= n)%nat /\ Forall (fun x => Forall (fits fuel) (snd (fst x))) vals /\ (length vals <= n)%nat
  | M_UPDATE _ sc w => Forall (fun x => fits fuel (snd x)) sc /\ (length sc <= n)%nat /\ fits fuel w
  | M_DELETE _ w => fits fuel w
  | M_SELECT cols _ _ w ob l o =>
      (length cols <= n)%nat /\ fits fuel w /\ (length ob <= n)%nat /\ fits fuel l /\ fits fuel o
  | _ => True
  end.

Lemma releases_fields fuel n m :
  stmt_fits fuel n m -> releases (fun h => free_fields fuel n h (stmt_of m)) (stmt_image m).
Proof.
  destruct m; cbn [stmt_fits stmt_of stmt_image free_fields free_all]; intros Hf.
  - destruct Hf. apply releases_seq; [apply releases_str|by apply releases_col_defs].
  - apply releases_str.
  - repeat (apply releases_seq; [apply releases_str|]). apply releases_nothing.
  - apply releases_str.
  - destruct Hf as (? & ? & ?). apply releases_seq; [apply releases_str|].
    apply releases_seq; [by apply releases_col_lists|by apply releases_val_lists].
  - destruct Hf as (? & ? & ?). apply releases_seq; [apply releases_str|].
    apply releases_seq; [by apply releases_sets|by apply releases_fit].
  - apply releases_seq; [apply releases_str|by apply releases_fit].
  - destruct Hf as (? & ? & ? & ? & ?). apply releases_seq; [by apply releases_col_lists|].
    apply (releases_seq (fun h => let* h := free h (str_loc table_name) in
      (fun h => let* h := free h (str_loc alias) in Done h) h)).
    { apply releases_seq; [apply releases_str|]. apply releases_seq; [apply releases_str|apply releases_nothing]. }
    apply releases_seq; [by apply releases_fit|]. apply releases_seq; [by apply releases_orders|].
    apply releases_seq; by apply releases_fit.
  - apply releases_nothing.
Qed.

(** Everything a statement's release frees. *)
Definition stmt_objects (l : loc) (m : StmtMem) : list (loc * Obj) := (l, OStmt 1 (stmt_of m)) :: stmt_image m.

Lemma releases_stmt fuel n l m :
  stmt_fits fuel n m -> releases (fun h => ast_unref fuel n h l) (stmt_objects l m).
Proof.
  intros Hf h Hp Hd. apply Forall_cons in Hp as [[Hl Ho] Hp]. cbn [fst snd] in Hl, Ho.
  unfold ast_unref. rewrite (proj2 (Z.eqb_neq _ _) Hl), Ho. change (1 - 1 <=? 0) with true. cbv iota.
  set (h1 := put h l (OStmt (1 - 1) (stmt_of m))). unfold stmt_objects in *. cbn [map fst] in Hd |- *.
  assert (forall x, x <> l -> cells h1 !! x = cells h !! x) as Hh1 by (intros x Hx; by apply lookup_insert_ne).
  rewrite (releases_node (fun h => ast_free fuel n h l) (fun h => free_fields fuel n h (stmt_of m)) l
    (OStmt (1 - 1) (stmt_of m)) (stmt_image m)).
  - f_equal. apply del_ext; [done|done|]. intros k Hk. apply Hh1. intros ->. apply Hk. by left.
  - by apply releases_fields.
  - intros h' Hh' _. unfold ast_free. by rewrite (proj2 (Z.eqb_neq _ _) Hl), Hh'.
  - constructor; [split; [done|by apply lookup_insert_eq]|]. apply NoDup_cons in Hd as [Hn _].
    apply (present_frame h); [done|]. intros a Ha. apply Hh1. by intros ->.
  - done.
Qed.

(** ** Theorems *)

(** Releasing an expression frees it all. For an expression of any kind whose
    nodes have one reference each, expr_unref frees every node and array of it once,
    and leaves the rest of the heap as it was; fuel above the depth is enough. The
    name of a column is not freed. *)
Theorem expr_unref_frees (t : Tree) (fuel : nat) (h : Heap) :
  rep h t -> NoDup (freed t) -> (depth t <= fuel)%nat ->
  exists h', expr_unref fuel h (root t) = Done h' /\
    forall l, cells h' !! l = if decide (l ∈ freed t) then None else cells h !! l.
Proof.
  intros Hr Hd Hf. exists (del (freed t) h). split; [by apply unref_tree|]. intros l. apply del_lookup.
Qed.

(** [x + 'a'], at addresses 1 to 5: 2 is the column's name. *)
Definition demo_tree : Tree :=
  TNode 5 (H_BINARY 1) [TNode 1 (H_COLUMN (-1) 2) []; TNode 3 (H_STRING 4 [97; 0] 1) []].

Definition demo_heap : Heap :=
  mkHeap (list_to_map (((2, OBytes [120; 0]) :: image demo_tree) : list (Z * Obj))) 6.

Lemma expr_unref_frees_witness :
  exists h', expr_unref 2 demo_heap (root demo_tree) = Done h' /\
    forall l, cells h' !! l = if decide (l ∈ freed demo_tree) then None else cells demo_heap !! l.
Proof.
  apply (expr_unref_frees demo_tree 2 demo_heap).
  - cbn. repeat first [split | constructor | discriminate | reflexivity].
  - apply (bool_decide_unpack _). by vm_compute.
  - apply Nat.leb_le. reflexivity.
Defined.

(** C15: releasing a statement frees it all. For a statement of every kind, with its
    names, lists and expressions in the heap, one reference to each and no sharing,
    ast_unref frees exactly these objects, each once. *)
Theorem ast_unref_frees (l : Z) (m : StmtMem) (fuel n : nat) (h : Heap) :
  stmt_fits fuel n m -> Forall (present h) (stmt_objects l m) -> NoDup (map fst (stmt_objects l m)) ->
  exists h', ast_unref fuel n h l = Done h' /\
    forall k, cells h' !! k = if decide (k ∈ map fst (stmt_objects l m)) then None else cells h !! k.
Proof.
  intros Hf Hp Hd. exists (del (map fst (stmt_objects l m)) h). split; [by apply releases_stmt|].
  intros k. apply del_lookup.
Qed.

(** UPDATE t with one SET node (without a value) and the condition x + 'a'. *)
Definition demo_stmt : StmtMem := M_UPDATE (Some (6, [116; 0])) [(7, Some (8, [99; 0]), TNull)] demo_tree.

Definition demo_stmt_heap : Heap := mkHeap (list_to_map (stmt_objects 9 demo_stmt)) 10.

Lemma ast_unref_frees_witness :
  exists h', ast_unref 2 1 demo_stmt_heap 9 = Done h' /\
    forall k, cells h' !! k =
      if decide (k ∈ map fst (stmt_objects 9 demo_stmt)) then None else cells demo_stmt_heap !! k.
Proof.
  apply (ast_unref_frees 9 demo_stmt 2 1 demo_stmt_heap).
  - cbn. repeat first [split | constructor | discriminate | lia].
  - repeat first [apply Forall_nil_2 | apply Forall_cons_2; [split; [discriminate|reflexivity]|]].
  - apply (bool_decide_unpack _). by vm_compute.
Defined.

(** A reference more and a reference less is nothing: for a node with n >= 1
    references, expr_unref after expr_ref gives the same heap, whatever hangs on it. *)
Theorem expr_ref_unref (fuel : nat) (h : Heap) (e : Z) (n : Z) (p : Payload) :
  e <> 0 -> cells h !! e = Some (OExpr n p) -> 1 <= n -> (0 < fuel)%nat ->
  (let* h := expr_ref h e in expr_unref fuel h e) = Done h.
Proof.
  intros He Hn H1 Hf. destruct fuel as [|fuel]; [lia|]. unfold expr_ref, get_expr.
  rewrite (proj2 (Z.eqb_neq _ _) He), Hn, !bind_Done. cbn [expr_unref]. rewrite (proj2 (Z.eqb_neq _ _) He).
  unfold get_expr. cbn [put cells]. rewrite lookup_insert_eq, bind_Done.
  replace (n + 1 - 1) with n by lia. rewrite (proj2 (Z.leb_gt _ _)) by lia.
  f_equal. apply heap_eq; [|done]. cbn [put cells]. rewrite insert_insert_eq. by apply insert_id.
Qed.

Lemma expr_ref_unref_witness : (let* h := expr_ref demo_heap 3 in expr_unref 1 h 3) = Done demo_heap.
Proof.
  apply (expr_ref_unref 1 demo_heap 3 1 (P_LITERAL_STRING 4 1)).
  - discriminate.
  - reflexivity.
  - lia.
  - apply Nat.ltb_lt. reflexivity.
Defined.

(** ** Copies *)

(** Expressions that expr_copy copies all of. *)
Fixpoint copyable (t : Tree) : Prop :=
  match t with
  | TNull => True
  | TNode _ hd kids =>
      match hd with
      | H_INT _ | H_FLOAT _ | H_NULL | H_COLUMN _ _ | H_BINARY _ | H_UNARY _ | H_SUBQUERY _ => True
      | H_STRING _ b n => (n <= length b)%nat
      | _ => False
      end /\ foldr (fun k acc => copyable k /\ acc) True kids
  end.

(** What an expression says: its text of the abstract syntax, strings by length. *)
Fixpoint expr_of (names : loc -> option (list Z)) (t : Tree) : Expression :=
  match t with
  | TNull => ExprNULL
  | TNode _ hd kids =>
      match hd, map (expr_of names) kids with
      | H_INT z, _ => EXPR_LITERAL_INT z
      | H_FLOAT d, _ => EXPR_LITERAL_FLOAT d
      | H_STRING _ b n, _ => EXPR_LITERAL_STRING (take n b)
      | H_NULL, _ => EXPR_LITERAL_NULL
      | H_COLUMN i name, _ => EXPR_COLUMN i (names name)
      | H_BINARY op, [l; r] => EXPR_BINARY l op r
      | H_UNARY op, [e] => EXPR_UNARY op e
      | H_FUNC _ _ _ _, _ => EXPR_FUNC
      | H_CASE, _ => EXPR_CASE
      | H_SUBQUERY _, _ => EXPR_SUBQUERY
      | H_IN _ _ not, v :: items => EXPR_IN v items (negb (not =? 0))
      | H_IN_NULL not, [v] => EXPR_IN v [] (negb (not =? 0))
      | H_BETWEEN not, [v; l; h] => EXPR_BETWEEN v l h (negb (not =? 0))
      | H_LIKE _ not, [s; p] => EXPR_LIKE s p (negb (not =? 0))
      | _, _ => ExprNULL
      end
  end.

(** [t'] is a copy of [t]: all new, saying the same. *)
Record is_copy h h' (t t' : Tree) : Prop := {
  ic_rep : rep h' t';
  ic_nodup : NoDup (freed t');
  ic_fresh : Forall (fun l => brk h <= l < brk h') (freed t');
  ic_depth : depth t' = depth t;
  ic_same names : expr_of names t' = expr_of names t;
  ic_frame l : l < brk h -> cells h' !! l = cells h !! l;
  ic_ok : heap_ok h';
  ic_brk : brk h <= brk h';
  ic_all l : brk h <= l < brk h' -> l ∈ freed t' }.

Lemma rep_below h t l : heap_ok h -> rep h t -> l ∈ freed t -> l < brk h.
Proof.
  intros [_ Hok]. induction t as [|r hd kids IH] using tree_induction; [by intros _ ?%elem_of_nil|].
  intros (Hr & Hp & Hb & Hk) Hin. destruct (Z.lt_ge_cases l (brk h)) as [|Hge]; [done|exfalso].
  cbn [freed] in Hin. apply elem_of_cons in Hin as [->|[Hin|Hin]%elem_of_app].
  - destruct (payload_of hd (map root kids)); [|done]. by rewrite Hok in Hp.
  - apply list_elem_of_fmap in Hin as (x & -> & Hx). rewrite Forall_forall in Hb. destruct (Hb x Hx) as [_ Hx'].
    by rewrite Hok in Hx'.
  - apply list_elem_of_In, in_concat in Hin as (ls & Hls & Hin). apply in_map_iff in Hls as (k & <- & Hkin).
    apply list_elem_of_In in Hkin, Hin. apply rep_kids in Hk. rewrite Forall_forall in IH, Hk.
    pose proof (IH k Hkin (Hk k Hkin) Hin). lia.
Qed.

(** Trees below the allocator stay when only new addresses change. *)
Lemma rep_shift h h' t :
  heap_ok h -> rep h t -> (forall l, l < brk h -> cells h' !! l = cells h !! l) -> rep h' t.
Proof. intros Hok Hr Hs. apply (rep_frame h); [done|]. intros k Hk. apply Hs. by apply (rep_below h t). Qed.

Lemma copy_leaf h l hd p :
  heap_ok h -> payload_of hd [] = Some p -> blocks hd [] = [] ->
  is_copy h (snd (alloc h (OExpr 1 p))) (TNode l hd []) (TNode (brk h) hd []).
Proof.
  intros Hok Hp Hb. pose proof (proj1 Hok). split.
  - cbn [rep map foldr]. rewrite Hp, Hb. split_and!; [lia|by apply lookup_insert_eq|constructor|done].
  - cbn [freed map concat]. rewrite Hb. cbn. apply NoDup_singleton.
  - cbn [freed map concat]. rewrite Hb. repeat constructor; simpl; lia.
  - done.
  - done.
  - intros k Hk. by apply alloc_frame.
  - by apply heap_ok_alloc.
  - simpl. lia.
  - intros k Hk. simpl in Hk. replace k with (brk h) by lia. left.
Qed.

Lemma copy_string h l str b n :
  heap_ok h -> cells h !! str = Some (OBytes b) -> (n <= length b)%nat -> str < brk h ->
  exists h', (let* '(s, h1) := copy_bytes (snd (alloc h (OExpr 1 (P_LITERAL_STRING str n)))) str n in
      Done (brk h, put h1 (brk h) (OExpr 1 (P_LITERAL_STRING s n)))) = Done (brk h, h') /\
    is_copy h h' (TNode l (H_STRING str b n) []) (TNode (brk h) (H_STRING (brk h + 1) (take n b) n) []).
Proof.
  intros Hok Hs Hn Hlt. pose proof (proj1 Hok). set (h1 := snd (alloc h _)).
  assert (cells h1 !! str = Some (OBytes b)) as Hs1 by (unfold h1; by rewrite alloc_frame).
  unfold copy_bytes. rewrite Hs1, buf_read_Done by lia. rewrite !bind_Done.
  change (Z.to_nat 0) with 0%nat. rewrite Nat2Z.id. unfold slice. rewrite drop_0. cbn [alloc].
  eexists. split; [done|]. change (brk h1) with (brk h + 1).
  assert (heap_ok h1) as Hok1 by (by apply heap_ok_alloc).
  set (h2 := mkHeap (<[brk h + 1 := OBytes (take n b)]> (cells h1)) (brk h + 1 + 1)).
  assert (heap_ok h2) as Hok2 by (apply (heap_ok_alloc h1 (OBytes (take n b)) Hok1)).
  split.
  - cbn [rep map foldr payload_of blocks]. split; [lia|]. split; [by apply lookup_insert_eq|]. split; [|done].
    repeat constructor; cbn [fst snd]; [lia|]. rewrite put_other by lia. by apply lookup_insert_eq.
  - cbn. apply NoDup_cons. split; [|apply NoDup_singleton]. intros ?%list_elem_of_singleton. lia.
  - cbn. repeat constructor; simpl; lia.
  - done.
  - intros names. cbn. by rewrite take_take, Nat.min_id.
  - intros k Hk. rewrite put_other by lia. unfold h2. cbn [cells]. rewrite lookup_insert_ne by lia.
    unfold h1. by apply alloc_frame.
  - apply heap_ok_put; [done|]. simpl. lia.
  - simpl. lia.
  - intros k Hk. cbn in Hk |- *. destruct (Z.eq_dec k (brk h)) as [->|]; [left|].
    replace k with (brk h + 1) by lia. right. left.
Qed.

Lemma Forall_range (a b c d : Z) ls : Forall (fun l => a <= l < b) ls -> c <= a -> b <= d -> Forall (fun l => c <= l < d) ls.
Proof. intros Hl Hc Hd. eapply Forall_impl; [done|]. cbn. intros l Hl'. lia. Qed.

Lemma range_not_in (a b l : Z) ls : Forall (fun l => a <= l < b) ls -> l < a \/ b <= l -> l ∉ ls.
Proof. intros Hl Hr Hin. rewrite Forall_forall in Hl. specialize (Hl l Hin). cbn in Hl. lia. Qed.

Lemma copy_unary h h1 l op x x' (p : Payload) :
  heap_ok h -> h1 = snd (alloc h (OExpr 1 p)) -> forall h2, is_copy h1 h2 x x' ->
  is_copy h (put h2 (brk h) (OExpr 1 (P_UNARY op (root x')))) (TNode l (H_UNARY op) [x])
    (TNode (brk h) (H_UNARY op) [x']).
Proof.
  intros Hok Hh1 h2 [Hr Hd Hf Hde Hs Hfr Hok2 Hb Hall]. pose proof (proj1 Hok).
  assert (brk h1 = brk h + 1) as Hb1 by (by rewrite Hh1).
  assert (brk h ∉ freed x') as Hn by (eapply range_not_in; [done|lia]).
  split; cbn [rep map foldr payload_of blocks freed concat depth expr_of app fst snd] in *; rewrite ?app_nil_r.
  - split; [lia|]. split; [by apply lookup_insert_eq|]. split; [constructor|]. split; [|done].
    apply (rep_frame h2); [done|]. intros k Hk. apply put_other. by intros ->.
  - by apply NoDup_cons.
  - constructor; [simpl; lia|]. eapply Forall_range; [done|lia|done].
  - by rewrite Hde.
  - intros names. by rewrite Hs.
  - intros k Hk. rewrite put_other by lia. rewrite Hfr by lia. rewrite Hh1. by apply alloc_frame.
  - apply heap_ok_put; [done|lia].
  - simpl. lia.
  - intros k Hk. cbn in Hk. destruct (Z.eq_dec k (brk h)) as [->|]; [left|]. right. apply Hall. lia.
Qed.

Lemma copy_binary h h1 h2 h3 l op x x' y y' (p : Payload) q :
  heap_ok h -> h1 = snd (alloc h (OExpr 1 p)) -> is_copy h1 h2 x x' ->
  is_copy (put h2 (brk h) q) h3 y y' ->
  is_copy h (put h3 (brk h) (OExpr 1 (P_BINARY (root x') op (root y')))) (TNode l (H_BINARY op) [x; y])
    (TNode (brk h) (H_BINARY op) [x'; y']).
Proof.
  intros Hok Hh1 [Hr Hd Hf Hde Hs Hfr Hok2 Hb Hall] [Hr' Hd' Hf' Hde' Hs' Hfr' Hok3 Hb' Hall']. pose proof (proj1 Hok).
  assert (brk h1 = brk h + 1) as Hb1 by (by rewrite Hh1). cbn [put brk] in *.
  assert (brk h ∉ freed x') as Hn by (eapply range_not_in; [done|lia]).
  assert (brk h ∉ freed y') as Hn' by (eapply range_not_in; [done|lia]).
  split; cbn [rep map foldr payload_of blocks freed concat depth expr_of app fst snd] in *; rewrite ?app_nil_r.
  - split; [lia|]. split; [by apply lookup_insert_eq|]. split; [constructor|]. split; [|split; [|done]].
    + apply (rep_frame h2); [done|]. intros k Hk. assert (k <> brk h) by (by intros ->).
      rewrite put_other by done. rewrite Forall_forall in Hf. specialize (Hf k Hk). cbn in Hf.
      rewrite Hfr' by lia. by apply put_other.
    + apply (rep_frame h3); [done|]. intros k Hk. apply put_other. by intros ->.
  - apply NoDup_cons. rewrite not_elem_of_app. split; [done|]. apply NoDup_app. split_and!; [done| |done].
    intros k Hk Hk'. rewrite Forall_forall in Hf, Hf'. specialize (Hf k Hk). specialize (Hf' k Hk'). cbn in *. lia.
  - constructor; [simpl; lia|]. apply Forall_app. split; (eapply Forall_range; [done|lia|simpl; lia]).
  - by rewrite Hde, Hde'.
  - intros names. by rewrite Hs, Hs'.
  - intros k Hk. rewrite put_other by lia. rewrite Hfr' by lia. rewrite put_other by lia. rewrite Hfr by lia.
    rewrite Hh1. by apply alloc_frame.
  - apply heap_ok_put; [done|lia].
  - simpl. lia.
  - intros k Hk. cbn in Hk. destruct (Z.eq_dec k (brk h)) as [->|]; [left|]. right. apply elem_of_app.
    destruct (Z.lt_ge_cases k (brk h2)); [left; apply Hall; lia|right; apply Hall'; lia].
Qed.

Lemma copy_tree t : forall fuel h,
  heap_ok h -> rep h t -> copyable t -> (depth t <= fuel)%nat ->
  exists t' h', expr_copy fuel h (root t) = Done (root t', h') /\ is_copy h h' t t'.
Proof.
  induction t as [|l hd kids IH] using tree_induction; intros fuel h Hok Hr Hc Hf.
  { exists TNull, h. split; [by destruct fuel|]. split; first [done|constructor|simpl; lia]. }
  pose proof Hr as (Hl & Hp & Hb & Hk). cbn [copyable] in Hc. destruct Hc as [Hh Hck]. apply rep_kids in Hk.
  cbn [depth] in Hf. destruct fuel as [|fuel]; [lia|].
  cbn [root expr_copy]. rewrite (proj2 (Z.eqb_neq _ _) Hl).
  destruct (payload_of hd (map root kids)) as [p|] eqn:Ep; [|done].
  unfold get_expr. rewrite Hp, bind_Done. set (h1 := snd (alloc h (OExpr 1 p))).
  assert (alloc h (OExpr 1 p) = (brk h, h1)) as -> by done. cbv beta iota.
  assert (heap_ok h1) as Hok1 by (by apply heap_ok_alloc).
  assert (forall k, k < brk h -> cells h1 !! k = cells h !! k) as Hf1 by (intros; by apply alloc_frame).
  destruct hd; try done;
    try (destruct kids as [|k kids]; [|discriminate Ep]; injection Ep as <-;
         eexists (TNode (brk h) _ []), _; split; [reflexivity|by apply copy_leaf]).
  - destruct kids as [|k kids]; [|discriminate Ep]. injection Ep as <-.
    apply Forall_cons in Hb as [[_ Hs] _]. cbn [fst snd] in Hs.
    assert (str < brk h) as Hlt by (apply (rep_below h _ str Hok Hr); cbn; right; by left).
    destruct (copy_string h l str b n Hok Hs Hh Hlt) as (h' & E & Hcp).
    exists (TNode (brk h) (H_STRING (brk h + 1) (take n b) n) []), h'. split; [exact E|exact Hcp].
  - destruct kids as [|x [|y [|? kids]]]; try discriminate Ep. injection Ep as <-.
    apply Forall_cons in Hk as [Hx Hk]. apply Forall_cons in Hk as [Hy _].
    apply Forall_cons in IH as [IHx IH]. apply Forall_cons in IH as [IHy _].
    cbn [foldr] in Hck, Hf. destruct Hck as (Hcx & Hcy & _).
    destruct (IHx fuel h1) as (x' & h2 & Ex & Hcpx); [done|by apply (rep_shift h)|done|lia|].
    cbn [map] in *. rewrite Ex, bind_Done. set (q := OExpr 1 (P_BINARY (root x') op (root y))).
    pose proof (ic_brk _ _ _ _ Hcpx) as Hb2. change (brk h1) with (brk h + 1) in Hb2.
    destruct (IHy fuel (put h2 (brk h) q)) as (y' & h3 & Ey & Hcpy); [| |done|lia|].
    + apply heap_ok_put; [apply Hcpx|lia].
    + apply (rep_shift h); [done|done|]. intros k Hk'. rewrite put_other by lia.
      rewrite (ic_frame _ _ _ _ Hcpx); [by apply Hf1|change (brk h1) with (brk h + 1); lia].
    + rewrite Ey, bind_Done. eexists (TNode (brk h) (H_BINARY op) [x'; y']), _. split; [reflexivity|].
      by eapply (copy_binary h h1 h2 h3 l op x x' y y' _ q).
  - destruct kids as [|x [|? kids]]; try discriminate Ep. injection Ep as <-.
    apply Forall_cons in Hk as [Hx _]. apply Forall_cons in IH as [IHx _]. cbn [foldr] in Hck, Hf. destruct Hck as (Hcx & _).
    destruct (IHx fuel h1) as (x' & h2 & Ex & Hcpx); [done|by apply (rep_shift h)|done|lia|].
    cbn [map] in *. rewrite Ex, bind_Done. eexists (TNode (brk h) (H_UNARY op) [x']), _. split; [reflexivity|].
    by eapply (copy_unary h h1 l op x x').
Qed.

(** ** Shared children *)

(** The expressions that expr_copy copies the top of only. *)
Definition shallow (hd : Head) : bool :=
  match hd with
  | H_FUNC _ _ _ _ | H_CASE | H_IN _ _ _ | H_IN_NULL _ | H_BETWEEN _ | H_LIKE _ _ => true
  | _ => false
  end.

(** Releasing children that are gone. *)
Lemma unref_children_gone fuel e h (kids : list Tree) rest :
  (0 < fuel)%nat -> (exists x, get_expr h e = Done x) ->
  Forall (fun k => root k <> 0 -> cells h !! root k = None) kids ->
  Exists (fun k => root k <> 0) kids ->
  unref_children (expr_unref fuel) e h (map (fun k => (0, root k)) kids ++ rest) = Undef.
Proof.
  intros Hf [x Hx] Hg He. induction Hg as [|k kids Hk Hg IH]; [by apply Exists_nil in He|].
  cbn [map app unref_children]. rewrite Hx, !bind_Done. cbn [Z.eqb]. rewrite !bind_Done.
  destruct fuel as [|fuel]; [lia|]. cbn [expr_unref]. destruct (Z.eqb_spec (root k) 0) as [Hz|Hz].
  - rewrite bind_Done. apply IH. apply Exists_cons in He as [|]; [done|done].
  - unfold get_expr at 1. by rewrite (Hk Hz).
Qed.

Lemma unref_children_null fuel e h (kids : list Tree) :
  (exists x, get_expr h e = Done x) -> Forall (fun k => root k = 0) kids ->
  unref_children (expr_unref fuel) e h (map (fun k => (0, root k)) kids) = Done h.
Proof.
  intros [x Hx] Hg. induction Hg as [|k kids Hk Hg IH]; [done|].
  cbn [map unref_children]. rewrite Hx, !bind_Done. cbn [Z.eqb]. rewrite !bind_Done, Hk.
  destruct fuel; exact IH.
Qed.

(** The copy of the top, as a tree of its own, shares the rest. *)
Lemma shallow_copy fuel h l hd kids p :
  heap_ok h -> rep h (TNode l hd kids) -> shallow hd = true -> payload_of hd (map root kids) = Some p ->
  (0 < fuel)%nat ->
  expr_copy fuel h l = Done (brk h, snd (alloc h (OExpr 1 p))) /\
  rep (snd (alloc h (OExpr 1 p))) (TNode (brk h) hd kids).
Proof.
  intros Hok Hr Hs Ep Hf. pose proof Hr as (Hl & Hp & Hb & Hk). rewrite Ep in Hp.
  destruct fuel as [|fuel]; [lia|]. split.
  - cbn [expr_copy]. rewrite (proj2 (Z.eqb_neq _ _) Hl). unfold get_expr. rewrite Hp, bind_Done.
    destruct hd; try discriminate Hs; cbn [payload_of] in Ep;
      repeat match type of Ep with context [match ?x with _ => _ end] => destruct x; try discriminate Ep end;
      injection Ep as <-; reflexivity.
  - assert (forall x, x ∈ freed (TNode l hd kids) -> cells (snd (alloc h (OExpr 1 p))) !! x = cells h !! x) as Hfr.
    { intros x Hx. apply alloc_frame. by apply (rep_below h _ x Hok Hr). }
    pose proof (rep_frame h _ _ Hr Hfr) as (_ & _ & Hb' & Hk').
    cbn [rep]. rewrite Ep. split; [destruct Hok; lia|]. split; [by apply lookup_insert_eq|]. by split.
Qed.

(** Releasing the top when what hangs on it is gone. *)
Lemma unref_gone fuel h l hd kids p rc :
  cells h !! l = Some (OExpr rc p) -> l <> 0 -> rc <= 1 -> shallow hd = true -> (0 < fuel)%nat ->
  payload_of hd (map root kids) = Some p ->
  blocks hd (map root kids) <> [] \/ Exists (fun k => root k <> 0) kids ->
  Forall (fun k => root k <> 0 -> cells h !! root k = None /\ root k <> l) kids ->
  Forall (fun b => fst b <> 0 /\ cells h !! fst b = None /\ fst b <> l) (blocks hd (map root kids)) ->
  expr_unref (S fuel) h l = Undef.
Proof.
  intros Hl Hnz Hrc Hs Hf Ep Hne Hk Hb. cbn [expr_unref]. rewrite (proj2 (Z.eqb_neq _ _) Hnz).
  unfold get_expr at 1. rewrite Hl, bind_Done. rewrite (proj2 (Z.leb_le _ _)) by lia.
  set (h1 := put h l (OExpr (rc - 1) p)).
  assert (forall x, x <> l -> cells h1 !! x = cells h !! x) as H1 by (intros x Hx; by apply lookup_insert_ne).
  assert (exists x, get_expr h1 l = Done x) as Hg.
  { eexists. unfold get_expr, h1. cbn [put cells]. by rewrite lookup_insert_eq. }
  assert (forall a, a <> l -> cells h !! a = None -> get_ptrs h1 a = Undef) as Hptr.
  { intros a Ha Hn. unfold get_ptrs. by rewrite H1, Hn. }
  assert (forall a, a <> 0 -> a <> l -> cells h !! a = None -> free h1 a = Undef) as Hfree.
  { intros a Ha Ha' Hn. unfold free. by rewrite (proj2 (Z.eqb_neq _ _) Ha), H1, Hn. }
  assert (Forall (fun k => root k <> 0 -> cells h1 !! root k = None) kids) as Hk1.
  { eapply Forall_impl; [exact Hk|]. cbn. intros k Hk' Hz. destruct (Hk' Hz). by rewrite H1. }
  assert (forall rest more, blocks hd (map root kids) = [] ->
    (let* h2 := unref_children (expr_unref fuel) l h1 (map (fun k => (0, root k)) kids ++ rest) in more h2)
      = (Undef : outcome Heap)) as Hgone.
  { intros rest more Hnil. destruct Hne as [|He]; [done|]. by rewrite unref_children_gone. }
  destruct hd; try discriminate Hs; cbn [payload_of blocks] in *.
  - injection Ep as <-. apply Forall_cons in Hb as [(Ha & Hac & Hal) _]. cbn [fst] in *. cbn [children].
    destruct (Nat.eqb_spec (length (map root kids)) 0); [|by rewrite Hptr].
    cbn [obind unref_children free_all]. by rewrite Hfree.
  - destruct kids as [|c [|t [|e [|? ?]]]]; try discriminate Ep. injection Ep as <-. by apply (Hgone [] ).
  - destruct kids as [|v items]; [discriminate Ep|]. injection Ep as <-.
    apply Forall_cons in Hb as [(Ha & Hac & Hal) _]. cbn [fst] in *. cbn [map children].
    destruct (Nat.eqb_spec (length (map root items)) 0); [|by rewrite Hptr].
    cbn [obind]. destruct (Z.eq_dec (root v) 0) as [Hz|Hz].
    + pose proof (unref_children_null fuel l h1 [v] Hg (Forall_cons_2 _ _ _ Hz (Forall_nil_2 _))) as E.
      cbn [map] in E. rewrite E. cbn [obind free_all]. by rewrite Hfree.
    + apply Forall_cons in Hk1 as [Hv _].
      pose proof (unref_children_gone fuel l h1 [v] [] Hf Hg (Forall_cons_2 _ _ _ Hv (Forall_nil_2 _))
        (Exists_cons_hd (fun k => root k <> 0) v [] Hz)) as E. cbn [map app] in E. by rewrite E.
  - destruct kids as [|v [|? ?]]; try discriminate Ep. injection Ep as <-. by apply (Hgone []).
  - destruct kids as [|c [|t [|e [|? ?]]]]; try discriminate Ep. injection Ep as <-. by apply (Hgone []).
  - destruct kids as [|c [|t [|? ?]]]; try discriminate Ep. injection Ep as <-. by apply (Hgone []).
Qed.

(** ** Theorems on copies *)

(** C17: a copy is independent. For an expression built from literals, columns and
    operators, expr_copy returns a fresh expression that says the same, in a heap where
    the original is as it was, and releasing the copy brings back the heap before it. *)
Theorem expr_copy_independent (t : Tree) (fuel : nat) (h : Heap) :
  heap_ok h -> rep h t -> copyable t -> (depth t <= fuel)%nat ->
  exists t' h' h'', expr_copy fuel h (root t) = Done (root t', h') /\
    (forall names, expr_of names t' = expr_of names t) /\
    (forall l, l ∈ freed t' -> cells h !! l = None) /\ rep h' t' /\ rep h' t /\
    expr_unref fuel h' (root t') = Done h'' /\ cells h'' = cells h.
Proof.
  intros Hok Hr Hc Hf. destruct (copy_tree t fuel h Hok Hr Hc Hf) as (t' & h' & E & Hcp).
  exists t', h', (del (freed t') h'). split; [done|]. split; [apply Hcp|]. split; [|split; [apply Hcp|]].
  { intros l Hl. apply (proj2 Hok). pose proof (ic_fresh _ _ _ _ Hcp) as Hfr. rewrite Forall_forall in Hfr.
    specialize (Hfr l Hl). cbn in Hfr. lia. }
  split; [apply (rep_shift h); [done|done|apply Hcp]|].
  split; [apply unref_tree; [apply Hcp|apply Hcp|by rewrite (ic_depth _ _ _ _ Hcp)]|].
  apply map_eq. intros k. rewrite del_lookup. destruct (Z.lt_ge_cases k (brk h)) as [Hk|Hk].
  - rewrite decide_False; [by apply Hcp|]. eapply range_not_in; [apply Hcp|lia].
  - rewrite (proj2 Hok) by done. destruct (decide (k ∈ freed t')) as [|Hn]; [done|].
    apply (proj2 (ic_ok _ _ _ _ Hcp)). destruct (Z.lt_ge_cases k (brk h')); [|done].
    destruct Hn. apply Hcp. lia.
Qed.

Lemma demo_heap_ok : heap_ok demo_heap.
Proof.
  split; [reflexivity|]. intros l Hl. cbn [demo_heap brk] in Hl. cbn [demo_heap cells].
  apply not_elem_of_list_to_map_1. intros (x & -> & Hx)%list_elem_of_fmap. revert Hl.
  cbn in Hx. repeat (apply elem_of_cons in Hx as [->|Hx]; [simpl; lia|]). by apply elem_of_nil in Hx.
Qed.

Lemma expr_copy_independent_witness :
  exists t' h' h'', expr_copy 2 demo_heap 5 = Done (root t', h') /\
    (forall names, expr_of names t' = expr_of names demo_tree) /\
    (forall l, l ∈ freed t' -> cells demo_heap !! l = None) /\ rep h' t' /\ rep h' demo_tree /\
    expr_unref 2 h' (root t') = Done h'' /\ cells h'' = cells demo_heap.
Proof.
  apply (expr_copy_independent demo_tree 2 demo_heap).
  - exact demo_heap_ok.
  - cbn. repeat first [split | constructor | discriminate | reflexivity].
  - cbn. repeat first [split | lia].
  - apply Nat.leb_le. reflexivity.
Defined.

(** The other expressions are copied in the top node only: the copy shares the
    children and arrays without a reference to them, so releasing the copy and then
    the original (a call, CASE, IN, BETWEEN or LIKE with anything below it) reads or
    frees what is already freed. *)
Theorem shared_copy_released_twice (l : Z) (hd : Head) (kids : list Tree) (fuel : nat) (h : Heap) :
  heap_ok h -> rep h (TNode l hd kids) -> NoDup (freed (TNode l hd kids)) -> shallow hd = true ->
  blocks hd (map root kids) <> [] \/ Exists (fun k => root k <> 0) kids ->
  (2 <= fuel)%nat -> (depth (TNode l hd kids) <= fuel)%nat ->
  (let* '(c, h) := expr_copy fuel h l in
   let* h := expr_unref fuel h c in
   expr_unref fuel h l) = Undef.
Proof.
  intros Hok Hr Hd Hs Hne H2 Hf. pose proof Hr as (Hl & Hp & _ & Hk).
  destruct (payload_of hd (map root kids)) as [p|] eqn:Ep; [|done].
  destruct (shallow_copy fuel h l hd kids p Hok Hr Hs Ep) as [E Hr1]; [lia|]. rewrite E, bind_Done.
  set (h1 := snd (alloc h (OExpr 1 p))) in *. set (t' := TNode (brk h) hd kids) in *.
  assert (forall x, x ∈ freed (TNode l hd kids) -> x < brk h) as Hlow by (intros x; by apply rep_below).
  assert (brk h ∉ freed (TNode l hd kids)) as Hnew by (intros Hin%Hlow; lia).
  assert (l ∉ freed t') as Hlt'.
  { cbn [t' freed] in *. apply NoDup_cons in Hd as [Hn _]. apply not_elem_of_cons. split; [|done].
    intros ->. apply Hnew. left. }
  assert (NoDup (freed t')) as Hd'.
  { cbn [t' freed] in *. apply NoDup_cons in Hd as [_ Hd]. apply NoDup_cons. split; [|done].
    intros Hin. apply Hnew. by right. }
  pose proof (unref_tree t' fuel h1 Hr1 Hd' Hf) as E1. cbn [t' root] in E1. rewrite E1, bind_Done. destruct fuel as [|fuel]; [lia|].
  assert (forall x, x ∈ tail (freed t') -> x <> l /\ cells (del (freed t') h1) !! x = None) as Hgone.
  { intros x Hx. assert (x ∈ freed t') as Hx' by (by right). split; [by intros ->|].
    by rewrite del_lookup, decide_True. }
  apply (unref_gone fuel (del (freed t') h1) l hd kids p 1); [|done|lia|done|lia|done|done| |].
  - rewrite del_keep by done. unfold h1. rewrite alloc_frame; [exact Hp|apply Hlow; left].
  - apply Forall_forall. intros k Hk' Hz. destruct (Hgone (root k)) as [Ha Hb]; [|done].
    cbn [t' freed tail]. apply elem_of_app. right. apply list_elem_of_In, in_concat. exists (freed k).
    split; [apply in_map; by apply list_elem_of_In|]. destruct k; [done|left; reflexivity].
  - apply Forall_forall. intros b Hb. destruct (Hgone (fst b)) as [H3 H4].
    { cbn [t' freed tail]. apply elem_of_app. left. by apply list_elem_of_fmap_2. }
    split_and!; [|done|done]. destruct Hr as (_ & _ & Hpr & _). rewrite Forall_forall in Hpr. by apply (Hpr b Hb).
Qed.

(** [x IN (NULL)], at 1 to 4: the list at 3. *)
Definition demo_in : Tree := TNode 4 (H_IN 3 [] 0) [TNode 1 (H_COLUMN (-1) 5) []; TNode 2 H_NULL []].

Definition demo_in_heap : Heap := mkHeap (list_to_map (image demo_in)) 5.

Lemma shared_copy_released_twice_witness :
  (let* '(c, h) := expr_copy 2 demo_in_heap 4 in
   let* h := expr_unref 2 h c in
   expr_unref 2 h 4) = Undef.
Proof.
  apply (shared_copy_released_twice 4 (H_IN 3 [] 0) [TNode 1 (H_COLUMN (-1) 5) []; TNode 2 H_NULL []]).
  - split; [reflexivity|]. intros l Hl. cbn [demo_in_heap brk] in Hl. cbn [demo_in_heap cells].
    apply not_elem_of_list_to_map_1. intros (x & -> & Hx)%list_elem_of_fmap. revert Hl.
    cbn in Hx. repeat (apply elem_of_cons in Hx as [->|Hx]; [simpl; lia|]). by apply elem_of_nil in Hx.
  - cbn. repeat first [split | constructor | discriminate | reflexivity].
  - apply (bool_decide_unpack _). by vm_compute.
  - reflexivity.
  - left. discriminate.
  - lia.
  - apply Nat.leb_le. reflexivity.
Defined.
