(* ===== verification/ParserMem.v ===== *)
(** The memory of src/sql/parser.c, expressions: the nodes, names, strings and arrays
    that the parse functions allocate, hand over, release or leak. The functions are
    those of [Parser] with a heap; their tokens come from the same token source. They
    make exactly the expression that [Parser] returns, and never touch freed memory. *)
From Stdlib Require Import ZArith Lia String.
From stdpp Require Import base numbers option list gmap.
From S2P Require Import Prelude Heaps CString Double Fields Lexer Ast Parser ParserSpec AstMem.

(** strdup, and strndup of as many bytes: up to the first NUL. *)
Definition dup (s : list Z) : list Z := text s ++ [0].

(** A node created and its fields set. *)
Definition make_expr h (t : ExprType) (p : Payload) : loc * Heap :=
  let '(e, h) := expr_create h t in (e, put h e (OExpr 1 p)).

(** expr_unref; a tree is not deeper than the addresses given out so far. *)
Definition unref h (e : loc) : outcome Heap := expr_unref (Z.to_nat (brk h)) h e.

(** ** Arrays of expressions *)

(** realloc when the array is full: the old slots copied, the old array freed. New
    slots hold NULL here; the code writes them before it reads them. *)
Definition grow_ptrs h (list_ : loc) (count capacity : nat) : outcome (loc * nat * Heap) :=
  if (capacity <=? count)%nat then
    let* ps := get_ptrs h list_ in
    let '(q, h) := alloc h (OPtrs (take (capacity * 2) ps ++ replicate (capacity * 2 - length ps) 0)) in
    let* h := free h list_ in
    Done (q, capacity * 2, h)%nat
  else Done (list_, capacity, h).

(** list[count] = e; *)
Definition store_ptr h (list_ : loc) (count : nat) (e : loc) : outcome Heap :=
  let* ps := get_ptrs h list_ in
  if (count <? length ps)%nat then Done (put h list_ (OPtrs (<[count := e]> ps))) else Undef.

(** for (i...) expr_unref(list[i]); [k] turns from [i]. *)
Fixpoint unref_items (n k i : nat) h (list_ : loc) : outcome Heap :=
  match k with
  | O => Done h
  | S k =>
      let* ps := get_ptrs h list_ in
      let* e := outcome_of_option (ps !! i) in
      let* h := expr_unref n h e in
      unref_items n k (S i) h list_
  end.

Section parser_mem.
Context {L : Type} `{TokenSource L}.
Implicit Types p : Parser L.

Definition parse_identifier_mem p h : outcome (loc * Parser L * Heap) :=
  if negb (token_eqb (cur p) TOKEN_IDENTIFIER)
  then Done (0, parser_set_error p (zstr "Expected identifier"), h) else
  let '(id, h) := alloc h (OBytes (dup (token_get_text (p_current p)))) in
  let* p := advance p in
  Done (id, p, h).

Definition parse_operator_mem (binary : Z -> Parser L -> Heap -> outcome (loc * Parser L * Heap))
    (operators : loc -> Parser L -> Heap -> outcome (loc * Parser L * Heap))
    (in_items : loc -> nat -> nat -> Parser L -> Heap -> outcome (option (loc * nat) * Parser L * Heap))
    (lhs : loc) p h : outcome (loc * Parser L * Heap) :=
  let op := cur p in
  let prec := get_precedence op in
  if token_eqb op TOKEN_LIKE then
    let* p := advance p in
    let* '(pattern, p, h) := binary (prec + 1) p h in
    if pattern =? 0 then Done (0, p, h) else
    let '(expr, h) := make_expr h EXPR_T_LIKE (P_LIKE lhs pattern 0 0) in
    operators expr p h
  else if token_eqb op TOKEN_IN then
    let* p := advance p in
    if token_eqb (cur p) TOKEN_LPAREN then
      let* p := advance p in
      let* '(items, p, h) :=
        if negb (token_eqb (cur p) TOKEN_RPAREN) then
          let '(list_, h) := alloc h (OPtrs (replicate 4 0)) in
          in_items list_ 0%nat 4%nat p h
        else Done (Some (0, 0%nat), p, h) in
      match items with
      | None => Done (0, p, h)
      | Some (list_, count) =>
          let* p := expect_token p TOKEN_RPAREN (zstr "Expected ')'") in
          let '(expr, h) := make_expr h EXPR_T_IN (P_IN lhs list_ count 0) in
          operators expr p h
      end
    else operators lhs p h
  else if token_eqb op TOKEN_BETWEEN then
    let* p := advance p in
    let* '(low, p, h) := binary (prec + 1) p h in
    if low =? 0 then Done (0, p, h) else
    if negb (check_keyword p (zstr "AND")) then
      let p := parser_set_error p (zstr "Expected AND in BETWEEN expression") in
      let* h := unref h low in
      Done (0, p, h)
    else
      let* p := advance p in
      let* '(high, p, h) := binary (prec + 1) p h in
      if high =? 0 then let* h := unref h low in Done (0, p, h) else
      let '(expr, h) := make_expr h EXPR_T_BETWEEN (P_BETWEEN lhs low high 0) in
      operators expr p h
  else if prec =? 0 then Done (lhs, p, h)
  else if token_eqb op TOKEN_IS then
    let* p := advance p in
    let* '(is_not, p) := if check_keyword p (zstr "NOT")
                         then let* p := advance p in Done (true, p) else Done (false, p) in
    if check_keyword p (zstr "NULL") then
      let* p := advance p in
      let '(expr, h) := expr_create h EXPR_T_BINARY in
      let '(rhs, h) := expr_create h EXPR_T_LITERAL_NULL in
      let h := put h expr (OExpr 1 (P_BINARY lhs (token_code (if is_not : bool then TOKEN_NEQ else TOKEN_EQ)) rhs)) in
      operators expr p h
    else Done (0, parser_set_error p (zstr "Expected NULL after IS"), h)
  else if token_eqb op TOKEN_NOT then Done (lhs, p, h)
  else
    let* p := advance p in
    let* '(rhs, p, h) := binary (prec + (if is_right_assoc op then 0 else 1)) p h in
    if rhs =? 0 then let* h := unref h lhs in Done (0, p, h) else
    let '(expr, h) := make_expr h EXPR_T_BINARY (P_BINARY lhs (token_code op) rhs) in
    operators expr p h.

(** One turn of the loops over expressions: room, the expression, a comma. *)
Definition parse_item_mem (expression : Parser L -> Heap -> outcome (loc * Parser L * Heap))
    (items : loc -> nat -> nat -> Parser L -> Heap -> outcome (option (loc * nat) * Parser L * Heap))
    (list_ : loc) (count capacity : nat) p h : outcome (option (loc * nat) * Parser L * Heap) :=
  let* '(list_, capacity, h) := grow_ptrs h list_ count capacity in
  let* '(e, p, h) := expression p h in
  let* h := store_ptr h list_ count e in
  if e =? 0 then
    let* h := unref_items (Z.to_nat (brk h)) count 0 h list_ in
    let* h := free h list_ in
    Done (None, p, h)
  else if token_eqb (cur p) TOKEN_COMMA
  then let* p := advance p in items list_ (S count) capacity p h
  else Done (Some (list_, S count), p, h).

(** A sign or NOT on an operand. *)
Definition make_unary (op : TokenType) (x : loc * Parser L * Heap) : outcome (loc * Parser L * Heap) :=
  let '(operand, p, h) := x in
  if operand =? 0 then Done (0, p, h) else
  let '(expr, h) := make_expr h EXPR_T_UNARY (P_UNARY (token_code op) operand) in
  Done (expr, p, h).

Fixpoint parse_literal_mem (fuel : nat) p h : outcome (loc * Parser L * Heap) :=
  match fuel with
  | O => NoFuel
  | S fuel =>
    match cur p with
    | TOKEN_INTEGER =>
        match t_value (p_current p) with
        | TVInt z =>
            let '(expr, h) := make_expr h EXPR_T_LITERAL_INT (P_LITERAL_INT z) in
            let* p := advance p in Done (expr, p, h)
        | _ => Undef
        end
    | TOKEN_REAL =>
        match t_value (p_current p) with
        | TVFloat d =>
            let '(expr, h) := make_expr h EXPR_T_LITERAL_FLOAT (P_LITERAL_FLOAT d) in
            let* p := advance p in Done (expr, p, h)
        | _ => Undef
        end
    | TOKEN_STRING =>
        match t_value (p_current p) with
        | TVString s =>
            let '(expr, h) := expr_create h EXPR_T_LITERAL_STRING in
            let '(str, h) := alloc h (OBytes (dup s)) in
            let h := put h expr (OExpr 1 (P_LITERAL_STRING str (length s))) in
            let* p := advance p in Done (expr, p, h)
        | _ => Undef
        end
    | TOKEN_NULL =>
        let '(expr, h) := expr_create h EXPR_T_LITERAL_NULL in
        let* p := advance p in Done (expr, p, h)
    | TOKEN_IDENTIFIER =>
        let* '(name, p, h) := parse_identifier_mem p h in
        if name =? 0 then Done (0, p, h) else
        if token_eqb (cur p) TOKEN_DOT then
          let* p := advance p in
          let* '(col_name, p, h) := parse_identifier_mem p h in
          if col_name =? 0 then let* h := free h name in Done (0, p, h) else
          let '(expr, h) := make_expr h EXPR_T_COLUMN (P_COLUMN 0 col_name) in
          let* h := free h name in
          Done (expr, p, h)
        else
          let '(expr, h) := make_expr h EXPR_T_COLUMN (P_COLUMN (-1) name) in
          Done (expr, p, h)
    | TOKEN_LPAREN =>
        let* p := advance p in
        let* '(expr, p, h) := parse_binary_expr_mem fuel 0 p h in
        if token_eqb (cur p) TOKEN_RPAREN
        then let* p := advance p in Done (expr, p, h)
        else Done (expr, parser_set_error p (zstr "Expected ')'"), h)
    | TOKEN_MINUS =>
        let* p := advance p in
        let* x := parse_literal_mem fuel p h in make_unary TOKEN_MINUS x
    | TOKEN_PLUS =>
        let* p := advance p in
        let* x := parse_literal_mem fuel p h in make_unary TOKEN_PLUS x
    | _ => Done (0, parser_set_error p (zstr "Unexpected token in expression"), h)
    end
  end
with parse_unary_not_mem (fuel : nat) p h : outcome (loc * Parser L * Heap) :=
  match fuel with
  | O => NoFuel
  | S fuel =>
    if check_keyword p (zstr "NOT") then
      let* p := advance p in
      let* x := parse_unary_not_mem fuel p h in make_unary TOKEN_NOT x
    else parse_literal_mem fuel p h
  end
with parse_binary_expr_mem (fuel : nat) (min_prec : Z) p h : outcome (loc * Parser L * Heap) :=
  match fuel with
  | O => NoFuel
  | S fuel =>
    let* '(lhs, p, h) := parse_unary_not_mem fuel p h in
    if (lhs =? 0) || has_error p then Done (lhs, p, h) else parse_operators_mem fuel lhs p h
  end
with parse_operators_mem (fuel : nat) (lhs : loc) p h : outcome (loc * Parser L * Heap) :=
  match fuel with
  | O => NoFuel
  | S fuel =>
    parse_operator_mem (parse_binary_expr_mem fuel) (parse_operators_mem fuel) (parse_in_items_mem fuel) lhs p h
  end
with parse_in_items_mem (fuel : nat) (list_ : loc) (count capacity : nat) p h
    : outcome (option (loc * nat) * Parser L * Heap) :=
  match fuel with
  | O => NoFuel
  | S fuel =>
    parse_item_mem (parse_binary_expr_mem fuel 0) (parse_in_items_mem fuel) list_ count capacity p h
  end.

Definition parse_expression_mem (fuel : nat) p h := parse_binary_expr_mem fuel 0 p h.
End parser_mem.

Definition no_objects : Heap := mkHeap ∅ 1.

(** ** What a tree says *)

(** The tree [t] is the expression [e]; [ns] are the names of its columns, which
    expr_unref does not free. *)
Section all.
Context {A B : Type} (says : A -> B -> list (loc * Obj) -> Prop).
Fixpoint says_all (es : list A) (ts : list B) (ns : list (loc * Obj)) : Prop :=
  match es, ts with
  | [], [] => ns = []
  | e :: es, t :: ts => exists n1 n2, ns = n1 ++ n2 /\ says e t n1 /\ says_all es ts n2
  | _, _ => False
  end.
End all.

Fixpoint says (e : Expression) (t : Tree) (ns : list (loc * Obj)) {struct e} : Prop :=
  match e, t with
  | EXPR_LITERAL_INT z, TNode _ (H_INT z') [] => z' = z /\ ns = []
  | EXPR_LITERAL_FLOAT d, TNode _ (H_FLOAT d') [] => d' = d /\ ns = []
  | EXPR_LITERAL_STRING s, TNode _ (H_STRING _ b n) [] => b = dup s /\ n = length s /\ ns = []
  | EXPR_LITERAL_NULL, TNode _ H_NULL [] => ns = []
  | EXPR_COLUMN i (Some s), TNode _ (H_COLUMN i' name) [] => i' = i /\ ns = [(name, OBytes (dup s))]
  | EXPR_BINARY e1 op e2, TNode _ (H_BINARY op') [t1; t2] =>
      op' = op /\ exists n1 n2, ns = n1 ++ n2 /\ says e1 t1 n1 /\ says e2 t2 n2
  | EXPR_UNARY op e, TNode _ (H_UNARY op') [t] => op' = op /\ says e t ns
  | EXPR_IN e items not, TNode _ (H_IN_NULL not') [t] => items = [] /\ not' = Z.b2z not /\ says e t ns
  | EXPR_IN e items not, TNode _ (H_IN _ _ not') (t :: ts) =>
      not' = Z.b2z not /\ exists n1 n2, ns = n1 ++ n2 /\ says e t n1 /\ says_all says items ts n2
  | EXPR_BETWEEN e1 e2 e3 not, TNode _ (H_BETWEEN not') [t1; t2; t3] =>
      not' = Z.b2z not /\ exists n1 n2 n3, ns = n1 ++ n2 ++ n3 /\ says e1 t1 n1 /\ says e2 t2 n2 /\ says e3 t3 n3
  | EXPR_LIKE e1 e2 not, TNode _ (H_LIKE _ not') [t1; t2] =>
      not' = Z.b2z not /\ exists n1 n2, ns = n1 ++ n2 /\ says e1 t1 n1 /\ says e2 t2 n2
  | _, _ => False
  end.

Lemma says_all_shaped es ts ns :
  Forall (fun e => forall t ns, says e t ns -> shaped t) es -> says_all says es ts ns -> Forall shaped ts.
Proof.
  intros He. revert ts ns. induction He as [|e es He _ IH]; intros [|t ts] ns; try done.
  intros (n1 & n2 & _ & H1 & H2). constructor; [by eapply He|by eapply IH].
Qed.

Lemma shaped_kids kids : Forall shaped kids -> foldr (fun k acc => shaped k /\ acc) True kids.
Proof. induction 1; [done|by split]. Qed.

Lemma says_shaped e t ns : says e t ns -> shaped t.
Proof.
  revert t ns. induction e as [e He|e1 op e2 IH1 IH2|op e IH|e items not IH IHs|e1 e2 e3 not IH1 IH2 IH3
                 |e1 e2 not IH1 IH2] using expression_induction; intros t ns H.
  - destruct e as [| | | | |i [s|]| | | | | | | |]; try done; destruct t as [|l [] []]; done.
  - destruct t as [|l [] [|t1 [|t2 []]]]; try done. destruct H as (_ & n1 & n2 & _ & H1 & H2).
    split; [done|]. apply shaped_kids. repeat constructor; eauto.
  - destruct t as [|l [] [|t1 []]]; try done. destruct H as (_ & H). split; [done|]. apply shaped_kids.
    repeat constructor; eauto.
  - destruct t as [|l [] [|t1 ts]]; try done.
    + destruct H as (_ & n1 & n2 & _ & H1 & H2). split; [done|]. apply shaped_kids. constructor; [by eapply IH|].
      by eapply says_all_shaped.
    + destruct ts; [|done]. destruct H as (_ & _ & H). split; [done|]. apply shaped_kids. repeat constructor; eauto.
  - destruct t as [|l [] [|t1 [|t2 [|t3 []]]]]; try done. destruct H as (_ & n1 & n2 & n3 & _ & H1 & H2 & H3).
    split; [done|]. apply shaped_kids. repeat constructor; eauto.
  - destruct t as [|l [] [|t1 [|t2 []]]]; try done. destruct H as (_ & n1 & n2 & _ & H1 & H2).
    split; [done|]. apply shaped_kids. repeat constructor; eauto.
Qed.

Lemma says_all_snoc {A B} (says : A -> B -> _ -> Prop) es ts ns e t n :
  says_all says es ts ns -> says e t n -> says_all says (es ++ [e]) (ts ++ [t]) (ns ++ n).
Proof.
  revert ts ns. induction es as [|e' es IH]; intros [|t' ts] ns; cbn [says_all app]; try done.
  - intros -> H. exists n, []. by rewrite app_nil_r.
  - intros (n1 & n2 & -> & H1 & H2) H. exists n1, (n2 ++ n). rewrite app_assoc. split_and!; [done|done|by apply IH].
Qed.

Lemma says_all_length {A B} (says : A -> B -> _ -> Prop) es ts ns : says_all says es ts ns -> length es = length ts.
Proof.
  revert ts ns. induction es as [|e es IH]; intros [|t ts] ns; try done.
  intros (n1 & n2 & _ & _ & H). cbn. f_equal. by eapply IH.
Qed.

(** ** Depth *)

Lemma depth_freed t : (depth t <= length (freed t))%nat.
Proof.
  induction t as [|l hd kids IH] using tree_induction; [done|]. cbn [depth freed length]. apply le_n_S.
  rewrite length_app. enough (foldr (fun k acc => Nat.max (depth k) acc) 0%nat kids <= length (concat (map freed kids)))%nat by lia.
  induction IH as [|k kids Hk _ IHk]; [done|]. cbn [foldr map concat]. rewrite length_app. lia.
Qed.

Lemma length_range (ls : list Z) a b : NoDup ls -> Forall (fun l => a <= l < b) ls -> (length ls <= Z.to_nat (b - a))%nat.
Proof.
  intros Hd Hf. rewrite Forall_forall in Hf. rewrite <- (length_seqZ a (b - a)). apply submseteq_length, NoDup_submseteq; [done|].
  intros x Hx. apply elem_of_seqZ. specialize (Hf x Hx). cbn in Hf. lia.
Qed.

(** As many new objects as addresses at most. *)
Lemma added_below h0 h (img rest : list (loc * Obj)) :
  heap_ok h0 -> extends h0 h (img ++ rest) -> (length img <= Z.to_nat (brk h))%nat.
Proof.
  intros Hok He. rewrite <- (length_map fst).
  pose proof (ex_fresh _ _ _ He) as Hf. pose proof (ex_nodup _ _ _ He) as Hd. rewrite map_app in Hf, Hd.
  apply Forall_app in Hf as [Hf _]. apply NoDup_app in Hd as [Hd _].
  etrans; [by apply (length_range _ (brk h0) (brk h))|]. pose proof (proj1 Hok). lia.
Qed.

Lemma depth_image t : (depth t <= length (image t))%nat.
Proof. rewrite <- (length_map fst (image t)), image_freed. apply depth_freed. Qed.

Lemma depth_below h0 h t rest : heap_ok h0 -> extends h0 h (image t ++ rest) -> (depth t <= Z.to_nat (brk h))%nat.
Proof. intros Hok He. etrans; [apply depth_image|]. by eapply added_below. Qed.

(** A new tree is released. *)
Lemma unref_ok h0 h t rest :
  heap_ok h0 -> extends h0 h (image t ++ rest) -> shaped t -> exists h', unref h (root t) = Done h' /\ extends h0 h' rest.
Proof.
  intros Hok He Hs. apply (extends_release (fun h' => expr_unref (Z.to_nat (brk h)) h' (root t)) h0 h (image t)); [done|done|].
  apply releases_tree; [done|]. by eapply depth_below.
Qed.

(** One of the new objects is freed. *)
Lemma free_added h0 h l (o : Obj) img rest :
  heap_ok h0 -> extends h0 h img -> img ≡ₚ (l, o) :: rest -> exists h', free h l = Done h' /\ extends h0 h' rest.
Proof.
  intros Hok He Hp. apply (extends_release (fun h => free h l) h0 h [(l, o)]); [done| |apply releases_block].
  by eapply extends_perm.
Qed.

Lemma make_expr_ok h0 h img t q :
  extends h0 h img -> let x := make_expr h t q in extends h0 (snd x) ((fst x, OExpr 1 q) :: img) /\ fst x <> 0.
Proof.
  intros He. unfold make_expr, expr_create. cbn [alloc fst snd].
  pose proof (extends_trans _ _ _ _ _ He (extends_alloc h (OExpr 1 (zero_payload t)) (ex_ok _ _ _ He))) as H1.
  eapply extends_perm in H1; [|apply Permutation_app_comm]. cbn [app] in H1. split.
  - by apply (extends_put _ _ _ (OExpr 1 (zero_payload t))).
  - pose proof (proj1 (ex_ok _ _ _ He)). lia.
Qed.

(** ** Results of a parse function *)

Section spec.
Context {L : Type} `{TokenSource L}.
Implicit Types p : Parser L.

(** An error stays; without one nothing was leaked. *)
Definition sticky p p' : Prop := has_error p = true -> has_error p' = true.
Definition leak_ok p (lk : list (loc * Obj)) : Prop := has_error p = false -> lk = [].

Lemma sticky_refl p : sticky p p. Proof. by intros Hp. Qed.
Lemma sticky_trans p p1 p2 : sticky p p1 -> sticky p1 p2 -> sticky p p2.
Proof. intros H1 H2 Hp. auto. Qed.
Lemma sticky_error p q msg : sticky p (parser_set_error q msg). Proof. done. Qed.

Lemma leak_ok_nil p : leak_ok p []. Proof. done. Qed.
Lemma leak_ok_sticky p p' lk : leak_ok p lk -> sticky p p' -> leak_ok p' lk.
Proof. unfold leak_ok, sticky. intros H1 H2 Hp. apply H1. destruct (has_error p); [by rewrite H2 in Hp|done]. Qed.
Lemma leak_ok_app p l1 l2 : leak_ok p l1 -> leak_ok p l2 -> leak_ok p (l1 ++ l2).
Proof. intros H1 H2 Hp. by rewrite H1, H2. Qed.
Lemma leak_ok_error p msg lk : leak_ok (parser_set_error p msg) lk. Proof. done. Qed.

Lemma advance_sticky p p' : advance p = Done p' -> sticky p p'.
Proof. unfold advance. intros E Hp. rewrite Hp in E. congruence. Qed.

Lemma expect_token_sticky p t msg p' : expect_token p t msg = Done p' -> sticky p p'.
Proof. unfold expect_token. destruct (negb _); [by intros [= <-]|apply advance_sticky]. Qed.

Lemma expect_keyword_sticky p kw msg p' : expect_keyword p kw msg = Done p' -> sticky p p'.
Proof. unfold expect_keyword. destruct (negb _); [by intros [= <-]|apply advance_sticky]. Qed.

(** The same step on the tokens on both sides. *)
Lemma agrees_step {A C D} (R : C -> D -> Prop) (m : outcome A) f g :
  (forall a, m = Done a -> agrees R (f a) (g a)) -> agrees R (obind m f) (obind m g).
Proof. intros Hfg. by destruct m; cbn; [apply Hfg|..]. Qed.

(** What a function started on [p0] and the heap [h0] gave: the expression as a tree
    of its own, or NULL. *)
Definition made h0 p0 (x : loc * Parser L * Heap) (y : option Expression * Parser L) : Prop :=
  snd (fst x) = snd y /\ sticky p0 (snd y) /\
  match fst y with
  | None => fst (fst x) = 0 /\ exists lk, extends h0 (snd x) lk
  | Some e =>
      exists t ns lk, fst (fst x) = root t /\ root t <> 0 /\ says e t ns /\
        extends h0 (snd x) (image t ++ ns ++ lk) /\ leak_ok (snd y) lk
  end.

Lemma made_sticky h0 p0 p1 x y : sticky p0 p1 -> made h0 p1 x y -> made h0 p0 x y.
Proof. intros Hs (H1 & H2 & H3). split_and!; [done|by eapply sticky_trans|done]. Qed.

(** Failure, whatever is left. *)
Lemma made_null h0 p0 p h lk : sticky p0 p -> extends h0 h lk -> made h0 p0 (0, p, h) (None, p).
Proof. intros Hs He. split; [done|]. split; [done|]. split; [done|by exists lk]. Qed.

Lemma made_some h0 p0 p h t ns lk e :
  sticky p0 p -> root t <> 0 -> says e t ns -> extends h0 h (image t ++ ns ++ lk) -> leak_ok p lk ->
  made h0 p0 (root t, p, h) (Some e, p).
Proof. intros Hs Hr Hsay He Hl. split; [done|]. split; [done|]. by exists t, ns, lk. Qed.

(** A function called when [img] had been added already. *)
Definition made_after h0 p0 img (x : loc * Parser L * Heap) (y : option Expression * Parser L) : Prop :=
  snd (fst x) = snd y /\ sticky p0 (snd y) /\
  match fst y with
  | None => fst (fst x) = 0 /\ exists lk, extends h0 (snd x) (img ++ lk)
  | Some e =>
      exists t ns lk, fst (fst x) = root t /\ root t <> 0 /\ says e t ns /\
        extends h0 (snd x) (img ++ image t ++ ns ++ lk) /\ leak_ok (snd y) lk
  end.

Lemma made_made_after h0 h p0 p img x y :
  extends h0 h img -> sticky p0 p -> made h p x y -> made_after h0 p0 img x y.
Proof.
  intros He Hs (H1 & H2 & H3). split_and!; [done|by eapply sticky_trans|].
  destruct (fst y) as [e|]; [destruct H3 as (t & ns & lk & ? & ? & ? & H3 & ?)|destruct H3 as (? & lk & H3)].
  - exists t, ns, lk. split_and!; [done|done|done|by eapply extends_trans|done].
  - split; [done|]. exists lk. by eapply extends_trans.
Qed.

(** An identifier: a new string, or an error. *)
Definition named h0 p0 img (x : loc * Parser L * Heap) (y : option (list Z) * Parser L) : Prop :=
  snd (fst x) = snd y /\ sticky p0 (snd y) /\
  match fst y with
  | None => fst (fst x) = 0 /\ extends h0 (snd x) img
  | Some s => fst (fst x) <> 0 /\ extends h0 (snd x) ((fst (fst x), OBytes (dup s)) :: img)
  end.

Lemma parse_identifier_mem_ok h0 h p0 p img :
  extends h0 h img -> sticky p0 p -> agrees (named h0 p0 img) (parse_identifier_mem p h) (parse_identifier p).
Proof.
  intros He Hs. unfold parse_identifier_mem, parse_identifier. destruct (negb _); [by apply agrees_Done|].
  cbn [alloc]. apply agrees_step. intros p' Hp%advance_sticky. apply agrees_Done.
  split_and!; [done|by eapply sticky_trans|]. cbn [fst snd].
  pose proof (ex_ok _ _ _ He) as Hok. split; [destruct Hok; lia|].
  eapply extends_perm; [eapply extends_trans; [exact He|by apply extends_alloc]|]. apply Permutation_app_comm.
Qed.
End spec.

(** Along the chain of the parsers in between. *)
Ltac stick :=
  first
    [ assumption | apply sticky_refl | apply sticky_error
    | match goal with
      | S : sticky ?b ?c |- sticky ?a ?c => apply (sticky_trans a b c); [clear S; stick|exact S]
      end ].

Ltac leak :=
  first
    [ apply leak_ok_nil | apply leak_ok_error | apply leak_ok_app; leak
    | eapply leak_ok_sticky; [eassumption|stick] ].

(** ** Expressions *)

Lemma node_made h0 h img hd kids q t ns lk :
  extends h0 h img -> payload_of hd (map root kids) = Some q ->
  img ≡ₚ blocks hd (map root kids) ++ concat (map image kids) ++ ns ++ lk ->
  let x := make_expr h t q in
  extends h0 (snd x) (image (TNode (fst x) hd kids) ++ ns ++ lk) /\ fst x <> 0.
Proof.
  intros He Hq Hi. destruct (make_expr_ok h0 h img t q He) as [H1 H2]. split; [|done].
  cbn [image]. rewrite Hq. cbn [default]. eapply extends_perm; [exact H1|].
  rewrite Hi. cbn [app]. by rewrite !app_assoc.
Qed.

(** The array of some expressions, and the expressions. *)
Definition items_image (list_ : loc) (ts : list Tree) (slack : list loc) : list (loc * Obj) :=
  (list_, OPtrs (map root ts ++ slack)) :: concat (map image ts).

Section expressions.
Context {L : Type} `{TokenSource L}.
Implicit Types p : Parser L.

Definition items_made h0 p0 (x : option (loc * nat) * Parser L * Heap) (y : option (list Expression) * Parser L) : Prop :=
  snd (fst x) = snd y /\ sticky p0 (snd y) /\
  match fst y with
  | None => fst (fst x) = None /\ exists lk, extends h0 (snd x) lk
  | Some es =>
      exists list_ ts slack ns lk, fst (fst x) = Some (list_, length ts) /\ ts <> [] /\ says_all says es ts ns /\
        extends h0 (snd x) (items_image list_ ts slack ++ ns ++ lk) /\ leak_ok (snd y) lk
  end.

Definition binary_spec (bm : Z -> Parser L -> Heap -> outcome (loc * Parser L * Heap))
    (b : Z -> Parser L -> outcome (option Expression * Parser L)) : Prop :=
  forall prec p h, heap_ok h -> agrees (made h p) (bm prec p h) (b prec p).

Definition operators_spec (om : loc -> Parser L -> Heap -> outcome (loc * Parser L * Heap))
    (o : Expression -> Parser L -> outcome (option Expression * Parser L)) : Prop :=
  forall h0 h p0 p t ns lk e,
    heap_ok h0 -> extends h0 h (image t ++ ns ++ lk) -> root t <> 0 -> says e t ns -> leak_ok p lk -> sticky p0 p ->
    agrees (made h0 p0) (om (root t) p h) (o e p).

Definition items_spec (im : loc -> nat -> nat -> Parser L -> Heap -> outcome (option (loc * nat) * Parser L * Heap))
    (i : list Expression -> Parser L -> outcome (option (list Expression) * Parser L)) : Prop :=
  forall h0 h p0 p list_ ts slack ns lk es,
    heap_ok h0 -> extends h0 h (items_image list_ ts slack ++ ns ++ lk) -> says_all says es ts ns ->
    (0 < length ts + length slack)%nat -> leak_ok p lk -> sticky p0 p ->
    agrees (items_made h0 p0) (im list_ (length ts) (length ts + length slack)%nat p h) (i es p).

Section operator.
Context bm b om o im i (Hb : binary_spec bm b) (Ho : operators_spec om o) (Hi : items_spec im i).

(** A node on top of what was parsed, and on with the operators. *)
Lemma continue_with h0 h p0 p img hd kids q t ns lk e :
  heap_ok h0 -> extends h0 h img -> payload_of hd (map root kids) = Some q ->
  img ≡ₚ blocks hd (map root kids) ++ concat (map image kids) ++ ns ++ lk ->
  (forall l, says e (TNode l hd kids) ns) -> leak_ok p lk -> sticky p0 p ->
  agrees (made h0 p0) (let '(expr, h) := make_expr h t q in om expr p h) (o e p).
Proof.
  intros Hok He Hq Himg Hs Hl Hst. destruct (node_made h0 h img hd kids q t ns lk He Hq Himg) as [H1 H2].
  destruct (make_expr h t q) as [expr h']. cbn [fst snd] in *.
  by apply (Ho h0 h' p0 p (TNode expr hd kids) ns lk e).
Qed.

(** An operand parsed when [img] had been added. *)
Lemma operand_after h0 h p0 p img prec :
  extends h0 h img -> sticky p0 p -> agrees (made_after h0 p0 img) (bm prec p h) (b prec p).
Proof.
  intros He Hs. pose proof (Hb prec p h (ex_ok _ _ _ He)) as Hm. destruct (b prec p) as [y| |]; [|done..].
  destruct Hm as (x & -> & Hx). apply agrees_Done. by apply (made_made_after h0 h p0 p).
Qed.

(** An operand is next: a tree of its own behind what was there, or NULL. *)
Ltac operand He :=
  match goal with
  | |- agrees _ (obind (bm _ ?p ?h) _) _ => eapply agrees_bind; [apply (operand_after _ h p p _ _ He), sticky_refl|]
  end;
  let r := fresh "r" in let p' := fresh "p" in let h' := fresh "h" in let e' := fresh "e" in
  let t' := fresh "t" in let n' := fresh "n" in let lk' := fresh "lk" in let q := fresh "q" in
  intros [[r p'] h'] [[e'|] q] (? & ? & ?); cbn [fst snd] in *; subst q;
  match goal with
  | Hx : exists t n l, _ |- _ =>
      let Hr := fresh "Hr" in destruct Hx as (t' & n' & lk' & -> & Hr & ? & ? & ?);
      rewrite (proj2 (Z.eqb_neq _ _) Hr)
  | Hx : _ /\ _ |- _ => destruct Hx as [-> [lk' ?]]
  end.

(** A tree among what was added is released. *)
Lemma unref_among h0 h img t n e rest :
  heap_ok h0 -> extends h0 h img -> says e t n -> img ≡ₚ image t ++ rest ->
  exists h', unref h (root t) = Done h' /\ extends h0 h' rest.
Proof.
  intros Hok He Hs Hp. apply (unref_ok h0); [done|by eapply extends_perm|by eapply says_shaped].
Qed.

Ltac release t rest :=
  match goal with
  | E : extends ?h0 ?h ?img, S : says ?e t ?n, Hok : heap_ok ?h0 |- context [unref ?h (root t)] =>
      let h' := fresh "h" in
      destruct (unref_among h0 h img t n e rest Hok E S) as (h' & -> & ?); [solve_Permutation|]; cbn [obind]
  end.

Ltac null := eapply agrees_Done, made_null; [stick|eassumption].

(** The tree and its names among what was added. *)
Ltac node hd kids ns lk :=
  eapply (continue_with _ _ _ _ _ hd kids _ _ ns lk);
    [assumption|eassumption|reflexivity|cbn [blocks map concat app tail]; solve_Permutation| |
     leak|stick].

(** The items in parentheses. *)
Lemma in_list_after h0 h p img :
  heap_ok h0 -> extends h0 h img ->
  agrees (fun x y =>
      snd (fst x) = snd y /\ sticky p (snd y) /\
      match fst y with
      | None => fst (fst x) = None /\ exists lk, extends h0 (snd x) lk
      | Some es =>
          exists list_ ts slack ns lk, fst (fst x) = Some (list_, length ts) /\ says_all says es ts ns /\
            leak_ok (snd y) lk /\
            (ts <> [] /\ extends h0 (snd x) (img ++ items_image list_ ts slack ++ ns ++ lk) \/
             ts = [] /\ list_ = 0 /\ lk = [] /\ extends h0 (snd x) img)
      end)
    (if negb (token_eqb (cur p) TOKEN_RPAREN) then
       let '(list_, h) := alloc h (OPtrs (replicate 4 0)) in im list_ 0%nat 4%nat p h
     else Done (Some (0, 0%nat), p, h))
    (if negb (token_eqb (cur p) TOKEN_RPAREN) then i [] p else Done (Some [], p)).
Proof.
  intros Hok He. destruct (negb _).
  - cbn [alloc]. pose proof (ex_ok _ _ _ He) as Hokh.
    pose proof (Hi h _ p p (brk h) [] (replicate 4 0) [] [] [] Hokh (extends_alloc h (OPtrs (replicate 4 0)) Hokh)
      eq_refl (Nat.lt_0_succ 3) (leak_ok_nil p) (sticky_refl p)) as Hm.
    rewrite length_replicate in Hm.
    cbn [length Nat.add alloc snd] in Hm. destruct (i [] p) as [[es q]| |]; [|done..].
    destruct Hm as ([[x p'] h'] & -> & E & Hs & Hx). cbn [fst snd] in *. apply agrees_Done. cbn [fst snd].
    split; [done|]. split; [done|]. destruct es as [es|].
    + destruct Hx as (list_ & ts & slack & ns & lk & -> & Hts & Hsay & H1 & Hl).
      exists list_, ts, slack, ns, lk. split_and!; [done|done|done|]. left. split; [done|]. by eapply extends_trans.
    + destruct Hx as [-> [lk H1]]. split; [done|]. eexists. by eapply extends_trans.
  - apply agrees_Done. split; [done|]. split; [apply sticky_refl|]. exists 0, [], [], [], []. split_and!; [done|done|done|].
    by right.
Qed.

Lemma parse_in_ok h0 h p0 p t ns lk e :
  heap_ok h0 -> extends h0 h (image t ++ ns ++ lk) -> root t <> 0 -> says e t ns -> leak_ok p lk -> sticky p0 p ->
  agrees (made h0 p0)
    (let* '(items, p, h) :=
       if negb (token_eqb (cur p) TOKEN_RPAREN) then
         let '(list_, h) := alloc h (OPtrs (replicate 4 0)) in im list_ 0%nat 4%nat p h
       else Done (Some (0, 0%nat), p, h) in
     match items with
     | None => Done (0, p, h)
     | Some (list_, count) =>
         let* p := expect_token p TOKEN_RPAREN (zstr "Expected ')'") in
         let '(expr, h) := make_expr h EXPR_T_IN (P_IN (root t) list_ count 0) in
         om expr p h
     end)
    (let* '(items, p) := if negb (token_eqb (cur p) TOKEN_RPAREN) then i [] p else Done (Some [], p) in
     match items with
     | None => Done (None, p)
     | Some items =>
         let* p := expect_token p TOKEN_RPAREN (zstr "Expected ')'") in
         o (EXPR_IN e items false) p
     end).
Proof.
  intros Hok He Hr Hs Hl Hst. eapply agrees_bind; [by apply (in_list_after h0 h p)|].
  intros [[x p1] h1] [[es|] q] (E & Hs1 & Hx); cbn [fst snd] in *; subst q.
  - destruct Hx as (list_ & ts & slack & n1 & lk1 & -> & Hsay & Hl1 & Hx).
    apply agrees_step. intros p2 H2%expect_token_sticky. destruct Hx as [[Hts H1]|(-> & -> & -> & H1)].
    + rewrite <- (length_map root ts).
      node (H_IN list_ slack 0) (t :: ts) (ns ++ n1) (lk ++ lk1).
      intros l. destruct ts; (split; [done|]); by exists ns, n1.
    + destruct es as [|e1 es]; [|done]. cbn in Hsay. subst n1.
      node (H_IN_NULL 0) [t] ns lk. by intros l.
  - destruct Hx as [-> [lk1 H1]]. null.
Qed.

Lemma keyword_flag_sticky p kw (x : bool * Parser L) :
  (if check_keyword p kw then let* p := advance p in Done (true, p) else Done (false, p)) = Done x -> sticky p (snd x).
Proof.
  destruct (check_keyword p kw); [|intros [= <-]; apply sticky_refl]. intros E.
  apply bind_Done_inv in E as (p' & E & [= <-]). by apply advance_sticky.
Qed.

Lemma parse_operator_mem_ok h0 h p0 p t ns lk e :
  heap_ok h0 -> extends h0 h (image t ++ ns ++ lk) -> root t <> 0 -> says e t ns -> leak_ok p lk -> sticky p0 p ->
  agrees (made h0 p0) (parse_operator_mem bm om im (root t) p h) (parse_operator b o i e p).
Proof.
  intros Hok He Hr Hs Hl Hst. unfold parse_operator_mem, parse_operator.
  destruct (token_eqb (cur p) TOKEN_LIKE).
  { apply agrees_step. intros p1 S1%advance_sticky. operand He; [|null].
    node (H_LIKE 0 0) [t; t0] (ns ++ n) (lk ++ lk0). intros l. split; [done|]. by exists ns, n. }
  destruct (token_eqb (cur p) TOKEN_IN).
  { apply agrees_step. intros p1 S1%advance_sticky. destruct (token_eqb _ _); [|apply (Ho h0 h p0 p1 t ns lk e); first [done|leak|stick]].
    apply agrees_step. intros p2 S2%advance_sticky. apply (parse_in_ok h0 h p0 p2 t ns lk e); first [done|leak|stick]. }
  destruct (token_eqb (cur p) TOKEN_BETWEEN).
  { apply agrees_step. intros p1 S1%advance_sticky. operand He; [|null].
    destruct (negb _); [release t0 ((image t ++ ns ++ lk) ++ n ++ lk0); null|].
    apply agrees_step. intros p3 S3%advance_sticky.
    match goal with E : extends h0 h1 _ |- _ => operand E end;
      [|release t0 (((image t ++ ns ++ lk) ++ n ++ lk0) ++ lk1); null].
    node (H_BETWEEN 0) [t; t0; t1] (ns ++ n ++ n0) (lk ++ lk0 ++ lk1). intros l. split; [done|]. by exists ns, n, n0. }
  destruct (_ =? 0); [by apply agrees_Done, (made_some h0 p0 p h t ns lk e)|].
  destruct (token_eqb (cur p) TOKEN_IS).
  { apply agrees_step. intros p1 S1%advance_sticky. apply agrees_step. intros [is_not p2] S2%keyword_flag_sticky.
    cbn [snd] in S2. destruct (check_keyword p2 _); [|null].
    apply agrees_step. intros p3 S3%advance_sticky. cbn [expr_create alloc].
    set (op := token_code (if is_not : bool then TOKEN_NEQ else TOKEN_EQ)).
    pose proof (extends_pair h (OExpr 1 (zero_payload EXPR_T_BINARY)) (OExpr 1 (P_BINARY (root t) op (brk h + 1)))
      (OExpr 1 P_LITERAL_NULL) (ex_ok _ _ _ He)) as Hp. cbn [alloc snd] in Hp.
    pose proof (proj1 (ex_ok _ _ _ He)).
    apply (Ho h0 _ p0 p3 (TNode (brk h) (H_BINARY op) [t; TNode (brk h + 1) H_NULL []]) ns lk);
      [done| |cbn; lia| |leak|stick].
    - eapply extends_perm; [by eapply extends_trans|]. cbn [image map root payload_of default blocks concat app].
      solve_Permutation.
    - split; [done|]. exists ns, []. by rewrite app_nil_r. }
  destruct (token_eqb (cur p) TOKEN_NOT); [by apply agrees_Done, (made_some h0 p0 p h t ns lk e)|].
  apply agrees_step. intros p1 S1%advance_sticky. operand He.
  - node (H_BINARY (token_code (cur p))) [t; t0] (ns ++ n) (lk ++ lk0). intros l. split; [done|]. by exists ns, n.
  - release t (ns ++ lk ++ lk0). null.
Qed.
End operator.

(** *** The items of an IN list *)

Lemma grow_ptrs_ok h0 h list_ ts slack rest :
  heap_ok h0 -> extends h0 h ((list_, OPtrs (map root ts ++ slack)) :: rest) -> (0 < length ts + length slack)%nat ->
  exists list' slack' h',
    grow_ptrs h list_ (length ts) (length ts + length slack) = Done (list', (length ts + length slack')%nat, h') /\
    extends h0 h' ((list', OPtrs (map root ts ++ slack')) :: rest) /\ slack' <> [].
Proof.
  intros Hok He Hc. unfold grow_ptrs. destruct (Nat.leb_spec (length ts + length slack) (length ts)) as [Hl|Hl].
  - assert (slack = []) as -> by (destruct slack; [done|cbn in Hl; lia]). cbn [length] in *. rewrite Nat.add_0_r, app_nil_r in *.
    pose proof (Forall_inv (ex_present _ _ _ He)) as [_ Hp]. cbn [fst snd] in Hp. unfold get_ptrs. rewrite Hp, bind_Done.
    rewrite length_map, take_ge by (rewrite length_map; lia). cbn [alloc].
    replace (length ts * 2 - length ts)%nat with (length ts) by lia.
    pose proof (extends_trans _ _ _ _ _ He (extends_alloc h (OPtrs (map root ts ++ replicate (length ts) 0)) (ex_ok _ _ _ He))) as H1.
    destruct (extends_release _ h0 _ [(list_, OPtrs (map root ts))] _ Hok H1 (releases_block _ _)) as (h2 & E & H2).
    cbn [alloc snd] in E. rewrite E, bind_Done. exists (brk h), (replicate (length ts) 0), h2. rewrite length_replicate.
    split_and!; [do 3 f_equal; lia|eapply extends_perm; [exact H2|apply Permutation_app_comm]|destruct ts; [cbn in Hc; lia|done]].
  - exists list_, slack, h. split_and!; [done|done|]. destruct slack; [cbn in Hl; lia|done].
Qed.

Lemma store_ptr_ok h0 h list_ ts slack rest x :
  extends h0 h ((list_, OPtrs (map root ts ++ slack)) :: rest) -> slack <> [] ->
  exists h', store_ptr h list_ (length ts) x = Done h' /\
    extends h0 h' ((list_, OPtrs (map root ts ++ x :: tail slack)) :: rest).
Proof.
  intros He Hs. unfold store_ptr. pose proof (Forall_inv (ex_present _ _ _ He)) as [_ Hp]. cbn [fst snd] in Hp.
  unfold get_ptrs. rewrite Hp, bind_Done. destruct slack as [|y slack]; [done|].
  rewrite (proj2 (Nat.ltb_lt _ _)) by (rewrite length_app, length_map; cbn; lia). eexists. split; [done|].
  rewrite insert_app_r_alt by (rewrite length_map; lia). rewrite length_map, Nat.sub_diag.
  by apply (extends_put _ _ _ (OPtrs (map root ts ++ y :: slack))).
Qed.

Lemma unref_items_ok n list_ ps ts : forall h i,
  cells h !! list_ = Some (OPtrs ps) -> take (length ts) (drop i ps) = map root ts -> Forall (fits n) ts ->
  Forall (present h) (concat (map image ts)) -> NoDup (map fst (concat (map image ts))) ->
  list_ ∉ map fst (concat (map image ts)) ->
  unref_items n (length ts) i h list_ = Done (del (map fst (concat (map image ts))) h).
Proof.
  induction ts as [|t ts IH]; intros h i Hl Hps Hf Hp Hd Hn; [by destruct h|]. cbn [length unref_items map concat] in *.
  unfold get_ptrs. rewrite Hl, bind_Done. destruct (ps !! i) as [x|] eqn:Hx.
  - rewrite (drop_S _ _ _ Hx) in Hps. cbn [take] in Hps. injection Hps as -> Hps. cbn [outcome_of_option]. rewrite bind_Done.
    apply Forall_cons in Hf as [Hf1 Hf]. apply Forall_app in Hp as [Hp1 Hp]. rewrite map_app in Hd, Hn |- *.
    apply NoDup_app in Hd as (Hd1 & Hdis & Hd). apply not_elem_of_app in Hn as [Hn1 Hn].
    rewrite (releases_fit n t Hf1 h Hp1 Hd1), bind_Done. rewrite (IH _ (S i)).
    + f_equal. rewrite del_app. apply del_ext; [done| |done]. intros k. rewrite !elem_of_app. tauto.
    + by rewrite del_keep.
    + done.
    + done.
    + apply (present_frame h); [done|]. intros a Ha. apply del_keep. intros Ha'. by apply (Hdis a).
    + done.
    + done.
  - rewrite drop_ge in Hps by (by apply lookup_ge_None). by rewrite take_nil in Hps.
Qed.

(** The items parsed so far and their array are released. *)
Lemma release_items_ok h0 h list_ ts slack rest es ns :
  heap_ok h0 -> extends h0 h (items_image list_ ts slack ++ rest) -> says_all says es ts ns ->
  exists h', (let* h := unref_items (Z.to_nat (brk h)) (length ts) 0 h list_ in free h list_) = Done h' /\
    extends h0 h' rest.
Proof.
  intros Hok He Hs.
  assert (Forall (fits (Z.to_nat (brk h))) ts) as Hf.
  { apply Forall_forall. intros t Ht. split.
    - apply (says_all_shaped es ts ns) in Hs; [|apply Forall_forall; intros; by eapply says_shaped].
      rewrite Forall_forall in Hs. by apply Hs.
    - apply list_elem_of_split in Ht as (t1 & t2 & ->).
      apply (depth_below h0 h t ((list_, OPtrs (map root (t1 ++ t :: t2) ++ slack)) ::
        concat (map image t1) ++ concat (map image t2) ++ rest) Hok).
      eapply extends_perm; [exact He|]. unfold items_image. rewrite !map_app, concat_app. cbn [map concat]. solve_Permutation. }
  apply (extends_release (fun h' => let* h' := unref_items (Z.to_nat (brk h)) (length ts) 0 h' list_ in free h' list_)
    h0 h (items_image list_ ts slack)); [done|done|].
  intros h1 Hp Hd. unfold items_image in *. apply Forall_cons in Hp as [[Hz Hc] Hp]. cbn [map fst snd] in *.
  apply NoDup_cons in Hd as [Hn Hd].
  rewrite (unref_items_ok _ _ (map root ts ++ slack) ts h1 0), bind_Done; [|done| |done|done|done|done].
  - rewrite (free_ok _ _ (OPtrs (map root ts ++ slack))); [|done|by rewrite del_keep].
    by rewrite del_app.
  - rewrite drop_0. apply take_app_length'. by rewrite length_map.
Qed.

Lemma parse_item_mem_ok bm b im i :
  binary_spec bm b -> items_spec im i ->
  items_spec (parse_item_mem (bm 0) im)
    (fun es p =>
       let* '(e, p) := b 0 p in
       match e with
       | None => Done (None, p)
       | Some e =>
           if token_eqb (cur p) TOKEN_COMMA then let* p := advance p in i (es ++ [e]) p else Done (Some (es ++ [e]), p)
       end).
Proof.
  intros Hb IH h0 h p0 p list_ ts slack ns lk es Hok He Hs Hc Hl Hst. unfold parse_item_mem.
  destruct (grow_ptrs_ok h0 h list_ ts slack (concat (map image ts) ++ ns ++ lk) Hok He Hc) as (l1 & s1 & h1 & -> & H1 & Hs1).
  cbn [obind]. eapply agrees_bind; [apply (operand_after _ _ Hb h0 h1 p p _ 0 H1), sticky_refl|].
  intros [[r p2] h2] [[e|] q] (E & S2 & Hx); cbn [fst snd] in *; subst q.
  - destruct Hx as (t & n & lk2 & -> & Hr & Hse & H2 & Hl2). cbn [app] in H2.
    destruct (store_ptr_ok h0 h2 l1 ts s1 _ (root t) H2 Hs1) as (h3 & -> & H3). rewrite bind_Done, (proj2 (Z.eqb_neq _ _) Hr).
    assert (extends h0 h3 (items_image l1 (ts ++ [t]) (tail s1) ++ (ns ++ n) ++ lk ++ lk2)) as H4.
    { eapply extends_perm; [exact H3|]. unfold items_image. rewrite !map_app, concat_app.
      cbn [map concat app]. rewrite app_nil_r, <- (app_assoc (map root ts)). cbn [app]. solve_Permutation. }
    pose proof (says_all_snoc says _ _ _ _ _ _ Hs Hse) as Hs'.
    replace (S (length ts)) with (length (ts ++ [t])) by (rewrite length_app; cbn; lia).
    destruct (token_eqb _ _).
    + apply agrees_step. intros p3 S3%advance_sticky.
      replace (length ts + length s1)%nat with (length (ts ++ [t]) + length (tail s1))%nat
        by (rewrite length_app; destruct s1; [done|cbn; lia]).
      apply (IH h0 h3 p0 p3 l1 (ts ++ [t]) (tail s1) (ns ++ n) (lk ++ lk2)); [done|done|done| |leak|stick].
      rewrite length_app. cbn. lia.
    + apply agrees_Done. split; [done|]. split; [cbn [snd]; stick|]. exists l1, (ts ++ [t]), (tail s1), (ns ++ n), (lk ++ lk2).
      split_and!; [cbn [fst snd]; do 3 f_equal|destruct ts; discriminate|done|done|cbn [snd]; leak].
  - destruct Hx as [-> [lk2 H2]]. cbn [app] in H2.
    destruct (store_ptr_ok h0 h2 l1 ts s1 _ 0 H2 Hs1) as (h3 & -> & H3). rewrite bind_Done. cbn [Z.eqb].
    destruct (release_items_ok h0 h3 l1 ts (0 :: tail s1) ((ns ++ lk) ++ lk2) es ns Hok) as (h4 & E4 & H4).
    + eapply extends_perm; [exact H3|]. unfold items_image. solve_Permutation.
    + done.
    + rewrite <- bind_assoc, E4, bind_Done. apply agrees_Done. split; [done|]. split; [cbn [snd]; stick|]. by split; [|eexists].
Qed.

(** *** Literals, columns and signs *)

Definition literal_spec (f : Parser L -> Heap -> outcome (loc * Parser L * Heap))
    (g : Parser L -> outcome (option Expression * Parser L)) : Prop :=
  forall p h, heap_ok h -> agrees (made h p) (f p h) (g p).

(** A node without children, and the next token. *)
Lemma leaf_ok h p hd q t e :
  heap_ok h -> payload_of hd [] = Some q -> blocks hd [] = [] -> (forall l, says e (TNode l hd []) []) ->
  agrees (made h p)
    (let '(expr, h) := make_expr h t q in let* p := advance p in Done (expr, p, h))
    (let* p := advance p in Done (Some e, p)).
Proof.
  intros Hok Hq Hb Hs.
  destruct (node_made h h [] hd [] q t [] [] (extends_refl h Hok) Hq) as [H1 H2]; [by cbn [map]; rewrite Hb|].
  destruct (make_expr h t q) as [expr h1]. cbn [fst snd] in *.
  apply agrees_step. intros p1 S1%advance_sticky. apply agrees_Done.
  by apply (made_some h p p1 h1 (TNode expr hd []) [] []).
Qed.

(** NOT or a sign on what was parsed. *)
Lemma make_unary_ok h p0 p1 op m n :
  sticky p0 p1 -> agrees (made h p1) m n ->
  agrees (made h p0) (let* x := m in make_unary op x)
    (let* '(operand, p) := n in Done (EXPR_UNARY (token_code op) <$> operand, p)).
Proof.
  intros S1 Hm. eapply agrees_bind; [exact Hm|]. intros [[r p2] h2] [[e|] q] (E & S2 & Hx); cbn [fst snd fmap option_fmap option_map] in *; subst q.
  - destruct Hx as (t & ns & lk & -> & Hr & Hs & He & Hl). unfold make_unary. rewrite (proj2 (Z.eqb_neq _ _) Hr).
    destruct (node_made h h2 _ (H_UNARY (token_code op)) [t] _ EXPR_T_UNARY ns lk He eq_refl) as [H1 H2];
      [cbn [map concat blocks app]; solve_Permutation|].
    cbn [map] in H1, H2. destruct (make_expr _ _ _) as [expr h3]. cbn [fst snd] in *. apply agrees_Done.
    apply (made_some h p0 p2 h3 (TNode expr (H_UNARY (token_code op)) [t]) ns lk); [stick|done|done|done|done].
  - destruct Hx as [-> [lk He]]. cbn [make_unary Z.eqb]. eapply agrees_Done, made_null; [stick|eassumption].
Qed.

(** A column name, qualified or not; the name of the table is freed. *)
Lemma column_ok h p :
  heap_ok h ->
  agrees (made h p)
    (let* '(name, p, h) := parse_identifier_mem p h in
     if name =? 0 then Done (0, p, h) else
     if token_eqb (cur p) TOKEN_DOT then
       let* p := advance p in
       let* '(col_name, p, h) := parse_identifier_mem p h in
       if col_name =? 0 then let* h := free h name in Done (0, p, h) else
       let '(expr, h) := make_expr h EXPR_T_COLUMN (P_COLUMN 0 col_name) in
       let* h := free h name in
       Done (expr, p, h)
     else
       let '(expr, h) := make_expr h EXPR_T_COLUMN (P_COLUMN (-1) name) in
       Done (expr, p, h))
    (let* '(name, p) := parse_identifier p in
     match name with
     | None => Done (None, p)
     | Some name =>
         if token_eqb (cur p) TOKEN_DOT then
           let* p := advance p in
           let* '(col_name, p) := parse_identifier p in
           match col_name with
           | None => Done (None, p)
           | Some col_name => Done (Some (EXPR_COLUMN 0 (Some col_name)), p)
           end
         else Done (Some (EXPR_COLUMN (-1) (Some name)), p)
     end).
Proof.
  intros Hok. eapply agrees_bind; [apply (parse_identifier_mem_ok h h p p [] (extends_refl h Hok)), sticky_refl|].
  intros [[name p1] h1] [[s|] q] (E & S1 & Hx); cbn [fst snd] in *; subst q.
  2:{ destruct Hx as [-> He]. eapply agrees_Done, made_null; [stick|exact He]. }
  destruct Hx as [Hn He]. rewrite (proj2 (Z.eqb_neq _ _) Hn). destruct (token_eqb _ _).
  - apply agrees_step. intros p2 S2%advance_sticky.
    eapply agrees_bind; [apply (parse_identifier_mem_ok h h1 p2 p2 _ He), sticky_refl|].
    intros [[col p3] h3] [[c|] q] (E & S3 & Hy); cbn [fst snd] in *; subst q.
    + destruct Hy as [Hc H3]. rewrite (proj2 (Z.eqb_neq _ _) Hc).
      destruct (node_made h h3 _ (H_COLUMN 0 col) [] _ EXPR_T_COLUMN [(col, OBytes (dup c))] [(name, OBytes (dup s))] H3 eq_refl)
        as [H4 H5]; [done|].
      destruct (make_expr _ _ _) as [expr h4]. cbn [fst snd] in *.
      destruct (free_added h h4 name (OBytes (dup s)) _ (image (TNode expr (H_COLUMN 0 col) []) ++ [(col, OBytes (dup c))]) Hok H4)
        as (h5 & -> & H6); [rewrite app_assoc; apply Permutation_app_comm|]. cbn [obind]. apply agrees_Done.
      by apply (made_some h p p3 h5 (TNode expr (H_COLUMN 0 col) []) [(col, OBytes (dup c))] []); first [done|stick].
    + destruct Hy as [-> H3]. cbn [Z.eqb].
      destruct (free_added h h3 name (OBytes (dup s)) _ [] Hok H3 (Permutation_refl _)) as (h4 & -> & H4). cbn [obind]. eapply agrees_Done, made_null; [stick|exact H4].
  - destruct (node_made h h1 _ (H_COLUMN (-1) name) [] _ EXPR_T_COLUMN [(name, OBytes (dup s))] [] He eq_refl) as [H4 H5]; [done|].
    destruct (make_expr _ _ _) as [expr h4]. cbn [fst snd] in *. apply agrees_Done.
    by apply (made_some h p p1 h4 (TNode expr (H_COLUMN (-1) name) []) [(name, OBytes (dup s))] []).
Qed.

Lemma parse_literal_mem_ok fuel :
  binary_spec (parse_binary_expr_mem fuel) (parse_binary_expr fuel) ->
  literal_spec (parse_literal_mem fuel) (parse_literal fuel) ->
  literal_spec (parse_literal_mem (S fuel)) (parse_literal (S fuel)).
Proof.
  intros Hb IH p h Hok. cbn [parse_literal_mem parse_literal].
  destruct (cur p); try (eapply agrees_Done, made_null; [apply sticky_error|by apply extends_refl]).
  all: try match goal with |- agrees _ (match t_value ?c with _ => _ end) _ => destruct (t_value c); try done end.
  - by apply column_ok.
  - by apply (leaf_ok h p (H_INT z)).
  - by apply (leaf_ok h p (H_FLOAT d)).
  - cbn [expr_create alloc]. apply agrees_step. intros p1 S1%advance_sticky. apply agrees_Done.
    eapply (made_some h p p1 _ (TNode (brk h) (H_STRING (brk h + 1) (dup _) _) []) [] []);
      [done|cbn; destruct Hok; lia|done|by apply extends_pair|done].
  - apply agrees_step. intros p1 S1%advance_sticky. eapply make_unary_ok; [exact S1|by apply IH].
  - apply agrees_step. intros p1 S1%advance_sticky. eapply make_unary_ok; [exact S1|by apply IH].
  - cbn [expr_create alloc]. apply agrees_step. intros p1 S1%advance_sticky. apply agrees_Done.
    apply (made_some h p p1 _ (TNode (brk h) H_NULL []) [] []); [done|cbn; destruct Hok; lia|done|by apply extends_alloc|done].
  - apply agrees_step. intros p1 S1%advance_sticky. eapply agrees_bind; [by apply Hb|].
    intros [[r p2] h2] [o q] Hm. pose proof Hm as (E & S2 & Hx); cbn [fst snd] in *; subst q.
    destruct (token_eqb _ _).
    + apply agrees_step. intros p3 S3%advance_sticky. apply agrees_Done. split; [done|]. split; [cbn [snd]; stick|].
      destruct o; [|exact Hx]. destruct Hx as (t & ns & lk & ? & ? & ? & ? & ?). exists t, ns, lk. cbn [fst snd].
      split_and!; [done|done|done|done|leak].
    + apply agrees_Done. split; [done|]. split; [done|].
      destruct o; [|exact Hx]. destruct Hx as (t & ns & lk & ? & ? & ? & ? & ?). by exists t, ns, lk.
Qed.

Lemma parse_unary_not_mem_ok fuel :
  literal_spec (parse_literal_mem fuel) (parse_literal fuel) ->
  literal_spec (parse_unary_not_mem fuel) (parse_unary_not fuel) ->
  literal_spec (parse_unary_not_mem (S fuel)) (parse_unary_not (S fuel)).
Proof.
  intros Hl IH p h Hok. cbn [parse_unary_not_mem parse_unary_not]. destruct (check_keyword _ _); [|by apply Hl].
  apply agrees_step. intros p1 S1%advance_sticky. eapply make_unary_ok; [exact S1|by apply IH].
Qed.

Lemma parse_binary_expr_mem_ok fuel :
  literal_spec (parse_unary_not_mem fuel) (parse_unary_not fuel) ->
  operators_spec (parse_operators_mem fuel) (parse_operators fuel) ->
  binary_spec (parse_binary_expr_mem (S fuel)) (parse_binary_expr (S fuel)).
Proof.
  intros Hn Ho prec p h Hok. cbn [parse_binary_expr_mem parse_binary_expr]. eapply agrees_bind; [by apply Hn|].
  intros [[r p1] h1] [[e|] q] Hm; pose proof Hm as (E & S1 & Hx); cbn [fst snd] in *; subst q.
  - destruct Hx as (t & ns & lk & -> & Hr & Hs & He & Hl). rewrite (proj2 (Z.eqb_neq _ _) Hr). cbn [orb].
    destruct (has_error p1); [by apply agrees_Done|]. by apply (Ho h h1 p p1 t ns lk e).
  - destruct Hx as [-> He]. by apply agrees_Done.
Qed.

Record expression_specs (fuel : nat) : Prop := {
  es_literal : literal_spec (parse_literal_mem fuel) (parse_literal fuel);
  es_not : literal_spec (parse_unary_not_mem fuel) (parse_unary_not fuel);
  es_binary : binary_spec (parse_binary_expr_mem fuel) (parse_binary_expr fuel);
  es_operators : operators_spec (parse_operators_mem fuel) (parse_operators fuel);
  es_items : items_spec (parse_in_items_mem fuel) (parse_in_items fuel) }.

Lemma expression_mem_ok fuel : expression_specs fuel.
Proof.
  induction fuel as [|fuel [H1 H2 H3 H4 H5]]; [by split; repeat intro|]. split.
  - by apply parse_literal_mem_ok.
  - by apply parse_unary_not_mem_ok.
  - by apply parse_binary_expr_mem_ok.
  - intros h0 h p0 p t ns lk e. cbn [parse_operators_mem parse_operators]. by apply parse_operator_mem_ok.
  - by apply (parse_item_mem_ok (parse_binary_expr_mem fuel)).
Qed.
End expressions.

(** ** Theorems *)

(** Parsing an expression is memory safe and its result is owned. On any tokens
    and any heap, the parser with the code's allocations, copies and frees has the
    outcome of the parser on values. Where that returns an expression, the heap
    afterwards is the heap before, the nodes, strings and arrays of exactly that
    expression, the names of its columns and, only after an error, leaked objects;
    expr_unref then frees the nodes, strings and arrays, and not the names. Where it
    returns NULL the objects of the caller are as they were. Nothing is freed twice or
    used after its release. *)
Theorem parse_expression_mem_refines {L} `{TokenSource L} (fuel : nat) (p : Parser L) (h : Heap) :
  heap_ok h ->
  match parse_expression fuel p with
  | Done (Some e, p') =>
      exists t ns lk h' h'', parse_expression_mem fuel p h = Done (root t, p', h') /\ root t <> 0 /\
        says e t ns /\ extends h h' (image t ++ ns ++ lk) /\ (has_error p' = false -> lk = []) /\
        unref h' (root t) = Done h'' /\ extends h h'' (ns ++ lk)
  | Done (None, p') => exists lk h', parse_expression_mem fuel p h = Done (0, p', h') /\ extends h h' lk
  | Undef => parse_expression_mem fuel p h = Undef
  | NoFuel => parse_expression_mem fuel p h = NoFuel
  end.
Proof.
  intros Hok. pose proof (es_binary _ (expression_mem_ok fuel) 0 p h Hok) as Hm. unfold parse_expression, parse_expression_mem.
  destruct (parse_binary_expr fuel 0 p) as [[o p']| |]; [|done..]. destruct Hm as ([[r q] h'] & -> & E & _ & Hx).
  cbn [fst snd] in *. subst q. destruct o as [e|].
  - destruct Hx as (t & ns & lk & -> & Hr & Hs & He & Hl).
    destruct (unref_ok h h' t (ns ++ lk) Hok He (says_shaped _ _ _ Hs)) as (h'' & E & He'').
    exists t, ns, lk, h', h''. by split_and!.
  - destruct Hx as [-> [lk He]]. by exists lk, h'.
Qed.

Lemma parse_expression_mem_refines_witness :
  exists t ns lk h' h'' p',
    parse_expression_mem 40 (parser_of (zstr "t.a = -1 AND b IN (1, 'x', 2, 3, 4)")) no_objects = Done (root t, p', h') /\
    says (EXPR_BINARY (EXPR_COLUMN 0 (Some (zstr "a"))) (token_code TOKEN_EQ)
      (EXPR_BINARY (EXPR_UNARY (token_code TOKEN_MINUS) (EXPR_LITERAL_INT 1)) (token_code TOKEN_AND)
        (EXPR_IN (EXPR_COLUMN (-1) (Some (zstr "b")))
          [EXPR_LITERAL_INT 1; EXPR_LITERAL_STRING (zstr "x"); EXPR_LITERAL_INT 2; EXPR_LITERAL_INT 3; EXPR_LITERAL_INT 4]
          false))) t ns /\
    (has_error p' = false -> lk = []) /\ unref h' (root t) = Done h'' /\ extends no_objects h'' (ns ++ lk).
Proof.
  assert (heap_ok no_objects) as Hok by (split; [reflexivity|intros l _; apply lookup_empty]).
  pose proof (parse_expression_mem_refines 40 (parser_of (zstr "t.a = -1 AND b IN (1, 'x', 2, 3, 4)")) no_objects Hok) as Hm.
  destruct (parse_expression 40 _) as [[o p']| |] eqn:E; vm_compute in E; try discriminate E.
  injection E as <- _. destruct Hm as (t & ns & lk & h' & h'' & H1 & _ & H2 & _ & H3 & H4 & H5).
  exists t, ns, lk, h', h'', p'. repeat (split; [assumption|]). exact H5.
Defined.

(** The left operand of a LIKE, IN or BETWEEN whose other operands fail is not freed;
    an operand of an arithmetic operator is, except for the name of its column. *)
Lemma left_operand_leaked :
  (exists p h, parse_expression_mem 20 (parser_of (zstr "1 LIKE")) no_objects = Done (0, p, h) /\
    has_error p = true /\ size (cells h) = 1%nat) /\
  (exists p h, parse_expression_mem 20 (parser_of (zstr "1 IN (2,")) no_objects = Done (0, p, h) /\
    has_error p = true /\ size (cells h) = 1%nat) /\
  (exists p h, parse_expression_mem 20 (parser_of (zstr "1 BETWEEN 2 3")) no_objects = Done (0, p, h) /\
    has_error p = true /\ size (cells h) = 1%nat) /\
  (exists p h, parse_expression_mem 20 (parser_of (zstr "1 +")) no_objects = Done (0, p, h) /\
    has_error p = true /\ size (cells h) = 0%nat).
Proof. split_and!; eexists _, _; (split; [vm_compute; reflexivity|by split]). Qed.
