(* ===== verification/StatementMem.v ===== *)
(** The memory of src/sql/parser.c, statements: the names, linked lists and nodes that
    the statement parsers allocate, hand over, free or leak, on the heap of [AstMem]
    and with the expressions of [ParserMem]. The flags and types of a statement are
    those of [Parser]: its objects hold what release looks at. *)
From Stdlib Require Import ZArith Lia String.
From stdpp Require Import base numbers option list gmap.
From S2P Require Import Prelude Heaps CString Double Lexer Ast Parser ParserSpec AstMem ParserMem.

Implicit Types h : Heap.

(** ** Linked lists *)

(** node->next = next; *)
Definition set_next (o : Obj) (next : loc) : option Obj :=
  match o with
  | OColumnDef name dflt _ => Some (OColumnDef name dflt next)
  | OColumnList name alias _ => Some (OColumnList name alias next)
  | OValueList values count _ => Some (OValueList values count next)
  | OOrderBy name _ => Some (OOrderBy name next)
  | OSetClause name value _ => Some (OSetClause name value next)
  | OExpr _ _ | OStmt _ _ | OBytes _ | OPtrs _ => None
  end.

(** *tail = node; [tail] is the node whose next field is meant, 0 for the head. *)
Definition link h (head tail node : loc) : outcome (loc * Heap) :=
  if tail =? 0 then Done (node, h) else
  let* o := outcome_of_option (cells h !! tail) in
  let* o := outcome_of_option (set_next o node) in
  Done (head, put h tail o).

(** The column definitions freed on an error: the nodes only. *)
Fixpoint drop_column_defs (n : nat) h (columns : loc) : outcome Heap :=
  if columns =? 0 then Done h else
  match n with
  | O => NoFuel
  | S n =>
      match cells h !! columns with
      | Some (OColumnDef _ _ next) => let* h := free h columns in drop_column_defs n h next
      | _ => Undef
      end
  end.

(** The column list freed on an error: nodes and names, not the aliases. *)
Fixpoint drop_column_list (n : nat) h (list_ : loc) : outcome Heap :=
  if list_ =? 0 then Done h else
  match n with
  | O => NoFuel
  | S n =>
      match cells h !! list_ with
      | Some (OColumnList name _ next) =>
          let* h := free h name in
          let* h := free h list_ in
          drop_column_list n h next
      | _ => Undef
      end
  end.

(** A list is not longer than the addresses given out so far. *)
Definition list_fuel h : nat := Z.to_nat (brk h).

(** A statement created and its fields set. *)
Definition make_stmt h (t : AstNodeType) (s : Stmt) : loc * Heap :=
  let '(node, h) := ast_create h t in (node, put h node (OStmt 1 s)).

(** col->default_value = e; *)
Definition set_default h (col e : loc) : outcome Heap :=
  match cells h !! col with
  | Some (OColumnDef name _ next) => Done (put h col (OColumnDef name e next))
  | _ => Undef
  end.

(** ** The statement parsers *)

Section statement_mem.
Context {L : Type} `{TokenSource L}.
Implicit Types p : Parser L.

Fixpoint parse_constraints_mem (fuel : nat) (col : loc) p h : outcome (Parser L * Heap) :=
  match fuel with
  | O => NoFuel
  | S fuel =>
    if check_keyword p (zstr "NOT") then
      let* p := advance p in
      let* p := advance p in
      parse_constraints_mem fuel col p h
    else if check_keyword p (zstr "PRIMARY") then
      let* p := advance p in
      if check_keyword p (zstr "KEY")
      then let* p := advance p in parse_constraints_mem fuel col p h
      else parse_constraints_mem fuel col p h
    else if check_keyword p (zstr "AUTOINCREMENT") then
      let* p := advance p in
      parse_constraints_mem fuel col p h
    else if check_keyword p (zstr "DEFAULT") then
      let* p := advance p in
      let* '(e, p, h) := parse_expression_mem fuel p h in
      let* h := set_default h col e in
      parse_constraints_mem fuel col p h
    else Done (p, h)
  end.

Definition parse_column_def_mem (fuel : nat) p h : outcome (loc * Parser L * Heap) :=
  let* '(name, p, h) := parse_identifier_mem p h in
  if name =? 0 then Done (0, p, h) else
  let '(col, h) := alloc h (OColumnDef name 0 0) in
  let* '(_, p) := parse_column_type p in
  let* '(p, h) := parse_constraints_mem fuel col p h in
  Done (col, p, h).

(** The result is the list; None: it was freed after an error. *)
Fixpoint parse_column_defs_mem (fuel : nat) (columns tail : loc) p h : outcome (option loc * Parser L * Heap) :=
  match fuel with
  | O => NoFuel
  | S fuel =>
    if negb (token_eqb (cur p) TOKEN_RPAREN) && negb (has_error p) then
      let* '(col, p, h) := parse_column_def_mem fuel p h in
      if col =? 0 then
        let* h := drop_column_defs (list_fuel h) h columns in
        Done (None, p, h)
      else
        let* '(columns, h) := link h columns tail col in
        if token_eqb (cur p) TOKEN_COMMA
        then let* p := advance p in parse_column_defs_mem fuel columns col p h
        else Done (Some columns, p, h)
    else Done (Some columns, p, h)
  end.

Definition parse_create_table_mem (fuel : nat) p h : outcome (loc * Parser L * Heap) :=
  let* '(if_not_exists, p) := parse_if_not_exists p in
  match if_not_exists with
  | None => Done (0, p, h)
  | Some _ =>
    let* '(table_name, p, h) := parse_identifier_mem p h in
    if table_name =? 0 then Done (0, p, h) else
    let* p := expect_token p TOKEN_LPAREN (zstr "Expected '(' after table name") in
    let* '(columns, p, h) := parse_column_defs_mem fuel 0 0 p h in
    match columns with
    | None => let* h := free h table_name in Done (0, p, h)
    | Some columns =>
      let* p := expect_token p TOKEN_RPAREN (zstr "Expected ')' after column definitions") in
      let* p := expect_token p TOKEN_SEMICOLON (zstr "Expected ';' after CREATE TABLE") in
      let '(node, h) := make_stmt h AST_T_CREATE_TABLE (S_CREATE_TABLE table_name columns) in
      Done (node, p, h)
    end
  end.

Definition parse_drop_table_mem p h : outcome (loc * Parser L * Heap) :=
  let* '(if_exists, p) :=
    if token_eqb (cur p) TOKEN_IF then
      let* p := advance p in
      if token_eqb (cur p) TOKEN_EXISTS
      then let* p := advance p in Done (Some true, p)
      else Done (None, parser_set_error p (zstr "Expected EXISTS after IF"))
    else Done (Some false, p) in
  match if_exists with
  | None => Done (0, p, h)
  | Some _ =>
    let* '(table_name, p, h) := parse_identifier_mem p h in
    if table_name =? 0 then Done (0, p, h) else
    let* p := expect_token p TOKEN_SEMICOLON (zstr "Expected ';' after DROP TABLE") in
    let '(node, h) := make_stmt h AST_T_DROP_TABLE (S_DROP_TABLE table_name) in
    Done (node, p, h)
  end.

Definition parse_create_index_mem p h : outcome (loc * Parser L * Heap) :=
  let* '(_, p) :=
    if check_keyword p (zstr "UNIQUE") then let* p := advance p in Done (true, p) else Done (false, p) in
  let* '(index_name, p, h) := parse_identifier_mem p h in
  if index_name =? 0 then Done (0, p, h) else
  if negb (check_keyword p (zstr "ON")) then
    let p := parser_set_error p (zstr "Expected ON in CREATE INDEX") in
    let* h := free h index_name in
    Done (0, p, h)
  else
  let* p := advance p in
  let* '(table_name, p, h) := parse_identifier_mem p h in
  if table_name =? 0 then let* h := free h index_name in Done (0, p, h) else
  let* p := expect_token p TOKEN_LPAREN (zstr "Expected '(' in CREATE INDEX") in
  let* '(column_name, p, h) := parse_identifier_mem p h in
  if column_name =? 0 then
    let* h := free h index_name in
    let* h := free h table_name in
    Done (0, p, h)
  else
  let* p := expect_token p TOKEN_RPAREN (zstr "Expected ')' after column name") in
  let* p := expect_token p TOKEN_SEMICOLON (zstr "Expected ';' after CREATE INDEX") in
  let '(node, h) := make_stmt h AST_T_CREATE_INDEX (S_CREATE_INDEX index_name table_name column_name) in
  Done (node, p, h).

Definition parse_drop_index_mem p h : outcome (loc * Parser L * Heap) :=
  let* '(index_name, p, h) := parse_identifier_mem p h in
  if index_name =? 0 then Done (0, p, h) else
  let* p := expect_token p TOKEN_SEMICOLON (zstr "Expected ';' after DROP INDEX") in
  let '(node, h) := make_stmt h AST_T_DROP_INDEX (S_DROP_INDEX index_name) in
  Done (node, p, h).

(** The result is the array and its length; None: it was freed after an error. *)
Fixpoint parse_expressions_mem (fuel : nat) (exprs : loc) (n capacity : nat) p h
    : outcome (option (loc * nat) * Parser L * Heap) :=
  match fuel with
  | O => NoFuel
  | S fuel => parse_item_mem (parse_expression_mem fuel) (parse_expressions_mem fuel) exprs n capacity p h
  end.

Definition parse_expression_list_mem (fuel : nat) p h : outcome (option (loc * nat) * Parser L * Heap) :=
  if token_eqb (cur p) TOKEN_RPAREN then Done (None, p, h) else
  let '(exprs, h) := alloc h (OPtrs (replicate 4 0)) in
  parse_expressions_mem fuel exprs 0 4 p h.

(** On an error the columns so far are not freed. *)
Fixpoint parse_insert_columns_mem (fuel : nat) (columns tail : loc) p h : outcome (option loc * Parser L * Heap) :=
  match fuel with
  | O => NoFuel
  | S fuel =>
    if negb (token_eqb (cur p) TOKEN_RPAREN) && negb (has_error p) then
      let* '(col_name, p, h) := parse_identifier_mem p h in
      if col_name =? 0 then Done (None, p, h) else
      let '(col, h) := alloc h (OColumnList col_name 0 0) in
      let* '(columns, h) := link h columns tail col in
      if token_eqb (cur p) TOKEN_COMMA
      then let* p := advance p in parse_insert_columns_mem fuel columns col p h
      else Done (Some columns, p, h)
    else Done (Some columns, p, h)
  end.

(** Nor are the rows so far. *)
Fixpoint parse_insert_values_mem (fuel : nat) (values tail : loc) p h : outcome (option loc * Parser L * Heap) :=
  match fuel with
  | O => NoFuel
  | S fuel =>
    if negb (has_error p) then
      let* p := expect_token p TOKEN_LPAREN (zstr "Expected '(' before VALUES") in
      let* '(exprs, p, h) := parse_expression_list_mem fuel p h in
      match exprs with
      | None => Done (None, p, h)
      | Some (exprs, count) =>
          let '(vl, h) := alloc h (OValueList exprs count 0) in
          let* '(values, h) := link h values tail vl in
          let* p := expect_token p TOKEN_RPAREN (zstr "Expected ')' after VALUES") in
          if token_eqb (cur p) TOKEN_COMMA
          then let* p := advance p in parse_insert_values_mem fuel values vl p h
          else Done (Some values, p, h)
      end
    else Done (Some values, p, h)
  end.

Definition parse_insert_mem (fuel : nat) p h : outcome (loc * Parser L * Heap) :=
  let* p := advance p in
  let* p := expect_keyword p (zstr "INTO") (zstr "Expected INTO after INSERT") in
  let* '(table_name, p, h) := parse_identifier_mem p h in
  if table_name =? 0 then Done (0, p, h) else
  let* '(columns, p, h) :=
    if token_eqb (cur p) TOKEN_LPAREN then
      let* p := advance p in
      let* '(columns, p, h) := parse_insert_columns_mem fuel 0 0 p h in
      match columns with
      | None => Done (None, p, h)
      | Some columns =>
          let* p := expect_token p TOKEN_RPAREN (zstr "Expected ')' after column list") in
          Done (Some columns, p, h)
      end
    else Done (Some 0, p, h) in
  match columns with
  | None => let* h := free h table_name in Done (0, p, h)
  | Some columns =>
    let* p := expect_keyword p (zstr "VALUES") (zstr "Expected VALUES after INSERT") in
    let* '(values, p, h) := parse_insert_values_mem fuel 0 0 p h in
    match values with
    | None => let* h := free h table_name in Done (0, p, h)
    | Some values =>
      let* p := expect_token p TOKEN_SEMICOLON (zstr "Expected ';' after INSERT") in
      let '(node, h) := make_stmt h AST_T_INSERT (S_INSERT table_name columns values) in
      Done (node, p, h)
    end
  end.

Fixpoint parse_set_clauses_mem (fuel : nat) (clauses tail : loc) p h : outcome (option loc * Parser L * Heap) :=
  match fuel with
  | O => NoFuel
  | S fuel =>
    if negb (has_error p) then
      let* '(col_name, p, h) := parse_identifier_mem p h in
      if col_name =? 0 then Done (None, p, h) else
      let* p := expect_token p TOKEN_EQ (zstr "Expected '=' in SET clause") in
      let* '(value, p, h) := parse_expression_mem fuel p h in
      if value =? 0 then let* h := free h col_name in Done (None, p, h) else
      let '(sc, h) := alloc h (OSetClause col_name value 0) in
      let* '(clauses, h) := link h clauses tail sc in
      if token_eqb (cur p) TOKEN_COMMA
      then let* p := advance p in parse_set_clauses_mem fuel clauses sc p h
      else Done (Some clauses, p, h)
    else Done (Some clauses, p, h)
  end.

Definition parse_required_where_mem (fuel : nat) p h (msg : list Z) : outcome (loc * Parser L * Heap) :=
  if check_keyword p (zstr "WHERE")
  then let* p := advance p in parse_expression_mem fuel p h
  else Done (0, parser_set_error p msg, h).

Definition parse_update_mem (fuel : nat) p h : outcome (loc * Parser L * Heap) :=
  let* p := advance p in
  let* '(table_name, p, h) := parse_identifier_mem p h in
  if table_name =? 0 then Done (0, p, h) else
  let* p := expect_keyword p (zstr "SET") (zstr "Expected SET after UPDATE table name") in
  let* '(clauses, p, h) := parse_set_clauses_mem fuel 0 0 p h in
  match clauses with
  | None => let* h := free h table_name in Done (0, p, h)
  | Some clauses =>
    let* '(where_, p, h) := parse_required_where_mem fuel p h (zstr "UPDATE requires WHERE clause") in
    if where_ =? 0 then let* h := free h table_name in Done (0, p, h) else
    let* p := expect_token p TOKEN_SEMICOLON (zstr "Expected ';' after UPDATE") in
    let '(node, h) := make_stmt h AST_T_UPDATE (S_UPDATE table_name clauses where_) in
    Done (node, p, h)
  end.

Definition parse_delete_mem (fuel : nat) p h : outcome (loc * Parser L * Heap) :=
  let* p := advance p in
  let* p := expect_keyword p (zstr "FROM") (zstr "Expected FROM after DELETE") in
  let* '(table_name, p, h) := parse_identifier_mem p h in
  if table_name =? 0 then Done (0, p, h) else
  let* '(where_, p, h) := parse_required_where_mem fuel p h (zstr "DELETE requires WHERE clause") in
  if where_ =? 0 then let* h := free h table_name in Done (0, p, h) else
  let* p := expect_token p TOKEN_SEMICOLON (zstr "Expected ';' after DELETE") in
  let '(node, h) := make_stmt h AST_T_DELETE (S_DELETE table_name where_) in
  Done (node, p, h).

(** AS alias: col->alias, or nothing after an error. *)
Definition parse_alias_mem p h : outcome (loc * Parser L * Heap) :=
  if check_keyword p (zstr "AS") || token_eqb (cur p) TOKEN_AS
  then let* p := advance p in parse_identifier_mem p h
  else Done (0, p, h).

Fixpoint parse_column_list_mem (fuel : nat) (list_ tail : loc) p h : outcome (option loc * Parser L * Heap) :=
  match fuel with
  | O => NoFuel
  | S fuel =>
    if token_eqb (cur p) TOKEN_STAR then
      let '(col, h) := alloc h (OColumnList 0 0 0) in
      let '(name, h) := alloc h (OBytes (dup (zstr "*"))) in
      let h := put h col (OColumnList name 0 0) in
      let* '(list_, h) := link h list_ tail col in
      let* p := advance p in
      Done (Some list_, p, h)
    else
      let* '(name, p, h) := parse_identifier_mem p h in
      if name =? 0 then
        let* h := drop_column_list (list_fuel h) h list_ in
        Done (None, p, h)
      else
      let '(col, h) := alloc h (OColumnList name 0 0) in
      let* '(alias, p, h) := parse_alias_mem p h in
      let h := if alias =? 0 then h else put h col (OColumnList name alias 0) in
      let* '(list_, h) := link h list_ tail col in
      if token_eqb (cur p) TOKEN_COMMA
      then let* p := advance p in parse_column_list_mem fuel list_ col p h
      else Done (Some list_, p, h)
  end.

(** On an error the items so far are not freed. *)
Fixpoint parse_order_by_loop_mem (fuel : nat) (list_ tail : loc) p h : outcome (option loc * Parser L * Heap) :=
  match fuel with
  | O => NoFuel
  | S fuel =>
    if negb (has_error p) then
      let* '(name, p, h) := parse_identifier_mem p h in
      if name =? 0 then Done (None, p, h) else
      let* '(_, p) :=
        if check_keyword p (zstr "DESC") then let* p := advance p in Done (true, p)
        else if check_keyword p (zstr "ASC") then let* p := advance p in Done (false, p)
        else Done (false, p) in
      let '(item, h) := alloc h (OOrderBy name 0) in
      let* '(list_, h) := link h list_ tail item in
      if token_eqb (cur p) TOKEN_COMMA
      then let* p := advance p in parse_order_by_loop_mem fuel list_ item p h
      else Done (Some list_, p, h)
    else Done (Some list_, p, h)
  end.

(** NULL after an error, and for the empty list. *)
Definition parse_order_by_mem (fuel : nat) p h : outcome (loc * Parser L * Heap) :=
  let* '(list_, p, h) := parse_order_by_loop_mem fuel 0 0 p h in
  Done (default 0 list_, p, h).

(** An optional clause: None after a failed expression, [Some 0] without the keyword. *)
Definition parse_optional_expr_mem (fuel : nat) p h (kw : list Z) : outcome (option loc * Parser L * Heap) :=
  if check_keyword p kw then
    let* p := advance p in
    let* '(e, p, h) := parse_expression_mem fuel p h in
    Done (if e =? 0 then None else Some e, p, h)
  else Done (Some 0, p, h).

Definition parse_optional_order_by_mem (fuel : nat) p h : outcome (option loc * Parser L * Heap) :=
  if check_keyword p (zstr "ORDER") then
    let* p := advance p in
    if check_keyword p (zstr "BY") then
      let* p := advance p in
      let* '(order_by, p, h) := parse_order_by_mem fuel p h in
      Done (if order_by =? 0 then None else Some order_by, p, h)
    else Done (Some 0, p, h)
  else Done (Some 0, p, h).

(** On an error the columns, and the clauses so far, are not freed. *)
Definition parse_select_mem (fuel : nat) p h : outcome (loc * Parser L * Heap) :=
  let* p := advance p in
  let* '(_, p) :=
    if check_keyword p (zstr "DISTINCT")
    then let* p := advance p in Done (true, p) else Done (false, p) in
  let* '(columns, p, h) := parse_column_list_mem fuel 0 0 p h in
  match columns with
  | None => Done (0, p, h)
  | Some columns =>
    if negb (token_eqb (cur p) TOKEN_FROM)
    then Done (0, parser_set_error p (zstr "Expected FROM after SELECT columns"), h) else
    let* p := advance p in
    let* '(table_name, p, h) := parse_identifier_mem p h in
    if table_name =? 0 then Done (0, p, h) else
    let* '(where_, p, h) := parse_optional_expr_mem fuel p h (zstr "WHERE") in
    match where_ with
    | None => let* h := free h table_name in Done (0, p, h)
    | Some where_ =>
      let* '(order_by, p, h) := parse_optional_order_by_mem fuel p h in
      match order_by with
      | None => let* h := free h table_name in Done (0, p, h)
      | Some order_by =>
        let* '(limit, p, h) := parse_optional_expr_mem fuel p h (zstr "LIMIT") in
        match limit with
        | None => let* h := free h table_name in Done (0, p, h)
        | Some limit =>
          let* '(offset, p, h) := parse_optional_expr_mem fuel p h (zstr "OFFSET") in
          match offset with
          | None => let* h := free h table_name in Done (0, p, h)
          | Some offset =>
            let* p := expect_token p TOKEN_SEMICOLON (zstr "Expected ';' after SELECT") in
            let '(node, h) :=
              make_stmt h AST_T_SELECT (S_SELECT columns table_name 0 where_ order_by limit offset) in
            Done (node, p, h)
          end
        end
      end
    end
  end.

Definition parse_transaction_mem p h : outcome (loc * Parser L * Heap) :=
  let tx_type :=
    match cur p with
    | TOKEN_BEGIN => Some TX_BEGIN
    | TOKEN_COMMIT => Some TX_COMMIT
    | TOKEN_ROLLBACK => Some TX_ROLLBACK
    | _ => None
    end in
  match tx_type with
  | None => Done (0, parser_set_error p (zstr "Invalid transaction statement"), h)
  | Some tx_type =>
    let* p := advance p in
    let* p := if (match tx_type with TX_BEGIN => true | _ => false end) && check_keyword p (zstr "TRANSACTION")
              then advance p else Done p in
    let* p := expect_token p TOKEN_SEMICOLON (zstr "Expected ';' after transaction statement") in
    let '(node, h) := make_stmt h AST_T_TRANSACTION S_TRANSACTION in
    Done (node, p, h)
  end.

Definition parse_statement_mem (fuel : nat) p h : outcome (loc * Parser L * Heap) :=
  match cur p with
  | TOKEN_CREATE =>
      let* p := advance p in
      if token_eqb (cur p) TOKEN_TABLE then let* p := advance p in parse_create_table_mem fuel p h
      else if token_eqb (cur p) TOKEN_INDEX then let* p := advance p in parse_create_index_mem p h
      else Done (0, parser_set_error p (zstr "Expected TABLE or INDEX after CREATE"), h)
  | TOKEN_DROP =>
      let* p := advance p in
      if token_eqb (cur p) TOKEN_TABLE then let* p := advance p in parse_drop_table_mem p h
      else if token_eqb (cur p) TOKEN_INDEX then let* p := advance p in parse_drop_index_mem p h
      else Done (0, parser_set_error p (zstr "Expected TABLE or INDEX after DROP"), h)
  | TOKEN_INSERT => parse_insert_mem fuel p h
  | TOKEN_UPDATE => parse_update_mem fuel p h
  | TOKEN_DELETE => parse_delete_mem fuel p h
  | TOKEN_SELECT => parse_select_mem fuel p h
  | TOKEN_BEGIN | TOKEN_COMMIT | TOKEN_ROLLBACK => parse_transaction_mem p h
  | _ => Done (0, parser_set_error p (zstr "Unexpected token at start of statement"), h)
  end.

Definition parser_parse_mem (fuel : nat) p h : outcome (loc * Parser L * Heap) :=
  if has_error p then Done (0, p, h) else parse_statement_mem fuel p h.
End statement_mem.

(** parser_free_ast: ast_free, whatever the reference count. *)
Definition parser_free_ast_mem h (node : loc) : outcome Heap := ast_free (list_fuel h) (list_fuel h) h node.

(** ** What a statement in memory says *)

(** A name, an optional name, an optional expression. *)
Definition says_str (s : list Z) (x : Str) : Prop := exists l, x = Some (l, dup s).
Definition says_opt_str (o : option (list Z)) (x : Str) : Prop :=
  match o with Some s => says_str s x | None => x = None end.
Definition says_opt (o : option Expression) (t : Tree) (ns : list (loc * Obj)) : Prop :=
  match o with Some e => says e t ns | None => t = TNull /\ ns = [] end.

Definition says_column_def (c : ColumnDef) (x : loc * Str * Tree) (ns : list (loc * Obj)) : Prop :=
  says_str (cd_name c) (snd (fst x)) /\ says_opt (cd_default c) (snd x) ns.
Definition says_column (c : ColumnList) (x : loc * Str * Str) : Prop :=
  says_str (cl_name c) (snd (fst x)) /\ says_opt_str (cl_alias c) (snd x).
Definition says_row (r : ValueList) (x : loc * loc * list Tree * list loc) (ns : list (loc * Obj)) : Prop :=
  says_all says r (snd (fst x)) ns.
Definition says_order (o : OrderByItem) (x : loc * Str) : Prop := says_str (ob_column o) (snd x).
Definition says_set (c : SetClause) (x : loc * Str * Tree) (ns : list (loc * Obj)) : Prop :=
  says_str (sc_column c) (snd (fst x)) /\ says (sc_value c) (snd x) ns.

(** The statement [s] is [m]; [ns] are the column names of its expressions. *)
Definition says_stmt (s : AstNode) (m : StmtMem) (ns : list (loc * Obj)) : Prop :=
  match s, m with
  | AST_CREATE_TABLE t _ cols, M_CREATE_TABLE t' cols' => says_str t t' /\ says_all says_column_def cols cols' ns
  | AST_DROP_TABLE t _, M_DROP_TABLE t' => says_str t t' /\ ns = []
  | AST_CREATE_INDEX i t c _, M_CREATE_INDEX i' t' c' => says_str i i' /\ says_str t t' /\ says_str c c' /\ ns = []
  | AST_DROP_INDEX i, M_DROP_INDEX i' => says_str i i' /\ ns = []
  | AST_INSERT t cols rows, M_INSERT t' cols' rows' =>
      says_str t t' /\ Forall2 says_column cols cols' /\ says_all says_row rows rows' ns
  | AST_UPDATE t sets w, M_UPDATE t' sets' w' =>
      says_str t t' /\ exists n1 n2, ns = n1 ++ n2 /\ says_all says_set sets sets' n1 /\ says w w' n2
  | AST_DELETE t w, M_DELETE t' w' => says_str t t' /\ says w w' ns
  | AST_SELECT cols _ t w ob l o, M_SELECT cols' t' a' w' ob' l' o' =>
      Forall2 says_column cols cols' /\ says_str t t' /\ a' = None /\ Forall2 says_order ob ob' /\
      exists n1 n2 n3, ns = n1 ++ n2 ++ n3 /\ says_opt w w' n1 /\ says_opt l l' n2 /\ says_opt o o' n3
  | AST_TRANSACTION _, M_TRANSACTION => ns = []
  | _, _ => False
  end.

(** ** Chains *)

(** The five kinds of lists: where a node is, the node for its successor, and what
    hangs on it. [end_] is the next field of the last node. *)
Section chain.
Context {A : Type} (at_ : A -> loc) (node : A -> loc -> Obj) (own : A -> list (loc * Obj)).

Fixpoint chain_to (l : list A) (end_ : loc) : list (loc * Obj) :=
  match l with
  | [] => []
  | x :: l => (at_ x, node x (match l with [] => end_ | y :: _ => at_ y end)) :: own x ++ chain_to l end_
  end.

Definition chain (l : list A) : list (loc * Obj) := chain_to l 0.
Definition tail_loc (l : list A) : loc := from_option at_ 0 (last l).

Lemma chain_to_snoc l x e : chain_to (l ++ [x]) e ≡ₚ (at_ x, node x e) :: own x ++ chain_to l (at_ x).
Proof.
  induction l as [|y l IH]; cbn [app chain_to]; [by rewrite app_nil_r|]. rewrite IH.
  replace (match l ++ [x] with [] => e | z :: _ => at_ z end) with (match l with [] => at_ x | z :: _ => at_ z end)
    by (by destruct l). solve_Permutation.
Qed.

Lemma head_snoc l x : head_loc at_ (l ++ [x]) = match l with [] => at_ x | y :: _ => at_ y end.
Proof. by destruct l. Qed.

Hypothesis node_next : forall x n n', set_next (node x n) n' = Some (node x n').

(** A new node is linked to the end of the list. *)
Lemma link_ok h0 h l x rest :
  extends h0 h (chain l ++ (at_ x, node x 0) :: own x ++ rest) ->
  exists h', link h (head_loc at_ l) (tail_loc l) (at_ x) = Done (head_loc at_ (l ++ [x]), h') /\
    extends h0 h' (chain (l ++ [x]) ++ rest).
Proof.
  intros He. unfold link, tail_loc, chain in *. rewrite head_snoc. destruct l as [|y l' _] using rev_ind.
  { exists h. split; [done|]. cbn [app chain_to] in *. eapply extends_perm; [exact He|]. solve_Permutation. }
  rewrite last_snoc. cbn [from_option]. rewrite chain_to_snoc in He. cbn [app] in He.
  pose proof (Forall_inv (ex_present _ _ _ He)) as [Hz Hc]. cbn [fst snd] in Hz, Hc.
  rewrite (proj2 (Z.eqb_neq _ _) Hz), Hc. cbn [outcome_of_option]. rewrite bind_Done, node_next.
  cbn [outcome_of_option]. rewrite bind_Done. eexists. split; [by destruct l'|].
  eapply extends_perm; [eapply extends_put, He|].
  rewrite (chain_to_snoc (l' ++ [y]) x), (chain_to_snoc l' y). solve_Permutation.
Qed.
End chain.

Section chains.
Context {A : Type} (at_ : A -> loc) (node : A -> loc -> Obj) (own : A -> list (loc * Obj)).
Context (node_next : forall x n n', set_next (node x n) n' = Some (node x n')).

Lemma tail_snoc l x : tail_loc at_ (l ++ [x]) = at_ x.
Proof. unfold tail_loc. by rewrite last_snoc. Qed.

(** A node is allocated and linked. *)
Lemma append_node_ok h0 h l x rest :
  extends h0 h (chain at_ node own l ++ own x ++ rest) -> at_ x = brk h ->
  exists h', link (snd (alloc h (node x 0))) (head_loc at_ l) (tail_loc at_ l) (brk h) =
      Done (head_loc at_ (l ++ [x]), h') /\
    extends h0 h' (chain at_ node own (l ++ [x]) ++ rest).
Proof.
  intros He Hx. pose proof (extends_trans _ _ _ _ _ He (extends_alloc h (node x 0) (ex_ok _ _ _ He))) as H1.
  rewrite <- Hx in H1 |- *. apply link_ok; [done|]. eapply extends_perm; [exact H1|]. solve_Permutation.
Qed.

Lemma chain_length l : (length l <= length (chain at_ node own l))%nat.
Proof.
  unfold chain. induction l as [|x l IH]; [done|]. cbn [chain_to length]. rewrite length_app. lia.
Qed.

Lemma list_below h0 h l rest :
  heap_ok h0 -> extends h0 h (chain at_ node own l ++ rest) -> (length l <= list_fuel h)%nat.
Proof. intros Hok He. etrans; [apply chain_length|]. by eapply added_below. Qed.
End chains.

(** The five lists as chains. *)
Definition defs_chain := chain (fun x : loc * Str * Tree => fst (fst x))
  (fun x next => OColumnDef (str_loc (snd (fst x))) (root (snd x)) next)
  (fun x => str_image (snd (fst x)) ++ image (snd x)).
Definition columns_chain := chain (fun x : loc * Str * Str => fst (fst x))
  (fun x next => OColumnList (str_loc (snd (fst x))) (str_loc (snd x)) next)
  (fun x => str_image (snd (fst x)) ++ str_image (snd x)).
Definition rows_chain := chain (fun x : loc * loc * list Tree * list loc => fst (fst (fst x)))
  (fun x next => OValueList (snd (fst (fst x))) (length (snd (fst x))) next)
  (fun x => concat (map image (snd (fst x))) ++ [(snd (fst (fst x)), OPtrs (map root (snd (fst x)) ++ snd x))]).
Definition orders_chain := chain (@fst loc Str) (fun x next => OOrderBy (str_loc (snd x)) next)
  (fun x => str_image (snd x)).
Definition sets_chain := chain (fun x : loc * Str * Tree => fst (fst x))
  (fun x next => OSetClause (str_loc (snd (fst x))) (root (snd x)) next)
  (fun x => str_image (snd (fst x)) ++ image (snd x)).

Ltac chain_image l :=
  unfold chain; induction l as [|x l IH]; [done|];
  repeat match goal with x : _ * _ |- _ => destruct x end;
  cbn [chain_to fst snd]; rewrite <- IH, <- ?app_assoc; by destruct l.

Lemma defs_image l : col_defs_image l = defs_chain l.
Proof. unfold defs_chain. chain_image l. Qed.
Lemma columns_image l : col_lists_image l = columns_chain l.
Proof. unfold columns_chain. chain_image l. Qed.
Lemma rows_image l : val_lists_image l = rows_chain l.
Proof. unfold rows_chain. chain_image l. Qed.
Lemma orders_image_chain l : orders_image l = orders_chain l.
Proof. unfold orders_chain. chain_image l. Qed.
Lemma sets_image_chain l : sets_image l = sets_chain l.
Proof. unfold sets_chain. chain_image l. Qed.

(** ** Results *)

Section results.
Context {L : Type} `{TokenSource L}.
Implicit Types p : Parser L.

(** A parse function called when [img] had been added to [h0]: its result is [Q] with
    objects of its own, and objects leaked on the way to an error; or [null]. *)
Definition yields {A B} (null : A) (Q : A -> B -> list (loc * Obj) -> Prop) h0 p0 img
    (x : A * Parser L * Heap) (y : option B * Parser L) : Prop :=
  snd (fst x) = snd y /\ sticky p0 (snd y) /\
  match fst y with
  | None => fst (fst x) = null /\ exists lk, extends h0 (snd x) (img ++ lk)
  | Some b => exists own lk, Q (fst (fst x)) b own /\ extends h0 (snd x) (img ++ own ++ lk) /\ leak_ok (snd y) lk
  end.

Definition parses {A B} (null : A) Q (f : Parser L -> Heap -> outcome (A * Parser L * Heap))
    (g : Parser L -> outcome (option B * Parser L)) : Prop :=
  forall p h, heap_ok h -> agrees (yields null Q h p []) (f p h) (g p).

Lemma yields_after {A B} (null : A) Q f (g : Parser L -> outcome (option B * Parser L)) h0 h p0 p img :
  parses null Q f g -> extends h0 h img -> sticky p0 p -> agrees (yields null Q h0 p0 img) (f p h) (g p).
Proof.
  intros Hf He Hs. pose proof (Hf p h (ex_ok _ _ _ He)) as Hm. destruct (g p) as [y| |]; [|done..].
  destruct Hm as (x & -> & E & Hst & Hx). apply agrees_Done. split; [done|]. split; [by eapply sticky_trans|].
  destruct (fst y); [destruct Hx as (own & lk & HQ & H1 & Hl); exists own, lk|destruct Hx as (E1 & lk & H1)].
  - split; [done|]. split; [|done]. by eapply extends_trans.
  - split; [done|]. exists lk. by eapply extends_trans.
Qed.

Lemma failed {A B} (null : A) Q h0 p0 p h img :
  sticky p0 p -> extends h0 h img -> agrees (yields null Q h0 p0 []) (Done (null, p, h)) (Done (@None B, p)).
Proof. intros Hs He. apply agrees_Done. split; [done|]. split; [done|]. split; [done|]. by exists img. Qed.

Lemma succeeded {A B} (null : A) Q h0 p0 p h img own lk a (b : B) :
  sticky p0 p -> extends h0 h img -> Q a b own -> img ≡ₚ own ++ lk -> leak_ok p lk ->
  agrees (yields null Q h0 p0 []) (Done (a, p, h)) (Done (Some b, p)).
Proof.
  intros Hs He HQ Hi Hl. apply agrees_Done. split; [done|]. split; [done|]. exists own, lk.
  split; [done|]. split; [|done]. cbn [snd app]. by rewrite <- Hi.
Qed.

Definition is_name (a : loc) (s : list Z) (own : list (loc * Obj)) : Prop := a <> 0 /\ own = [(a, OBytes (dup s))].
Definition is_expr (a : loc) (e : Expression) (own : list (loc * Obj)) : Prop :=
  exists t ns, a = root t /\ root t <> 0 /\ says e t ns /\ own = image t ++ ns.

Lemma identifier_parses : parses 0 is_name parse_identifier_mem parse_identifier.
Proof.
  intros p h Hok. pose proof (parse_identifier_mem_ok h h p p [] (extends_refl h Hok) (sticky_refl p)) as Hm.
  destruct (parse_identifier p) as [[[s|] q]| |]; [| |done..];
    destruct Hm as (x & -> & E & Hs & Hx); apply agrees_Done; (split; [done|]); (split; [done|]); cbn [fst snd app] in *.
  - destruct Hx as [Hn Hx]. exists [(fst (fst x), OBytes (dup s))], []. by rewrite app_nil_r.
  - destruct Hx as [Hn Hx]. split; [done|]. by exists [].
Qed.

Lemma expression_parses fuel : parses 0 is_expr (parse_expression_mem fuel) (parse_expression fuel).
Proof.
  intros p h Hok. pose proof (es_binary _ (expression_mem_ok fuel) 0 p h Hok) as Hm. unfold parse_expression, parse_expression_mem.
  destruct (parse_binary_expr fuel 0 p) as [[[e|] q]| |]; [| |done..];
    destruct Hm as (x & -> & E & Hs & Hx); apply agrees_Done; (split; [done|]); (split; [done|]); cbn [fst snd app] in *.
  - destruct Hx as (t & ns & lk & E1 & Hr & Hsay & He & Hl). exists (image t ++ ns), lk. rewrite <- app_assoc.
    split; [|done]. by exists t, ns.
  - exact Hx.
Qed.

(** *** Statements *)

Definition create_table (s : AstNode) : bool := match s with AST_CREATE_TABLE _ _ _ => true | _ => false end.

(** A node with the statement; a CREATE TABLE may have leaked default values. *)
Definition is_stmt (a : loc) (s : AstNode) (own : list (loc * Obj)) : Prop :=
  a <> 0 /\ exists m ns junk, says_stmt s m ns /\ own = stmt_objects a m ++ ns ++ junk /\
    (create_table s = false -> junk = []).

(** The end of a statement parser. *)
Lemma statement_made h0 p0 p h img t s m ns junk lk :
  extends h0 h img -> sticky p0 p -> says_stmt s m ns -> img ≡ₚ stmt_image m ++ ns ++ junk ++ lk ->
  (create_table s = false -> junk = []) -> leak_ok p lk ->
  agrees (yields 0 is_stmt h0 p0 [])
    (let '(node, h) := make_stmt h t (stmt_of m) in Done (node, p, h)) (Done (Some s, p)).
Proof.
  intros He Hs Hsay Hi Hj Hl. unfold make_stmt, ast_create. cbn [alloc].
  pose proof (extends_trans _ _ _ _ _ He (extends_alloc h (OStmt 1 (zero_stmt t)) (ex_ok _ _ _ He))) as H1.
  rewrite Permutation_app_comm in H1. cbn [app] in H1. apply (extends_put _ _ _ _ (OStmt 1 (stmt_of m))) in H1.
  eapply (succeeded 0 is_stmt h0 p0 p _ _ (stmt_objects (brk h) m ++ ns ++ junk) lk); [done|exact H1| | |done].
  - split; [pose proof (proj1 (ex_ok _ _ _ He)); lia|]. by exists m, ns, junk.
  - rewrite Hi. unfold stmt_objects. cbn [app]. by rewrite <- !app_assoc.
Qed.
End results.

(** A parse function is called: what it gives, behind what had been added. *)
Ltac call Hf :=
  match goal with
  | He : extends ?h0 ?h _ |- agrees _ (obind ?m _) (obind _ _) =>
      match m with context [h] => eapply agrees_bind; [eapply (yields_after _ _ _ _ h0 h _ _ _ Hf He), sticky_refl|] end
  end;
  let r := fresh "r" in let p' := fresh "p" in let h' := fresh "h" in let b := fresh "b" in let q := fresh "q" in
  let own := fresh "own" in let lk := fresh "lk" in let HQ := fresh "HQ" in
  intros [[r p'] h'] [[b|] q] (? & ? & ?); cbn [fst snd] in *; subst q;
  match goal with
  | Hx : exists own lk, _ |- _ => destruct Hx as (own & lk & HQ & ? & ?)
  | Hx : _ /\ _ |- _ => destruct Hx as [-> [lk ?]]
  end.

(** A name, or NULL. *)
Ltac call_name :=
  call (@identifier_parses _ _); [|change (0 =? 0) with true; cbv iota];
  [match goal with HQ : is_name ?r _ _ |- _ =>
     let Hz := fresh "Hz" in destruct HQ as [Hz ->]; rewrite (proj2 (Z.eqb_neq r 0) Hz) end|].

Ltac call_expr :=
  match goal with |- agrees _ (obind (parse_expression_mem ?fuel _ _) _) _ => call (expression_parses fuel) end;
  [|change (0 =? 0) with true; cbv iota];
  [match goal with HQ : is_expr ?r _ _ |- _ =>
     let t := fresh "t" in let ns := fresh "ns" in let Hz := fresh "Hz" in
     destruct HQ as (t & ns & -> & Hz & ? & ->); rewrite (proj2 (Z.eqb_neq _ 0) Hz) end|].

(** A step on the tokens that only moves on. *)
Ltac step :=
  apply agrees_step; let p := fresh "p" in let S := fresh "S" in
  intros p S; first [apply advance_sticky in S|apply expect_token_sticky in S|apply expect_keyword_sticky in S].

(** An error: what is there is left. *)
Ltac give_null := eapply failed; [stick|eassumption].

(** free of one of the new blocks. *)
Ltac drop l rest :=
  match goal with
  | He : extends ?h0 ?h ?img, Hok : heap_ok ?h0 |- context [free ?h l] =>
      match img with context [(l, ?o)] =>
        let h' := fresh "h" in
        destruct (free_added h0 h l o img rest Hok He) as (h' & -> & ?); [solve_Permutation|]; cbn [obind]
      end
  end.

(** The node of a statement on top of what was parsed. *)
Ltac make m ns junk lk :=
  eapply (statement_made _ _ _ _ _ _ _ m ns junk lk);
    [eassumption|stick| |
     cbn [stmt_image str_image image];
     rewrite ?defs_image, ?columns_image, ?rows_image, ?orders_image_chain, ?sets_image_chain; solve_Permutation|
     done|leak].

Section statements.
Context {L : Type} `{TokenSource L}.
Implicit Types p : Parser L.

Lemma drop_index_parses : parses 0 is_stmt parse_drop_index_mem parse_drop_index.
Proof.
  intros p h Hok. unfold parse_drop_index_mem, parse_drop_index. pose proof (extends_refl h Hok) as He.
  call_name; [|give_null]. step.
  make (M_DROP_INDEX (Some (r, dup b))) (@nil (loc * Obj)) (@nil (loc * Obj)) lk. split; [|done]. by exists r.
Qed.

Lemma drop_table_parses : parses 0 is_stmt parse_drop_table_mem parse_drop_table.
Proof.
  intros p h Hok. unfold parse_drop_table_mem, parse_drop_table. pose proof (extends_refl h Hok) as He.
  apply agrees_step. intros [[if_exists|] p1] S1.
  - assert (sticky p p1).
    { destruct (token_eqb _ _); [|injection S1 as _ <-; stick]. apply bind_Done_inv in S1 as (p2 & S2%advance_sticky & S1).
      destruct (token_eqb _ _); [|done]. apply bind_Done_inv in S1 as (p3 & S3%advance_sticky & [= <- <-]). stick. }
    call_name; [|give_null]. step.
    make (M_DROP_TABLE (Some (r, dup b))) (@nil (loc * Obj)) (@nil (loc * Obj)) lk. split; [|done]. by exists r.
  - destruct (token_eqb _ _); [|done]. apply bind_Done_inv in S1 as (p2 & S2%advance_sticky & S1).
    destruct (token_eqb _ _); [by apply bind_Done_inv in S1 as (? & _ & [=])|]. injection S1 as <-. give_null.
Qed.

Lemma create_index_parses : parses 0 is_stmt parse_create_index_mem parse_create_index.
Proof.
  intros p h Hok. unfold parse_create_index_mem, parse_create_index. pose proof (extends_refl h Hok) as He.
  apply agrees_step. intros [unique p1] S1%keyword_flag_sticky. cbn [snd] in S1.
  call_name; [|give_null]. destruct (negb _); [drop r lk; give_null|]. step.
  call_name; [|drop r (lk ++ lk0); give_null]. step.
  call_name; [|drop r (lk ++ [(r0, OBytes (dup b0))] ++ lk0 ++ lk1); drop r0 (lk ++ lk0 ++ lk1); give_null]. step. step.
  make (M_CREATE_INDEX (Some (r, dup b)) (Some (r0, dup b0)) (Some (r1, dup b1))) (@nil (loc * Obj)) (@nil (loc * Obj))
    (lk ++ lk0 ++ lk1).
  split; [by exists r|]. split; [by exists r0|]. split; [by exists r1|done].
Qed.

(** The required WHERE clause: an error leaves nothing of its own but leaks. *)
Lemma required_where_parses fuel msg :
  parses 0 is_expr (fun p h => parse_required_where_mem fuel p h msg) (fun p => parse_required_where fuel p msg).
Proof.
  intros p h Hok. unfold parse_required_where_mem, parse_required_where. pose proof (extends_refl h Hok) as He.
  destruct (check_keyword _ _); [|give_null]. step. by apply (yields_after _ _ _ _ _ _ _ _ _ (expression_parses fuel) He).
Qed.

Lemma delete_parses fuel : parses 0 is_stmt (parse_delete_mem fuel) (parse_delete fuel).
Proof.
  intros p h Hok. unfold parse_delete_mem, parse_delete. pose proof (extends_refl h Hok) as He. step. step.
  call_name; [|give_null]. call (required_where_parses fuel (zstr "DELETE requires WHERE clause")).
  - destruct HQ as (t & ns & -> & Hz' & Ht & ->). rewrite (proj2 (Z.eqb_neq _ 0) Hz'). step.
    make (M_DELETE (Some (r, dup b)) t) ns (@nil (loc * Obj)) (lk ++ lk0). split; [by exists r|done].
  - cbn [Z.eqb]. drop r (lk ++ lk0). give_null.
Qed.

Lemma transaction_parses : parses 0 is_stmt parse_transaction_mem parse_transaction.
Proof.
  intros p h Hok. unfold parse_transaction_mem, parse_transaction. pose proof (extends_refl h Hok) as He.
  destruct (match cur p with TOKEN_BEGIN => _ | _ => _ end) as [tx|]; [|give_null]. step.
  apply agrees_step. intros p2 S2. assert (sticky p p2).
  { destruct (_ && _); [apply advance_sticky in S2|injection S2 as <-]; stick. }
  step. by make M_TRANSACTION (@nil (loc * Obj)) (@nil (loc * Obj)) (@nil (loc * Obj)).
Qed.

(** *** CREATE TABLE *)

Lemma column_type_sticky p ty p' : parse_column_type p = Done (ty, p') -> sticky p p'.
Proof.
  unfold parse_column_type. repeat (destruct (_ : bool); [intros E; apply bind_Done_inv in E as (p1 & E%advance_sticky & [= <- <-]); exact E|]).
  intros [= <- <-]. stick.
Qed.

(** The constraints: a default value replaces the one before, which is leaked. *)
Lemma constraints_mem_ok fuel cn : forall h0 p0 p h c name d ns rest col,
  heap_ok h0 -> cd_name col = cn -> extends h0 h ((c, OColumnDef (str_loc name) (root d) 0) :: str_image name ++ image d ++ ns ++ rest) ->
  says_opt (cd_default col) d ns -> sticky p0 p ->
  agrees (fun x y => fst x = snd y /\ sticky p0 (snd y) /\ cd_name (fst y) = cn /\
      exists d' ns' junk, says_opt (cd_default (fst y)) d' ns' /\
        extends h0 (snd x) ((c, OColumnDef (str_loc name) (root d') 0) :: str_image name ++ image d' ++ ns' ++ junk))
    (parse_constraints_mem fuel c p h) (parse_constraints fuel col p).
Proof.
  induction fuel as [|fuel IH]; intros h0 p0 p h c name d ns rest [cn' ty nn pk ai dflt] Hok Hn He Hd Hs; [done|].
  cbn [parse_constraints_mem parse_constraints cd_default cd_name] in *. subst cn'.
  destruct (check_keyword _ _); [step; step; eapply (IH h0 p0); [done|done|exact He|exact Hd|stick]|].
  destruct (check_keyword _ _).
  { step. destruct (check_keyword _ _); [step|]; (eapply (IH h0 p0); [done|done|exact He|exact Hd|stick]). }
  destruct (check_keyword _ _); [step; eapply (IH h0 p0); [done|done|exact He|exact Hd|stick]|].
  destruct (check_keyword _ _).
  - step. call (expression_parses fuel).
    + destruct HQ as (t & n & -> & Hz & Ht & ->). unfold set_default.
      match goal with E : extends _ h1 _ |- _ => pose proof E as He1 end. cbn [app] in He1.
      pose proof (Forall_inv (ex_present _ _ _ He1)) as [_ Hc]. cbn [fst snd] in Hc. rewrite Hc. cbn [obind].
      eapply (IH h0 p0 _ _ c name t n (image d ++ ns ++ rest ++ lk)); [done|done| |exact Ht|stick].
      rewrite <- !app_assoc in He1. apply (extends_put _ _ _ _ (OColumnDef (str_loc name) (root t) 0)) in He1.
      eapply extends_perm; [exact He1|]. solve_Permutation.
    + unfold set_default. match goal with E : extends _ h1 _ |- _ => pose proof E as He1 end. cbn [app] in He1.
      pose proof (Forall_inv (ex_present _ _ _ He1)) as [_ Hc]. cbn [fst snd] in Hc. rewrite Hc. cbn [obind].
      eapply (IH h0 p0 _ _ c name TNull [] (image d ++ ns ++ rest ++ lk)); [done|done| |done|stick].
      rewrite <- !app_assoc in He1. apply (extends_put _ _ _ _ (OColumnDef (str_loc name) 0 0)) in He1.
      eapply extends_perm; [exact He1|]. cbn [image root app]. solve_Permutation.
  - apply agrees_Done. split; [done|]. split; [done|]. split; [done|]. by exists d, ns, rest.
Qed.

(** A column definition, not linked yet; overwritten default values are [junk]. *)
Definition is_column_def (a : loc) (c : ColumnDef) (own : list (loc * Obj)) : Prop :=
  a <> 0 /\ exists name d ns junk, says_column_def c (a, name, d) ns /\
    own = (a, OColumnDef (str_loc name) (root d) 0) :: str_image name ++ image d ++ ns ++ junk.

Lemma column_def_parses fuel : parses 0 is_column_def (parse_column_def_mem fuel) (parse_column_def fuel).
Proof.
  intros p h Hok. unfold parse_column_def_mem, parse_column_def. pose proof (extends_refl h Hok) as He.
  call_name; [|give_null]. cbn [alloc].
  match goal with E : extends h h0 _ |- _ => pose proof E as He1 end. cbn [app] in He1.
  pose proof (extends_trans _ _ _ _ _ He1 (extends_alloc h0 (OColumnDef r 0 0) (ex_ok _ _ _ He1))) as He2.
  apply agrees_step. intros [ty p2] S2%column_type_sticky.
  eapply agrees_bind;
    [apply (constraints_mem_ok fuel b h p p2 _ (brk h0) (Some (r, dup b)) TNull [] lk (mkColumnDef b ty false false false None) Hok eq_refl);
      [eapply extends_perm; [exact He2|]; cbn [str_image image app]; solve_Permutation|done|stick]|].
  intros [p3 h3] [col q] (E & S3 & Hn & d & ns & junk & Hd & He3). cbn [fst snd] in *. subst q.
  eapply (succeeded 0 is_column_def _ _ _ _ _ _ []); [done|exact He3| |by rewrite app_nil_r|done].
  split; [pose proof (proj1 (ex_ok _ _ _ He1)); lia|]. exists (Some (r, dup b)), d, ns, junk. split; [|done].
  split; [|done]. rewrite Hn. by exists r.
Qed.

Lemma drop_defs_ok h0 l : forall n h rest,
  heap_ok h0 -> extends h0 h (defs_chain l ++ rest) -> (length l <= n)%nat ->
  exists h' rest', drop_column_defs n h (head_loc (fun x => fst (fst x)) l) = Done h' /\ extends h0 h' rest'.
Proof.
  induction l as [|[[c name] d] l IH]; intros n h rest Hok He Hn.
  { exists h, rest. by destruct n. }
  destruct n as [|n]; [cbn in Hn; lia|]. unfold defs_chain, chain in He. cbn [chain_to app fst snd] in He.
  pose proof (Forall_inv (ex_present _ _ _ He)) as [Hz Hc]. cbn [fst snd] in Hz, Hc.
  cbn [drop_column_defs head_loc fst]. rewrite (proj2 (Z.eqb_neq _ 0) Hz), Hc.
  destruct (free_added h0 h c _ _ _ Hok He (Permutation_refl _)) as (h1 & -> & H1). cbn [obind].
  replace (match l with [] => 0 | y :: _ => fst (fst y) end) with (head_loc (fun x : loc * Str * Tree => fst (fst x)) l)
    by (by destruct l).
  eapply (IH n h1 ((str_image name ++ image d) ++ rest)); [done| |cbn in Hn; lia].
  eapply extends_perm; [exact H1|]. unfold defs_chain, chain. solve_Permutation.
Qed.

Definition is_defs (a : option loc) (cols : list ColumnDef) (own : list (loc * Obj)) : Prop :=
  exists l ns junk, a = Some (head_loc (fun x => fst (fst x)) l) /\ says_all says_column_def cols l ns /\
    own = defs_chain l ++ ns ++ junk.

Lemma column_defs_mem_ok fuel : forall h0 p0 p h hd tl l cols ns junk lk,
  heap_ok h0 -> extends h0 h (defs_chain l ++ ns ++ junk ++ lk) ->
  hd = head_loc (fun x => fst (fst x)) l -> tl = tail_loc (fun x => fst (fst x)) l ->
  says_all says_column_def cols l ns -> leak_ok p lk -> sticky p0 p ->
  agrees (yields None is_defs h0 p0 []) (parse_column_defs_mem fuel hd tl p h) (parse_column_defs fuel cols p).
Proof.
  induction fuel as [|fuel IH]; intros h0 p0 p h hd tl l cols ns junk lk Hok He -> -> Hsay Hl Hs; [done|].
  assert (agrees (yields None is_defs h0 p0 [])
    (Done (Some (head_loc (fun x => fst (fst x)) l), p, h)) (Done (Some cols, p))) as Hend.
  { eapply (succeeded None is_defs); [done|exact He|by exists l, ns, junk| |exact Hl]. solve_Permutation. }
  cbn [parse_column_defs_mem parse_column_defs]. destruct (_ && _); [|exact Hend].
  call (column_def_parses fuel).
  - destruct HQ as (Hz & name & d & n1 & junk1 & Hc & ->). rewrite (proj2 (Z.eqb_neq _ 0) Hz).
    match goal with E : extends h0 h1 _ |- _ => rename E into He1 end.
    destruct (link_ok (fun x : loc * Str * Tree => fst (fst x))
      (fun x next => OColumnDef (str_loc (snd (fst x))) (root (snd x)) next)
      (fun x => str_image (snd (fst x)) ++ image (snd x)) (fun _ _ _ => eq_refl) h0 h1 l (r, name, d)
      ((ns ++ n1) ++ (junk ++ junk1) ++ lk ++ lk0)) as (h2 & E2 & He2).
    { cbn [fst snd]. eapply extends_perm; [exact He1|]. unfold defs_chain. solve_Permutation. }
    cbn [fst] in E2. rewrite E2. cbn [obind].
    assert (says_all says_column_def (cols ++ [b]) (l ++ [(r, name, d)]) (ns ++ n1)) as Hsay2 by (by apply says_all_snoc).
    destruct (token_eqb _ _).
    + step. eapply (IH h0 p0 _ _ _ _ _ _ _ (junk ++ junk1) (lk ++ lk0)); [done|exact He2|done| |done|leak|stick].
      by rewrite tail_snoc.
    + eapply (succeeded None is_defs _ _ _ _ _ _ (lk ++ lk0)); [stick|exact He2|by exists (l ++ [(r, name, d)]), (ns ++ n1), (junk ++ junk1)|
        unfold defs_chain; solve_Permutation|leak].
  - match goal with E : extends h0 h1 _ |- _ => rename E into He1 end. cbn [Z.eqb].
    rewrite <- app_assoc in He1.
    destruct (drop_defs_ok h0 l (list_fuel h1) h1 _ Hok He1) as (h2 & rest & -> & H2); [by eapply list_below|].
    cbn [obind]. give_null.
Qed.

Lemma if_not_exists_sticky p x p' : parse_if_not_exists p = Done (x, p') -> sticky p p'.
Proof.
  unfold parse_if_not_exists. destruct (token_eqb _ _); [|intros [= <- <-]; stick].
  intros E. apply bind_Done_inv in E as (p1 & S1%advance_sticky & E).
  destruct (token_eqb _ _); [|injection E as <- <-; stick]. apply bind_Done_inv in E as (p2 & S2%advance_sticky & E).
  destruct (token_eqb _ _); [|injection E as <- <-; stick]. apply bind_Done_inv in E as (p3 & S3%advance_sticky & E).
  injection E as <- <-. stick.
Qed.

(** A list parser that starts with nothing. *)
Lemma defs_parses fuel : parses None is_defs (parse_column_defs_mem fuel 0 0) (parse_column_defs fuel []).
Proof. intros p h Hok. apply (column_defs_mem_ok fuel h p p h 0 0 [] [] [] [] []); first [done|by apply extends_refl|stick]. Qed.

Lemma create_table_parses fuel : parses 0 is_stmt (parse_create_table_mem fuel) (parse_create_table fuel).
Proof.
  intros p h Hok. unfold parse_create_table_mem, parse_create_table. pose proof (extends_refl h Hok) as He.
  apply agrees_step. intros [[if_not_exists|] p1] S1%if_not_exists_sticky; [|give_null].
  call_name; [|give_null]. step. call (defs_parses fuel); [|drop r (lk ++ lk0); give_null].
  destruct HQ as (l & ns & junk & -> & Hsay & ->). step. step.
  make (M_CREATE_TABLE (Some (r, dup b)) l) ns junk (lk ++ lk0).
  split; [by exists r|done].
Qed.

(** *** INSERT *)

Lemma expressions_mem_ok fuel : items_spec (parse_expressions_mem fuel) (parse_expressions fuel).
Proof.
  induction fuel as [|fuel IH]; [by repeat intro|].
  by apply (parse_item_mem_ok (parse_binary_expr_mem fuel) (parse_binary_expr fuel)); [apply es_binary, expression_mem_ok|].
Qed.

Definition is_row (a : option (loc * nat)) (es : list Expression) (own : list (loc * Obj)) : Prop :=
  exists list_ ts slack ns, a = Some (list_, length ts) /\ says_all says es ts ns /\
    own = items_image list_ ts slack ++ ns.

Lemma expression_list_parses fuel :
  parses None is_row (parse_expression_list_mem fuel) (parse_expression_list fuel).
Proof.
  intros p h Hok. unfold parse_expression_list_mem, parse_expression_list. pose proof (extends_refl h Hok) as He.
  destruct (token_eqb _ _); [give_null|]. cbn [alloc].
  pose proof (expressions_mem_ok fuel h _ p p (brk h) [] (replicate 4 0) [] [] [] Hok (extends_alloc h _ Hok)
    eq_refl (Nat.lt_0_succ 3) (leak_ok_nil p) (sticky_refl p)) as Hm. cbn [length Nat.add replicate alloc snd map app] in Hm |- *.
  destruct (parse_expressions fuel [] p) as [[[es|] q]| |]; [| |done..];
    destruct Hm as (x & -> & E & Hs & Hx); apply agrees_Done; (split; [done|]); (split; [done|]); cbn [fst snd app] in *.
  - destruct Hx as (list_ & ts & slack & ns & lk & E1 & _ & Hsay & H1 & Hl).
    exists (items_image list_ ts slack ++ ns), lk. rewrite <- app_assoc. split; [|done]. by exists list_, ts, slack, ns.
  - exact Hx.
Qed.

Definition is_columns (a : option loc) (cols : list ColumnList) (own : list (loc * Obj)) : Prop :=
  exists l, a = Some (head_loc (fun x => fst (fst x)) l) /\ Forall2 says_column cols l /\ own = columns_chain l.

Lemma insert_columns_mem_ok fuel : forall h0 p0 p h hd tl l cols lk,
  heap_ok h0 -> extends h0 h (columns_chain l ++ lk) ->
  hd = head_loc (fun x => fst (fst x)) l -> tl = tail_loc (fun x => fst (fst x)) l ->
  Forall2 says_column cols l -> leak_ok p lk -> sticky p0 p ->
  agrees (yields None is_columns h0 p0 []) (parse_insert_columns_mem fuel hd tl p h) (parse_insert_columns fuel cols p).
Proof.
  induction fuel as [|fuel IH]; intros h0 p0 p h hd tl l cols lk Hok He -> -> Hsay Hl Hs; [done|].
  cbn [parse_insert_columns_mem parse_insert_columns].
  destruct (_ && _); [|by eapply (succeeded None is_columns); [done|exact He|by exists l| |exact Hl]].
  call_name; [|give_null].
  match goal with E : extends h0 h1 _ |- _ => rename E into He1 end.
  set (x := (brk h1, Some (r, dup b), None) : loc * Str * Str).
  destruct (append_node_ok (fun x : loc * Str * Str => fst (fst x))
    (fun x next => OColumnList (str_loc (snd (fst x))) (str_loc (snd x)) next)
    (fun x => str_image (snd (fst x)) ++ str_image (snd x)) (fun _ _ _ => eq_refl) h0 h1 l x (lk ++ lk0)) as (h2 & E2 & He2);
    [eapply extends_perm; [exact He1|]; cbn [x fst snd str_image]; unfold columns_chain; solve_Permutation|done|].
  cbn [x fst snd str_loc alloc] in E2 |- *. rewrite E2. cbn [obind].
  assert (Forall2 says_column (cols ++ [mkColumnList b None]) (l ++ [x])) as Hsay2
    by (apply Forall2_app; [done|constructor; [split; [by exists r|done]|done]]).
  destruct (token_eqb _ _).
  - step. eapply (IH h0 p0); [done|exact He2|done|by rewrite tail_snoc|done|leak|stick].
  - eapply (succeeded None is_columns _ _ _ _ _ _ (lk ++ lk0)); [stick|exact He2|by exists (l ++ [x])|done|leak].
Qed.

Definition is_rows (a : option loc) (rows : list ValueList) (own : list (loc * Obj)) : Prop :=
  exists l ns, a = Some (head_loc (fun x => fst (fst (fst x))) l) /\ says_all says_row rows l ns /\
    own = rows_chain l ++ ns.

Lemma insert_values_mem_ok fuel : forall h0 p0 p h hd tl l rows ns lk,
  heap_ok h0 -> extends h0 h (rows_chain l ++ ns ++ lk) ->
  hd = head_loc (fun x => fst (fst (fst x))) l -> tl = tail_loc (fun x => fst (fst (fst x))) l ->
  says_all says_row rows l ns -> leak_ok p lk -> sticky p0 p ->
  agrees (yields None is_rows h0 p0 []) (parse_insert_values_mem fuel hd tl p h) (parse_insert_values fuel rows p).
Proof.
  induction fuel as [|fuel IH]; intros h0 p0 p h hd tl l rows ns lk Hok He -> -> Hsay Hl Hs; [done|].
  cbn [parse_insert_values_mem parse_insert_values].
  destruct (negb _); [|eapply (succeeded None is_rows _ _ _ _ _ (rows_chain l ++ ns) lk); [done|exact He|by exists l, ns|solve_Permutation|done]].
  step. call (expression_list_parses fuel); [|give_null].
  destruct HQ as (list_ & ts & slack & n1 & -> & Hr & ->).
  match goal with E : extends h0 h1 _ |- _ => rename E into He1 end.
  set (x := (brk h1, list_, ts, slack) : loc * loc * list Tree * list loc).
  destruct (append_node_ok (fun x : loc * loc * list Tree * list loc => fst (fst (fst x)))
    (fun x next => OValueList (snd (fst (fst x))) (length (snd (fst x))) next)
    (fun x => concat (map image (snd (fst x))) ++ [(snd (fst (fst x)), OPtrs (map root (snd (fst x)) ++ snd x))])
    (fun _ _ _ => eq_refl) h0 h1 l x ((ns ++ n1) ++ lk ++ lk0)) as (h2 & E2 & He2);
    [eapply extends_perm; [exact He1|]; cbn [x fst snd]; unfold rows_chain, items_image; solve_Permutation|done|].
  cbn [x fst snd alloc] in E2 |- *. rewrite E2. cbn [obind].
  assert (says_all says_row (rows ++ [b]) (l ++ [x]) (ns ++ n1)) as Hsay2 by (by apply says_all_snoc).
  step. destruct (token_eqb _ _).
  - step. eapply (IH h0 p0 _ _ _ _ _ _ _ (lk ++ lk0)); [done|exact He2|done|by rewrite tail_snoc|done|leak|stick].
  - eapply (succeeded None is_rows _ _ _ _ _ (rows_chain (l ++ [x]) ++ ns ++ n1) (lk ++ lk0));
      [stick|exact He2|by exists (l ++ [x]), (ns ++ n1)|unfold rows_chain; solve_Permutation|leak].
Qed.

Lemma insert_columns_parses fuel :
  parses None is_columns (parse_insert_columns_mem fuel 0 0) (parse_insert_columns fuel []).
Proof. intros p h Hok. apply (insert_columns_mem_ok fuel h p p h 0 0 [] [] []); first [done|by apply extends_refl|stick]. Qed.

Lemma insert_values_parses fuel :
  parses None is_rows (parse_insert_values_mem fuel 0 0) (parse_insert_values fuel []).
Proof. intros p h Hok. apply (insert_values_mem_ok fuel h p p h 0 0 [] [] [] []); first [done|by apply extends_refl|stick]. Qed.

(** The optional column list. *)
Lemma optional_columns_parses fuel : parses None is_columns
  (fun p h =>
     if token_eqb (cur p) TOKEN_LPAREN then
       let* p := advance p in
       let* '(columns, p, h) := parse_insert_columns_mem fuel 0 0 p h in
       match columns with
       | None => Done (None, p, h)
       | Some columns =>
           let* p := expect_token p TOKEN_RPAREN (zstr "Expected ')' after column list") in
           Done (Some columns, p, h)
       end
     else Done (Some 0, p, h))
  (fun p =>
     if token_eqb (cur p) TOKEN_LPAREN then
       let* p := advance p in
       let* '(columns, p) := parse_insert_columns fuel [] p in
       match columns with
       | None => Done (None, p)
       | Some columns =>
           let* p := expect_token p TOKEN_RPAREN (zstr "Expected ')' after column list") in
           Done (Some columns, p)
       end
     else Done (Some [], p)).
Proof.
  intros p h Hok. pose proof (extends_refl h Hok) as He. cbv beta. destruct (token_eqb _ _).
  - step. call (insert_columns_parses fuel); [|give_null]. destruct HQ as (l & -> & Hl & ->). step.
    eapply (succeeded None is_columns _ _ _ _ _ (columns_chain l) lk); [stick|eassumption|by exists l|done|leak].
  - eapply (succeeded None is_columns _ _ _ _ _ [] []); [stick|exact He|by exists []|done|done].
Qed.

Lemma insert_parses fuel : parses 0 is_stmt (parse_insert_mem fuel) (parse_insert fuel).
Proof.
  intros p h Hok. unfold parse_insert_mem, parse_insert. pose proof (extends_refl h Hok) as He. step. step.
  call_name; [|give_null]. call (optional_columns_parses fuel); [|drop r (lk ++ lk0); give_null].
  destruct HQ as (cols & -> & Hc & ->). step.
  call (insert_values_parses fuel); [|drop r (lk ++ columns_chain cols ++ lk0 ++ lk1); give_null].
  destruct HQ as (rows & ns & -> & Hr & ->). step.
  make (M_INSERT (Some (r, dup b)) cols rows) ns (@nil (loc * Obj)) (lk ++ lk0 ++ lk1).
  split; [by exists r|done].
Qed.

(** *** UPDATE *)

Definition is_sets (a : option loc) (clauses : list SetClause) (own : list (loc * Obj)) : Prop :=
  exists l ns, a = Some (head_loc (fun x => fst (fst x)) l) /\ says_all says_set clauses l ns /\
    own = sets_chain l ++ ns.

Lemma set_clauses_mem_ok fuel : forall h0 p0 p h hd tl l clauses ns lk,
  heap_ok h0 -> extends h0 h (sets_chain l ++ ns ++ lk) ->
  hd = head_loc (fun x => fst (fst x)) l -> tl = tail_loc (fun x => fst (fst x)) l ->
  says_all says_set clauses l ns -> leak_ok p lk -> sticky p0 p ->
  agrees (yields None is_sets h0 p0 []) (parse_set_clauses_mem fuel hd tl p h) (parse_set_clauses fuel clauses p).
Proof.
  induction fuel as [|fuel IH]; intros h0 p0 p h hd tl l clauses ns lk Hok He -> -> Hsay Hl Hs; [done|].
  cbn [parse_set_clauses_mem parse_set_clauses].
  destruct (negb _); [|eapply (succeeded None is_sets _ _ _ _ _ (sets_chain l ++ ns) lk); [done|exact He|by exists l, ns|solve_Permutation|done]].
  call_name; [|give_null]. step. call_expr; [|drop r ((sets_chain l ++ ns ++ lk) ++ lk0 ++ lk1); give_null].
  match goal with E : extends h0 h2 _ |- _ => rename E into He2 end.
  set (x := (brk h2, Some (r, dup b), t) : loc * Str * Tree).
  destruct (append_node_ok (fun x : loc * Str * Tree => fst (fst x))
    (fun x next => OSetClause (str_loc (snd (fst x))) (root (snd x)) next)
    (fun x => str_image (snd (fst x)) ++ image (snd x)) (fun _ _ _ => eq_refl) h0 h2 l x ((ns ++ ns0) ++ lk ++ lk0 ++ lk1))
    as (h3 & E3 & He3);
    [eapply extends_perm; [exact He2|]; cbn [x fst snd str_image]; unfold sets_chain; solve_Permutation|done|].
  cbn [x fst snd str_loc alloc] in E3 |- *. rewrite E3. cbn [obind].
  assert (says_all says_set (clauses ++ [mkSetClause b b0]) (l ++ [x]) (ns ++ ns0)) as Hsay2
    by (apply says_all_snoc; [done|split; [by exists r|done]]).
  destruct (token_eqb _ _).
  - step. eapply (IH h0 p0 _ _ _ _ _ _ _ (lk ++ lk0 ++ lk1)); [done|exact He3|done|by rewrite tail_snoc|done|leak|stick].
  - eapply (succeeded None is_sets _ _ _ _ _ (sets_chain (l ++ [x]) ++ ns ++ ns0) (lk ++ lk0 ++ lk1));
      [stick|exact He3|by exists (l ++ [x]), (ns ++ ns0)|unfold sets_chain; solve_Permutation|leak].
Qed.

Lemma set_clauses_parses fuel : parses None is_sets (parse_set_clauses_mem fuel 0 0) (parse_set_clauses fuel []).
Proof. intros p h Hok. apply (set_clauses_mem_ok fuel h p p h 0 0 [] [] [] []); first [done|by apply extends_refl|stick]. Qed.

Lemma update_parses fuel : parses 0 is_stmt (parse_update_mem fuel) (parse_update fuel).
Proof.
  intros p h Hok. unfold parse_update_mem, parse_update. pose proof (extends_refl h Hok) as He. step.
  call_name; [|give_null]. step. call (set_clauses_parses fuel); [|drop r (lk ++ lk0); give_null].
  destruct HQ as (l & ns & -> & Hsay & ->). call (required_where_parses fuel (zstr "UPDATE requires WHERE clause")).
  - destruct HQ as (t & n & -> & Hz' & Ht & ->). rewrite (proj2 (Z.eqb_neq _ 0) Hz'). step.
    make (M_UPDATE (Some (r, dup b)) l t) (ns ++ n) (@nil (loc * Obj)) (lk ++ lk0 ++ lk1).
    split; [by exists r|]. by exists ns, n.
  - cbn [Z.eqb]. drop r (lk ++ sets_chain l ++ ns ++ lk0 ++ lk1). give_null.
Qed.

(** *** SELECT *)

(** The columns so far are freed with their names; the aliases are left. *)
Lemma drop_columns_ok h0 l : forall n h rest,
  heap_ok h0 -> extends h0 h (columns_chain l ++ rest) -> (length l <= n)%nat ->
  exists h' rest', drop_column_list n h (head_loc (fun x => fst (fst x)) l) = Done h' /\ extends h0 h' rest'.
Proof.
  induction l as [|[[c name] alias] l IH]; intros n h rest Hok He Hn.
  { exists h, rest. by destruct n. }
  destruct n as [|n]; [cbn in Hn; lia|]. unfold columns_chain, chain in He. cbn [chain_to app fst snd] in He.
  pose proof (Forall_inv (ex_present _ _ _ He)) as [Hz Hc]. cbn [fst snd] in Hz, Hc.
  cbn [drop_column_list head_loc fst]. rewrite (proj2 (Z.eqb_neq _ 0) Hz), Hc.
  set (next := match l with [] => 0 | y :: _ => fst (fst y) end) in *.
  destruct (extends_release (fun h => free h (str_loc name)) h0 h (str_image name)
    ((c, OColumnList (str_loc name) (str_loc alias) next) :: columns_chain l ++ str_image alias ++ rest) Hok)
    as (h1 & E1 & H1).
  { eapply extends_perm; [exact He|]. unfold columns_chain, chain. solve_Permutation. }
  { apply releases_str. }
  cbv beta in E1. rewrite E1. cbn [obind]. destruct (free_added h0 h1 c _ _ _ Hok H1 (Permutation_refl _)) as (h2 & -> & H2).
  cbn [obind]. replace next with (head_loc (fun x : loc * Str * Str => fst (fst x)) l) by (by destruct l).
  eapply (IH n h2); [done|exact H2|cbn in Hn; lia].
Qed.

Lemma alias_mem_ok h0 h p0 p img :
  extends h0 h img -> sticky p0 p ->
  agrees (fun x y => snd (fst x) = snd y /\ sticky p0 (snd y) /\ exists alias, fst (fst x) = str_loc alias /\
      (alias <> None -> str_loc alias <> 0) /\ says_opt_str (fst y) alias /\ extends h0 (snd x) (str_image alias ++ img))
    (parse_alias_mem p h) (parse_alias p).
Proof.
  intros He Hs. unfold parse_alias_mem, parse_alias. destruct (_ || _).
  - step. assert (sticky p0 p1) as Hs1 by stick. pose proof (parse_identifier_mem_ok h0 h p0 p1 img He Hs1) as Hm.
    destruct (parse_identifier p1) as [[[s|] q]| |]; [| |done..];
      destruct Hm as (x & -> & E & Hs2 & Hx); apply agrees_Done; (split; [done|]); (split; [done|]); cbn [fst snd] in *.
    + destruct Hx as [Hz Hx]. exists (Some (fst (fst x), dup s)). split_and!; [done|done|by eexists|done].
    + destruct Hx as [Hz Hx]. by exists None.
  - apply agrees_Done. split; [done|]. split; [done|]. by exists None.
Qed.

Lemma columns_append h0 h img l c name alias s a rest cols :
  extends h0 h img ->
  img ≡ₚ columns_chain l ++ (c, OColumnList (str_loc name) (str_loc alias) 0) :: str_image name ++ str_image alias ++ rest ->
  Forall2 says_column cols l -> says_str s name -> says_opt_str a alias ->
  exists h', link h (head_loc (fun x => fst (fst x)) l) (tail_loc (fun x => fst (fst x)) l) c =
      Done (head_loc (fun x => fst (fst x)) (l ++ [(c, name, alias)]), h') /\
    extends h0 h' (columns_chain (l ++ [(c, name, alias)]) ++ rest) /\
    Forall2 says_column (cols ++ [mkColumnList s a]) (l ++ [(c, name, alias)]).
Proof.
  intros He Hi Hl Hs Ha. rewrite Hi in He.
  destruct (link_ok (fun x : loc * Str * Str => fst (fst x))
    (fun x next => OColumnList (str_loc (snd (fst x))) (str_loc (snd x)) next)
    (fun x => str_image (snd (fst x)) ++ str_image (snd x)) (fun _ _ _ => eq_refl) h0 h l (c, name, alias) rest) as (h' & E & He').
  { cbn [fst snd]. by rewrite <- app_assoc. }
  exists h'. split; [exact E|]. split; [exact He'|]. apply Forall2_app; [done|]. by constructor.
Qed.

Lemma column_list_mem_ok fuel : forall h0 p0 p h hd tl l cols lk,
  heap_ok h0 -> extends h0 h (columns_chain l ++ lk) ->
  hd = head_loc (fun x => fst (fst x)) l -> tl = tail_loc (fun x => fst (fst x)) l ->
  Forall2 says_column cols l -> leak_ok p lk -> sticky p0 p ->
  agrees (yields None is_columns h0 p0 []) (parse_column_list_mem fuel hd tl p h) (parse_column_list_loop fuel cols p).
Proof.
  induction fuel as [|fuel IH]; intros h0 p0 p h hd tl l cols lk Hok He -> -> Hsay Hl Hs; [done|].
  cbn [parse_column_list_mem parse_column_list_loop]. destruct (token_eqb _ TOKEN_STAR).
  - cbn [alloc].
    pose proof (extends_trans _ _ _ _ _ He (extends_pair h (OColumnList 0 0 0) (OColumnList (brk h + 1) 0 0)
      (OBytes (dup (zstr "*"))) (ex_ok _ _ _ He))) as He1. cbn [alloc snd] in He1.
    destruct (columns_append h0 _ _ l (brk h) (Some (brk h + 1, dup (zstr "*"))) None (zstr "*") None lk cols He1)
      as (h2 & E2 & He2 & Hsay2); [cbn [str_image str_loc]; solve_Permutation|done|by eexists|done|]. cbn [snd brk] in E2 |- *. rewrite E2. cbn [obind]. step.
    eapply (succeeded None is_columns _ _ _ _ _ _ lk); [stick|exact He2|by eexists|done|leak].
  - call_name.
    + cbn [alloc].
      match goal with E : extends h0 h1 _ |- _ => rename E into He1 end.
      pose proof (extends_trans _ _ _ _ _ He1 (extends_alloc h1 (OColumnList r 0 0) (ex_ok _ _ _ He1))) as He2.
      cbn [alloc snd] in He2.
      eapply agrees_bind; [eapply alias_mem_ok; [exact He2|apply sticky_refl]|].
      intros [[al p2] h2] [o q] (E & S2 & alias & Ea & Hz' & Ho & He3). cbn [fst snd] in *. subst q al.
      assert (extends h0 (if str_loc alias =? 0 then h2 else put h2 (brk h1) (OColumnList r (str_loc alias) 0))
        ((brk h1, OColumnList r (str_loc alias) 0) :: columns_chain l ++ [(r, OBytes (dup b))] ++ str_image alias ++ lk ++ lk0))
        as He4.
      { eapply (extends_perm _ _ _ ((brk h1, OColumnList r 0 0) :: columns_chain l ++ [(r, OBytes (dup b))] ++
          str_image alias ++ lk ++ lk0)) in He3; [|solve_Permutation].
        destruct alias as [[a' s']|]; [|exact He3]. rewrite (proj2 (Z.eqb_neq _ 0)) by (by apply Hz').
        by apply (extends_put _ _ _ _ (OColumnList r a' 0)) in He3. }
      destruct (columns_append h0 _ _ l (brk h1) (Some (r, dup b)) alias b o (lk ++ lk0) cols He4)
        as (h4 & E4 & He5 & Hsay4); [cbn [str_image str_loc]; solve_Permutation|done|by eexists|done|]. rewrite E4. cbn [obind]. destruct (token_eqb _ _).
      * step. eapply (IH h0 p0 _ _ _ _ _ _ (lk ++ lk0)); [done|exact He5|done|by rewrite tail_snoc|done|leak|stick].
      * eapply (succeeded None is_columns _ _ _ _ _ _ (lk ++ lk0)); [stick|exact He5|by eexists|done|leak].
    + match goal with E : extends h0 h1 _ |- _ => rename E into He1 end. rewrite <- app_assoc in He1.
      destruct (drop_columns_ok h0 l (list_fuel h1) h1 _ Hok He1) as (h2 & rest & -> & H2); [by eapply list_below|].
      cbn [obind]. give_null.
Qed.

Lemma column_list_parses fuel : parses None is_columns (parse_column_list_mem fuel 0 0) (parse_column_list fuel).
Proof. intros p h Hok. apply (column_list_mem_ok fuel h p p h 0 0 [] [] []); first [done|by apply extends_refl|stick]. Qed.

Definition is_orders (a : option loc) (items : list OrderByItem) (own : list (loc * Obj)) : Prop :=
  exists l, a = Some (head_loc fst l) /\ Forall2 says_order items l /\ own = orders_chain l.

Lemma descending_sticky p (x : bool * Parser L) :
  (if check_keyword p (zstr "DESC") then let* p := advance p in Done (true, p)
   else if check_keyword p (zstr "ASC") then let* p := advance p in Done (false, p) else Done (false, p)) = Done x ->
  sticky p (snd x).
Proof.
  destruct (check_keyword p (zstr "DESC")); [intros E; apply bind_Done_inv in E as (p1 & E & [= <-]); by apply advance_sticky|].
  destruct (check_keyword p (zstr "ASC")); [intros E; apply bind_Done_inv in E as (p1 & E & [= <-]); by apply advance_sticky|].
  intros [= <-]. stick.
Qed.

Lemma order_by_loop_ok fuel : forall h0 p0 p h hd tl l items lk,
  heap_ok h0 -> extends h0 h (orders_chain l ++ lk) -> hd = head_loc fst l -> tl = tail_loc fst l ->
  Forall2 says_order items l -> leak_ok p lk -> sticky p0 p ->
  agrees (yields None is_orders h0 p0 []) (parse_order_by_loop_mem fuel hd tl p h) (parse_order_by_loop fuel items p).
Proof.
  induction fuel as [|fuel IH]; intros h0 p0 p h hd tl l items lk Hok He -> -> Hsay Hl Hs; [done|].
  cbn [parse_order_by_loop_mem parse_order_by_loop].
  destruct (negb _); [|by eapply (succeeded None is_orders); [done|exact He|by exists l| |exact Hl]].
  call_name; [|give_null]. apply agrees_step. intros [desc p2] S2%descending_sticky. cbn [snd] in S2.
  match goal with E : extends h0 h1 _ |- _ => rename E into He1 end.
  set (x := (brk h1, Some (r, dup b)) : loc * Str).
  destruct (append_node_ok (@fst loc Str) (fun x next => OOrderBy (str_loc (snd x)) next)
    (fun x => str_image (snd x)) (fun _ _ _ => eq_refl) h0 h1 l x (lk ++ lk0)) as (h2 & E2 & He2);
    [eapply extends_perm; [exact He1|]; cbn [x fst snd str_image]; unfold orders_chain; solve_Permutation|done|].
  cbn [x fst snd str_loc alloc] in E2 |- *. rewrite E2. cbn [obind].
  assert (Forall2 says_order (items ++ [mkOrderBy b desc]) (l ++ [x])) as Hsay2
    by (apply Forall2_app; [done|constructor; [by exists r|done]]).
  destruct (token_eqb _ _).
  - step. eapply (IH h0 p0); [done|exact He2|done|by rewrite tail_snoc|done|leak|stick].
  - eapply (succeeded None is_orders _ _ _ _ _ _ (lk ++ lk0)); [stick|exact He2|by exists (l ++ [x])|done|leak].
Qed.

(** The optional ORDER BY clause; an empty list is an error. *)
Lemma optional_order_by_parses fuel : parses None is_orders (parse_optional_order_by_mem fuel) (parse_optional_order_by fuel).
Proof.
  intros p h Hok. pose proof (extends_refl h Hok) as He. unfold parse_optional_order_by_mem, parse_optional_order_by.
  destruct (check_keyword _ _); [|eapply (succeeded None is_orders _ _ _ _ _ [] []); [stick|exact He|by exists []|done|done]].
  step. destruct (check_keyword _ _); [|eapply (succeeded None is_orders _ _ _ _ _ [] []); [stick|exact He|by exists []|done|done]].
  step. unfold parse_order_by_mem, parse_order_by. rewrite bind_assoc.
  assert (parses None is_orders (parse_order_by_loop_mem fuel 0 0) (parse_order_by_loop fuel [])) as Hloop.
  { intros q g Hq. apply (order_by_loop_ok fuel g q q g 0 0 [] [] []); first [done|by apply extends_refl|stick]. }
  call Hloop; [|give_null]. destruct HQ as (l & -> & Hl & ->). cbn [obind default id]. destruct b as [|o b].
  - apply Forall2_nil_inv_l in Hl as ->. cbn [head_loc]. change (0 =? 0) with true. give_null.
  - destruct l as [|x l]; [by apply Forall2_nil_inv_r in Hl|].
    match goal with E : extends h h0 _ |- _ => rename E into He1 end.
    pose proof (Forall_inv (ex_present _ _ _ He1)) as [Hz _]. cbn [fst] in Hz. cbn [head_loc].
    rewrite (proj2 (Z.eqb_neq _ 0) Hz).
    eapply (succeeded None is_orders _ _ _ _ _ (orders_chain (x :: l)) lk); [stick|exact He1|by exists (x :: l)|done|leak].
Qed.

(** An optional clause with an expression. *)
Definition is_optional (a : option loc) (o : option Expression) (own : list (loc * Obj)) : Prop :=
  exists t ns, a = Some (root t) /\ says_opt o t ns /\ own = image t ++ ns.

Lemma optional_expr_parses fuel kw : parses None is_optional
  (fun p h => parse_optional_expr_mem fuel p h kw) (fun p => parse_optional_expr fuel p kw).
Proof.
  intros p h Hok. pose proof (extends_refl h Hok) as He. unfold parse_optional_expr_mem, parse_optional_expr.
  destruct (check_keyword _ _).
  - step. call_expr; [|give_null].
    eapply (succeeded None is_optional _ _ _ _ _ (image t ++ ns) lk); [stick|eassumption|by exists t, ns|solve_Permutation|leak].
  - eapply (succeeded None is_optional _ _ _ _ _ [] []); [stick|exact He|by exists TNull, []|done|done].
Qed.

Lemma select_parses fuel : parses 0 is_stmt (parse_select_mem fuel) (parse_select fuel).
Proof.
  intros p h Hok. unfold parse_select_mem, parse_select. pose proof (extends_refl h Hok) as He. step.
  apply agrees_step. intros [distinct p2] S2%keyword_flag_sticky. cbn [snd] in S2.
  call (column_list_parses fuel); [|give_null]. destruct HQ as (cols & -> & Hc & ->).
  destruct (negb _); [give_null|]. step. call_name; [|give_null].
  call (optional_expr_parses fuel (zstr "WHERE")); [|drop r (columns_chain cols ++ lk ++ lk0 ++ lk1); give_null].
  destruct HQ as (w & n1 & -> & Hw & ->).
  call (optional_order_by_parses fuel);
    [|drop r (columns_chain cols ++ lk ++ lk0 ++ (image w ++ n1) ++ lk1 ++ lk2); give_null].
  destruct HQ as (ob & -> & Hob & ->).
  call (optional_expr_parses fuel (zstr "LIMIT"));
    [|drop r (columns_chain cols ++ lk ++ lk0 ++ (image w ++ n1) ++ lk1 ++ orders_chain ob ++ lk2 ++ lk3); give_null].
  destruct HQ as (li & n2 & -> & Hli & ->).
  call (optional_expr_parses fuel (zstr "OFFSET"));
    [|drop r (columns_chain cols ++ lk ++ lk0 ++ (image w ++ n1) ++ lk1 ++ orders_chain ob ++ lk2 ++ (image li ++ n2) ++ lk3 ++ lk4);
      give_null].
  destruct HQ as (off & n3 & -> & Hoff & ->). step.
  make (M_SELECT cols (Some (r, dup b0)) None w ob li off) (n1 ++ n2 ++ n3) (@nil (loc * Obj))
    (lk ++ lk0 ++ lk1 ++ lk2 ++ lk3 ++ lk4).
  split; [done|]. split; [by exists r|]. split; [done|]. split; [done|]. by exists n1, n2, n3.
Qed.

(** *** Any statement *)

Lemma error_parses {A B} (null : A) Q msg :
  parses null Q (fun p h => Done (null, parser_set_error p msg, h)) (fun p => Done (@None B, parser_set_error p msg)).
Proof. intros p h Hok. by eapply failed; [stick|apply extends_refl]. Qed.

Lemma statement_parses fuel : parses 0 is_stmt (parse_statement_mem fuel) (parse_statement fuel).
Proof.
  intros p h Hok. unfold parse_statement_mem, parse_statement.
  destruct (cur p); try (by apply (error_parses 0 is_stmt)).
  all: try first
    [by apply select_parses|by apply insert_parses|by apply update_parses|by apply delete_parses|by apply transaction_parses].
  - apply agrees_step. intros p1 S1%advance_sticky. destruct (token_eqb _ _); [|destruct (token_eqb _ _)].
    + step. apply (yields_after _ _ _ _ h h p _ [] (create_table_parses fuel)); [by apply extends_refl|stick].
    + step. apply (yields_after _ _ _ _ h h p _ [] create_index_parses); [by apply extends_refl|stick].
    + eapply failed; [stick|by apply extends_refl].
  - apply agrees_step. intros p1 S1%advance_sticky. destruct (token_eqb _ _); [|destruct (token_eqb _ _)].
    + step. apply (yields_after _ _ _ _ h h p _ [] drop_table_parses); [by apply extends_refl|stick].
    + step. apply (yields_after _ _ _ _ h h p _ [] drop_index_parses); [by apply extends_refl|stick].
    + eapply failed; [stick|by apply extends_refl].
Qed.

Lemma parser_parse_parses fuel : parses 0 is_stmt (parser_parse_mem fuel) (parser_parse fuel).
Proof.
  intros p h Hok. unfold parser_parse_mem, parser_parse. destruct (has_error p); [|by apply statement_parses].
  eapply failed; [stick|by apply extends_refl].
Qed.
End statements.

(** ** Release *)

Lemma says_all_Forall {A B} (S : A -> B -> list (loc * Obj) -> Prop) (P : B -> Prop) xs ys ns :
  (forall x y ns, S x y ns -> P y) -> says_all S xs ys ns -> Forall P ys.
Proof.
  intros HP. revert ys ns. induction xs as [|x xs IH]; intros [|y ys] ns; try done.
  intros (n1 & n2 & _ & H1 & H2). constructor; [by eapply HP|by eapply IH].
Qed.

Lemma own_length {A} (at_ : A -> loc) node own (l : list A) x :
  x ∈ l -> (length (own x) <= length (chain at_ node own l))%nat.
Proof.
  unfold chain. induction l as [|y l IH]; [by intros ?%elem_of_nil|]. cbn [chain_to length]. rewrite length_app.
  intros [->|Hx]%elem_of_cons; [|specialize (IH Hx)]; lia.
Qed.

Lemma concat_length (ts : list Tree) t : t ∈ ts -> (length (image t) <= length (concat (map image ts)))%nat.
Proof.
  induction ts as [|u ts IH]; [by intros ?%elem_of_nil|]. cbn [map concat]. rewrite length_app.
  intros [->|Ht]%elem_of_cons; [|specialize (IH Ht)]; lia.
Qed.

Lemma fits_image n t : shaped t -> (length (image t) <= n)%nat -> fits n t.
Proof. intros Hs Hn. split; [done|]. etrans; [apply depth_image|done]. Qed.

Lemma says_opt_shaped o t ns : says_opt o t ns -> shaped t.
Proof. destruct o; [apply says_shaped|by intros [-> _]]. Qed.

(** The expressions of a list within the objects of the list. *)
Lemma trees_fit {A} (at_ : A -> loc) node own (trees : A -> list Tree) n l :
  (forall x t, t ∈ trees x -> (length (image t) <= length (own x))%nat) ->
  Forall (fun x => Forall shaped (trees x)) l -> (length (chain at_ node own l) <= n)%nat ->
  Forall (fun x => Forall (fits n) (trees x)) l.
Proof.
  rewrite !Forall_forall. intros Ht Hs Hn x Hx. specialize (Hs x Hx). rewrite Forall_forall in Hs |- *.
  intros t Hin. apply fits_image; [by apply Hs|]. pose proof (own_length at_ node own l x Hx). specialize (Ht x t Hin). lia.
Qed.

Lemma tree_fits {A} (at_ : A -> loc) node own (tree : A -> Tree) n l :
  (forall x, (length (image (tree x)) <= length (own x))%nat) ->
  Forall (fun x => shaped (tree x)) l -> (length (chain at_ node own l) <= n)%nat ->
  Forall (fun x => fits n (tree x)) l.
Proof.
  intros Ht Hs Hn. assert (Forall (fun x => Forall (fits n) [tree x]) l) as Hf.
  { apply (trees_fit at_ node own (fun x => [tree x])); [|eapply Forall_impl; [exact Hs|]; intros; by apply Forall_singleton|done].
    intros x t ->%list_elem_of_singleton. apply Ht. }
  eapply Forall_impl; [exact Hf|]. intros x Hx. exact (Forall_inv Hx).
Qed.

Lemma defs_fit n cols l ns :
  says_all says_column_def cols l ns -> (length (defs_chain l) <= n)%nat -> Forall (fun x => fits n (snd x)) l.
Proof.
  intros Hs Hn. eapply tree_fits; [|eapply says_all_Forall; [|exact Hs]|exact Hn].
  - intros x. cbn beta. rewrite length_app. lia.
  - intros x y k [_ H1]. by eapply says_opt_shaped.
Qed.

Lemma sets_fit n clauses l ns :
  says_all says_set clauses l ns -> (length (sets_chain l) <= n)%nat -> Forall (fun x => fits n (snd x)) l.
Proof.
  intros Hs Hn. eapply tree_fits; [|eapply says_all_Forall; [|exact Hs]|exact Hn].
  - intros x. cbn beta. rewrite length_app. lia.
  - intros x y k [_ H1]. by eapply says_shaped.
Qed.

Lemma rows_fit n rows l ns :
  says_all says_row rows l ns -> (length (rows_chain l) <= n)%nat -> Forall (fun x => Forall (fits n) (snd (fst x))) l.
Proof.
  intros Hs Hn. eapply (trees_fit _ _ _ (fun x => snd (fst x))); [|eapply says_all_Forall; [|exact Hs]|exact Hn].
  - intros x t Ht. cbn beta. rewrite length_app. pose proof (concat_length _ t Ht). lia.
  - intros x y k H1. eapply says_all_Forall; [|exact H1]. intros; by eapply says_shaped.
Qed.

Lemma lists_length :
  (forall l, length l <= length (defs_chain l))%nat /\ (forall l, length l <= length (columns_chain l))%nat /\
  (forall l, length l <= length (rows_chain l))%nat /\ (forall l, length l <= length (orders_chain l))%nat /\
  (forall l, length l <= length (sets_chain l))%nat.
Proof. split_and!; intros l; apply chain_length. Qed.

(** The fuel of parser_free_ast is enough. *)
Lemma stmt_fits_image n s m ns : says_stmt s m ns -> (length (stmt_image m) <= n)%nat -> stmt_fits n n m.
Proof.
  destruct lists_length as (Hdefs & Hcols & Hrows & Horders & Hsets).
  destruct s, m; try done; cbn [says_stmt stmt_image stmt_fits]; rewrite ?length_app, ?defs_image, ?columns_image, ?rows_image,
    ?orders_image_chain, ?sets_image_chain; intros Hsay Hn.
  - destruct Hsay as [_ Hsay]. split; [eapply defs_fit; [exact Hsay|lia]|]. etrans; [apply Hdefs|lia].
  - destruct Hsay as (_ & _ & Hsay). split; [etrans; [apply Hcols|lia]|].
    split; [eapply rows_fit; [exact Hsay|lia]|]. etrans; [apply Hrows|lia].
  - destruct Hsay as (_ & n1 & n2 & _ & Hsay & Hw). split; [eapply sets_fit; [exact Hsay|lia]|].
    split; [etrans; [apply Hsets|lia]|apply fits_image; [by eapply says_shaped|lia]].
  - destruct Hsay as (_ & Hw). apply fits_image; [by eapply says_shaped|lia].
  - destruct Hsay as (_ & _ & _ & _ & n1 & n2 & n3 & _ & Hw & Hl & Ho).
    split_and!; first [etrans; [apply Hcols|lia]|etrans; [apply Horders|lia]|apply fits_image; [by eapply says_opt_shaped|lia]].
Qed.

Lemma free_ast_ok h0 h l s m ns rest :
  heap_ok h0 -> extends h0 h (stmt_objects l m ++ rest) -> says_stmt s m ns ->
  exists h', parser_free_ast_mem h l = Done h' /\ extends h0 h' rest.
Proof.
  intros Hok He Hs. apply (extends_release (fun h' => ast_free (list_fuel h) (list_fuel h) h' l) h0 h (stmt_objects l m)); [done|done|].
  eapply releases_node; [apply releases_fields|].
  - eapply stmt_fits_image; [exact Hs|]. apply (added_below h0 h _ ((l, OStmt 1 (stmt_of m)) :: rest) Hok).
    eapply extends_perm; [exact He|]. unfold stmt_objects. solve_Permutation.
  - intros h' Hh Hl. unfold ast_free. by rewrite (proj2 (Z.eqb_neq _ 0) Hl), Hh.
Qed.

(** ** Theorems *)

(** C4: the parser is memory safe and its statements are owned by the caller. On any
    tokens and any heap, parsing with the code's allocations, copies and frees has the
    outcome of the parser on values. Where that returns a statement, the heap afterwards
    is the heap before, the nodes, names, lists and expressions of exactly that
    statement, the column names of its expressions and leaked objects: only after an
    error, or for the default values that a CREATE TABLE gives twice. parser_free_ast
    then frees the statement, each object once, and leaves the column names. Where the
    parser returns NULL the objects of the caller are as they were. *)
Theorem parser_parse_mem_refines {L} `{TokenSource L} (fuel : nat) (p : Parser L) (h : Heap) :
  heap_ok h ->
  match parser_parse fuel p with
  | Done (Some s, p') =>
      exists l m ns leaked h' h'', parser_parse_mem fuel p h = Done (l, p', h') /\ l <> 0 /\ says_stmt s m ns /\
        extends h h' (stmt_objects l m ++ ns ++ leaked) /\
        (has_error p' = false -> create_table s = false -> leaked = []) /\
        parser_free_ast_mem h' l = Done h'' /\ extends h h'' (ns ++ leaked)
  | Done (None, p') => exists leaked h', parser_parse_mem fuel p h = Done (0, p', h') /\ extends h h' leaked
  | Undef => parser_parse_mem fuel p h = Undef
  | NoFuel => parser_parse_mem fuel p h = NoFuel
  end.
Proof.
  intros Hok. pose proof (parser_parse_parses fuel p h Hok) as Hm.
  destruct (parser_parse fuel p) as [[[s|] p']| |]; [| |done..]; destruct Hm as ([[r q] h'] & -> & E & _ & Hx);
    cbn [fst snd app] in *; subst q.
  - destruct Hx as (own & lk & (Hz & m & ns & junk & Hs & -> & Hj) & He & Hl). rewrite <- !app_assoc in He.
    destruct (free_ast_ok h h' r s m ns _ Hok He Hs) as (h'' & E & He'').
    exists r, m, ns, (junk ++ lk), h', h''. split_and!; [done|done|done|done| |done|done].
    intros H1 H2. by rewrite (Hj H2), (Hl H1).
  - destruct Hx as [-> [lk He]]. by exists lk, h'.
Qed.

Definition memory_sample : list Z := zstr "SELECT a AS c, b FROM t WHERE a = 'x' ORDER BY b DESC, c LIMIT 3;".

Lemma parser_parse_mem_refines_witness :
  exists s l m ns leaked h' h'' p', parser_parse_mem 60 (parser_of memory_sample) no_objects = Done (l, p', h') /\
    says_stmt s m ns /\ extends no_objects h' (stmt_objects l m ++ ns ++ leaked) /\
    (has_error p' = false -> create_table s = false -> leaked = []) /\
    parser_free_ast_mem h' l = Done h'' /\ extends no_objects h'' (ns ++ leaked).
Proof.
  assert (heap_ok no_objects) as Hok by (split; [reflexivity|intros l _; apply lookup_empty]).
  pose proof (parser_parse_mem_refines 60 (parser_of memory_sample) no_objects Hok) as Hm.
  destruct (parser_parse 60 (parser_of memory_sample)) as [[[s|] p']| |] eqn:E; [|exfalso; vm_compute in E; discriminate E..].
  destruct Hm as (l & m & ns & leaked & h' & h'' & H1 & _ & H2 & H3 & H4 & H5 & H6).
  exists s, l, m, ns, leaked, h', h'', p'. repeat (split; [assumption|]). exact H6.
Defined.

(** What is left of a statement after parser_free_ast, in objects. *)
Definition left_over (text : list Z) : option (bool * nat) :=
  match parser_parse_mem 60 (parser_of text) no_objects with
  | Done (l, p, h) =>
      match parser_free_ast_mem h l with Done h => Some (has_error p, size (cells h)) | _ => None end
  | _ => None
  end.

(** The column name of an expression; the first of two default values; then, on the
    error paths of the parser: the name of a column; the alias of a column; the columns of
    a SELECT and its ORDER BY item; the columns of an INSERT, with no error set; the SET
    clauses. *)
Lemma left_over_samples :
  left_over memory_sample = Some (false, 1%nat) /\
  left_over (zstr "CREATE TABLE t (a TEXT DEFAULT 1 DEFAULT 2);") = Some (false, 1%nat) /\
  left_over (zstr "CREATE TABLE t (a TEXT, 1);") = Some (true, 1%nat) /\
  left_over (zstr "SELECT a AS b, 1 FROM t;") = Some (true, 1%nat) /\
  left_over (zstr "SELECT a FROM t ORDER BY b, 1;") = Some (true, 4%nat) /\
  left_over (zstr "INSERT INTO t (a) VALUES ();") = Some (false, 2%nat) /\
  left_over (zstr "UPDATE t SET a = 1;") = Some (true, 3%nat).
Proof. vm_compute. split_and!; reflexivity. Qed.
