(* ===== verification/Stats.v ===== *)
(** Model of src/observability/stats.c: the process-wide counters, the statistics
    per table, and the text of the dump. One thread runs, so the atomic operations
    are plain ones. *)
From Stdlib Require Import ZArith Lia String.
From stdpp Require Import base numbers option list functions gmap.
From S2P Require Import Prelude CString Double Fields.

(** ** State *)

(** The members of struct Statistics, in order. *)
Inductive Counter : Type :=
  | connections_total | connections_failed | connections_active
  | queries_total | queries_select | queries_insert | queries_update | queries_delete | queries_failed
  | transactions_total | transactions_committed | transactions_rolled_back
  | pages_read | pages_written | pages_cache_hit | pages_cache_miss
  | wal_entries_written | wal_checkpoints
  | query_time_us | cache_evictions | fsync_calls
  | errors_storage | errors_protocol | errors_internal.

#[export] Instance Counter_eq_dec : EqDecision Counter.
Proof. solve_decision. Defined.

(** The struct, as the value of each member. *)
Definition Statistics : Type := Counter -> Z.

Definition stats_zero : Statistics := fun _ => 0.

Record TableStats : Type := mkTableStats {
  table_name : list Z;
  row_count : Z;
  pages_used : Z;
  index_size : Z;
  total_scans : Z;
  range_scans : Z;
  point_lookups : Z;
  inserts : Z;
  updates : Z;
  deletes : Z }.

Definition table_zero : TableStats := mkTableStats (replicate 64 0) 0 0 0 0 0 0 0 0 0.

Definition MAX_TRACKED_TABLES : nat := 64.

(** The static variables of the file. *)
Record StatsState : Type := mkStats {
  g_stats : Statistics;
  g_stats_initialized : bool;
  g_table_stats : list TableStats;
  g_table_stats_count : nat }.

(** At program start. *)
Definition stats_start : StatsState :=
  mkStats stats_zero false (replicate MAX_TRACKED_TABLES table_zero) 0.

Implicit Types st : StatsState.

(** ** Initialization *)

Definition stats_clear st : StatsState :=
  mkStats stats_zero (g_stats_initialized st) (replicate MAX_TRACKED_TABLES table_zero) 0.

Definition stats_init st : StatsState :=
  if g_stats_initialized st then st
  else mkStats stats_zero true (replicate MAX_TRACKED_TABLES table_zero) 0.

Definition stats_destroy st : StatsState :=
  mkStats (g_stats st) false (g_table_stats st) (g_table_stats_count st).

Definition stats_reset st : StatsState :=
  if negb (g_stats_initialized st) then st else stats_clear st.

(** ** Counter operations *)

(** A chain of strcmp tests, in order. *)
Fixpoint strcmp_chain (s : list Z) (chain : list (string * Counter)) : outcome (option Counter) :=
  match chain with
  | [] => Done None
  | (name, c) :: chain =>
      let* e := streq s name in
      if e then Done (Some c) else strcmp_chain s chain
  end.

(** The names [stats_increment_by] knows. *)
Definition counter_chain : list (string * Counter) :=
  [("connections_total"%string, connections_total);
   ("connections_failed"%string, connections_failed);
   ("connections_active"%string, connections_active);
   ("queries_total"%string, queries_total);
   ("queries_select"%string, queries_select);
   ("queries_insert"%string, queries_insert);
   ("queries_update"%string, queries_update);
   ("queries_delete"%string, queries_delete);
   ("queries_failed"%string, queries_failed);
   ("transactions_total"%string, transactions_total);
   ("transactions_committed"%string, transactions_committed);
   ("transactions_rolled_back"%string, transactions_rolled_back);
   ("pages_read"%string, pages_read);
   ("pages_written"%string, pages_written);
   ("pages_cache_hit"%string, pages_cache_hit);
   ("pages_cache_miss"%string, pages_cache_miss);
   ("wal_entries_written"%string, wal_entries_written);
   ("wal_checkpoints"%string, wal_checkpoints);
   ("query_time_us"%string, query_time_us);
   ("cache_evictions"%string, cache_evictions);
   ("fsync_calls"%string, fsync_calls);
   ("errors_storage"%string, errors_storage);
   ("errors_protocol"%string, errors_protocol);
   ("errors_internal"%string, errors_internal)].

(** The ones [stats_get] knows. *)
Definition get_chain : list (string * Counter) :=
  [("connections_total"%string, connections_total);
   ("connections_failed"%string, connections_failed);
   ("connections_active"%string, connections_active);
   ("queries_total"%string, queries_total);
   ("queries_failed"%string, queries_failed)].

(** The one [stats_gauge_set] knows. *)
Definition gauge_chain : list (string * Counter) := [("connections_active"%string, connections_active)].

Definition set_counters st (s : Statistics) : StatsState :=
  mkStats s (g_stats_initialized st) (g_table_stats st) (g_table_stats_count st).

(** __atomic_add_fetch on a uint64_t member. *)
Definition add_fetch (s : Statistics) (c : Counter) (value : Z) : Statistics :=
  <[c := u64 (s c + value)]> s.

(** NULL is [None]. *)
Definition stats_increment_by st (counter : option (list Z)) (value : Z) : outcome StatsState :=
  match counter with
  | None => Done st
  | Some counter =>
      if negb (g_stats_initialized st) then Done st else
      let* c := strcmp_chain counter counter_chain in
      match c with
      | Some c => Done (set_counters st (add_fetch (g_stats st) c value))
      | None => Done st
      end
  end.

Definition stats_increment st (counter : option (list Z)) : outcome StatsState :=
  stats_increment_by st counter 1.

Definition stats_gauge_set st (gauge : option (list Z)) (value : Z) : outcome StatsState :=
  match gauge with
  | None => Done st
  | Some gauge =>
      if negb (g_stats_initialized st) then Done st else
      let* c := strcmp_chain gauge gauge_chain in
      match c with
      | Some c => Done (set_counters st (<[c := value]> (g_stats st)))
      | None => Done st
      end
  end.

Definition stats_get st (counter : option (list Z)) : outcome Z :=
  match counter with
  | None => Done 0
  | Some counter =>
      if negb (g_stats_initialized st) then Done 0 else
      let* c := strcmp_chain counter get_chain in
      Done (match c with Some c => g_stats st c | None => 0 end)
  end.

(** ** Convenience increment functions *)

Definition inc st (name : string) : outcome StatsState := stats_increment st (Some (lit name)).

Definition stats_inc_connections_total st := inc st "connections_total".
Definition stats_inc_connections_failed st := inc st "connections_failed".
Definition stats_inc_queries_total st := inc st "queries_total".
Definition stats_inc_queries_select st := inc st "queries_select".
Definition stats_inc_queries_insert st := inc st "queries_insert".
Definition stats_inc_queries_update st := inc st "queries_update".
Definition stats_inc_queries_delete st := inc st "queries_delete".
Definition stats_inc_transactions_committed st := inc st "transactions_committed".
Definition stats_inc_transactions_rolled_back st := inc st "transactions_rolled_back".
Definition stats_inc_pages_read st := inc st "pages_read".
Definition stats_inc_pages_written st := inc st "pages_written".
Definition stats_inc_cache_hit st := inc st "pages_cache_hit".
Definition stats_inc_cache_miss st := inc st "pages_cache_miss".
Definition stats_add_query_time st (us : Z) := stats_increment_by st (Some (lit "query_time_us")) us.

(** ** Table statistics *)

(** The search loop over the entries in use: the index of the first match. *)
Fixpoint find_table (entries : list TableStats) (name : list Z) (i : nat) : outcome (option nat) :=
  match entries with
  | [] => Done None
  | t :: entries =>
      let* r := strcmp (table_name t) name in
      if r =? 0 then Done (Some i) else find_table entries name (S i)
  end.

(** strncpy of 63 bytes and a terminator. *)
Definition set_name (t : TableStats) (name : list Z) : outcome TableStats :=
  let* n := strncpy (table_name t) 0 name 63 in
  let* n := buf_write 63 [0] n in
  Done (mkTableStats n (row_count t) (pages_used t) (index_size t) (total_scans t) (range_scans t)
    (point_lookups t) (inserts t) (updates t) (deletes t)).

(** The switch on [operation]: 0 scan, 1 insert, 2 update, 3 delete. *)
Definition count_operation (t : TableStats) (operation delta : Z) : TableStats :=
  let '(mkTableStats n rc pu isz ts rs pl i u d) := t in
  if operation =? 0 then mkTableStats n rc pu isz (u64 (ts + 1)) rs pl i u d
  else if operation =? 1 then mkTableStats n (u64 (rc + delta)) pu isz ts rs pl (u64 (i + 1)) u d
  else if operation =? 2 then mkTableStats n rc pu isz ts rs pl i (u64 (u + 1)) d
  else if operation =? 3 then mkTableStats n (u64 (rc - delta)) pu isz ts rs pl i u (u64 (d + 1))
  else t.

Definition set_tables st (l : list TableStats) (count : nat) : StatsState :=
  mkStats (g_stats st) (g_stats_initialized st) l count.

Definition stats_update_table_stats st (name : option (list Z)) (operation delta : Z)
    : outcome StatsState :=
  match name with
  | None => Done st
  | Some name =>
      if negb (g_stats_initialized st) then Done st else
      let* ts := find_table (take (g_table_stats_count st) (g_table_stats st)) name 0 in
      let* '(ts, st) :=
        match ts with
        | Some i => Done (Some i, st)
        | None =>
            let i := g_table_stats_count st in
            if (i <? MAX_TRACKED_TABLES)%nat then
              let* t := outcome_of_option (g_table_stats st !! i) in
              let* t := set_name t name in
              Done (Some i, set_tables st (<[i := t]> (g_table_stats st)) (S i))
            else Done (None, st)
        end in
      match ts with
      | None => Done st
      | Some i =>
          let* t := outcome_of_option (g_table_stats st !! i) in
          Done (set_tables st (<[i := count_operation t operation delta]> (g_table_stats st))
                  (g_table_stats_count st))
      end
  end.

(** The pointer returned, as what it points to. *)
Definition stats_get_table_stats st (name : option (list Z)) : outcome (option TableStats) :=
  match name with
  | None => Done None
  | Some name =>
      if negb (g_stats_initialized st) then Done None else
      let* ts := find_table (take (g_table_stats_count st) (g_table_stats st)) name 0 in
      match ts with
      | Some i => let* t := outcome_of_option (g_table_stats st !! i) in Done (Some t)
      | None => Done None
      end
  end.

(** ** Output *)

(** A line of the dump: texts and counters in "%lu". *)
Definition field (label : string) (v : Z) : list Z := zstr label ++ print_int v.

Definition dump_counters (s : Statistics) : list Z :=
  zstr "=== TinyDB Statistics ===" ++ [10] ++
  field "Connections:   total=" (s connections_total) ++ field " failed=" (s connections_failed) ++
  field " active=" (s connections_active) ++ [10] ++
  field "Queries:       total=" (s queries_total) ++ field " select=" (s queries_select) ++
  field " insert=" (s queries_insert) ++ field " update=" (s queries_update) ++
  field " delete=" (s queries_delete) ++ field " failed=" (s queries_failed) ++ [10] ++
  field "Transactions:  total=" (s transactions_total) ++
  field " committed=" (s transactions_committed) ++
  field " rolled_back=" (s transactions_rolled_back) ++ [10] ++
  field "Storage:       pages_read=" (s pages_read) ++ field " pages_written=" (s pages_written) ++ [10] ++
  field "Cache:         hits=" (s pages_cache_hit) ++ field " misses=" (s pages_cache_miss) ++
  field " evictions=" (s cache_evictions) ++ [10] ++
  field "WAL:           entries=" (s wal_entries_written) ++
  field " checkpoints=" (s wal_checkpoints) ++ [10] ++
  field "Performance:   query_time_us=" (s query_time_us) ++ field " fsync_calls=" (s fsync_calls) ++ [10] ++
  field "Errors:        storage=" (s errors_storage) ++ field " protocol=" (s errors_protocol) ++
  field " internal=" (s errors_internal) ++ [10].

Definition dump_table (t : TableStats) : list Z :=
  zstr "  " ++ text (table_name t) ++ field ": rows=" (row_count t) ++ field " scans=" (total_scans t) ++
  field " inserts=" (inserts t) ++ field " updates=" (updates t) ++ field " deletes=" (deletes t) ++ [10].

(** What is printed, and the state: a dump initializes the statistics. *)
Definition stats_dump st : list Z * StatsState :=
  let st := stats_init st in
  (dump_counters (g_stats st) ++
   (if (0 <? g_table_stats_count st)%nat then
      [10] ++ zstr "Table Statistics:" ++ [10] ++
      concat (map dump_table (take (g_table_stats_count st) (g_table_stats st)))
    else []) ++
   zstr "========================" ++ [10], st).

(** The SIGUSR1 handler. *)
Definition sigusr1_handler st : list Z * StatsState := stats_dump st.

Definition stats_get_global st : Statistics := g_stats st.

(** ** Specifications *)

(** The first name of a chain that is [s]. *)
Definition chain_lookup (s : list Z) (chain : list (string * Counter)) : option Counter :=
  snd <$> (snd <$> list_find (fun x => zstr (fst x) = s) chain).

(** The name of a member. *)
Definition counter_name (c : Counter) : string :=
  default EmptyString (fst <$> (snd <$> list_find (fun x => snd x = c) counter_chain)).

Definition readable (c : Counter) : bool := bool_decide (c ∈ map snd get_chain).

(** Increments by name, one after the other. *)
Definition run_increments st (events : list (list Z * Z)) : outcome StatsState :=
  foldl (fun m '(name, v) => let* st := m in stats_increment_by st (Some (name ++ [0])) v) (Done st) events.

(** What they add to [c]. *)
Definition total (c : Counter) (events : list (list Z * Z)) : Z :=
  foldr (fun '(name, v) acc => (if bool_decide (chain_lookup name counter_chain = Some c) then v else 0) + acc)
    0 events.

(** The counts of one table that updates change. *)
Record TableCounts : Type := mkCounts {
  tc_rows : Z; tc_scans : Z; tc_inserts : Z; tc_updates : Z; tc_deletes : Z }.

Definition counts (t : TableStats) : TableCounts :=
  mkCounts (row_count t) (total_scans t) (inserts t) (updates t) (deletes t).

Definition spec_count (c : TableCounts) (operation delta : Z) : TableCounts :=
  let '(mkCounts r s i u d) := c in
  if operation =? 0 then mkCounts r (u64 (s + 1)) i u d
  else if operation =? 1 then mkCounts (u64 (r + delta)) s (u64 (i + 1)) u d
  else if operation =? 2 then mkCounts r s i (u64 (u + 1)) d
  else if operation =? 3 then mkCounts (u64 (r - delta)) s i u (u64 (d + 1))
  else c.

(** At most 64 tables are tracked; further ones are dropped. *)
Definition spec_update (m : gmap (list Z) TableCounts) (s : list Z) (operation delta : Z)
    : gmap (list Z) TableCounts :=
  match m !! s with
  | Some c => <[s := spec_count c operation delta]> m
  | None => if (size m <? MAX_TRACKED_TABLES)%nat
            then <[s := spec_count (mkCounts 0 0 0 0 0) operation delta]> m else m
  end.

Definition named (t : TableStats) : Prop := length (table_name t) = 64%nat /\ 0 ∈ table_name t.

(** The table array: entries in use have names, the others are zero. *)
Record tables_ok st : Prop := {
  to_init : g_stats_initialized st = true;
  to_count : (g_table_stats_count st <= MAX_TRACKED_TABLES)%nat;
  to_length : length (g_table_stats st) = MAX_TRACKED_TABLES;
  to_named : Forall named (take (g_table_stats_count st) (g_table_stats st));
  to_free : drop (g_table_stats_count st) (g_table_stats st) =
    replicate (MAX_TRACKED_TABLES - g_table_stats_count st) table_zero }.

Definition entry (t : TableStats) : list Z * TableCounts := (text (table_name t), counts t).
Definition entries st : list (list Z * TableCounts) :=
  map entry (take (g_table_stats_count st) (g_table_stats st)).

(** The array holds the map [m]. *)
Definition tables_rep st (m : gmap (list Z) TableCounts) : Prop :=
  tables_ok st /\ NoDup (entries st).*1 /\ m = list_to_map (entries st).

(** ** Lemmas *)

Lemma strcmp_chain_ok b s chain :
  cstr b s -> Forall (fun x => clean (fst x) = true) chain ->
  strcmp_chain b chain = Done (chain_lookup s chain).
Proof.
  intros Hb. unfold chain_lookup.
  induction 1 as [|[name c] chain Hn _ IH]; [done|]. cbn [strcmp_chain fst snd list_find] in *.
  rewrite (streq_ok b s name Hb Hn), bind_Done, IH. case_bool_decide as E.
  - by rewrite decide_True.
  - rewrite decide_False by done. by destruct (list_find _ chain) as [[]|].
Qed.

Lemma chains_clean : Forall (fun x => clean (fst x) = true) counter_chain /\
  Forall (fun x => clean (fst x) = true) get_chain /\ Forall (fun x => clean (fst x) = true) gauge_chain.
Proof. split_and!; apply (bool_decide_unpack _); by vm_compute. Qed.

Lemma counter_name_chain c : chain_lookup (zstr (counter_name c)) counter_chain = Some c /\
  clean (counter_name c) = true /\
  chain_lookup (zstr (counter_name c)) get_chain = if readable c then Some c else None.
Proof. by destruct c; vm_compute. Qed.

Lemma u64_add_l a b : u64 (u64 a + b) = u64 (a + b).
Proof. unfold u64. by rewrite Zplus_mod_idemp_l. Qed.

Lemma add_fetch_at s c v c' :
  add_fetch s c v c' = if decide (c = c') then u64 (s c + v) else s c'.
Proof. unfold add_fetch, insert, fn_insert. by destruct (decide (c = c')) as [->|]. Qed.

(** One increment. *)
Lemma increment_by_ok st b s v :
  g_stats_initialized st = true -> cstr b s ->
  stats_increment_by st (Some b) v = Done
    (match chain_lookup s counter_chain with
     | Some c => set_counters st (add_fetch (g_stats st) c v)
     | None => st
     end).
Proof.
  intros Hi Hb. unfold stats_increment_by. rewrite Hi. cbn [negb].
  rewrite (strcmp_chain_ok b s _ Hb) by apply chains_clean. rewrite bind_Done.
  by destruct (chain_lookup s counter_chain).
Qed.

Lemma get_ok st b s :
  g_stats_initialized st = true -> cstr b s ->
  stats_get st (Some b) = Done (match chain_lookup s get_chain with Some c => g_stats st c | None => 0 end).
Proof.
  intros Hi Hb. unfold stats_get. rewrite Hi. cbn [negb].
  by rewrite (strcmp_chain_ok b s _ Hb), bind_Done by apply chains_clean.
Qed.

Lemma c_string s : 0 ∉ s -> cstr (s ++ [0]) s.
Proof. intros Hs. split; [by exists []|done]. Qed.

Lemma run_increments_ok st events :
  g_stats_initialized st = true -> Forall (fun '(name, _) => 0 ∉ (name : list Z)) events ->
  (forall c, 0 <= g_stats st c < 2 ^ 64) ->
  exists st', run_increments st events = Done st' /\
    g_stats_initialized st' = true /\ g_table_stats st' = g_table_stats st /\
    g_table_stats_count st' = g_table_stats_count st /\
    forall c, g_stats st' c = u64 (g_stats st c + total c events).
Proof.
  intros Hi He Hr. unfold run_increments. revert st Hi Hr. induction He as [|[s v] events Hs _ IH]; intros st Hi Hr.
  { exists st. split_and!; try done. intros c. simpl. rewrite Z.add_0_r. symmetry. by apply u64_id. }
  cbn [foldl]. rewrite bind_Done, (increment_by_ok st _ s v Hi (c_string s Hs)).
  destruct (IH (match chain_lookup s counter_chain with
     | Some c => set_counters st (add_fetch (g_stats st) c v) | None => st end))
    as (st' & E & H1 & H2 & H3 & H4).
  - by destruct (chain_lookup s counter_chain).
  - intros c. destruct (chain_lookup s counter_chain) as [c'|]; [|done].
    cbn [set_counters g_stats]. rewrite add_fetch_at.
    destruct (decide (c' = c)) as [->|]; [|done]. apply Z.mod_pos_bound. lia.
  - exists st'. rewrite E. split_and!; [done|done|..].
    + rewrite H2. by destruct (chain_lookup s counter_chain).
    + rewrite H3. by destruct (chain_lookup s counter_chain).
    + intros c. rewrite H4. cbn [total foldr]. destruct (chain_lookup s counter_chain) as [c'|].
      * cbn [set_counters g_stats]. rewrite add_fetch_at. case_bool_decide as Ec; simplify_eq.
        -- rewrite decide_True by done. rewrite u64_add_l. f_equal. unfold total. lia.
        -- rewrite decide_False by congruence. f_equal.
      * rewrite bool_decide_eq_false_2 by done. f_equal.
Qed.

(** *** The table array *)

Lemma find_table_ok ts b s i :
  Forall named ts -> cstr b s ->
  find_table ts b i =
    Done ((fun x => (i + fst x)%nat) <$> list_find (fun e => fst e = s) (map entry ts)).
Proof.
  intros Hts Hb. revert i. induction Hts as [|t ts [_ Hz] _ IH]; intros i; [done|].
  cbn [find_table map list_find]. destruct (strcmp_cstr _ b _ s (text_cstr _ Hz) Hb) as (r & -> & Hr).
  rewrite bind_Done. destruct (Z.eqb_spec r 0) as [H0|H0].
  - rewrite decide_True by (simpl; tauto). simpl. by rewrite Nat.add_0_r.
  - rewrite decide_False by (simpl; tauto). rewrite IH.
    destruct (list_find _ (map entry ts)) as [[j e]|]; simpl; [|done]. do 2 f_equal. lia.
Qed.

(** Finding a key is looking it up in the map. *)
Lemma list_find_to_map {V} (l : list (list Z * V)) s :
  NoDup l.*1 ->
  match list_find (fun e => fst e = s) l with
  | Some (i, e) => l !! i = Some e /\ fst e = s /\ (list_to_map l : gmap _ V) !! s = Some (snd e)
  | None => (list_to_map l : gmap _ V) !! s = None
  end.
Proof.
  intros Hd. destruct (list_find (fun e => fst e = s) l) as [[i [k v]]|] eqn:E.
  - apply list_find_Some in E as (Hl & Hk & _). simpl in *. subst k. split_and!; [done..|].
    apply elem_of_list_to_map_1; [done|]. by eapply list_elem_of_lookup_2.
  - apply list_find_None in E. apply not_elem_of_list_to_map_1. intros (e & -> & He)%list_elem_of_fmap.
    rewrite Forall_forall in E. by apply (E e He).
Qed.

Lemma list_to_map_update {V} (l : list (list Z * V)) i s v w :
  NoDup l.*1 -> l !! i = Some (s, v) ->
  (list_to_map (<[i := (s, w)]> l) : gmap _ V) = <[s := w]> (list_to_map l).
Proof.
  revert i. induction l as [|[k x] l IH]; intros [|i] Hd Hi; simplify_eq/=.
  - by rewrite insert_insert_eq.
  - apply NoDup_cons in Hd as [Hk Hd]. rewrite (IH i) by done. apply insert_insert_ne.
    intros ->. apply Hk. apply list_elem_of_fmap. exists (s, v). split; [done|].
    by eapply list_elem_of_lookup_2.
Qed.

Lemma set_name_ok t b s :
  named t -> cstr b s ->
  set_name t b = Done (mkTableStats (pad 64 s) (row_count t) (pages_used t) (index_size t) (total_scans t)
    (range_scans t) (point_lookups t) (inserts t) (updates t) (deletes t)).
Proof.
  intros [Hl _] Hb. unfold set_name, strncpy. rewrite (strncpy_bytes_cstr 63 b s Hb), bind_Done.
  set (w := take 63 s ++ _).
  assert (length w = 63%nat) as Hw by (unfold w; rewrite length_app, length_replicate, length_take; lia).
  rewrite buf_write_Done, bind_Done by lia. rewrite buf_write_Done, bind_Done
    by (rewrite ?length_splice; simpl; lia).
  do 2 f_equal. rewrite pad_eq by lia. change (64 - 1)%nat with 63%nat. fold w.
  pose proof (splice_app 0 w [0] (table_name t) ltac:(lia)) as E. rewrite Hw in E.
  change (0 + 63)%nat with (Z.to_nat 63) in E. change (Z.to_nat 0) with 0%nat. rewrite E.
  unfold splice. rewrite drop_ge by (rewrite length_app, Hw; simpl; lia). simpl. by rewrite app_nil_r.
Qed.

Lemma named_pad t s : named (mkTableStats (pad 64 s) (row_count t) (pages_used t) (index_size t) (total_scans t)
    (range_scans t) (point_lookups t) (inserts t) (updates t) (deletes t)).
Proof.
  split; cbn [table_name]; [apply length_pad; lia|]. rewrite pad_eq by lia. apply elem_of_app. right. by left.
Qed.

Lemma count_operation_name t op d : table_name (count_operation t op d) = table_name t.
Proof. destruct t. unfold count_operation. by repeat case_match. Qed.

Lemma count_operation_counts t op d : counts (count_operation t op d) = spec_count (counts t) op d.
Proof. destruct t. unfold count_operation, spec_count, counts. cbn. by repeat case_match. Qed.

Lemma named_count t op d : named t -> named (count_operation t op d).
Proof. unfold named. by rewrite count_operation_name. Qed.

(** Counting on entry [i]. *)
Lemma tables_ok_count st i t op d :
  tables_ok st -> (i < g_table_stats_count st)%nat -> g_table_stats st !! i = Some t ->
  let st' := set_tables st (<[i := count_operation t op d]> (g_table_stats st)) (g_table_stats_count st) in
  tables_ok st' /\
  entries st' = <[i := (text (table_name t), spec_count (counts t) op d)]> (entries st).
Proof.
  intros [Hi Hc Hl Hn Hf] Hlt Ht st'. unfold st', entries.
  cbn [set_tables g_stats_initialized g_table_stats g_table_stats_count]. split.
  - constructor; cbn [set_tables g_stats_initialized g_table_stats g_table_stats_count]; auto.
    + by rewrite length_insert.
    + rewrite take_insert_lt by lia. apply Forall_insert; [done|]. apply named_count.
      rewrite Forall_lookup in Hn. apply (Hn i). by rewrite lookup_take_lt.
    + by rewrite drop_insert_lt by lia.
  - rewrite take_insert_lt by lia. change (map entry) with (fmap (M:=list) entry). rewrite list_fmap_insert. f_equal.
    unfold entry. by rewrite count_operation_name, count_operation_counts.
Qed.

(** A fresh entry. *)
Definition new_entry st b s : Prop :=
  exists t, set_name table_zero b = Done t /\ table_name t = pad 64 s /\ counts t = mkCounts 0 0 0 0 0 /\
    let st' := set_tables st (<[g_table_stats_count st := t]> (g_table_stats st)) (S (g_table_stats_count st)) in
    tables_ok st' /\ g_table_stats st' !! g_table_stats_count st = Some t /\
    entries st' = entries st ++ [(text (pad 64 s), mkCounts 0 0 0 0 0)].

Lemma tables_ok_new st b s :
  tables_ok st -> (g_table_stats_count st < MAX_TRACKED_TABLES)%nat -> cstr b s ->
  g_table_stats st !! g_table_stats_count st = Some table_zero /\ new_entry st b s.
Proof.
  intros [Hi Hc Hl Hn Hf] Hlt Hb. unfold MAX_TRACKED_TABLES in *.
  assert (named table_zero) as Hz by (split; [done|]; by left).
  assert (g_table_stats st !! g_table_stats_count st = Some table_zero) as Hfree.
  { rewrite <- (Nat.add_0_r (g_table_stats_count st)), <- lookup_drop, Hf.
    apply lookup_replicate_2. lia. }
  split; [done|]. eexists. split; [by apply set_name_ok|]. split; [done|]. split; [done|].
  cbn zeta. set (t := mkTableStats _ _ _ _ _ _ _ _ _ _).
  assert (take (S (g_table_stats_count st)) (<[g_table_stats_count st := t]> (g_table_stats st)) =
    take (g_table_stats_count st) (g_table_stats st) ++ [t]) as Htk.
  { erewrite take_S_r by (apply list_lookup_insert_eq; lia). by rewrite take_insert_ge by lia. }
  unfold entries. cbn [set_tables g_stats_initialized g_table_stats g_table_stats_count]. split_and!.
  - constructor; cbn [set_tables g_stats_initialized g_table_stats g_table_stats_count]; auto.
    + by rewrite length_insert.
    + rewrite Htk. apply Forall_app. split; [done|]. constructor; [|constructor]. apply (named_pad table_zero).
    + rewrite drop_insert_lt by lia. rewrite <- Nat.add_1_r, <- drop_drop, Hf.
      rewrite drop_replicate. f_equal. unfold MAX_TRACKED_TABLES. lia.
  - apply list_lookup_insert_eq. lia.
  - rewrite Htk, map_app. done.
Qed.

Lemma entries_length st : tables_ok st -> length (entries st) = g_table_stats_count st.
Proof.
  intros [Hi Hc Hl Hn Hf]. unfold entries. rewrite length_map, length_take. lia.
Qed.

(** The table statistics refine a finite map from names to counts, for names that
    fit: an update counts on the entry of its table, which appears with the first
    one unless 64 tables are there, and a lookup gives that entry. *)
Lemma update_refines st m b s op d :
  tables_rep st m -> cstr b s -> (length s < 64)%nat ->
  exists st', stats_update_table_stats st (Some b) op d = Done st' /\ tables_rep st' (spec_update m s op d).
Proof.
  intros (Hok & Hd & ->) Hb Hs. unfold stats_update_table_stats.
  rewrite (to_init st Hok). cbn [negb]. rewrite (find_table_ok _ b s 0) by (done || apply Hok).
  rewrite bind_Done. fold (entries st). pose proof (list_find_to_map (entries st) s Hd) as Hfind.
  unfold spec_update. destruct (list_find _ (entries st)) as [[i [k c]]|] eqn:E.
  - destruct Hfind as (Hl & Hk & Hm). simpl in Hk, Hm. subst k. rewrite Hm. cbn [fmap option_fmap option_map fst snd].
    rewrite bind_Done. rewrite Nat.add_0_l.
    pose proof (lookup_lt_Some _ _ _ Hl) as Hlt. rewrite entries_length in Hlt by done.
    unfold entries in Hl. change (map entry) with (fmap (M:=list) entry) in Hl. rewrite list_lookup_fmap in Hl.
    destruct (take _ (g_table_stats st) !! i) as [t|] eqn:Et; [|done]. injection Hl as Hname Hc.
    rewrite lookup_take_lt in Et by done. rewrite Et. cbn [outcome_of_option]. rewrite bind_Done.
    destruct (tables_ok_count st i t op d Hok Hlt Et) as [Hok' He]. eexists. split; [done|].
    assert (entries st !! i = Some (s, c)) as Hl'.
    { unfold entries. change (map entry) with (fmap (M:=list) entry). rewrite list_lookup_fmap, lookup_take_lt by done.
      rewrite Et. simpl. unfold entry. by rewrite Hname, Hc. }
    rewrite Hname, Hc in He. split; [done|]. rewrite He. split.
    + rewrite list_fmap_insert. cbn [fst]. rewrite list_insert_id; [done|].
      by rewrite list_lookup_fmap, Hl'.
    + symmetry. by apply (list_to_map_update _ _ _ c).
  - rewrite Hfind. cbn [fmap option_fmap option_map]. rewrite map_size_list_to_map, entries_length by done.
    destruct (Nat.ltb_spec (g_table_stats_count st) MAX_TRACKED_TABLES) as [Hlt|Hge].
    + destruct (tables_ok_new st b s Hok Hlt Hb) as (Hz & t & Et & Hn & Hc0 & Hok' & Hi' & He).
      rewrite Hz. cbn [outcome_of_option]. rewrite !bind_Done, Et, !bind_Done.
      set (st1 := set_tables _ _ _) in *. rewrite Hi'. cbn [outcome_of_option]. rewrite bind_Done.
      destruct (tables_ok_count st1 (g_table_stats_count st) t op d Hok' ltac:(simpl; lia) Hi') as [Hok2 He2].
      eexists. split; [done|].
      assert (text (pad 64 s) = s) as Hp.
      { rewrite <- (app_nil_r (pad 64 s)). apply text_pad; [done|apply Hb]. }
      rewrite Hn, Hp, Hc0 in He2. rewrite Hp in He. rewrite He in He2.
      rewrite insert_app_r_alt, entries_length, Nat.sub_diag in He2 by (rewrite ?entries_length; done || lia).
      cbn [insert list_insert] in He2. split; [done|]. rewrite He2.
      apply not_elem_of_list_to_map_2 in Hfind. split.
      * rewrite fmap_app. simpl. apply NoDup_app. split_and!; [done| |apply NoDup_singleton].
        intros x Hx Hy. apply list_elem_of_singleton in Hy as ->. done.
      * symmetry. by apply list_to_map_snoc.
    + rewrite !bind_Done. eexists. split; [done|]. by split_and!.
Qed.

Lemma get_table_refines st m b s :
  tables_rep st m -> cstr b s ->
  exists t, stats_get_table_stats st (Some b) = Done t /\ counts <$> t = m !! s.
Proof.
  intros (Hok & Hd & ->) Hb. unfold stats_get_table_stats. rewrite (to_init st Hok). cbn [negb].
  rewrite (find_table_ok _ b s 0) by (done || apply Hok). rewrite bind_Done. fold (entries st).
  pose proof (list_find_to_map (entries st) s Hd) as Hfind.
  destruct (list_find _ (entries st)) as [[i [k c]]|]; cbn [fmap option_fmap option_map fst].
  - destruct Hfind as (Hl & Hk & Hm). rewrite Hm. simpl. unfold entries in Hl.
    change (map entry) with (fmap (M:=list) entry) in Hl. rewrite list_lookup_fmap in Hl.
    destruct (take _ (g_table_stats st) !! i) as [t|] eqn:Et; [|done]. injection Hl as _ Hc.
    apply lookup_take_Some in Et as [Et _]. rewrite Et. cbn [outcome_of_option]. rewrite bind_Done.
    eexists. split; [done|]. simpl. by rewrite Hc.
  - rewrite Hfind. by eexists.
Qed.

Lemma init_tables_rep st : g_stats_initialized st = false -> tables_rep (stats_init st) ∅.
Proof.
  intros Hi. unfold stats_init. rewrite Hi. split; [|split; [constructor|done]].
  constructor; cbn [g_stats_initialized g_table_stats g_table_stats_count]; try done. unfold MAX_TRACKED_TABLES. lia.
Qed.

(** Updates by name, one after the other. *)
Definition run_updates st (us : list (list Z * (Z * Z))) : outcome StatsState :=
  foldl (fun m '(name, (op, d)) => let* st := m in stats_update_table_stats st (Some (name ++ [0])) op d)
    (Done st) us.

Definition spec_updates (m : gmap (list Z) TableCounts) (us : list (list Z * (Z * Z))) :=
  foldl (fun m '(name, (op, d)) => spec_update m name op d) m us.

Lemma run_updates_refine st m us :
  tables_rep st m -> Forall (fun '(name, _) => 0 ∉ (name : list Z) /\ (length name < 64)%nat) us ->
  exists st', run_updates st us = Done st' /\ tables_rep st' (spec_updates m us).
Proof.
  intros Hr Hu. unfold run_updates, spec_updates. revert st m Hr.
  induction Hu as [|[s [op d]] us [Hs Hl] _ IH]; intros st m Hr; [by exists st|].
  cbn [foldl]. rewrite bind_Done.
  destruct (update_refines st m _ s op d Hr (c_string s Hs) Hl) as (st1 & -> & Hr1). by apply IH.
Qed.

(** ** Theorems *)

(** Counters count. After any sequence of increments by name, each of the 24
    members of the struct holds its old value plus everything added under its name,
    modulo 2^64 (names that are none change nothing), and stats_get returns this
    for five of them: total, failed and active connections, total and failed
    queries. For the other 19, which are counted as well, it returns 0. *)
Theorem stats_counts (st : StatsState) (events : list (list Z * Z)) :
  g_stats_initialized st = true -> (forall c, 0 <= g_stats st c < 2 ^ 64) ->
  Forall (fun '(name, _) => 0 ∉ (name : list Z)) events ->
  exists st', run_increments st events = Done st' /\
    forall c, stats_get_global st' c = u64 (g_stats st c + total c events) /\
      stats_get st' (Some (lit (counter_name c))) =
        Done (if readable c then u64 (g_stats st c + total c events) else 0).
Proof.
  intros Hi Hr He. destruct (run_increments_ok st events Hi He Hr) as (st' & E & Hi' & _ & _ & Hc).
  exists st'. split; [done|]. intros c. unfold stats_get_global. rewrite Hc. split; [done|].
  destruct (counter_name_chain c) as (_ & Hn & Hg).
  rewrite (get_ok st' _ (zstr (counter_name c)) Hi' (lit_cstr _ Hn)), Hg.
  by destruct (readable c); rewrite ?Hc.
Qed.

Lemma stats_counts_witness :
  exists st', run_increments (stats_init stats_start)
      [(zstr "queries_total", 2); (zstr "pages_read", 7); (zstr "queries_total", 2 ^ 64 - 1)] = Done st' /\
    stats_get_global st' pages_read = 7 /\ stats_get st' (Some (lit "pages_read")) = Done 0 /\
    stats_get st' (Some (lit "queries_total")) = Done 1.
Proof.
  destruct (stats_counts (stats_init stats_start)
    [(zstr "queries_total", 2); (zstr "pages_read", 7); (zstr "queries_total", 2 ^ 64 - 1)])
    as (st' & E & H).
  - reflexivity.
  - intros c. vm_compute. split; congruence.
  - repeat constructor; apply (bool_decide_unpack _); by vm_compute.
  - exists st'. split; [exact E|]. split; [|split].
    + rewrite (proj1 (H pages_read)). by vm_compute.
    + change (lit "pages_read") with (lit (counter_name pages_read)). rewrite (proj2 (H pages_read)).
      by vm_compute.
    + change (lit "queries_total") with (lit (counter_name queries_total)).
      rewrite (proj2 (H queries_total)). by vm_compute.
Defined.

(** C22: the table statistics refine a finite map from table names to counts. After
    stats_init and any sequence of updates of tables with names below 64 bytes, the
    statistics of a table are what the map holds that counts the same updates:
    nothing for a table that was never updated, and nothing for a table first
    updated when 64 others were there. *)
Theorem table_stats_refine_map (st : StatsState) (us : list (list Z * (Z * Z))) :
  g_stats_initialized st = false ->
  Forall (fun '(name, _) => 0 ∉ (name : list Z) /\ (length name < 64)%nat) us ->
  exists st', run_updates (stats_init st) us = Done st' /\
    forall s, 0 ∉ s -> exists t, stats_get_table_stats st' (Some (s ++ [0])) = Done t /\
      counts <$> t = spec_updates ∅ us !! s.
Proof.
  intros Hi Hu. destruct (run_updates_refine _ _ us (init_tables_rep st Hi) Hu) as (st' & E & Hr).
  exists st'. split; [done|]. intros s Hs. by apply (get_table_refines st' _ _ s Hr), c_string.
Qed.

Definition sample_updates : list (list Z * (Z * Z)) :=
  [(zstr "users", (1, 3)); (zstr "items", (0, 0)); (zstr "users", (3, 5))].

Lemma table_stats_refine_map_witness :
  exists st' t, run_updates (stats_init stats_start) sample_updates = Done st' /\
    stats_get_table_stats st' (Some (lit "users")) = Done t /\
    counts <$> t = Some (mkCounts (2 ^ 64 - 2) 0 1 0 1).
Proof.
  destruct (table_stats_refine_map stats_start sample_updates) as (st' & E & H).
  - reflexivity.
  - apply (bool_decide_unpack _). by vm_compute.
  - destruct (H (zstr "users")) as (t & Et & Hc).
    + apply (bool_decide_unpack _). by vm_compute.
    + exists st', t. split; [exact E|]. split; [exact Et|]. rewrite Hc. by vm_compute.
Defined.

(** A table name of 64 bytes or more is cut when its entry is made, so it never
    matches: every update of such a table takes a new entry as long as there are
    any, and its statistics are never found. *)
Theorem long_table_name_repeats (st : StatsState) (b s : list Z) (op d : Z) :
  tables_ok st -> (g_table_stats_count st < MAX_TRACKED_TABLES)%nat -> cstr b s -> (64 <= length s)%nat ->
  exists st', stats_update_table_stats st (Some b) op d = Done st' /\ tables_ok st' /\
    g_table_stats_count st' = S (g_table_stats_count st) /\
    stats_get_table_stats st' (Some b) = Done None.
Proof.
  intros Hok Hlt Hb Hs.
  assert (forall st, tables_ok st ->
    find_table (take (g_table_stats_count st) (g_table_stats st)) b 0 = Done None) as Hnone.
  { intros st1 H1. rewrite (find_table_ok _ b s 0) by (done || apply H1).
    destruct (list_find _ (map entry _)) as [[i e]|] eqn:E; [exfalso|done].
    apply list_find_Some in E as (Hl & He & _). change (map entry) with (fmap (M:=list) entry) in Hl.
    rewrite list_lookup_fmap in Hl. destruct (take _ _ !! i) as [t|] eqn:Et; [|done].
    injection Hl as <-. pose proof (to_named st1 H1) as Hn. rewrite Forall_lookup in Hn.
    destruct (Hn i t Et) as [Hl Hz]. destruct (text_cstr _ Hz) as [[r Hr] _]. simpl in He.
    apply (f_equal length) in Hr. rewrite Hl, length_app, He in Hr. simpl in Hr. lia. }
  unfold stats_update_table_stats. rewrite (to_init st Hok). cbn [negb].
  rewrite Hnone, bind_Done by done. rewrite (proj2 (Nat.ltb_lt _ _) Hlt).
  destruct (tables_ok_new st b s Hok Hlt Hb) as (Hz & t & Et & _ & _ & Hok' & Hi' & _).
  rewrite Hz. cbn [outcome_of_option]. rewrite !bind_Done, Et, !bind_Done. set (st1 := set_tables _ _ _) in *.
  rewrite Hi'. cbn [outcome_of_option]. rewrite bind_Done.
  destruct (tables_ok_count st1 (g_table_stats_count st) t op d Hok' ltac:(simpl; lia) Hi') as [Hok2 _].
  eexists. split; [done|]. split; [done|]. split; [done|].
  unfold stats_get_table_stats. rewrite (to_init _ Hok2). cbn [negb]. by rewrite Hnone, bind_Done.
Qed.

Lemma long_table_name_repeats_witness :
  exists st', stats_update_table_stats (stats_init stats_start) (Some (replicate 64 97 ++ [0])) 1 1 = Done st' /\
    tables_ok st' /\ g_table_stats_count st' = 1%nat /\
    stats_get_table_stats st' (Some (replicate 64 97 ++ [0])) = Done None.
Proof.
  apply (long_table_name_repeats (stats_init stats_start) (replicate 64 97 ++ [0]) (replicate 64 97) 1 1).
  - apply (init_tables_rep stats_start). reflexivity.
  - apply Nat.ltb_lt. reflexivity.
  - apply c_string. apply (bool_decide_unpack _). by vm_compute.
  - apply Nat.leb_le. reflexivity.
Defined.
