(* ===== verification/Log.v ===== *)
(** Model of src/observability/log.c: the logger, its filters and the lines it
    writes. Files are what was appended to them so far; the clock and fopen are
    arguments. *)
From Stdlib Require Import ZArith Lia String.
From stdpp Require Import base numbers option list gmap.
From S2P Require Import Prelude CString Double Fields Errors.

(** ** Data *)

(** The enums of log.h. They have no negative member, so a LogLevel or LogCategory
    is an unsigned int: what a caller passes is taken modulo 2^32 and the
    comparisons are unsigned. *)
Definition LOG_ERROR : Z := 0.
Definition LOG_WARN : Z := 1.
Definition LOG_INFO : Z := 2.
Definition LOG_DEBUG : Z := 3.

Definition LOG_CAT_GENERAL : Z := 0.
Definition LOG_CAT_STORAGE : Z := 1.
Definition LOG_CAT_SQL : Z := 2.
Definition LOG_CAT_PROTOCOL : Z := 3.
Definition LOG_CAT_SECURITY : Z := 4.
Definition LOG_CAT_COUNT : Z := 5.

Inductive LogDestination : Type :=
  | LOG_DEST_STDERR
  | LOG_DEST_SYSLOG
  | LOG_DEST_FILE
  | LOG_DEST_JOURNALD.

(** [file] is the path of the stream, which log_set_file and log_rotate open. *)
Record Logger : Type := mkLogger {
  level : Z;
  dest : LogDestination;
  file : option (list Z);
  categories_enabled : Z;
  use_colors : bool }.

(** What was written to stderr, and to each file. *)
Record Output : Type := mkOutput { o_stderr : list Z; o_files : gmap (list Z) (list Z) }.

Implicit Types lg : Logger.

(** ** Internal helpers *)

Definition category_to_string (cat : Z) : list Z :=
  if cat =? LOG_CAT_GENERAL then zstr "general"
  else if cat =? LOG_CAT_STORAGE then zstr "storage"
  else if cat =? LOG_CAT_SQL then zstr "sql"
  else if cat =? LOG_CAT_PROTOCOL then zstr "protocol"
  else if cat =? LOG_CAT_SECURITY then zstr "security"
  else zstr "unknown".

(** The escape character before "[..m". *)
Definition esc (s : string) : list Z := 27 :: zstr s.

Definition level_color (level : Z) : list Z :=
  if level =? 0 then esc "[31m"
  else if level =? 1 then esc "[33m"
  else if level =? 2 then esc "[32m"
  else if level =? 3 then esc "[34m"
  else esc "[0m".

(** The text of the local time, None when localtime_r fails. *)
Definition format_timestamp (now : option (list Z)) : list Z := default [] now.

(** The line both write_to_stream and write_to_file print. *)
Definition log_line (level cat : Z) (src : list Z) (line : Z) (timestamp message : list Z)
    (colors : bool) : list Z :=
  let reset := esc "[0m" in
  if colors then
    level_color level ++ timestamp ++ reset ++ zstr " [" ++ category_to_string cat ++ zstr "] " ++
    src ++ zstr ":" ++ print_int line ++ zstr " " ++ message ++ reset ++ [10]
  else
    timestamp ++ zstr " [" ++ category_to_string cat ++ zstr "] " ++
    src ++ zstr ":" ++ print_int line ++ zstr " " ++ message ++ [10].

Definition write_to_stream (level cat : Z) (src : list Z) (line : Z) (timestamp message : list Z)
    (colors : bool) (o : Output) : Output :=
  mkOutput (o_stderr o ++ log_line level cat src line timestamp message colors) (o_files o).

Definition dev_null : list Z := zstr "/dev/null".

(** Appending to a path; /dev/null keeps nothing. *)
Definition append_file (path s : list Z) (o : Output) : Output :=
  if bool_decide (path = dev_null) then o
  else mkOutput (o_stderr o) (<[path := default [] (o_files o !! path) ++ s]> (o_files o)).

Definition write_to_file (f : option (list Z)) (level cat : Z) (src : list Z) (line : Z)
    (timestamp message : list Z) (colors : bool) (o : Output) : Output :=
  match f with
  | None => o
  | Some path => append_file path (log_line level cat src line timestamp message colors) o
  end.

(** ** Initialization and configuration *)

Definition log_init (d : LogDestination) (lv : Z) : Logger :=
  mkLogger (u32 lv) d None (Z.shiftl 1 LOG_CAT_COUNT - 1) true.

Definition log_destroy lg : Logger :=
  mkLogger (level lg) (dest lg) None (categories_enabled lg) (use_colors lg).

Definition log_set_level lg (lv : Z) : Logger :=
  mkLogger (u32 lv) (dest lg) (file lg) (categories_enabled lg) (use_colors lg).

Definition set_categories lg (mask : Z) : Logger :=
  mkLogger (level lg) (dest lg) (file lg) mask (use_colors lg).

Definition log_enable_category lg (cat : Z) : Logger :=
  let cat := u32 cat in
  if (0 <=? cat) && (cat <? LOG_CAT_COUNT)
  then set_categories lg (Z.lor (categories_enabled lg) (Z.shiftl 1 cat)) else lg.

Definition log_disable_category lg (cat : Z) : Logger :=
  let cat := u32 cat in
  if (0 <=? cat) && (cat <? LOG_CAT_COUNT)
  then set_categories lg (Z.land (categories_enabled lg) (Z.lnot (Z.shiftl 1 cat))) else lg.

Section files.
(** Whether a path can be opened for appending. *)
Variable fopen_append : list Z -> bool.

Definition log_set_file lg (path : list Z) : Z * Logger :=
  if negb (fopen_append path) then (-1, lg)
  else (0, mkLogger (level lg) LOG_DEST_FILE (Some path) (categories_enabled lg) (use_colors lg)).

Definition log_rotate lg : Logger :=
  match file lg with
  | None => lg
  | Some _ =>
      if fopen_append dev_null
      then mkLogger (level lg) (dest lg) (Some dev_null) (categories_enabled lg) (use_colors lg)
      else lg
  end.
End files.

(** ** Core logging function *)

(** [!(logger->categories_enabled & (1 << cat))], negated. *)
Definition category_enabled lg (cat : Z) : bool :=
  negb (Z.land (categories_enabled lg) (Z.shiftl 1 cat) =? 0).

(** [formatted] is what [fmt] and its arguments format to, [stack] what the array
    for the message holds before. *)
Definition log_write (stack : list Z) (now : option (list Z)) lg (cat lv : Z) (src : list Z) (line : Z)
    (formatted : list Z) (o : Output) : outcome Output :=
  let cat := u32 cat in
  let lv := u32 lv in
  if level lg <? lv then Done o else
  if (cat <? 0) || (LOG_CAT_COUNT <=? cat) || negb (category_enabled lg cat) then Done o else
  let* message := vsnprintf stack 1024 formatted in
  let message := text message in
  let timestamp := format_timestamp now in
  Done
    match dest lg with
    | LOG_DEST_STDERR => write_to_stream lv cat src line timestamp message (use_colors lg) o
    | LOG_DEST_FILE =>
        match file lg with
        | Some f => write_to_file (Some f) lv cat src line timestamp message (use_colors lg) o
        | None => write_to_stream lv cat src line timestamp message (use_colors lg) o
        end
    | LOG_DEST_SYSLOG | LOG_DEST_JOURNALD =>
        write_to_stream lv cat src line timestamp message (use_colors lg) o
    end.

(** ** Lemmas *)

(** The categories a logger writes. *)
Definition enabled_set lg : gset Z := list_to_set (filter (fun c => category_enabled lg c = true) [0; 1; 2; 3; 4]).

Lemma category_enabled_testbit lg cat : 0 <= cat -> category_enabled lg cat = Z.testbit (categories_enabled lg) cat.
Proof.
  intros Hc. unfold category_enabled. rewrite Z.shiftl_1_l.
  destruct (Z.testbit (categories_enabled lg) cat) eqn:E.
  - apply negb_true_iff, Z.eqb_neq. intros H. apply (f_equal (fun z => Z.testbit z cat)) in H.
    by rewrite Z.land_spec, E, Z.pow2_bits_true, Z.bits_0 in H.
  - apply negb_false_iff, Z.eqb_eq. apply Z.bits_inj'. intros i Hi. rewrite Z.land_spec, Z.bits_0.
    destruct (decide (i = cat)) as [->|]; [by rewrite E|].
    rewrite Z.pow2_bits_false by lia. by rewrite andb_false_r.
Qed.

Lemma in_range cat : (0 <=? cat) && (cat <? LOG_CAT_COUNT) = bool_decide (cat ∈ [0; 1; 2; 3; 4]).
Proof.
  unfold LOG_CAT_COUNT. case_bool_decide as E.
  - apply andb_true_intro. rewrite !elem_of_cons, elem_of_nil in E.
    rewrite Z.leb_le, Z.ltb_lt. lia.
  - apply not_true_is_false. intros [H1%Z.leb_le H2%Z.ltb_lt]%andb_prop. apply E.
    rewrite !elem_of_cons, elem_of_nil. lia.
Qed.

Lemma category_enabled_in lg cat :
  cat ∈ [0; 1; 2; 3; 4] -> category_enabled lg cat = Z.testbit (categories_enabled lg) cat.
Proof. intros Hc. apply category_enabled_testbit. rewrite !elem_of_cons, elem_of_nil in Hc. lia. Qed.

Lemma elem_of_enabled_set lg cat :
  cat ∈ enabled_set lg <-> cat ∈ [0; 1; 2; 3; 4] /\ Z.testbit (categories_enabled lg) cat = true.
Proof.
  unfold enabled_set. rewrite elem_of_list_to_set, list_elem_of_filter.
  split; intros [H1 H2].
  - split; [done|]. by rewrite <- category_enabled_in.
  - split; [|done]. by rewrite category_enabled_in.
Qed.

Lemma write_enabled lg cat :
  (cat <? 0) || (LOG_CAT_COUNT <=? cat) || negb (category_enabled lg cat) =
    bool_decide (cat ∉ enabled_set lg).
Proof.
  pose proof (in_range cat) as Hr. unfold LOG_CAT_COUNT in *.
  rewrite (Z.ltb_antisym 0 cat), (Z.leb_antisym cat 5), <- negb_andb, Hr, <- negb_andb.
  rewrite bool_decide_not. f_equal. apply eq_true_iff_eq.
  rewrite andb_true_iff, !bool_decide_eq_true, elem_of_enabled_set.
  split; intros [H1 H2]; (split; [done|]).
  - by rewrite <- category_enabled_in.
  - by rewrite category_enabled_in.
Qed.

(** The line log_write gives, for a text without NUL. *)
Definition expected_line lg (now : option (list Z)) (cat lv : Z) (src : list Z) (line : Z) (formatted : list Z)
    : list Z :=
  log_line lv cat src line (format_timestamp now) (take 1023 formatted) (use_colors lg).

(** Where it goes: [None] is stderr. *)
Definition target lg : option (list Z) :=
  match dest lg with LOG_DEST_FILE => file lg | _ => None end.

Definition emit (where_ : option (list Z)) (s : list Z) (o : Output) : Output :=
  match where_ with None => mkOutput (o_stderr o ++ s) (o_files o) | Some path => append_file path s o end.

Lemma vsnprintf_text stack n formatted :
  (0 < n)%nat -> length stack = n -> 0 ∉ formatted ->
  exists b, vsnprintf stack n formatted = Done b /\ text b = take (n - 1) formatted.
Proof.
  intros Hn Hl Hf. unfold vsnprintf. pose proof (length_take formatted (n - 1)).
  eexists. split.
  - apply buf_write_Done; [lia|]. rewrite length_app. simpl. lia.
  - unfold splice. simpl. rewrite <- app_assoc. apply cstr_text. split; [by eexists|].
    intros Hin. apply Hf. rewrite <- (take_drop (n - 1) formatted). apply elem_of_app. by left.
Qed.

Lemma log_write_ok stack now lg cat lv src line formatted o :
  length stack = 1024%nat -> 0 ∉ formatted ->
  log_write stack now lg cat lv src line formatted o =
    Done (if (u32 lv <=? level lg) && bool_decide (u32 cat ∈ enabled_set lg)
          then emit (target lg) (expected_line lg now (u32 cat) (u32 lv) src line formatted) o else o).
Proof.
  intros Hl Hf. unfold log_write. cbv zeta. rewrite write_enabled, bool_decide_not.
  rewrite Z.ltb_antisym. destruct (u32 lv <=? level lg); cbn [negb andb]; [|done].
  case_bool_decide; cbn [negb]; [|done].
  destruct (vsnprintf_text stack 1024 formatted ltac:(lia) Hl Hf) as (b & -> & Hb).
  rewrite bind_Done, Hb. unfold emit, target, expected_line. by destruct (dest lg), (file lg).
Qed.

Lemma print_int_line line : 0 <= line < 2 ^ 31 -> 10 ∉ print_int line.
Proof.
  intros Hl Hin. destruct (print_int_digits line ltac:(lia)) as (_ & Hd & _).
  rewrite Forall_forall in Hd. by specialize (Hd 10 Hin).
Qed.

Lemma level_color_plain lv : 10 ∉ level_color lv.
Proof. unfold level_color. repeat case_match; apply (bool_decide_unpack _); by vm_compute. Qed.

Lemma category_plain cat : 10 ∉ category_to_string cat.
Proof. unfold category_to_string. repeat case_match; apply (bool_decide_unpack _); by vm_compute. Qed.

(** What a reader of the log relies on: the line starts with the time (after its
    colour), names the place, has the message behind it, and ends the line once.
    Without colours nothing stands before the time and after the message. *)
Definition shows (colors : bool) (timestamp src : list Z) (line : Z) (message out : list Z) : Prop :=
  exists before place between after_ body,
    out = body ++ [10] /\ 10 ∉ body /\
    body = before ++ timestamp ++ place ++ src ++ zstr ":" ++ print_int line ++ between ++ message ++ after_ /\
    (colors = false -> before = [] /\ after_ = []).

Lemma log_line_shows lv cat src line timestamp message colors :
  0 <= line < 2 ^ 31 -> 10 ∉ src -> 10 ∉ timestamp -> 10 ∉ message ->
  shows colors timestamp src line message (log_line lv cat src line timestamp message colors).
Proof.
  intros Hl%print_int_line Hs Ht Hm. pose proof (level_color_plain lv). pose proof (category_plain cat).
  exists (if colors then level_color lv else []),
    ((if colors then esc "[0m" else []) ++ zstr " [" ++ category_to_string cat ++ zstr "] "),
    (zstr " "), (if colors then esc "[0m" else []).
  eexists. split; [|split; [|split; [reflexivity|]]].
  - unfold log_line. destruct colors; by rewrite <- !app_assoc, ?app_nil_l.
  - assert (forall s, bool_decide (10 ∉ s) = true -> 10 ∉ (s : list Z)) as D
      by (intros s' Hs'; by apply bool_decide_eq_true in Hs').
    destruct colors; rewrite ?not_elem_of_app, ?not_elem_of_nil; split_and!;
      try done; apply D; by vm_compute.
  - by intros ->.
Qed.

Lemma enabled_set_bits lg cat :
  bool_decide (cat ∈ enabled_set lg) = (0 <=? cat) && (cat <? 5) && Z.testbit (categories_enabled lg) cat.
Proof.
  pose proof (in_range cat) as Hr. unfold LOG_CAT_COUNT in Hr. rewrite Hr.
  apply eq_true_iff_eq. by rewrite andb_true_iff, !bool_decide_eq_true, elem_of_enabled_set.
Qed.

(** ** Theorems *)

(** C31: what is logged. A message is dropped, with no effect, when its level is
    above the logger's (as unsigned ints), when its category is none of the five, or
    when the bit of its category is clear in the mask. Every other message is
    written once, as one line of text with no newline inside (given that message,
    file name and time have none): the time, the place "file:line" and behind it
    the first 1023 bytes of the message. The line is appended to the logger's file
    (none of it is kept by /dev/null), or to stderr when the logger has no file or
    another destination; no other stream and no other file changes. The line does
    not name the level, a logger with a file does not write to stderr, and syslog
    and journald are stderr here, unlike design/observability.md. *)
Theorem log_write_spec (stack : list Z) (now : option (list Z)) (lg : Logger) (cat lv : Z) (src : list Z)
    (line : Z) (formatted : list Z) (o : Output) :
  length stack = 1024%nat -> 0 ∉ formatted -> 10 ∉ formatted -> 10 ∉ src -> 10 ∉ default [] now ->
  0 <= line < 2 ^ 31 ->
  let written := (u32 lv <=? level lg) && ((0 <=? u32 cat) && (u32 cat <? 5) &&
                  Z.testbit (categories_enabled lg) (u32 cat)) in
  exists o', log_write stack now lg cat lv src line formatted o = Done o' /\
    (written = false -> o' = o) /\
    (written = true -> exists out,
       shows (use_colors lg) (default [] now) src line (take 1023 formatted) out /\
       match dest lg, file lg with
       | LOG_DEST_FILE, Some path =>
           o_stderr o' = o_stderr o /\
           o_files o' = (if decide (path = zstr "/dev/null") then o_files o
                         else <[path := default [] (o_files o !! path) ++ out]> (o_files o))
       | _, _ => o_stderr o' = o_stderr o ++ out /\ o_files o' = o_files o
       end).
Proof.
  intros Hl H0 Hf Hs Hn Hline. cbv zeta. rewrite log_write_ok, enabled_set_bits by done.
  eexists. split; [reflexivity|]. split; [by intros ->|]. intros ->.
  exists (expected_line lg now (u32 cat) (u32 lv) src line formatted). split.
  - apply log_line_shows; try done. intros Hin. apply Hf. by eapply elem_of_take in Hin as (?&?&?); eapply list_elem_of_lookup_2.
  - unfold emit, target, append_file, dev_null.
    destruct (dest lg), (file lg); try done. case_bool_decide; by destruct (decide _).
Qed.

Lemma log_write_spec_witness :
  exists o', log_write (replicate 1024 7) (Some (zstr "T")) (log_init LOG_DEST_SYSLOG LOG_INFO) LOG_CAT_SQL LOG_WARN
      (zstr "parser.c") 12 (zstr "slow") (mkOutput [] ∅) = Done o' /\
    exists out, shows true (zstr "T") (zstr "parser.c") 12 (zstr "slow") out /\ o_stderr o' = out.
Proof.
  destruct (log_write_spec (replicate 1024 7) (Some (zstr "T")) (log_init LOG_DEST_SYSLOG LOG_INFO) LOG_CAT_SQL
    LOG_WARN (zstr "parser.c") 12 (zstr "slow") (mkOutput [] ∅)) as (o' & Ho & _ & Hw).
  - reflexivity.
  - apply (bool_decide_unpack _). by vm_compute.
  - apply (bool_decide_unpack _). by vm_compute.
  - apply (bool_decide_unpack _). by vm_compute.
  - apply (bool_decide_unpack _). by vm_compute.
  - lia.
  - exists o'. split; [exact Ho|]. destruct (Hw ltac:(reflexivity)) as (out & Hout & He & _).
    exists out. split; [exact Hout|exact He].
Defined.

(** The line as log.c prints it. *)
Example log_line_colors :
  log_write (replicate 1024 7) (Some (zstr "T")) (log_init LOG_DEST_SYSLOG LOG_INFO) LOG_CAT_SQL LOG_WARN
      (zstr "parser.c") 12 (zstr "slow") (mkOutput [] ∅) =
    Done (mkOutput (esc "[33m" ++ zstr "T" ++ esc "[0m" ++ zstr " [sql] parser.c:12 slow" ++ esc "[0m" ++ [10]) ∅).
Proof. by vm_compute. Qed.

Lemma set_mask_testbit lg mask cat :
  cat ∈ enabled_set (set_categories lg mask) <-> cat ∈ [0; 1; 2; 3; 4] /\ Z.testbit mask cat = true.
Proof. apply elem_of_enabled_set. Qed.

Lemma in_list_range cat : cat ∈ [0; 1; 2; 3; 4] <-> 0 <= cat < 5.
Proof. rewrite !elem_of_cons, elem_of_nil. lia. Qed.

(** The category mask refines a set: a new logger has all five categories,
    enabling one adds it and nothing else, disabling one removes it and nothing
    else, and an int that is no category changes nothing. *)
Theorem log_categories_refine_set (lg : Logger) (d : LogDestination) (lv cat : Z) :
  enabled_set (log_init d lv) = {[0; 1; 2; 3; 4]} /\
  enabled_set (log_enable_category lg cat) =
    (if bool_decide (0 <= u32 cat < LOG_CAT_COUNT) then {[u32 cat]} ∪ enabled_set lg else enabled_set lg) /\
  enabled_set (log_disable_category lg cat) = enabled_set lg ∖ {[u32 cat]}.
Proof.
  split; [by vm_compute|].
  unfold log_enable_category, log_disable_category. cbv zeta. generalize (u32 cat). clear cat. intros cat.
  rewrite in_range.
  rewrite <- (bool_decide_ext _ _ (in_list_range cat)).
  case_bool_decide as Hc; (split; [apply set_eq; intros i|apply set_eq; intros i]).
  - rewrite set_mask_testbit, elem_of_union, elem_of_singleton, elem_of_enabled_set.
    rewrite Z.lor_spec, orb_true_iff, Z.shiftl_1_l. apply in_list_range in Hc.
    destruct (decide (i = cat)) as [->|].
    + rewrite Z.pow2_bits_true by lia. rewrite in_list_range. tauto.
    + rewrite Z.pow2_bits_false by lia. intuition congruence.
  - rewrite set_mask_testbit, elem_of_difference, elem_of_singleton, elem_of_enabled_set.
    rewrite in_list_range. apply in_list_range in Hc.
    rewrite Z.land_spec, andb_true_iff, Z.shiftl_1_l. destruct (decide (0 <= i < 5)) as [Hi|]; [|tauto].
    rewrite Z.lnot_spec by lia. destruct (decide (i = cat)) as [->|].
    + rewrite Z.pow2_bits_true by lia. intuition discriminate.
    + rewrite Z.pow2_bits_false by lia. simpl. tauto.
  - done.
  - rewrite elem_of_difference, elem_of_singleton. split; [|tauto]. intros Hi. split; [done|].
    intros ->. apply elem_of_enabled_set in Hi. tauto.
Qed.

(** Log_rotate stops the log: when it succeeds the logger's file is /dev/null,
    and whatever is logged afterwards reaches neither a file nor stderr. *)
Theorem log_rotate_discards (fopen_append : list Z -> bool) (stack : list Z) (now : option (list Z)) (lg : Logger)
    (path : list Z) (cat lv : Z) (src : list Z) (line : Z) (formatted : list Z) (o : Output) :
  file lg = Some path -> dest lg = LOG_DEST_FILE -> fopen_append dev_null = true ->
  length stack = 1024%nat -> 0 ∉ formatted ->
  log_write stack now (log_rotate fopen_append lg) cat lv src line formatted o = Done o.
Proof.
  intros Hf Hd Ho Hl H0. rewrite log_write_ok by done. f_equal. unfold log_rotate. rewrite Hf, Ho.
  destruct (_ && _); [|done]. unfold emit, target, append_file. cbn [dest file]. rewrite Hd.
  by rewrite bool_decide_eq_true_2.
Qed.

Lemma log_rotate_discards_witness :
  log_write (replicate 1024 7) None
      (log_rotate (fun _ => true) (snd (log_set_file (fun _ => true) (log_init LOG_DEST_STDERR LOG_DEBUG)
        (zstr "/var/log/tinydb.log")))) LOG_CAT_STORAGE LOG_ERROR (zstr "pager.c") 1 (zstr "disk full")
      (mkOutput [] ∅) = Done (mkOutput [] ∅).
Proof.
  apply (log_rotate_discards (fun _ => true) (replicate 1024 7) None
    (snd (log_set_file (fun _ => true) (log_init LOG_DEST_STDERR LOG_DEBUG) (zstr "/var/log/tinydb.log")))
    (zstr "/var/log/tinydb.log") LOG_CAT_STORAGE LOG_ERROR (zstr "pager.c") 1 (zstr "disk full") (mkOutput [] ∅)).
  - reflexivity.
  - reflexivity.
  - reflexivity.
  - reflexivity.
  - apply (bool_decide_unpack _). by vm_compute.
Defined.
