(* ===== verification/Server.v ===== *)
(** Model of src/server/server.c: the server's state, the answers it gives to what
    it reads from a client, and the accept loop. What the kernel does (results of
    socket calls, reads of client data, signals) is a script of events. *)
From Stdlib Require Import ZArith Lia String.
From stdpp Require Import base numbers option list.
From S2P Require Import Prelude CString Fields Double Lexer Ast Parser ParserSpec ParserTotal.

(** ** State *)

Definition SERVER_BUFFER_SIZE : Z := 8192.

(** sizeof of sun_path in struct sockaddr_un. *)
Definition SUN_PATH_SIZE : nat := 108.

Definition DEFAULT_SOCKET_PATH : string := "/run/tinydb/tinydb.sock".

(** The storage pointer is left out: nothing in server.c uses it. *)
Record Server : Type := mkServer {
  server_fd : Z;
  socket_path : list Z;
  pid_file : list Z;
  lock_file : list Z;
  running : bool;
  client_count : Z }.

Implicit Types sv : Server.

Definition set_running sv (r : bool) : Server :=
  mkServer (server_fd sv) (socket_path sv) (pid_file sv) (lock_file sv) r (client_count sv).

Definition set_fd sv (fd : Z) : Server :=
  mkServer fd (socket_path sv) (pid_file sv) (lock_file sv) (running sv) (client_count sv).

Definition set_path sv (path : list Z) : Server :=
  mkServer (server_fd sv) path (pid_file sv) (lock_file sv) (running sv) (client_count sv).

(** The static g_server: whether it points to the server. It starts as NULL. *)
Definition g_server_start : bool := false.

Definition server_signal_handler (g_server : bool) sv : Server :=
  if g_server then set_running sv false else sv.

(** [outcome] is for the array accesses; the allocation succeeds. *)
Definition server_init : outcome Server :=
  let array := replicate 256 0 in
  let* path := strcpy array (lit DEFAULT_SOCKET_PATH) in
  let* pid := buf_write 0 (lit "/run/tinydb/tinydb.pid") array in
  let* lock := buf_write 0 (lit "/run/tinydb/tinydb.lock") array in
  Done (mkServer (-1) path pid lock false 0).

(** ** Sockets *)

(** Copying the path of the argument: strncpy of 255 bytes and a terminator. *)
Definition set_socket_path sv (path : option (list Z)) : outcome Server :=
  match path with
  | None => Done sv
  | Some p =>
      let* a := strncpy (socket_path sv) 0 p 255 in
      let* a := buf_write 255 [0] a in
      Done (set_path sv a)
  end.

(** What the kernel answers: the new descriptor, and whether bind and listen work. *)
Record SocketEvents : Type := mkSocketEvents { se_socket : option Z; se_bind : bool; se_listen : bool }.

(** The unlink of the path before and the socket that bind creates are in
    Startup.v; here, the path that was given to bind is the third result. *)
Definition server_bind_and_listen sv (path : option (list Z)) (ev : SocketEvents)
    : outcome (Z * Server * option (list Z)) :=
  let* sv := set_socket_path sv path in
  match se_socket ev with
  | None => Done (-1, sv, None)
  | Some fd =>
      let* sun_path := strcpy (replicate SUN_PATH_SIZE 0) (socket_path sv) in
      if negb (se_bind ev) then Done (-1, sv, None)
      else if negb (se_listen ev) then Done (-1, sv, Some sun_path)
      else Done (0, set_fd sv fd, Some sun_path)
  end.

(** The accepted descriptor is left out; [accepted] is whether accept works. *)
Definition server_accept_client sv (accepted : bool) : Z * Server :=
  if negb accepted then (-1, sv)
  else (0, mkServer (server_fd sv) (socket_path sv) (pid_file sv) (lock_file sv) (running sv)
             (client_count sv + 1)).

(** ** Requests *)

(** Whether the reply asks the server to stop. *)
Definition is_ddl (ast : AstNode) : bool :=
  match ast with
  | AST_CREATE_TABLE _ _ _ | AST_DROP_TABLE _ _ | AST_CREATE_INDEX _ _ _ _ | AST_DROP_INDEX _ => true
  | _ => false
  end.

(** The loop that drops newlines, carriage returns and blanks at the end. *)
Fixpoint trim_loop (sql : list Z) (sql_len : nat) : outcome nat :=
  match sql_len with
  | O => Done O
  | S n =>
      let* c := outcome_of_option (sql !! n) in
      if (c =? 10) || (c =? 13) || (c =? 32) then trim_loop sql n else Done (S n)
  end.

(** The reply to the text after "QUERY:". [parser_error] being NULL would make
    snprintf read through a null pointer. *)
Definition handle_query (fuel : nat) (sql : list Z) (sql_len : nat) : outcome (list Z) :=
  let* sql_len := trim_loop sql sql_len in
  if (sql_len =? 0)%nat then Done (zstr "ERROR empty query" ++ [10]) else
  let* text := buf_read 0 (Z.of_nat sql_len) sql in
  let* parser := parser_create text in
  match parser with
  | None => Done (zstr "ERROR failed to create parser" ++ [10])
  | Some parser =>
      let* '(ast, parser) := parser_parse fuel parser in
      match ast with
      | None =>
          match parser_error parser with
          | None => Undef
          | Some msg => Done (take 255 (zstr "ERROR parse error: " ++ msg ++ [10]))
          end
      | Some ast => Done ((if is_ddl ast then zstr "Query OK" else zstr "OK 0 rows") ++ [10])
      end
  end.

(** One turn of the read loop, on the buffer after a read of [n] bytes: the reply,
    and whether the client asked for a shutdown. *)
Definition handle_request (fuel : nat) (buffer : list Z) (n : nat) : outcome (list Z * bool) :=
  let* ping := has_prefix buffer "PING" in
  if ping : bool then Done (zstr "PONG" ++ [10], false) else
  let* shutdown := has_prefix buffer "SHUTDOWN" in
  if shutdown : bool then Done (zstr "OK shutdown" ++ [10], true) else
  let* query := has_prefix buffer "QUERY:" in
  if query : bool then let* r := handle_query fuel (drop 6 buffer) (n - 6) in Done (r, false)
  else Done (zstr "ERROR unknown command" ++ [10], false).

(** What one read returns, and whether the client has closed its end by the time
    the reply is written. An interrupted read, or one that fails, ends the list. *)
Definition ClientIO : Type := list (list Z * bool).

(** The result is the return value, and the replies that arrived. *)
Fixpoint server_handle_client (fuel : nat) (buffer : list Z) (io : ClientIO) : outcome (Z * list (list Z)) :=
  match io with
  | [] => Done (0, [])
  | (data, gone) :: io =>
      let* buffer := buf_write 0 data buffer in
      let* buffer := buf_write (len data) [0] buffer in
      let* '(reply, stop) := handle_request fuel buffer (length data) in
      let sent := if gone : bool then [] else [reply] in
      if stop : bool then Done (1, sent) else
      let* '(r, replies) := server_handle_client fuel buffer io in
      Done (r, sent ++ replies)
  end.

(** ** The accept loop *)

(** One turn: what select gives, and whether a signal with the handler arrives. *)
Inductive RunEvent : Type :=
  | EvFailed (eintr : bool)
  | EvTimeout
  | EvClient (accepted : bool) (stack : list Z) (io : ClientIO).

(** The events left over, the transcripts of the clients, and whether the function
    returned (else it waits for the next event). *)
Record RunResult : Type := mkRun {
  rr_server : Server;
  rr_transcripts : list (list (list Z));
  rr_rest : list (RunEvent * bool);
  rr_returned : bool }.

Section run.
Variables (g_server : bool) (fuel : nat).

Fixpoint server_run_loop sv (evs : list (RunEvent * bool)) : outcome RunResult :=
  if negb (running sv) then Done (mkRun sv [] evs true) else
  match evs with
  | [] => Done (mkRun sv [] [] false)
  | (ev, signal) :: evs =>
      let sv := if signal : bool then server_signal_handler g_server sv else sv in
      match ev with
      | EvFailed eintr =>
          if eintr : bool then server_run_loop sv evs else Done (mkRun sv [] evs true)
      | EvTimeout => server_run_loop sv evs
      | EvClient accepted stack io =>
          let '(r, sv) := server_accept_client sv accepted in
          if r =? 0 then
            let* '(should_shutdown, transcript) := server_handle_client fuel stack io in
            if negb (should_shutdown =? 0)
            then Done (mkRun (set_running sv false) [transcript] evs true)
            else
              let* rr := server_run_loop sv evs in
              Done (mkRun (rr_server rr) (transcript :: rr_transcripts rr) (rr_rest rr) (rr_returned rr))
          else server_run_loop sv evs
      end
  end.

Definition server_run sv (evs : list (RunEvent * bool)) : outcome RunResult :=
  server_run_loop (set_running sv true) evs.
End run.

(** ** Specifications *)

Definition blank (c : Z) : bool := (c =? 10) || (c =? 13) || (c =? 32).

(** A text without the blanks at its end. *)
Fixpoint rtrim (l : list Z) : list Z :=
  match l with
  | [] => []
  | c :: l => match rtrim l with [] => if blank c then [] else [c] | t => c :: t end
  end.

(** The reply to a statement: its text decides. *)
Definition query_reply (fuel : nat) (text : list Z) : outcome (list Z) :=
  let text := rtrim text in
  if bool_decide (text = []) then Done (zstr "ERROR empty query" ++ [10]) else
  let* parser := parser_create text in
  match parser with
  | None => Done (zstr "ERROR failed to create parser" ++ [10])
  | Some parser =>
      let* '(ast, parser) := parser_parse fuel parser in
      match ast, parser_error parser with
      | Some ast, _ => Done ((if is_ddl ast then zstr "Query OK" else zstr "OK 0 rows") ++ [10])
      | None, Some msg => Done (take 255 (zstr "ERROR parse error: " ++ msg ++ [10]))
      | None, None => Undef
      end
  end.

(** The reply to what one read returned, and whether it ends the server. *)
Definition request_reply (fuel : nat) (data : list Z) : outcome (list Z * bool) :=
  if bool_decide (zstr "PING" `prefix_of` data) then Done (zstr "PONG" ++ [10], false)
  else if bool_decide (zstr "SHUTDOWN" `prefix_of` data) then Done (zstr "OK shutdown" ++ [10], true)
  else if bool_decide (zstr "QUERY:" `prefix_of` data)
  then let* r := query_reply fuel (drop 6 data) in Done (r, false)
  else Done (zstr "ERROR unknown command" ++ [10], false).

(** A session: one request per read. *)
Fixpoint session (fuel : nat) (io : ClientIO) : outcome (Z * list (list Z)) :=
  match io with
  | [] => Done (0, [])
  | (data, gone) :: io =>
      let* '(reply, stop) := request_reply fuel data in
      let sent := if gone : bool then [] else [reply] in
      if stop : bool then Done (1, sent) else
      let* '(r, replies) := session fuel io in
      Done (r, sent ++ replies)
  end.

(** Reads are of 1 to 8191 bytes. *)
Definition reads_ok (io : ClientIO) : Prop := Forall (fun x => 0 < len (fst x) < SERVER_BUFFER_SIZE) io.

#[export] Instance reads_ok_dec io : Decision (reads_ok io).
Proof. unfold reads_ok. apply _. Defined.

(** ** Lemmas *)

Lemma rtrim_snoc l c : rtrim (l ++ [c]) = if blank c then rtrim l else l ++ [c].
Proof.
  induction l as [|x l IH]; simpl; [done|]. rewrite IH. destruct (blank c); [done|].
  by destruct l.
Qed.

Lemma rtrim_prefix l : rtrim l `prefix_of` l.
Proof.
  induction l as [|c l IH] using rev_ind; [done|]. rewrite rtrim_snoc.
  destruct (blank c); [|done]. etransitivity; [done|]. by apply prefix_app_r.
Qed.

Lemma trim_loop_ok data r : trim_loop (data ++ r) (length data) = Done (length (rtrim data)).
Proof.
  revert r. induction data as [|c data IH] using rev_ind; intros r; [done|].
  rewrite length_app, Nat.add_1_r, <- app_assoc. cbn [trim_loop].
  rewrite lookup_app_r, Nat.sub_diag by lia. cbn [lookup list_lookup outcome_of_option app].
  rewrite bind_Done, rtrim_snoc. fold (blank c). destruct (blank c); [apply IH|].
  by rewrite length_app, Nat.add_1_r.
Qed.

Lemma handle_query_ok fuel data r :
  handle_query fuel (data ++ r) (length data) = query_reply fuel data.
Proof.
  unfold handle_query, query_reply. rewrite trim_loop_ok, bind_Done.
  destruct (rtrim_prefix data) as [k Hk].
  case_bool_decide as E; [by rewrite E|].
  rewrite (proj2 (Nat.eqb_neq _ _)) by (by intros ?%length_zero_iff_nil).
  assert (buf_read 0 (len (rtrim data)) (data ++ r) = Done (rtrim data)) as ->.
  { set (t := rtrim data) in *. clearbody t. subst data. rewrite <- app_assoc.
    rewrite buf_read_Done by (rewrite ?length_app; lia). f_equal. rewrite Nat2Z.id. unfold slice. rewrite drop_0. apply take_app_length. }
  rewrite bind_Done. destruct (parser_create (rtrim data)) as [[p|]| |]; done.
Qed.

Lemma prefix_text p data r : 0 ∉ p -> p `prefix_of` text (data ++ 0 :: r) <-> p `prefix_of` data.
Proof.
  revert data. induction p as [|x p IH]; intros data Hp; [split; intros; apply prefix_nil|].
  apply not_elem_of_cons in Hp as [Hx Hp]. destruct data as [|c data]; simpl.
  - split; intros [k [=]].
  - destruct (Z.eqb_spec c 0) as [->|].
    + split; intros [k [=]]; congruence.
    + split; intros H; pose proof (prefix_cons_inv_1 _ _ _ _ H) as ->; apply prefix_cons, IH; try done;
        by apply prefix_cons_inv_2 in H.
Qed.

Lemma has_prefix_data data r s :
  clean s = true -> has_prefix (data ++ 0 :: r) s = Done (bool_decide (zstr s `prefix_of` data)).
Proof.
  intros Hs. rewrite (has_prefix_ok _ (text (data ++ 0 :: r))); [|apply text_cstr|done].
  - f_equal. apply bool_decide_ext, prefix_text. by apply clean_no_zero.
  - apply elem_of_app. right. by left.
Qed.

Lemma handle_request_ok fuel data r :
  handle_request fuel (data ++ 0 :: r) (length data) = request_reply fuel data.
Proof.
  unfold handle_request, request_reply. rewrite !has_prefix_data, !bind_Done by done.
  do 2 (case_bool_decide; [done|]). case_bool_decide as E; [|done].
  destruct E as [k ->]. rewrite <- app_assoc, !(drop_app_length' (zstr "QUERY:")) by done.
  rewrite length_app. change (length (zstr "QUERY:")) with 6%nat.
  replace (6 + length k - 6)%nat with (length k) by lia. by rewrite handle_query_ok.
Qed.

Lemma handle_client_ok fuel stack io :
  len stack = SERVER_BUFFER_SIZE -> reads_ok io ->
  server_handle_client fuel stack io = session fuel io.
Proof.
  intros Hs Hio. revert stack Hs. induction Hio as [|[data gone] io Hd _ IH]; intros stack Hs; [done|].
  cbn [fst] in Hd. cbn [server_handle_client session].
  rewrite buf_write_Done, bind_Done by lia. rewrite buf_write_Done, bind_Done
    by (rewrite ?length_splice; simpl; lia).
  pose proof (splice_app 0 data [0] stack ltac:(lia)) as E. change (Z.to_nat 0) with 0%nat.
  rewrite Nat.add_0_l in E. rewrite Nat2Z.id, E. unfold splice at 1. rewrite take_0, app_nil_l, <- app_assoc.
  change ([0] ++ ?x) with (0 :: x). rewrite handle_request_ok. destruct (request_reply fuel data) as [[reply stop]| |]; try done.
  rewrite !bind_Done. destruct stop; [done|]. rewrite IH; [done|].
  rewrite length_splice by (rewrite length_app; simpl; lia). done.
Qed.

Lemma parser_of_create text :
  has_error (parser_of text) = false -> parser_create text = Done (Some (parser_of text)).
Proof. unfold parser_of. by destruct (parser_create text) as [[p|]| |]. Qed.

(** A query whose text begins a parse with the symbols [ss]. *)
Lemma query_reply_parse fuel text ws :
  rtrim (text ++ ws) = text -> has_error (parser_of text) = false ->
  query_reply fuel (text ++ ws) =
    (let* '(ast, parser) := parser_parse fuel (parser_of text) in
     match ast, parser_error parser with
     | Some ast, _ => Done ((if is_ddl ast then zstr "Query OK" else zstr "OK 0 rows") ++ [10])
     | None, Some msg => Done (take 255 (zstr "ERROR parse error: " ++ msg ++ [10]))
     | None, None => Undef
     end).
Proof.
  intros Ht He. unfold query_reply. rewrite Ht. rewrite bool_decide_eq_false_2.
  - by rewrite parser_of_create, bind_Done.
  - intros ->. discriminate He.
Qed.

(** The request with a query. *)
Definition query (text : list Z) : list Z := zstr "QUERY:" ++ text.

Lemma request_reply_query fuel text :
  request_reply fuel (query text) = let* r := query_reply fuel text in Done (r, false).
Proof.
  unfold request_reply, query. do 2 (rewrite bool_decide_eq_false_2 by (intros [k [=]])).
  rewrite bool_decide_eq_true_2 by (by eexists). done.
Qed.

Lemma session_query fuel text gone io :
  session fuel ((query text, gone) :: io) =
    let* reply := query_reply fuel text in
    let* '(r, replies) := session fuel io in
    Done (r, (if gone : bool then [] else [reply]) ++ replies).
Proof. cbn [session]. rewrite request_reply_query. by destruct (query_reply fuel text). Qed.

(** *** Statements the parser gives no answer for *)

(** INSERT INTO t VALUES () parses to NULL without an error. *)
Lemma insert_empty_row {L : Type} `{TokenSource L} fuel (p q : Parser L) t :
  feeds p [Kw TOKEN_INSERT; Kw TOKEN_INTO; Id t; Kw TOKEN_VALUES; Kw TOKEN_LPAREN] q ->
  cur q = TOKEN_RPAREN -> (0 < fuel)%nat -> parser_parse fuel p = Done (None, q).
Proof.
  intros Hf Hc Hfuel. unfold parser_parse, parse_statement. rewrite (feeds_has_error _ _ _ _ Hf). look Hf.
  unfold parse_insert. next Hf. keyword Hf. ident Hf. look Hf. rewrite bind_Done. keyword Hf.
  destruct fuel as [|fuel]; [lia|]. cbn [parse_insert_values]. rewrite (feeds_has_error _ _ _ _ Hf). cbn [negb].
  expect Hf. simpl in Hf. subst. unfold parse_expression_list. by rewrite Hc, token_eqb_refl, !bind_Done.
Qed.

(** A symbol list that starts a parse of a text. *)
Definition starts (text : list Z) (ss : list Sym) (q : Parser Lexer) : Prop :=
  feeds (parser_of text) ss q /\ ss <> [].

Lemma starts_no_error text ss q : starts text ss q -> has_error (parser_of text) = false.
Proof. intros [Hf Hn]. destruct ss; [done|]. by destruct Hf. Qed.

(** ** The accept loop *)

(** The accepted clients among the events, with what the buffer holds. *)
Definition client_of (ev : RunEvent * bool) : option (list Z * ClientIO) :=
  match fst ev with EvClient true stack io => Some (stack, io) | _ => None end.

(** Events other than a failure of select. *)
Definition event_ok (ev : RunEvent * bool) : Prop :=
  match fst ev with EvFailed eintr => eintr = true | _ => True end.

#[export] Instance event_ok_dec ev : Decision (event_ok ev).
Proof. unfold event_ok. destruct (fst ev); apply _. Defined.

(** No signal comes with the event. *)
Definition undisturbed (ev : RunEvent * bool) : Prop := snd ev = false.

#[export] Instance undisturbed_dec ev : Decision (undisturbed ev).
Proof. unfold undisturbed. apply _. Defined.

(** Each client is served to its end, without asking for a shutdown. *)
Definition served (fuel : nat) (c : list Z * ClientIO) (t : list (list Z)) : Prop :=
  server_handle_client fuel (fst c) (snd c) = Done (0, t).

Definition add_clients sv (r : bool) (n : Z) : Server :=
  mkServer (server_fd sv) (socket_path sv) (pid_file sv) (lock_file sv) r (client_count sv + n).

Lemma run_loop_serves g fuel evs ts : forall sv tail,
  running sv = true -> Forall event_ok evs -> g = false \/ Forall undisturbed evs ->
  Forall2 (served fuel) (omap client_of evs) ts ->
  server_run_loop g fuel sv (evs ++ tail) =
    (let* rr := server_run_loop g fuel (add_clients sv true (len ts)) tail in
     Done (mkRun (rr_server rr) (ts ++ rr_transcripts rr) (rr_rest rr) (rr_returned rr))).
Proof.
  revert ts. induction evs as [|[ev s] evs IH]; intros ts sv tail Hr He Hg Ht.
  - inversion Ht; subst. cbn [app]. assert (add_clients sv true (len (@nil (list (list Z)))) = sv) as ->.
    { destruct sv. cbn in *. subst. unfold add_clients. cbn. by rewrite Z.add_0_r. }
    by destruct (server_run_loop g fuel sv tail) as [[]| |].
  - apply Forall_cons in He as [He1 He]. cbn [app server_run_loop]. rewrite Hr. cbn [negb].
    assert ((if s then server_signal_handler g sv else sv) = sv) as ->.
    { destruct Hg as [-> |[Hs _]%Forall_cons]; [by destruct s|]. unfold undisturbed in Hs. cbn in Hs. by subst. }
    assert (g = false \/ Forall undisturbed evs) as Hg' by (destruct Hg as [?|[_ ?]%Forall_cons]; tauto).
    cbn [omap list_omap client_of fst] in Ht. destruct ev as [eintr| |accepted stack io]; cbn [event_ok fst] in He1.
    + cbn in He1. subst eintr. by apply IH.
    + by apply IH.
    + destruct accepted; cbn [server_accept_client negb]; [|by apply IH].
      apply Forall2_cons_inv_l in Ht as (t & ts' & Hsess & Ht & ->). unfold served in Hsess. cbn [fst snd] in Hsess.
      change (0 =? 0) with true. cbv iota. rewrite Hsess, bind_Done. cbn [Z.eqb negb].
      rewrite (IH ts') by done. unfold add_clients. cbn [server_fd socket_path pid_file lock_file client_count].
      replace (client_count sv + 1 + len ts') with (client_count sv + len (t :: ts')) by (simpl; lia).
      by destruct (server_run_loop g fuel _ tail) as [[]| |].
Qed.

(** ** Theorems *)

(** C11: the dialogue with a client, as the code holds it. Whatever was in the buffer
    before, each read (of 1 to 8191 bytes) is taken for one request, and its reply
    depends on its bytes alone: "PONG" to PING, a reply by the kind of statement to
    QUERY:, an error otherwise; SHUTDOWN is answered and ends the session with 1, the
    end of the input with 0. After a query the session goes on with the next read,
    errors are "ERROR message", and a statement that defines nothing is answered
    "OK 0 rows": specs/server-daemon wants the connection closed after one query,
    "ERROR: message" and "OK n" with the number of rows. *)
Theorem server_session_spec (fuel : nat) (stack : list Z) (io : ClientIO) :
  len stack = SERVER_BUFFER_SIZE -> reads_ok io ->
  server_handle_client fuel stack io = session fuel io.
Proof. apply handle_client_ok. Qed.

Lemma server_session_spec_witness :
  server_handle_client 200 (replicate 8192 81)
    [(zstr "PING", false); (zstr "QUERY:DROP TABLE t;", false); (zstr "QUERY:SELECT", true);
     (zstr "SHUTDOWN", false); (zstr "PING", false)] =
    Done (1, [zstr "PONG" ++ [10]; zstr "Query OK" ++ [10]; zstr "OK shutdown" ++ [10]]).
Proof.
  rewrite (server_session_spec 200 (replicate 8192 81)
    [(zstr "PING", false); (zstr "QUERY:DROP TABLE t;", false); (zstr "QUERY:SELECT", true);
     (zstr "SHUTDOWN", false); (zstr "PING", false)]).
  - by vm_compute.
  - by vm_compute.
  - apply (bool_decide_unpack _). by vm_compute.
Defined.

(** A printed statement is understood through the whole stack: read from the
    socket, trimmed, lexed and parsed, a statement text of any kind (with blanks
    behind it) is answered "Query OK" if it defines or drops something and "OK 0
    rows" otherwise, and the session goes on. (Nothing is executed.) *)
Theorem server_answers_statement (stmt : AstNode) (text ws stack : list Z) (q : Parser Lexer) (fuel : nat)
    (io : ClientIO) (r : Z) (replies : list (list Z)) :
  stmt_printable stmt = true -> feeds (parser_of text) (print_stmt stmt) q ->
  (4 * length (print_stmt stmt) <= fuel)%nat -> rtrim (text ++ ws) = text ->
  len stack = SERVER_BUFFER_SIZE -> reads_ok ((query (text ++ ws), false) :: io) ->
  session fuel io = Done (r, replies) ->
  server_handle_client fuel stack ((query (text ++ ws), false) :: io) =
    Done (r, ((if is_ddl stmt then zstr "Query OK" else zstr "OK 0 rows") ++ [10]) :: replies).
Proof.
  intros Hp Hf Hfuel Ht Hs Hio Hrest. rewrite handle_client_ok, session_query by done.
  assert (starts text (print_stmt stmt) q) as Hst by (split; [done|]; by destruct stmt as [| | | | | | | |[]]).
  rewrite query_reply_parse by (done || by eapply starts_no_error).
  rewrite (stmt_reads stmt Hp fuel _ q) by done. by rewrite !bind_Done, Hrest.
Qed.

Lemma server_answers_statement_witness :
  exists fuel, server_handle_client fuel (replicate 8192 0)
    [(query (sample_query ++ [13; 10]), false)] = Done (0, [zstr "OK 0 rows" ++ [10]]).
Proof.
  destruct (feeding (parser_of sample_query) (print_stmt sample_stmt)) as [q|] eqn:E.
  - exists 200%nat.
    apply (server_answers_statement sample_stmt sample_query [13; 10] (replicate 8192 0) q 200 [] 0 []).
    + vm_compute. reflexivity.
    + apply feeding_feeds. exact E.
    + apply Nat.leb_le. vm_compute. reflexivity.
    + vm_compute. reflexivity.
    + vm_compute. reflexivity.
    + apply (bool_decide_unpack _). by vm_compute.
    + reflexivity.
  - exfalso. revert E. vm_compute. discriminate.
Defined.

(** C12: clients are served one after the other, and while no signal arrives nothing
    but a client's SHUTDOWN ends the loop. For any events without a signal and
    without a failure of select other than an interruption, timeouts, interruptions
    and failed accepts change nothing: each accepted client is served to its end, in
    order, and counted, and the loop waits for the next event. The first client
    that asks for SHUTDOWN ends the loop, with the later events left. When g_server
    points to the server, a signal ends the loop as well, after the clients so far
    and with the later events left. (In the program g_server stays NULL, see
    [sigterm_ignored].) *)
Theorem server_run_spec (g : bool) (fuel : nat) (sv : Server) (evs rest : list (RunEvent * bool))
    (ts : list (list (list Z))) (stack : list Z) (io : ClientIO) (t : list (list Z)) :
  Forall event_ok evs -> Forall undisturbed evs -> Forall2 (served fuel) (omap client_of evs) ts ->
  server_handle_client fuel stack io = Done (1, t) ->
  server_run g fuel sv evs = Done (mkRun (add_clients sv true (len ts)) ts [] false) /\
  server_run g fuel sv (evs ++ (EvClient true stack io, false) :: rest) =
    Done (mkRun (add_clients sv false (len ts + 1)) (ts ++ [t]) rest true) /\
  (g = true -> server_run g fuel sv (evs ++ (EvTimeout, true) :: rest) =
    Done (mkRun (add_clients sv false (len ts)) ts rest true)).
Proof.
  intros He Hu Ht Hlast. unfold server_run. split; [|split; [|intros ->]].
  - rewrite <- (app_nil_r evs), (run_loop_serves g fuel evs ts (set_running sv true) [] eq_refl He (or_intror Hu) Ht).
    cbn. by rewrite app_nil_r.
  - rewrite (run_loop_serves g fuel evs ts (set_running sv true) _ eq_refl He (or_intror Hu) Ht).
    cbn [server_run_loop add_clients set_running running negb].
    cbn [server_accept_client negb]; change (0 =? 0) with true; cbv iota.
    rewrite Hlast. cbn. unfold add_clients, set_running. cbn. by rewrite Z.add_assoc.
  - rewrite (run_loop_serves true fuel evs ts (set_running sv true) _ eq_refl He (or_intror Hu) Ht).
    cbn [server_run_loop add_clients set_running running negb server_signal_handler]. by destruct rest; cbn; rewrite app_nil_r.
Qed.

Lemma server_run_spec_witness :
  exists sv, server_init = Done sv /\
  server_run g_server_start 100 sv
    [(EvClient true (replicate 8192 0) [(zstr "PING", false)], false); (EvFailed true, false); (EvTimeout, false);
     (EvClient true (replicate 8192 0) [(zstr "SHUTDOWN", false)], false); (EvTimeout, true)] =
    Done (mkRun (add_clients sv false 2) [[zstr "PONG" ++ [10]]; [zstr "OK shutdown" ++ [10]]]
      [(EvTimeout, true)] true).
Proof.
  destruct server_init as [sv| |] eqn:E; [|discriminate E|discriminate E].
  exists sv. split; [reflexivity|].
  destruct (server_run_spec g_server_start 100 sv
    [(EvClient true (replicate 8192 0) [(zstr "PING", false)], false); (EvFailed true, false); (EvTimeout, false)]
    [(EvTimeout, true)] [[zstr "PONG" ++ [10]]] (replicate 8192 0) [(zstr "SHUTDOWN", false)]
    [zstr "OK shutdown" ++ [10]]) as (_ & H & _).
  - apply (bool_decide_unpack _). by vm_compute.
  - apply (bool_decide_unpack _). by vm_compute.
  - constructor; [by vm_compute|constructor].
  - by vm_compute.
  - exact H.
Defined.

(** SIGTERM and SIGINT do nothing: g_server is NULL when the program starts and is
    never set, so with a signal at any of the events the loop does what it does
    without. *)
Theorem sigterm_ignored (fuel : nat) (sv : Server) (evs : list (RunEvent * bool)) (ts : list (list (list Z))) :
  Forall event_ok evs -> Forall2 (served fuel) (omap client_of evs) ts ->
  server_run g_server_start fuel sv evs = Done (mkRun (add_clients sv true (len ts)) ts [] false).
Proof.
  intros He Ht. unfold server_run, g_server_start.
  rewrite <- (app_nil_r evs), (run_loop_serves false fuel evs ts (set_running sv true) [] eq_refl He (or_introl eq_refl) Ht).
  cbn. by rewrite app_nil_r.
Qed.

(** C40: one statement can hang the server. A query whose text starts one of the
    parses that do not end (for instance INSERT INTO t VALUES -) never gets a reply,
    and since the clients are served in one thread no other client ever does: no
    fuel is enough for the accept loop. *)
Theorem query_hangs_server (text ws : list Z) (ss : list Sym) (q : Parser Lexer) (fuel : nat)
    (g gone signal : bool) (sv : Server) (stack : list Z) (io : ClientIO) (evs : list (RunEvent * bool)) :
  starts text ss q -> diverging ss (cur q) = true -> has_error q = false -> rtrim (text ++ ws) = text ->
  len stack = SERVER_BUFFER_SIZE -> reads_ok ((query (text ++ ws), gone) :: io) ->
  server_run g fuel sv ((EvClient true stack ((query (text ++ ws), gone) :: io), false) :: evs) = NoFuel.
Proof.
  intros Hst Hd He Ht Hs Hio. unfold server_run. cbn [server_run_loop set_running running negb].
  cbn [server_accept_client negb]. change (0 =? 0) with true. cbv iota.
  rewrite handle_client_ok, session_query by done.
  rewrite query_reply_parse by (done || by eapply starts_no_error). destruct Hst as [Hf _].
  by rewrite (diverging_stuck ss _ q).
Qed.

Definition hanging_text : list Z := zstr "INSERT INTO t VALUES -1;".

Lemma query_hangs_server_witness :
  exists sv, server_init = Done sv /\
  server_run true 1000 sv [(EvClient true (replicate 8192 0) [(query (hanging_text ++ [10]), false)], false);
    (EvClient true (replicate 8192 0) [(zstr "PING", false)], false)] = NoFuel.
Proof.
  destruct server_init as [sv| |] eqn:E; [|discriminate E|discriminate E].
  exists sv. split; [reflexivity|].
  set (ss := [Kw TOKEN_INSERT; Kw TOKEN_INTO; Id (zstr "t"); Kw TOKEN_VALUES]).
  destruct (feeding (parser_of hanging_text) ss) as [q|] eqn:Eq.
  - apply (query_hangs_server hanging_text [10] ss q 1000 true false false sv (replicate 8192 0) []
      [(EvClient true (replicate 8192 0) [(zstr "PING", false)], false)]).
    + split; [apply feeding_feeds; exact Eq|discriminate].
    + rewrite (feeding_cur _ _ _ TOKEN_MINUS Eq); [reflexivity|vm_compute; reflexivity].
    + apply (f_equal (option_map has_error)) in Eq. apply (f_equal (default true)) in Eq. cbn [option_map default from_option] in Eq.
      unfold id in Eq. rewrite <- Eq. vm_compute. reflexivity.
    + vm_compute. reflexivity.
    + vm_compute. reflexivity.
    + apply (bool_decide_unpack _). by vm_compute.
  - exfalso. revert Eq. vm_compute. discriminate.
Defined.

(** The error reply reads through a null pointer. INSERT INTO t VALUES () (with
    anything behind the parenthesis) makes parser_parse return NULL without setting
    an error, so the "%s" of the reply gets the NULL of parser_error. *)
Theorem empty_row_reply_undefined (text ws t : list Z) (q : Parser Lexer) (fuel : nat) (stack : list Z)
    (gone : bool) (io : ClientIO) :
  feeds (parser_of text) [Kw TOKEN_INSERT; Kw TOKEN_INTO; Id t; Kw TOKEN_VALUES; Kw TOKEN_LPAREN] q ->
  cur q = TOKEN_RPAREN -> has_error q = false -> (0 < fuel)%nat -> rtrim (text ++ ws) = text ->
  len stack = SERVER_BUFFER_SIZE -> reads_ok ((query (text ++ ws), gone) :: io) ->
  server_handle_client fuel stack ((query (text ++ ws), gone) :: io) = Undef.
Proof.
  intros Hf Hc He Hfuel Ht Hs Hio. rewrite handle_client_ok, session_query by done.
  rewrite query_reply_parse by (done || by destruct Hf). rewrite (insert_empty_row fuel _ q t) by done.
  rewrite bind_Done. unfold parser_error. by rewrite He.
Qed.

Definition empty_row_text : list Z := zstr "INSERT INTO users VALUES ();".

Lemma empty_row_reply_undefined_witness :
  server_handle_client 100 (replicate 8192 0) [(query (empty_row_text ++ [10]), false)] = Undef.
Proof.
  set (ss := [Kw TOKEN_INSERT; Kw TOKEN_INTO; Id (zstr "users"); Kw TOKEN_VALUES; Kw TOKEN_LPAREN]).
  destruct (feeding (parser_of empty_row_text) ss) as [q|] eqn:Eq.
  - apply (empty_row_reply_undefined empty_row_text [10] (zstr "users") q 100 (replicate 8192 0) false []).
    + apply feeding_feeds. exact Eq.
    + rewrite (feeding_cur _ _ _ TOKEN_RPAREN Eq); [reflexivity|vm_compute; reflexivity].
    + apply (f_equal (option_map has_error)) in Eq. apply (f_equal (default true)) in Eq. cbn [option_map default from_option] in Eq.
      unfold id in Eq. rewrite <- Eq. vm_compute. reflexivity.
    + apply Nat.ltb_lt. reflexivity.
    + vm_compute. reflexivity.
    + vm_compute. reflexivity.
    + apply (bool_decide_unpack _). by vm_compute.
  - exfalso. revert Eq. vm_compute. discriminate.
Defined.

(** *** The socket path *)

Lemma strncpy_255 b buf s :
  length buf = 256%nat -> cstr b s ->
  (let* a := strncpy buf 0 b 255 in buf_write 255 [0] a) = Done (pad 256 s).
Proof.
  intros Hl Hb. unfold strncpy. rewrite (strncpy_bytes_cstr 255 b s Hb), bind_Done.
  set (w := take 255 s ++ _).
  assert (length w = 255%nat) as Hw by (unfold w; rewrite length_app, length_replicate, length_take; lia).
  rewrite buf_write_Done, bind_Done by lia. rewrite buf_write_Done by (rewrite ?length_splice; simpl; lia).
  f_equal. rewrite pad_eq by lia. change (256 - 1)%nat with 255%nat. fold w.
  pose proof (splice_app 0 w [0] buf ltac:(lia)) as E. rewrite Hw in E.
  change (0 + 255)%nat with (Z.to_nat 255) in E. change (Z.to_nat 0) with 0%nat. rewrite E.
  unfold splice. rewrite drop_ge by (rewrite length_app, Hw; simpl; lia). simpl. by rewrite app_nil_r.
Qed.

(** Binding to a path. A path below 108 bytes is what bind gets, and the server
    keeps it; if every call works the descriptor is kept and 0 returned, else -1. A
    longer path is written past the end of sun_path: server->socket_path holds 255
    bytes of it and strcpy copies them into 108. *)
Theorem server_bind_path (sv : Server) (b s : list Z) (ev : SocketEvents) (fd : Z) :
  length (socket_path sv) = 256%nat -> cstr b s -> se_socket ev = Some fd ->
  server_bind_and_listen sv (Some b) ev =
    if len s <? 108 then
      let sv := set_path sv (pad 256 s) in
      Done (if se_bind ev && se_listen ev then 0 else -1,
            if se_bind ev && se_listen ev then set_fd sv fd else sv,
            if se_bind ev then Some (pad 108 s) else None)
    else Undef.
Proof.
  intros Hl Hb Hfd. unfold server_bind_and_listen, set_socket_path. cbn [socket_path].
  pose proof (strncpy_255 b (socket_path sv) s Hl Hb) as Hp.
  destruct (strncpy (socket_path sv) 0 b 255) as [a| |]; cbn [obind] in Hp |- *; [|done..].
  rewrite Hp. cbn [obind]. rewrite Hfd. cbn [set_path socket_path].
  pose proof (pad_cstr 256 s [] ltac:(lia) (proj2 Hb)) as Hc. rewrite app_nil_r in Hc.
  rewrite (strcpy_cstr _ _ _ Hc). rewrite length_replicate, length_take. change (256 - 1)%nat with 255%nat.
  destruct (Z.ltb_spec (len s) 108).
  - rewrite (proj2 (Z.ltb_lt _ _)) by (unfold SUN_PATH_SIZE; lia). rewrite bind_Done.
    rewrite (take_ge s), Nat.min_r by lia.
    assert (s ++ 0 :: drop (S (length s)) (replicate SUN_PATH_SIZE 0) = pad 108 s) as ->.
    { unfold pad, SUN_PATH_SIZE. rewrite drop_replicate, (take_ge s) by lia. f_equal.
      replace (108 - length s)%nat with (S (108 - S (length s)))%nat by lia. done. }
    by destruct (se_bind ev), (se_listen ev).
  - rewrite (proj2 (Z.ltb_ge _ _)) by (unfold SUN_PATH_SIZE; lia). done.
Qed.

Lemma server_bind_path_witness :
  exists sv, server_init = Done sv /\
  server_bind_and_listen sv (Some (replicate 108 97 ++ [0])) (mkSocketEvents (Some 3) true true) = Undef /\
  (let* '(r, sv, path) := server_bind_and_listen sv (Some (lit "/tmp/db")) (mkSocketEvents (Some 3) true true) in
   Done (r, text (socket_path sv), path)) = Done (0, zstr "/tmp/db", Some (pad 108 (zstr "/tmp/db"))).
Proof.
  destruct server_init as [sv| |] eqn:E; [|discriminate E|discriminate E].
  assert (length (socket_path sv) = 256%nat) as Hl.
  { apply (f_equal (fun m => obind m (fun s => Done (length (socket_path s))))) in E.
    cbn [obind] in E. assert (Done (length (socket_path sv)) = Done 256%nat) as [= H]; [|exact H].
    rewrite <- E. by vm_compute. }
  exists sv. split; [reflexivity|]. split.
  - rewrite (server_bind_path sv (replicate 108 97 ++ [0]) (replicate 108 97) (mkSocketEvents (Some 3) true true) 3).
    + by vm_compute.
    + exact Hl.
    + split; [by exists []|]. apply (bool_decide_unpack _). by vm_compute.
    + reflexivity.
  - rewrite (server_bind_path sv (lit "/tmp/db") (zstr "/tmp/db") (mkSocketEvents (Some 3) true true) 3).
    + by vm_compute.
    + exact Hl.
    + apply lit_cstr. reflexivity.
    + reflexivity.
Defined.
