(* ===== verification/Startup.v ===== *)
(** Model of the file system side of src/server/server.c (run directory, pid file,
    lock file, socket file) and of src/server/main.c, which puts the server's life
    together. *)
From Stdlib Require Import ZArith Lia String.
From stdpp Require Import base numbers option list gmap.
From S2P Require Import Prelude CString Fields Double Server.

(** ** A file system *)

Inductive Inode : Type := Dir | Reg (content : list Z) | Sock.

#[export] Instance Inode_eq_dec : EqDecision Inode.
Proof. solve_decision. Defined.

Abbreviation FS := (gmap (list Z) Inode).

Implicit Types fs : FS.

(** Directories are not removed. *)
Definition unlink fs (path : list Z) : FS :=
  match fs !! path with Some Dir => fs | _ => delete path fs end.

Definition run_dir : list Z := zstr "/run/tinydb".
Definition pid_path : list Z := zstr "/run/tinydb/tinydb.pid".
Definition lock_path : list Z := zstr "/run/tinydb/tinydb.lock".

Section files.
(** Where the process may create files. *)
Variable may_create : list Z -> bool.

(** The result, and whether errno is EEXIST. *)
Definition mkdir fs (path : list Z) : Z * bool * FS :=
  match fs !! path with
  | Some _ => (-1, true, fs)
  | None => if may_create path then (0, false, <[path := Dir]> fs) else (-1, false, fs)
  end.

(** fopen with "w", fprintf of [content], fclose. *)
Definition write_file fs (path content : list Z) : Z * FS :=
  match fs !! path with
  | Some (Reg _) => (0, <[path := Reg content]> fs)
  | Some _ => (-1, fs)
  | None => if may_create path then (0, <[path := Reg content]> fs) else (-1, fs)
  end.

Definition server_create_run_directory fs : Z * FS :=
  match fs !! run_dir with
  | Some Dir => (0, fs)
  | Some _ => (-1, fs)
  | None =>
      let '(r, eexist, fs) := mkdir fs run_dir in
      if r =? 0 then (0, fs) else (if eexist : bool then 0 else -1, fs)
  end.

Definition server_write_pid fs (pid : Z) (file : list Z) : Z * FS :=
  write_file fs file (print_int pid ++ [10]).

Definition server_remove_pid fs (file : list Z) : FS := unlink fs file.

(** open with O_CREAT | O_EXCL *)
Definition server_write_lock fs (file : list Z) : Z * FS :=
  match fs !! file with
  | Some _ => (-1, fs)
  | None => if may_create file then (0, <[file := Reg []]> fs) else (-1, fs)
  end.

Definition server_remove_lock fs (file : list Z) : FS := unlink fs file.

(** The files; freeing the server and closing its socket have no effect on them. *)
Definition server_shutdown fs (sv : Server) : outcome FS :=
  let* n := str_len (socket_path sv) in
  let fs := if 0 <? n then unlink fs (text (socket_path sv)) else fs in
  let fs := server_remove_pid fs (text (pid_file sv)) in
  Done (server_remove_lock fs (text (lock_file sv))).

(** The unlink before and the socket that bind leaves. Binding fails where
    something is. *)
Definition bind_files fs (sv : Server) (path : option (list Z)) (ev : SocketEvents)
    : outcome (Z * Server * FS) :=
  let* sv1 := set_socket_path sv path in
  let fs := unlink fs (text (socket_path sv1)) in
  let free := bool_decide (fs !! text (socket_path sv1) = None) in
  let* '(r, sv, bound) := server_bind_and_listen sv path
                            (mkSocketEvents (se_socket ev) (se_bind ev && free) (se_listen ev)) in
  Done (r, sv, match bound with Some p => <[text p := Sock]> fs | None => fs end).

(** ** main *)

(** The options getopt_long recognizes; [OptOther] is anything else. *)
Inductive Opt : Type :=
  | OptHelp | OptVersion | OptDb (path : list Z) | OptSocket (path : list Z) | OptLog (level : list Z)
  | OptOther.

(** The exit status of options that end the program, or the database and socket
    paths. *)
Fixpoint parse_options (opts : list Opt) (db_path socket : option (list Z))
    : Z + (option (list Z) * option (list Z)) :=
  match opts with
  | [] => inr (db_path, socket)
  | OptHelp :: _ | OptVersion :: _ => inl 0
  | OptDb p :: opts => parse_options opts (Some p) socket
  | OptSocket p :: opts => parse_options opts db_path (Some p)
  | OptLog _ :: opts => parse_options opts db_path socket
  | OptOther :: _ => inl 1
  end.

(** TINYDB_DB_PATH and TINYDB_SOCKET_PATH. *)
Record Env : Type := mkEnv { env_db : option (list Z); env_socket : option (list Z) }.

Definition or_env (o e : option (list Z)) : option (list Z) := match o with Some _ => o | None => e end.

(** What happens besides the files: the process id, the socket calls, the result of
    tinydb_open on the path (Storage.v), the events of the accept loop and the fuel of
    the parser. *)
Record World : Type := mkWorld {
  w_pid : Z;
  w_socket : SocketEvents;
  w_open : list Z -> Z;
  w_events : list (RunEvent * bool);
  w_fuel : nat }.

(** How main ends: the exit status, or still serving. *)
Inductive MainResult : Type :=
  | Exited (status : Z) (files : FS) (transcripts : list (list (list Z)))
  | Serving (files : FS) (transcripts : list (list (list Z))).

(** After a failure, or at the end. *)
Definition clean_up fs (sv : Server) (status : Z) : outcome MainResult :=
  let fs := server_remove_pid fs pid_path in
  let fs := server_remove_lock fs lock_path in
  let* fs := server_shutdown fs sv in
  Done (Exited status fs []).

(** From the bound socket on. tinydb_open, whose result is [w_open], creates or
    changes the database file, which is not in the map [fs]. *)
Definition main_serve (w : World) fs (sv : Server) (db_path : list Z) : outcome MainResult :=
  if negb (w_open w db_path =? 0) then clean_up fs sv 1 else
  let* rr := server_run g_server_start (w_fuel w) sv (w_events w) in
  if negb (rr_returned rr) then Done (Serving fs (rr_transcripts rr)) else
  let* fs := server_shutdown fs (rr_server rr) in
  Done (Exited 0 fs (rr_transcripts rr)).

Definition server_main (w : World) (env : Env) (opts : list Opt) fs : outcome MainResult :=
  match parse_options opts None None with
  | inl status => Done (Exited status fs [])
  | inr (db_path, socket) =>
      let db_path := default (lit "/var/lib/tinydb/main.db") (or_env db_path (env_db env)) in
      let socket := or_env socket (env_socket env) in
      let '(r, fs) := server_create_run_directory fs in
      if negb (r =? 0) then Done (Exited 1 fs []) else
      let* sv := server_init in
      let '(r, fs) := server_write_lock fs lock_path in
      if negb (r =? 0) then
        let* fs := server_shutdown fs sv in Done (Exited 1 fs [])
      else
      let '(r, fs) := server_write_pid fs (w_pid w) pid_path in
      if negb (r =? 0) then
        let fs := server_remove_lock fs lock_path in
        let* fs := server_shutdown fs sv in Done (Exited 1 fs [])
      else
      let* sv :=
        match socket with
        | None => Done sv
        | Some p => let* a := strncpy (socket_path sv) 0 p 255 in Done (set_path sv a)
        end in
      let* '(r, sv, fs) := bind_files fs sv socket (w_socket w) in
      if negb (r =? 0) then clean_up fs sv 1 else
      main_serve w fs sv db_path
  end.
End files.

(** ** Lemmas *)

Definition default_path : list Z := zstr DEFAULT_SOCKET_PATH.

(** What server_init makes. *)
Definition init_server : Server :=
  mkServer (-1) (pad 256 default_path) (pad 256 pid_path) (pad 256 lock_path) false 0.

Lemma server_init_ok : server_init = Done init_server.
Proof. by vm_compute. Qed.

Lemma unlink_file fs path : fs !! path <> Some Dir -> unlink fs path = delete path fs.
Proof. unfold unlink. destruct (fs !! path) as [[| |]|]; done. Qed.

(** The three files of the server's. *)
Definition own_files : list (list Z) := [lock_path; pid_path; default_path].

Lemma own_files_distinct : NoDup (run_dir :: own_files).
Proof. apply (bool_decide_unpack _). by vm_compute. Qed.

Lemma distinct : run_dir <> lock_path /\ run_dir <> pid_path /\ run_dir <> default_path /\
  lock_path <> pid_path /\ lock_path <> default_path /\ pid_path <> default_path.
Proof. split_and!; apply (bool_decide_unpack _); by vm_compute. Qed.

Definition default_files (sv : Server) : Prop :=
  socket_path sv = socket_path init_server /\ pid_file sv = pid_file init_server /\
  lock_file sv = lock_file init_server.

(** The three paths name no directories. *)
Definition no_dirs fs : Prop :=
  fs !! lock_path <> Some Dir /\ fs !! pid_path <> Some Dir /\ fs !! default_path <> Some Dir.

Lemma shutdown_ok fs sv :
  default_files sv -> no_dirs fs ->
  server_shutdown fs sv = Done (delete lock_path (delete pid_path (delete default_path fs))).
Proof.
  intros (Hs & Hp & Hl) (H1 & H2 & H3). unfold server_shutdown. rewrite Hs, Hp, Hl.
  destruct distinct as (_ & _ & _ & D1 & D2 & D3).
  assert (text (socket_path init_server) = default_path) as -> by (by vm_compute).
  assert (text (pid_file init_server) = pid_path) as -> by (by vm_compute).
  assert (text (lock_file init_server) = lock_path) as -> by (by vm_compute).
  assert (str_len (socket_path init_server) = Done 23) as -> by (by vm_compute).
  rewrite bind_Done. change (0 <? 23) with true. cbv iota. f_equal.
  unfold server_remove_pid, server_remove_lock.
  rewrite (unlink_file fs) by done. rewrite (unlink_file _ pid_path) by (by rewrite lookup_delete_ne).
  apply unlink_file. by rewrite !lookup_delete_ne.
Qed.

Lemma run_dir_ok (may_create : list Z -> bool) fs :
  fs !! run_dir = Some Dir -> server_create_run_directory may_create fs = (0, fs).
Proof. unfold server_create_run_directory. by intros ->. Qed.

(** The run loop keeps the paths. *)
Definition same_paths (a b : Server) : Prop :=
  socket_path a = socket_path b /\ pid_file a = pid_file b /\ lock_file a = lock_file b.

Lemma run_loop_paths g fuel sv evs rr :
  server_run_loop g fuel sv evs = Done rr -> same_paths (rr_server rr) sv.
Proof.
  revert sv rr. induction evs as [|[ev s] evs IH]; intros sv rr; cbn [server_run_loop].
  - by destruct (running sv); cbn [negb]; intros [= <-].
  - destruct (running sv); cbn [negb]; [|by intros [= <-]].
    set (sv' := if s then server_signal_handler g sv else sv).
    assert (same_paths sv' sv) as Hs by (unfold sv', server_signal_handler; by destruct s, g).
    assert (forall a b c, same_paths a b -> same_paths b c -> same_paths a c) as Htr.
    { unfold same_paths. intros a b c (-> & -> & ->) (-> & -> & ->). done. }
    destruct ev as [eintr| |accepted stack io].
    + destruct eintr; [|by intros [= <-]]. intros H. eapply Htr; [by apply IH|done].
    + intros H. eapply Htr; [by apply IH|done].
    + destruct accepted; cbn [server_accept_client negb]; change (0 =? 0) with true; change (-1 =? 0) with false;
        cbv iota; [|intros H; eapply Htr; [by apply IH|done]].
      destruct (server_handle_client fuel stack io) as [[r t]| |]; [|done..]. rewrite bind_Done.
      destruct (negb (r =? 0)); [by intros [= <-]|]. intros (rr' & E & [= <-])%bind_Done_inv.
      cbn [rr_server]. apply IH in E. by eapply Htr.
Qed.

(** ** Theorems *)

(** A second start destroys the lock of the first. With the lock file there, the
    program reports another instance and exits with 1, but the shutdown of its own
    server object has removed the lock file, the pid file and the socket of the
    running server; the next start finds no lock. *)
Theorem second_start_removes_lock (may_create : list Z -> bool) (w : World) (env : Env) (opts : list Opt) (fs : FS)
    (paths : option (list Z) * option (list Z)) (i : Inode) :
  parse_options opts None None = inr paths -> fs !! run_dir = Some Dir -> fs !! lock_path = Some i ->
  no_dirs fs -> may_create lock_path = true ->
  exists fs', server_main may_create w env opts fs = Done (Exited 1 fs' []) /\
    fs' = delete lock_path (delete pid_path (delete default_path fs)) /\
    fst (server_write_lock may_create fs' lock_path) = 0.
Proof.
  intros Ho Hr Hl Hd Hc. unfold server_main. rewrite Ho. destruct paths as [db socket].
  rewrite run_dir_ok by done. cbn [Z.eqb negb]. rewrite server_init_ok, bind_Done.
  unfold server_write_lock at 1. rewrite Hl. cbn [Z.eqb negb].
  rewrite shutdown_ok, bind_Done by done. eexists. split; [done|]. split; [done|].
  unfold server_write_lock. rewrite lookup_delete_eq. by rewrite Hc.
Qed.

Definition idle_world : World := mkWorld 42 (mkSocketEvents (Some 3) true true) (fun _ => 0) [] 100.

(** The files while a server runs. *)
Definition serving_files : FS :=
  <[default_path := Sock]> (<[pid_path := Reg (zstr "42" ++ [10])]> (<[lock_path := Reg []]> {[run_dir := Dir]})).

Lemma second_start_removes_lock_witness :
  server_main (fun _ => true) idle_world (mkEnv None None) [] {[run_dir := Dir]} = Done (Serving serving_files []) /\
  server_main (fun _ => true) idle_world (mkEnv None None) [] serving_files = Done (Exited 1 {[run_dir := Dir]} []).
Proof.
  split; [by vm_compute|].
  destruct (second_start_removes_lock (fun _ => true) idle_world (mkEnv None None) [] serving_files (None, None) (Reg []))
    as (fs' & -> & -> & _).
  - reflexivity.
  - by vm_compute.
  - by vm_compute.
  - split_and!; vm_compute; discriminate.
  - reflexivity.
  - by vm_compute.
Defined.

(** C21: the server's life, from a clean state with the default paths. While it
    serves, the lock file, the pid file with its process id, and the socket exist;
    it serves exactly the transcripts of the accept loop; when the loop returns the
    three files are gone, every other file of the map is as before (the database file
    that main opens is not in the map), and the status is 0. *)
Theorem server_main_lifecycle (may_create : list Z -> bool) (w : World) (fs : FS) (fd : Z) (rr : RunResult) :
  fs !! run_dir = Some Dir -> Forall (fun p => fs !! p = None /\ may_create p = true) own_files ->
  w_socket w = mkSocketEvents (Some fd) true true -> w_open w (lit "/var/lib/tinydb/main.db") = 0 ->
  server_run g_server_start (w_fuel w) (set_fd init_server fd) (w_events w) = Done rr ->
  server_main may_create w (mkEnv None None) [] fs = Done
    (if rr_returned rr then Exited 0 fs (rr_transcripts rr)
     else Serving (<[default_path := Sock]> (<[pid_path := Reg (print_int (w_pid w) ++ [10])]>
                    (<[lock_path := Reg []]> fs))) (rr_transcripts rr)).
Proof.
  intros Hr Ho Hs Hopen Hrun. destruct distinct as (_ & _ & _ & D1 & D2 & D3).
  apply Forall_cons in Ho as [[L1 L2] Ho]. apply Forall_cons in Ho as [[P1 P2] Ho].
  apply Forall_cons in Ho as [[S1 S2] _].
  unfold server_main. cbn [parse_options or_env env_db env_socket default].
  rewrite run_dir_ok by done. cbn [Z.eqb negb]. rewrite server_init_ok, bind_Done.
  unfold server_write_lock. rewrite L1, L2. cbn [Z.eqb negb].
  unfold server_write_pid, write_file. rewrite lookup_insert_ne, P1, P2 by done. cbn [Z.eqb negb].
  rewrite bind_Done. unfold bind_files. cbn [set_socket_path]. rewrite bind_Done.
  assert (text (socket_path init_server) = default_path) as -> by (by vm_compute).
  set (fs1 := <[pid_path := _]> _).
  assert (fs1 !! default_path = None) as Hf by (unfold fs1; by rewrite !lookup_insert_ne).
  rewrite (unlink_file fs1), delete_id by congruence. rewrite Hf, bool_decide_eq_true_2 by done.
  rewrite Hs. cbn [se_socket se_bind se_listen andb]. unfold server_bind_and_listen.
  cbn [set_socket_path se_socket se_bind se_listen negb]. rewrite bind_Done.
  assert (strcpy (replicate SUN_PATH_SIZE 0) (socket_path init_server) = Done (pad 108 default_path)) as ->
    by (by vm_compute). rewrite !bind_Done. cbn [Z.eqb negb].
  assert (text (pad 108 default_path) = default_path) as -> by (by vm_compute).
  unfold main_serve. rewrite Hopen. cbn [Z.eqb negb]. rewrite Hrun, bind_Done.
  destruct (rr_returned rr); cbn [negb]; [|done].
  apply run_loop_paths in Hrun as Hp. rewrite shutdown_ok; [|exact Hp|].
  - rewrite bind_Done. do 2 f_equal. rewrite delete_insert_id by done. unfold fs1.
    rewrite delete_insert_id by (by rewrite lookup_insert_ne). by rewrite delete_insert_id.
  - unfold fs1. split_and!; rewrite ?lookup_insert_ne, ?lookup_insert_eq by done; try done.
Qed.

Definition short_world : World :=
  mkWorld 42 (mkSocketEvents (Some 3) true true) (fun _ => 0)
    [(EvClient true (replicate 8192 0) [(zstr "PING", false); (zstr "SHUTDOWN", false)], false)] 100.

Lemma server_main_lifecycle_witness :
  server_main (fun _ => true) short_world (mkEnv None None) [] {[run_dir := Dir]} =
    Done (Exited 0 {[run_dir := Dir]} [[zstr "PONG" ++ [10]; zstr "OK shutdown" ++ [10]]]).
Proof.
  destruct (server_run g_server_start 100 (set_fd init_server 3) (w_events short_world)) as [rr| |] eqn:E;
    [|exfalso; revert E; vm_compute; discriminate..].
  rewrite (server_main_lifecycle (fun _ => true) short_world {[run_dir := Dir]} 3 rr).
  - revert E. vm_compute. intros [= <-]. reflexivity.
  - by vm_compute.
  - apply (bool_decide_unpack _). by vm_compute.
  - reflexivity.
  - reflexivity.
  - exact E.
Defined.
