(* ===== verification/Cli.v ===== *)
(** Model of src/cli/cli.c: the command line client's state, its meta-commands, the
    exchange with the server, and its loops over lines. The console, the socket and
    the files it reads are explicit. *)
From Stdlib Require Import ZArith Lia String.
From stdpp Require Import base numbers option list gmap.
From S2P Require Import Prelude CString Fields Double.

(** ** State *)

Definition CLI_DEFAULT_SOCKET : string := "/run/tinydb/tinydb.sock".
Definition CLI_MAX_LINE : nat := 4096.

Inductive OutputMode : Type :=
  | OUTPUT_MODE_BOX | OUTPUT_MODE_CSV | OUTPUT_MODE_LINE | OUTPUT_MODE_LIST.

#[export] Instance OutputMode_eq_dec : EqDecision OutputMode.
Proof. solve_decision. Defined.

(** A pointer the client keeps: to a text that lives on, or to an array of a
    function that has returned. *)
Inductive Ptr : Type := Lives (s : list Z) | Dangling.

Record CLI : Type := mkCLI {
  socket_fd : Z;
  connected : bool;
  mode : OutputMode;
  show_headers : bool;
  show_timer : bool;
  null_string : Ptr;
  pager_enabled : bool;
  pager_cmd : Ptr;
  verbose : bool;
  quiet : bool;
  executed_command : bool }.

(** What surrounds the client: the descriptor socket() gives (None: it fails), which
    paths a server listens on, whether a write is complete, the chunks that arrive on
    the socket (an empty one, or none, ends a read with 0), and the files. *)
Record Net : Type := mkNet {
  net_socket : option Z;
  net_listens : list Z -> bool;
  net_write_ok : bool;
  net_in : list (list Z);
  net_files : gmap (list Z) (list Z) }.

(** A console session: client, surroundings, and what was printed, sent and executed. *)
Record Console : Type := mkConsole {
  cli : CLI;
  net : Net;
  out : list Z;
  err : list Z;
  sent : list (list Z);
  shell : list (list Z) }.

Implicit Types r : Console.

Definition with_cli r (c : CLI) : Console := mkConsole c (net r) (out r) (err r) (sent r) (shell r).
Definition say r (s : list Z) : Console := mkConsole (cli r) (net r) (out r ++ s) (err r) (sent r) (shell r).
Definition complain r (s : list Z) : Console := mkConsole (cli r) (net r) (out r) (err r ++ s) (sent r) (shell r).
Definition with_input r (chunks : list (list Z)) : Console :=
  mkConsole (cli r)
    (mkNet (net_socket (net r)) (net_listens (net r)) (net_write_ok (net r)) chunks (net_files (net r)))
    (out r) (err r) (sent r) (shell r).

Definition cli_init : CLI :=
  mkCLI (-1) false OUTPUT_MODE_BOX true false (Lives []) true (Lives (zstr "less -R")) false false false.

(** ** Setters *)

Definition cli_set_output_mode (c : CLI) (m : OutputMode) : CLI :=
  mkCLI (socket_fd c) (connected c) m (show_headers c) (show_timer c) (null_string c) (pager_enabled c)
    (pager_cmd c) (verbose c) (quiet c) (executed_command c).
Definition cli_set_headers (c : CLI) (show : bool) : CLI :=
  mkCLI (socket_fd c) (connected c) (mode c) show (show_timer c) (null_string c) (pager_enabled c)
    (pager_cmd c) (verbose c) (quiet c) (executed_command c).
Definition cli_set_timer (c : CLI) (show : bool) : CLI :=
  mkCLI (socket_fd c) (connected c) (mode c) (show_headers c) show (null_string c) (pager_enabled c)
    (pager_cmd c) (verbose c) (quiet c) (executed_command c).
Definition cli_set_null_string (c : CLI) (s : Ptr) : CLI :=
  mkCLI (socket_fd c) (connected c) (mode c) (show_headers c) (show_timer c) s (pager_enabled c)
    (pager_cmd c) (verbose c) (quiet c) (executed_command c).
(** The text at the pointer, and the pointer to keep. *)
Definition cli_set_pager (c : CLI) (cmd : list Z) (p : Ptr) : CLI :=
  mkCLI (socket_fd c) (connected c) (mode c) (show_headers c) (show_timer c) (null_string c)
    (negb (bool_decide (cmd = zstr "cat"))) p (verbose c) (quiet c) (executed_command c).
Definition cli_set_verbose (c : CLI) (v : bool) : CLI :=
  mkCLI (socket_fd c) (connected c) (mode c) (show_headers c) (show_timer c) (null_string c) (pager_enabled c)
    (pager_cmd c) v (quiet c) (executed_command c).
Definition set_quiet (c : CLI) : CLI :=
  mkCLI (socket_fd c) (connected c) (mode c) (show_headers c) (show_timer c) (null_string c) (pager_enabled c)
    (pager_cmd c) (verbose c) true (executed_command c).
Definition set_executed (c : CLI) : CLI :=
  mkCLI (socket_fd c) (connected c) (mode c) (show_headers c) (show_timer c) (null_string c) (pager_enabled c)
    (pager_cmd c) (verbose c) (quiet c) true.
Definition set_socket (c : CLI) (fd : Z) (b : bool) : CLI :=
  mkCLI fd b (mode c) (show_headers c) (show_timer c) (null_string c) (pager_enabled c)
    (pager_cmd c) (verbose c) (quiet c) (executed_command c).

Definition cli_get_output_mode_name (m : OutputMode) : list Z :=
  match m with
  | OUTPUT_MODE_BOX => zstr "box"
  | OUTPUT_MODE_CSV => zstr "csv"
  | OUTPUT_MODE_LINE => zstr "line"
  | OUTPUT_MODE_LIST => zstr "list"
  end.

(** The argument is a C string, None for NULL. *)
Definition cli_parse_output_mode (m : option (list Z)) : outcome OutputMode :=
  match m with
  | None => Done OUTPUT_MODE_BOX
  | Some m =>
      let* e := streq m "box" in if e : bool then Done OUTPUT_MODE_BOX else
      let* e := streq m "csv" in if e : bool then Done OUTPUT_MODE_CSV else
      let* e := streq m "line" in if e : bool then Done OUTPUT_MODE_LINE else
      let* e := streq m "list" in if e : bool then Done OUTPUT_MODE_LIST else
      Done OUTPUT_MODE_BOX
  end.

(** ** Connection *)

Definition SUN_PATH : nat := 108.

(** NULL is None. *)
Definition cli_connect r (path : option (list Z)) : outcome (Z * Console) :=
  let path := match path with None => lit CLI_DEFAULT_SOCKET | Some p => p end in
  match net_socket (net r) with
  | None => Done (-1, r)
  | Some fd =>
      let* sun_path := strcpy (replicate SUN_PATH 0) path in
      if negb (net_listens (net r) (text sun_path)) then Done (-1, r)
      else Done (0, with_cli r (set_socket (cli r) fd true))
  end.

Definition cli_disconnect (c : CLI) : CLI :=
  set_socket c (if 0 <=? socket_fd c then -1 else socket_fd c) false.

Definition cli_shutdown (c : CLI) : CLI :=
  if connected c || (0 <=? socket_fd c) then cli_disconnect c else c.

(** ** Scanning *)

(** The text at a pointer. *)
Definition cstring (b : list Z) : outcome (list Z) :=
  if bool_decide (0 ∈ b) then Done (text b) else Undef.

Fixpoint skip_spaces (s : list Z) : list Z :=
  match s with c :: s' => if isspace c then skip_spaces s' else s | [] => [] end.

(** sscanf with "%<n>s" into a zeroed array: what the array then holds. *)
Fixpoint word (n : nat) (s : list Z) : list Z :=
  match n, s with
  | S n, c :: s => if isspace c then [] else c :: word n s
  | _, _ => []
  end.
Definition scan_word (n : nat) (s : list Z) : list Z := word n (skip_spaces s).

(** sscanf with "%d" into an int that holds 0: undefined when out of range. *)
Definition int32 (z : Z) : outcome Z :=
  if (- 2 ^ 31 <=? z) && (z <? 2 ^ 31) then Done z else Undef.
Definition scan_int (s : list Z) : outcome Z :=
  match skip_spaces s with
  | 45 :: s => int32 (- fst (digits_value 0 s))
  | 43 :: s => int32 (fst (digits_value 0 s))
  | s => int32 (fst (digits_value 0 s))
  end.

(** strstr: whether [pat] occurs. *)
Fixpoint occurs (pat s : list Z) : bool :=
  bool_decide (pat `prefix_of` s) || match s with [] => false | _ :: s => occurs pat s end.

(** strtok with one delimiter, called until it gives NULL or [n] tokens are there. *)
Fixpoint skip_delim (d : Z) (s : list Z) : list Z :=
  match s with c :: s' => if c =? d then skip_delim d s' else s | [] => [] end.
Fixpoint token (d : Z) (s : list Z) : list Z * list Z :=
  match s with
  | [] => ([], [])
  | c :: s => if c =? d then ([], s) else let '(t, rest) := token d s in (c :: t, rest)
  end.
Fixpoint strtok (n : nat) (d : Z) (s : list Z) : list (list Z) :=
  match n with
  | O => []
  | S n =>
      match skip_delim d s with
      | [] => []
      | s => let '(t, rest) := token d s in t :: strtok n d rest
      end
  end.

(** ** The exchange with the server *)

(** read of at most [n] bytes. *)
Definition sock_read (n : nat) r : list Z * Console :=
  match n, net_in (net r) with
  | O, _ => ([], r)
  | _, [] => ([], r)
  | _, c :: chunks =>
      if (length c <=? n)%nat then (c, with_input r chunks)
      else (take n c, with_input r (drop n c :: chunks))
  end.

(** The loop that reads a response into [resp] until it ends with a newline. *)
Fixpoint read_response (fuel : nat) (resp : list Z) (resp_len : nat) r : outcome (list Z * nat * Console) :=
  match fuel with
  | O => NoFuel
  | S fuel =>
      let '(d, r) := sock_read (4096 - resp_len - 1) r in
      match d with
      | [] => Done (resp, resp_len, r)
      | _ =>
          let* resp := buf_write (Z.of_nat resp_len) d resp in
          let resp_len := (resp_len + length d)%nat in
          let* resp := buf_write (Z.of_nat resp_len) [0] resp in
          let* last := outcome_of_option (resp !! (resp_len - 1)%nat) in
          if last =? 10 then Done (resp, resp_len, r) else read_response fuel resp resp_len r
      end
  end.

(** The loops that cut newlines and carriage returns off the end of a buffer. *)
Fixpoint chomp (b : list Z) (n : nat) : outcome (list Z * nat) :=
  match n with
  | O => Done (b, O)
  | S m =>
      let* c := outcome_of_option (b !! m) in
      if (c =? 10) || (c =? 13) then let* b := buf_write (Z.of_nat m) [0] b in chomp b m
      else Done (b, n)
  end.

(** Fields with tabs between them, and a newline. *)
Fixpoint tabbed (fields : list (list Z)) : list Z :=
  match fields with
  | [] => []
  | [f] => f
  | f :: fs => f ++ [9] ++ tabbed fs
  end.

(** Reads one line of a result into [buf], of which a copy in [copy] is split.
    None when nothing was read. *)
Definition read_fields (buf copy : list Z) r : outcome (option (list (list Z)) * Console) :=
  let size := length buf in
  let '(d, r) := sock_read (size - 1) r in
  match d with
  | [] => Done (None, r)
  | _ =>
      let* buf := buf_write 0 d buf in
      let* buf := buf_write (len d) [0] buf in
      let* '(buf, _) := chomp buf (length d) in
      let* copy := strncpy copy 0 buf (size - 1) in
      let* line := cstring copy in
      Done (Some (strtok 64 9 line), r)
  end.

(** The loop over the rows of a result. *)
Fixpoint read_rows (rows : nat) (first : bool) (headers : list (list Z)) (row_copy : list Z) r : outcome Console :=
  match rows with
  | O => Done r
  | S rows =>
      let* '(values, r) := read_fields (replicate 4096 0) row_copy r in
      let r :=
        match values with
        | None => r
        | Some values =>
            let r := if show_headers (cli r) && first then say r (tabbed headers ++ [10]) else r in
            say r (tabbed values ++ [10])
        end in
      read_rows rows false headers row_copy r
  end.

Definition cli_display_ok (changes : Z) : list Z :=
  zstr "OK: " ++ print_int changes ++ zstr " row(s) affected" ++ [10].

(** What the arrays of the function hold before. *)
Record Stack : Type := mkStack { st_resp : list Z; st_headers : list Z; st_header_copy : list Z; st_row_copy : list Z }.

(** The loop that looks for a digit. *)
Fixpoint skip_to_digit (s : list Z) : list Z :=
  match s with c :: s' => if isdigit c then s else skip_to_digit s' | [] => [] end.

(** The part after the response is there, without its newline. *)
Definition handle_response (stk : Stack) (resp : list Z) r : outcome (Z * Console) :=
  let* is_error := has_prefix resp "ERROR" in
  if is_error : bool then
    let* msg := cstring (drop 6 resp) in
    Done (-1, complain r (zstr "Error: " ++ msg ++ [10]))
  else
  let* ok := has_prefix resp "OK" in
  let* query_ok := has_prefix resp "Query OK" in
  if ok || query_ok then
    let* t := cstring resp in
    let rows_part := occurs (zstr "rows") t in
    let affected_part := occurs (zstr "affected") t in
    if rows_part && negb affected_part then
      let* t3 := cstring (drop 3 resp) in
      let* rows := scan_int t3 in
      let* r :=
        if 0 <? rows then
          let* '(headers, r) := read_fields (st_headers stk) (st_header_copy stk) r in
          match headers with
          | None => Undef
          | Some headers => read_rows (Z.to_nat rows) true headers (st_row_copy stk) r
          end
        else Done r in
      Done (rows, say r (zstr "Query OK, " ++ print_int rows ++ zstr " row(s) returned" ++ [10]))
    else if affected_part then
      let* affected := scan_int (skip_to_digit t) in
      Done (affected, say r (cli_display_ok affected))
    else Done (0, say r (zstr "Query OK" ++ [10]))
  else Done (-1, complain r (zstr "Error: unknown response format" ++ [10])).

(** Connecting first when there is no connection. *)
Definition ensure_connected r : outcome (bool * Console) :=
  if connected (cli r) then Done (true, r) else
  let* '(c, r) := cli_connect r None in Done (c =? 0, r).

Definition cli_execute_sql (stk : Stack) r (sql : list Z) : outcome (Z * Console) :=
  let* '(up, r) := ensure_connected r in
  if negb up then Done (-1, complain r (zstr "Error: not connected to server" ++ [10])) else
  let* s := cstring sql in
  let buf := take (CLI_MAX_LINE + 64 - 1) (zstr "QUERY:" ++ s ++ [10]) in
  if negb (net_write_ok (net r)) then Done (-1, r) else
  let r := mkConsole (cli r) (net r) (out r) (err r) (sent r ++ [buf]) (shell r) in
  let* '(resp, resp_len, r) := read_response 4096 (st_resp stk) 0 r in
  if (resp_len =? 0)%nat then Done (-1, complain r (zstr "Error: no response from server" ++ [10])) else
  let* '(resp, _) := chomp resp resp_len in
  handle_response stk resp r.

Definition cli_single_query (stk : Stack) r (sql : list Z) : outcome (Z * Console) :=
  if negb (connected (cli r)) then
    let* '(c, r) := cli_connect r None in
    if negb (c =? 0) then Done (-1, r) else cli_execute_sql stk r sql
  else cli_execute_sql stk r sql.

(** ** Meta-commands *)

Definition cli_print_help : list Z :=
  zstr "TinyDB CLI v2.0.0 - Available commands:" ++ [10] ++
  [10] ++ zstr "Meta-commands:" ++ [10] ++
  zstr "  .help           Show this help" ++ [10] ++
  zstr "  .quit            Exit the CLI" ++ [10] ++
  zstr "  .exit            Exit the CLI" ++ [10] ++
  zstr "  .tables          List all tables" ++ [10] ++
  zstr "  .schema <table>  Show CREATE TABLE statement" ++ [10] ++
  zstr "  .indexes <table> List indexes on a table" ++ [10] ++
  zstr "  .plan <sql>      Show query plan" ++ [10] ++
  zstr "  .timer on/off    Enable/disable query timing" ++ [10] ++
  zstr "  .mode <mode>     Output mode: box, csv, line, list" ++ [10] ++
  zstr "  .headers on/off  Show/hide column headers" ++ [10] ++
  zstr "  .null <string>   String to display for NULL values" ++ [10] ++
  zstr "  .pager <cmd>     Set pager command" ++ [10] ++
  zstr "  .shell <cmd>     Execute shell command" ++ [10] ++
  zstr "  .read <file>     Read and execute SQL from file" ++ [10] ++
  zstr "  .trace on/off    Enable server trace" ++ [10].

Definition cli_print_tables : list Z := zstr "Tables: (use .tables to list)" ++ [10].
Definition cli_print_schema (table : list Z) : list Z := zstr "Schema: (not yet implemented)" ++ [10].
Definition cli_print_indexes (table : list Z) : list Z := zstr "Indexes: (not yet implemented)" ++ [10].

(** What a command that only prints or sets something does; None when it is none
    of these. The chain of comparisons up to .shell; .read is below. *)
Definition simple_command r (cmd : list Z) : outcome (option (Z * Console)) :=
  let* e1 := streq cmd ".quit" in
  let* e2 := if e1 : bool then Done true else streq cmd ".exit" in
  if e2 then Done (Some (1, r)) else
  let* e := streq cmd ".help" in if e : bool then Done (Some (0, say r cli_print_help)) else
  let* e := streq cmd ".tables" in if e : bool then Done (Some (0, say r cli_print_tables)) else
  let* e := has_prefix cmd ".schema" in
  if e : bool then
    let* s := cstring (drop 7 cmd) in Done (Some (0, say r (cli_print_schema (scan_word 63 s)))) else
  let* e := has_prefix cmd ".indexes" in
  if e : bool then
    let* s := cstring (drop 8 cmd) in Done (Some (0, say r (cli_print_indexes (scan_word 63 s)))) else
  let* e := streq cmd ".timer on" in
  if e : bool then
    Done (Some (0, say (with_cli r (cli_set_timer (cli r) true)) (zstr "Timer enabled." ++ [10]))) else
  let* e := streq cmd ".timer off" in
  if e : bool then
    Done (Some (0, say (with_cli r (cli_set_timer (cli r) false)) (zstr "Timer disabled." ++ [10]))) else
  let* e := has_prefix cmd ".mode" in
  if e : bool then
    let* s := cstring (drop 5 cmd) in
    let* m := cli_parse_output_mode (Some (scan_word 15 s ++ [0])) in
    let r := with_cli r (cli_set_output_mode (cli r) m) in
    Done (Some (0, say r (zstr "Output mode set to " ++ cli_get_output_mode_name (mode (cli r)) ++ zstr "." ++ [10])))
  else
  let* e := streq cmd ".headers on" in
  if e : bool then Done (Some (0, with_cli r (cli_set_headers (cli r) true))) else
  let* e := streq cmd ".headers off" in
  if e : bool then Done (Some (0, with_cli r (cli_set_headers (cli r) false))) else
  let* e := has_prefix cmd ".null" in
  if e : bool then
    let* s := cstring (drop 5 cmd) in
    Done (Some (0, with_cli r (cli_set_null_string (cli r) Dangling))) else
  let* e := has_prefix cmd ".pager" in
  if e : bool then
    let* s := cstring (drop 6 cmd) in
    Done (Some (0, with_cli r (cli_set_pager (cli r) (scan_word 127 s) Dangling))) else
  let* e := has_prefix cmd ".shell" in
  if e : bool then
    let* s := cstring (drop 6 cmd) in
    Done (Some (0, mkConsole (cli r) (net r) (out r) (err r) (sent r) (shell r ++ [scan_word 255 s]))) else
  Done None.

(** fgets into an array of [n] bytes: the line (with its newline, if it came so far)
    and the rest of the input. *)
Fixpoint fgets_line (n : nat) (input : list Z) : list Z * list Z :=
  match n, input with
  | S n, c :: input =>
      if c =? 10 then ([c], input)
      else let '(l, rest) := fgets_line n input in (c :: l, rest)
  | _, _ => ([], input)
  end.
Definition fgets (size : nat) (input : list Z) : option (list Z * list Z) :=
  match input with [] => None | _ => Some (fgets_line (size - 1) input) end.

Section lines.
Variable stk : Stack.

(** The commands of a file, given the call they make for a meta-command. *)
Fixpoint file_lines (meta : Console -> list Z -> outcome (Z * Console)) (fuel : nat) (input : list Z) (count : Z) r
    : outcome (Z * Console) :=
  match fuel with
  | O => NoFuel
  | S fuel =>
      match fgets CLI_MAX_LINE input with
      | None => Done (count, r)
      | Some (l, input) =>
          let* '(line, len) := chomp (l ++ [0]) (length (text (l ++ [0]))) in
          if (len =? 0)%nat then file_lines meta fuel input count r else
          let* c := outcome_of_option (line !! 0%nat) in
          if c =? 35 then file_lines meta fuel input count r
          else if c =? 46 then
            let* '(_, r) := meta r line in file_lines meta fuel input count r
          else
            let* '(res, r) := cli_execute_sql stk r line in
            file_lines meta fuel input (if res =? 0 then count + 1 else count) r
      end
  end.

(** cli_handle_meta_command and cli_execute_file call each other: the fuel bounds
    the nesting of .read. *)
Fixpoint cli_handle_meta_command (fuel : nat) r (cmd : list Z) : outcome (Z * Console) :=
  match fuel with
  | O => NoFuel
  | S fuel =>
      let* s := simple_command r cmd in
      match s with
      | Some res => Done res
      | None =>
          let* e := has_prefix cmd ".read" in
          if e : bool then
            let* s := cstring (drop 5 cmd) in
            let path := scan_word 255 s in
            match net_files (net r) !! path with
            | None =>
                Done (0, complain r (zstr "Error: cannot open file " ++ path ++ [10]))
            | Some content =>
                let* '(_, r) := file_lines (cli_handle_meta_command fuel) (S (length content)) content 0 r in
                Done (0, r)
            end
          else
            let* s := cstring cmd in
            Done (0, say r (zstr "Unknown command: " ++ s ++ [10]))
      end
  end.

Definition cli_execute_file (fuel : nat) r (path : list Z) : outcome (Z * Console) :=
  let* p := cstring path in
  match net_files (net r) !! p with
  | None => Done (-1, complain r (zstr "Error: cannot open file " ++ p ++ [10]))
  | Some content =>
      file_lines (cli_handle_meta_command fuel) (S (length content)) content 0 r
  end.

Definition cli_batch_mode (fuel : nat) r (path : list Z) : outcome (Z * Console) := cli_execute_file fuel r path.

(** ** Interactive mode *)

(** The length of a line without newlines and carriage returns at its end. *)
Fixpoint line_length (line : list Z) (n : nat) : outcome nat :=
  match n with
  | O => Done O
  | S m =>
      let* c := outcome_of_option (line !! m) in
      if (c =? 10) || (c =? 13) then line_length line m else Done n
  end.

(** The state of the loop: the statement so far in the first [sql_len] bytes of
    [sql_buf], and whether the prompt is that of a continued statement. *)
Record Pending : Type := mkPending { multiline : bool; sql_buf : list Z; sql_len : nat }.

(** One line: [None] leaves the loop. *)
Definition handle_line (fuel : nat) (p : Pending) r (l : list Z) : outcome (option Pending * Console) :=
  let line := l ++ [0] in
  let* len := line_length line (length (text line)) in
  if (len =? 0)%nat then Done (Some (mkPending false (sql_buf p) 0), r) else
  let* c0 := outcome_of_option (line !! 0%nat) in
  if (c0 =? 46) && negb (multiline p) then
    let* '(res, r) := cli_handle_meta_command fuel r line in
    Done (if res =? 0 then Some p else None, r)
  else if (2 * CLI_MAX_LINE <=? sql_len p + len + 1)%nat then
    Done (Some (mkPending false (sql_buf p) 0), complain r (zstr "SQL statement too long" ++ [10]))
  else
    let* '(buf, n) :=
      if (0 <? sql_len p)%nat
      then let* b := buf_write (Z.of_nat (sql_len p)) [32] (sql_buf p) in Done (b, S (sql_len p))
      else Done (sql_buf p, sql_len p) in
    let* s := buf_read 0 (Z.of_nat len) line in
    let* buf := buf_write (Z.of_nat n) s buf in
    let n := (n + len)%nat in
    let* buf := buf_write (Z.of_nat n) [0] buf in
    let* last := outcome_of_option (line !! (len - 1)%nat) in
    if last =? 59 then
      let* '(_, r) := cli_execute_sql stk r buf in
      Done (Some (mkPending false buf 0), r)
    else Done (Some (mkPending true buf n), r).

Definition prompt (p : Pending) : list Z := if multiline p then zstr "   ...> " else zstr "tinydb> ".

(** [lines_left] bounds the number of lines. *)
Fixpoint interactive_lines (lines_left fuel : nat) (p : Pending) r (input : list Z) : outcome (Z * Console) :=
  match lines_left with
  | O => NoFuel
  | S lines_left =>
      let r := say r (prompt p) in
      match fgets CLI_MAX_LINE input with
      | None => Done (0, say r [10])
      | Some (l, input) =>
          let* '(p, r) := handle_line fuel p r l in
          match p with
          | None => Done (0, r)
          | Some p => interactive_lines lines_left fuel p r input
          end
      end
  end.

(** [socket] is TINYDB_SOCKET_PATH, [buf] what the statement buffer holds before. *)
Definition cli_interactive_loop (fuel : nat) (socket : option (list Z)) (buf : list Z) r (input : list Z)
    : outcome (Z * Console) :=
  let* r :=
    if connected (cli r) then Done r else
    let* '(c, r) := cli_connect r socket in
    if negb (c =? 0)
    then Done (complain r (zstr "Warning: could not connect to " ++
           match socket with Some p => text p | None => zstr CLI_DEFAULT_SOCKET end ++ [10]))
    else Done r in
  interactive_lines (S (length input)) fuel (mkPending false buf 0) r input.

(** ** Arguments *)

Definition usage : list Z :=
  zstr "Usage: tinydb-cli [OPTIONS] [SQL]" ++ [10] ++
  zstr "Options:" ++ [10] ++
  zstr "  -h, --help             Show help" ++ [10] ++
  zstr "  -v, --version          Show version" ++ [10] ++
  zstr "  -s, --socket <path>    Connect to socket" ++ [10] ++
  zstr "  -c, --command <sql>    Execute SQL command" ++ [10] ++
  zstr "  -f, --file <file>      Execute SQL from file" ++ [10] ++
  zstr "  -n, --no-pager         Disable pager" ++ [10] ++
  zstr "  -t, --stats            Show query statistics" ++ [10] ++
  zstr "  -V, --verbose          Verbose output" ++ [10] ++
  zstr "  -q, --quiet            Quiet mode" ++ [10].

Definition is_option (a : list Z) (short long : string) : outcome bool :=
  let* e := streq a short in if e : bool then Done true else streq a long.

(** The arguments after the program's name. *)
Fixpoint cli_parse_args (fuel : nat) r (argv : list (list Z)) : outcome (Z * Console) :=
  match argv with
  | [] => Done (0, r)
  | a :: argv =>
      let* e := is_option a "-h" "--help" in if e : bool then Done (-1, say r usage) else
      let* e := is_option a "-v" "--version" in
      if e : bool then Done (-1, say r (zstr "TinyDB CLI v2.0.0" ++ [10])) else
      let* e := is_option a "-s" "--socket" in
      if e : bool then
        match argv with
        | [] => cli_parse_args fuel r argv
        | path :: argv => let* '(_, r) := cli_connect r (Some path) in cli_parse_args fuel r argv
        end else
      let* e := is_option a "-c" "--command" in
      if e : bool then
        match argv with
        | [] => cli_parse_args fuel r argv
        | sql :: _ =>
            let* '(_, r) := cli_single_query stk (with_cli r (set_executed (cli r))) sql in Done (-1, r)
        end else
      let* e := is_option a "-f" "--file" in
      if e : bool then
        match argv with
        | [] => cli_parse_args fuel r argv
        | path :: argv =>
            let* '(_, r) := cli_batch_mode fuel (with_cli r (set_executed (cli r))) path in
            cli_parse_args fuel r argv
        end else
      let* e := is_option a "-n" "--no-pager" in
      if e : bool then
        cli_parse_args fuel (with_cli r (cli_set_pager (cli r) (zstr "cat") (Lives (zstr "cat")))) argv else
      let* e := is_option a "-t" "--stats" in
      if e : bool then cli_parse_args fuel (with_cli r (cli_set_timer (cli r) true)) argv else
      let* e := is_option a "-V" "--verbose" in
      if e : bool then cli_parse_args fuel (with_cli r (cli_set_verbose (cli r) true)) argv else
      let* e := is_option a "-q" "--quiet" in
      if e : bool then cli_parse_args fuel (with_cli r (set_quiet (cli r))) argv else
      cli_parse_args fuel r argv
  end.

(** ** cli/main.c *)

(** Lines that do not come from a terminal. *)
Fixpoint batch_lines (lines_left fuel : nat) r (input : list Z) : outcome Console :=
  match lines_left with
  | O => NoFuel
  | S lines_left =>
      match fgets CLI_MAX_LINE input with
      | None => Done r
      | Some (l, input) =>
          let* '(line, len) := chomp (l ++ [0]) (length (text (l ++ [0]))) in
          if (len =? 0)%nat then batch_lines lines_left fuel r input else
          let* c := outcome_of_option (line !! 0%nat) in
          let* '(_, r) := if c =? 46 then cli_handle_meta_command fuel r line
                          else cli_single_query stk r line in
          batch_lines lines_left fuel r input
      end
  end.

Definition cli_main (fuel : nat) (isatty : bool) (socket : option (list Z)) (buf : list Z)
    (surroundings : Net) (argv : list (list Z)) (input : list Z) : outcome (Z * Console) :=
  let r := mkConsole cli_init surroundings [] [] [] [] in
  let* '(c, r) := cli_parse_args fuel r argv in
  if negb (c =? 0) then Done (0, with_cli r (cli_shutdown (cli r))) else
  let r := if negb (quiet (cli r)) && negb (executed_command (cli r)) && isatty
           then say r (zstr "TinyDB CLI v2.0.0" ++ [10] ++ zstr "Type " ++ [34] ++ zstr ".help" ++ [34] ++
                       zstr " for help." ++ [10; 10])
           else r in
  let* r := if isatty then let* '(_, r) := cli_interactive_loop fuel socket buf r input in Done r
            else batch_lines (S (length input)) fuel r input in
  Done (0, with_cli r (cli_shutdown (cli r))).
End lines.

(** ** Lemmas *)

Lemma streq_lit s l : clean s = true -> 0 ∉ l -> streq (l ++ [0]) s = Done (bool_decide (l = zstr s)).
Proof. intros Hs Hl. apply streq_ok; [|done]. split; [by exists []|done]. Qed.

Lemma cstring_ok b s : cstr b s -> cstring b = Done s.
Proof.
  intros Hb. unfold cstring. rewrite bool_decide_eq_true_2; [by rewrite (cstr_text b s)|].
  destruct Hb as [[r ->] _]. apply elem_of_app. right. by left.
Qed.

(** *** Reading a response *)

(** The bytes [s] at the start of a buffer, a NUL behind them. *)
Definition holds (b s : list Z) : Prop := exists q, b = s ++ 0 :: q.

Lemma holds_write b s d : (length s + length d < length b)%nat -> take (length s) b = s ->
  exists b1 b2, buf_write (len s) d b = Done b1 /\ buf_write (Z.of_nat (length s + length d)) [0] b1 = Done b2 /\
    b2 = (s ++ d) ++ 0 :: drop (S (length s + length d)) b /\ length b2 = length b.
Proof.
  intros Hl Ht. eexists _, _. split; [apply buf_write_Done; lia|]. split.
  { apply buf_write_Done; [lia|]. rewrite length_splice by lia. simpl. lia. }
  rewrite !Nat2Z.id, splice_app by lia. split.
  - unfold splice. rewrite Ht, length_app. cbn [length]. rewrite <- !app_assoc. cbn [app].
    do 4 f_equal. lia.
  - apply length_splice. rewrite length_app. simpl. lia.
Qed.

(** Chunks that are read one after the other, as the rest of a message that ends with
    the only newline. *)
(** A text up to its first newline. *)
Lemma first_newline (c msg rest : list Z) : c ++ 10 :: rest = msg ++ [10] -> 10 ∉ msg -> c = msg /\ rest = [].
Proof.
  revert msg. induction c as [|x c IH]; intros [|y msg] Hc Hm; simplify_eq/=.
  - done.
  - exfalso. apply Hm. by left.
  - by destruct c.
  - apply not_elem_of_cons in Hm as [_ Hm]. by destruct (IH msg) as [-> ->].
Qed.

Lemma read_response_ok fuel resp s chunks rest msg r :
  net_in (net r) = chunks ++ rest -> concat chunks = msg ++ [10] -> 10 ∉ msg ->
  Forall (fun c => c <> []) chunks -> (length s + length msg < 4095)%nat -> length resp = 4096%nat ->
  take (length s) resp = s -> (length msg < fuel)%nat ->
  exists resp', read_response fuel resp (length s) r =
      Done (resp', (length s + length msg + 1)%nat, with_input r rest) /\
    holds resp' (s ++ msg ++ [10]) /\ length resp' = 4096%nat.
Proof.
  revert resp s chunks msg r. induction fuel as [|fuel IH]; intros resp s chunks msg r Hin Hc Hm Hne Hl Hr Ht Hf; [lia|].
  destruct chunks as [|c chunks]; [by destruct msg|]. apply Forall_cons in Hne as [Hcne Hne].
  cbn [app concat] in Hin, Hc. cbn [read_response].
  assert (length c <= length msg + 1)%nat as Hcl.
  { apply (f_equal length) in Hc. rewrite !length_app in Hc. simpl in Hc. lia. }
  assert (sock_read (4096 - length s - 1) r = (c, with_input r (chunks ++ rest))) as ->.
  { unfold sock_read. rewrite Hin. destruct (4096 - length s - 1)%nat as [|n] eqn:E; [lia|].
    by rewrite (proj2 (Nat.leb_le _ _)) by lia. }
  destruct c as [|c0 c']; [done|]. set (c := c0 :: c') in *.
  destruct (holds_write resp s c) as (b1 & b2 & -> & E2 & Hb2 & Hlb); [lia|done|].
  rewrite bind_Done. rewrite E2, bind_Done.
  assert (b2 !! (length s + length c - 1)%nat = last c) as Hlast.
  { rewrite Hb2, lookup_app_l by (rewrite length_app; unfold c; simpl; lia).
    rewrite lookup_app_r by (unfold c; simpl; lia). rewrite last_lookup. f_equal. unfold c. simpl. lia. }
  rewrite Hlast. destruct (last c) as [z|] eqn:Ez; [|by apply last_None in Ez].
  cbn [outcome_of_option]. rewrite bind_Done. apply last_Some in Ez as [c1 Ec].
  destruct (Z.eqb_spec z 10) as [->|Hz].
  - assert (concat chunks = [] /\ c = msg ++ [10]) as [Hnil Hcm].
    { rewrite Ec in Hc. rewrite <- app_assoc in Hc. cbn [app] in Hc.
      by destruct (first_newline c1 msg (concat chunks) Hc Hm) as [-> ->]. }
    assert (chunks = []) as ->.
    { destruct chunks as [|d chunks]; [done|]. apply Forall_cons in Hne as [Hd _]. by destruct d. }
    exists b2. rewrite Hcm, length_app in *. cbn [length app] in *. split_and!.
    + do 3 f_equal. lia.
    + rewrite Hb2. eexists. reflexivity.
    + lia.
  - destruct (decide (concat chunks = [])) as [Hnil|Hnn].
    { rewrite Hnil, app_nil_r, Ec in Hc. by apply app_inj_2 in Hc as [_ [= ->]]. }
    assert (exists msg', concat chunks = msg' ++ [10] /\ msg = c ++ msg') as (msg' & Hc' & ->).
    { destruct (concat chunks) as [|y l _] using rev_ind; [done|]. exists l.
      rewrite app_assoc in Hc. apply app_inj_2 in Hc as [Hc [= ->]]; [|done]. done. }
    rewrite length_app in *. rewrite <- length_app.
    destruct (IH b2 (s ++ c) chunks msg' (with_input r (chunks ++ rest))) as (resp' & E & Hh & Hl');
      [done|done|by rewrite not_elem_of_app in Hm; destruct Hm|done|rewrite length_app; lia|lia| | |].
    + rewrite Hb2, length_app. by apply take_app_length'; rewrite length_app.
    + unfold c in *. simpl in *. lia.
    + exists resp'. rewrite E. rewrite <- !app_assoc in *. split_and!; [|done|done].
      rewrite !length_app. do 3 f_equal. lia.
Qed.

Lemma chomp_ok b s : 0 ∉ s -> 10 ∉ s -> 13 ∉ s -> holds b (s ++ [10]) -> 
  exists b', chomp b (length s + 1) = Done (b', length s) /\ cstr b' s.
Proof.
  intros H0 H10 H13 [r ->]. rewrite Nat.add_1_r. cbn [chomp]. rewrite <- app_assoc. cbn [app].
  rewrite lookup_app_r, Nat.sub_diag by lia. cbn [lookup list_lookup outcome_of_option]. rewrite bind_Done.
  cbn [Z.eqb Pos.eqb orb]. rewrite buf_write_Done, bind_Done by (rewrite ?length_app; simpl; lia).
  unfold splice. rewrite Nat2Z.id, take_app_length. cbn [length].
  replace (length s + 1)%nat with (length (s ++ [10])) by (rewrite length_app; simpl; lia).
  change (10 :: 0 :: r) with ([10] ++ 0 :: r). rewrite (app_assoc s [10]), drop_app_length. cbn [app].
  destruct (length s) as [|m] eqn:El.
  { apply length_zero_iff_nil in El as ->. cbn [chomp]. eexists. split; [done|]. split; [by eexists|done]. }
  cbn [chomp]. destruct (lookup_lt_is_Some_2 s m ltac:(lia)) as [c Hc].
  rewrite lookup_app_l, Hc by lia. cbn [outcome_of_option]. rewrite bind_Done.
  apply list_elem_of_lookup_2 in Hc. destruct (Z.eqb_spec c 10); [congruence|].
  destruct (Z.eqb_spec c 13); [congruence|]. cbn [orb]. eexists. split; [done|]. split; [by eexists|done].
Qed.

(** What a reply of the server's vocabulary makes the client print and return. *)
Definition understood (msg : list Z) r : Z * Console :=
  if bool_decide (msg = zstr "Query OK") then (0, say r (zstr "Query OK" ++ [10]))
  else if bool_decide (msg = zstr "OK 0 rows")
  then (0, say r (zstr "Query OK, 0 row(s) returned" ++ [10]))
  else (-1, complain r (zstr "Error: " ++ drop 6 msg ++ [10])).

Definition server_reply (msg : list Z) : Prop :=
  msg = zstr "Query OK" \/ msg = zstr "OK 0 rows" \/ zstr "ERROR " `prefix_of` msg.

Lemma cstr_drop b s n : cstr b s -> (n <= length s)%nat -> cstr (drop n b) (drop n s).
Proof.
  intros [[q ->] Hn] Hl. split.
  - exists q. by rewrite drop_app_le.
  - intros Hin. apply Hn. rewrite <- (take_drop n s). apply elem_of_app. by right.
Qed.

Lemma handle_response_ok stk resp msg r :
  cstr resp msg -> server_reply msg -> handle_response stk resp r = Done (understood msg r).
Proof.
  intros Hc Hm. unfold handle_response. rewrite !(has_prefix_ok resp msg), !bind_Done by done.
  destruct Hm as [-> |[-> |[k ->]]].
  - rewrite bool_decide_eq_false_2 by (apply (bool_decide_unpack _); by vm_compute).
    rewrite (cstring_ok _ _ Hc). by vm_compute.
  - rewrite bool_decide_eq_false_2 by (apply (bool_decide_unpack _); by vm_compute).
    rewrite (cstring_ok _ _ Hc), (cstring_ok (drop 3 resp) (drop 3 (zstr "OK 0 rows")))
      by (apply cstr_drop; [done|by apply Nat.leb_le]). by vm_compute.
  - rewrite bool_decide_eq_true_2 by (by exists (32 :: k)).
    assert (6 <= length (zstr "ERROR " ++ k))%nat as Hl by (rewrite length_app; simpl; lia).
    rewrite (cstring_ok (drop 6 resp) _ (cstr_drop _ _ 6 Hc Hl)). rewrite bind_Done. unfold understood.
    rewrite !bool_decide_eq_false_2; [done|intros [=]..].
Qed.

(** The console after the statement [s] went out. *)
Definition after_send r (s : list Z) : Console :=
  mkConsole (cli r) (net r) (out r) (err r)
    (sent r ++ [take (CLI_MAX_LINE + 64 - 1) (zstr "QUERY:" ++ s ++ [10])]) (shell r).

(** One request and one reply line, up to what is done with the reply. *)
Lemma execute_transport stk r sql s msg chunks rest :
  cstr sql s -> connected (cli r) = true -> net_write_ok (net r) = true -> length (st_resp stk) = 4096%nat ->
  net_in (net r) = chunks ++ rest -> concat chunks = msg ++ [10] -> Forall (fun c => c <> []) chunks ->
  0 ∉ msg -> 10 ∉ msg -> 13 ∉ msg -> (length msg < 4095)%nat ->
  exists resp, cstr resp msg /\
    cli_execute_sql stk r sql = handle_response stk resp (with_input (after_send r s) rest).
Proof.
  intros Hs Hup Hw Hst Hin Hc Hne H0 H10 H13 Hl. unfold cli_execute_sql, ensure_connected.
  rewrite Hup, bind_Done. cbn [negb]. rewrite (cstring_ok _ _ Hs), bind_Done, Hw. cbn [negb].
  fold (after_send r s).
  destruct (read_response_ok 4096 (st_resp stk) [] chunks rest msg (after_send r s)) as (resp' & E & Hh & _);
    [done|done|done|done|exact Hl|done|done|lia|].
  change (length []) with 0%nat in E. rewrite E, bind_Done. rewrite (proj2 (Nat.eqb_neq _ _)) by lia.
  destruct (chomp_ok resp' msg) as (b' & E' & Hb'); [done..|].
  change (0 + length msg + 1)%nat with (length msg + 1)%nat. rewrite E', bind_Done. by exists b'.
Qed.

Lemma execute_reply stk r sql s msg chunks rest :
  cstr sql s -> connected (cli r) = true -> net_write_ok (net r) = true -> length (st_resp stk) = 4096%nat ->
  net_in (net r) = chunks ++ rest -> concat chunks = msg ++ [10] -> Forall (fun c => c <> []) chunks ->
  0 ∉ msg -> 10 ∉ msg -> 13 ∉ msg -> (length msg < 4095)%nat -> server_reply msg ->
  cli_execute_sql stk r sql = Done (understood msg (with_input (after_send r s) rest)).
Proof.
  intros Hs Hup Hw Hst Hin Hc Hne H0 H10 H13 Hl Hm.
  destruct (execute_transport stk r sql s msg chunks rest) as (resp & Hr & ->); [done..|].
  by apply handle_response_ok.
Qed.

(** *** Lines *)

Lemma fgets_line_ok n l input :
  10 ∉ l -> (length l < n)%nat -> fgets_line n (l ++ 10 :: input) = (l ++ [10], input).
Proof.
  revert l. induction n as [|n IH]; intros l Hl Hn; [lia|]. destruct l as [|c l]; cbn [app fgets_line]; [done|].
  apply not_elem_of_cons in Hl as [Hc Hl]. destruct (Z.eqb_spec c 10); [congruence|].
  rewrite IH; [done|done|simpl in Hn; lia].
Qed.

(** A line the user ends: no NUL, newline or carriage return in it. *)
Definition plain (t : list Z) : Prop := Forall (fun c => c <> 0 /\ c <> 10 /\ c <> 13) t.

#[export] Instance plain_dec t : Decision (plain t).
Proof. unfold plain. apply _. Defined.

Lemma plain_text_not t c : plain t -> c ∈ [0; 10; 13] -> c ∉ t.
Proof.
  intros Ht Hc Hin. unfold plain in Ht. rewrite Forall_forall in Ht. destruct (Ht c Hin) as (? & ? & ?).
  rewrite !elem_of_cons, elem_of_nil in Hc. naive_solver.
Qed.

Lemma plain_line t : plain t -> text ((t ++ [10]) ++ [0]) = t ++ [10] /\ cstr ((t ++ [10]) ++ [0]) (t ++ [10]).
Proof.
  intros Ht. assert (cstr ((t ++ [10]) ++ [0]) (t ++ [10])) as Hc.
  { split; [by exists []|]. rewrite not_elem_of_app. split; [|by intros ?%list_elem_of_singleton].
    apply (plain_text_not _ 0 Ht). by left. }
  split; [by apply cstr_text|done].
Qed.

Lemma plain_last t m c : plain t -> t !! m = Some c -> ((c =? 10) || (c =? 13)) = false.
Proof.
  intros Ht Hm. unfold plain in Ht. rewrite Forall_lookup in Ht. destruct (Ht m c Hm) as (? & ? & ?).
  apply orb_false_iff. split; by apply Z.eqb_neq.
Qed.

Lemma line_length_ok t : plain t -> line_length ((t ++ [10]) ++ [0]) (S (length t)) = Done (length t).
Proof.
  intros Ht. cbn [line_length]. rewrite <- app_assoc. cbn [app].
  rewrite lookup_app_r, Nat.sub_diag by lia. cbn [lookup list_lookup outcome_of_option]. rewrite bind_Done.
  cbn [Z.eqb Pos.eqb orb]. destruct (length t) as [|m] eqn:El; [done|]. cbn [line_length].
  destruct (lookup_lt_is_Some_2 t m ltac:(lia)) as [c Hc]. rewrite lookup_app_l, Hc by lia.
  cbn [outcome_of_option]. rewrite bind_Done. by rewrite (plain_last t m c Ht Hc).
Qed.

(** The statement so far is [s]. *)
Definition pending (p : Pending) (s : list Z) : Prop :=
  length (sql_buf p) = (2 * CLI_MAX_LINE)%nat /\ sql_len p = length s /\ take (length s) (sql_buf p) = s /\
  (length s < 2 * CLI_MAX_LINE)%nat.

(** Adding a line. *)
Definition joined (s t : list Z) : list Z := match s with [] => t | _ => s ++ [32] ++ t end.

Lemma handle_line_ok stk fuel p r s t c :
  pending p s -> plain (t ++ [c]) -> (multiline p = true \/ (t ++ [c]) !! 0%nat <> Some 46) ->
  (length s + length (t ++ [c]) + 1 < 2 * CLI_MAX_LINE)%nat ->
  exists buf, let p' := mkPending true buf (length (joined s (t ++ [c]))) in
    pending p' (joined s (t ++ [c])) /\ holds buf (joined s (t ++ [c])) /\
    handle_line stk fuel p r ((t ++ [c]) ++ [10]) =
      if c =? 59 then
        let* '(_, r) := cli_execute_sql stk r buf in Done (Some (mkPending false buf 0), r)
      else Done (Some p', r).
Proof.
  intros (Hb & Hn & Ht & Hlt) Hpl Hdot Hfit. set (u := t ++ [c]) in *.
  unfold handle_line. destruct (plain_line u Hpl) as [-> _].
  assert (length (u ++ [10]) = S (length u)) as -> by (rewrite length_app; simpl; lia).
  rewrite line_length_ok, bind_Done by done.
  assert (length u = S (length t)) as Hu by (unfold u; rewrite length_app; simpl; lia).
  rewrite (proj2 (Nat.eqb_neq (length u) 0)) by lia.
  destruct (lookup_lt_is_Some_2 u 0 ltac:(lia)) as [c0 Hc0]. rewrite Hc0 in Hdot.
  rewrite <- (app_assoc u), lookup_app_l, Hc0 by lia. cbn [outcome_of_option]. rewrite bind_Done.
  assert ((c0 =? 46) && negb (multiline p) = false) as ->.
  { destruct Hdot as [-> |Hd]; [by rewrite andb_false_r|]. destruct (Z.eqb_spec c0 46); [congruence|done]. }
  rewrite (proj2 (Nat.leb_gt _ _)) by lia.
  set (sp := if (0 <? sql_len p)%nat then [32] else @nil Z).
  assert (exists b1, (if (0 <? sql_len p)%nat
      then let* b := buf_write (Z.of_nat (sql_len p)) [32] (sql_buf p) in Done (b, S (sql_len p))
      else Done (sql_buf p, sql_len p)) = Done (b1, length (s ++ sp)) /\ length b1 = (2 * CLI_MAX_LINE)%nat /\
    take (length (s ++ sp)) b1 = s ++ sp) as (b1 & -> & Hb1 & Ht1).
  { unfold sp. rewrite Hn. destruct (Nat.ltb_spec 0 (length s)).
    - rewrite buf_write_Done, bind_Done by (simpl; lia). eexists. split; [|split].
      + do 2 f_equal. rewrite length_app. simpl. lia.
      + rewrite length_splice; [done|simpl; lia].
      + rewrite Nat2Z.id. unfold splice. rewrite Ht, app_assoc. apply take_app_length.
    - rewrite app_nil_r. eauto. }
  rewrite bind_Done.
  assert (buf_read 0 (len u) (u ++ [10] ++ [0]) = Done u) as ->.
  { rewrite buf_read_Done by (rewrite ?length_app; lia). f_equal. rewrite Nat2Z.id. unfold slice.
    change (Z.to_nat 0) with 0%nat. rewrite drop_0. apply take_app_length. }
  rewrite bind_Done.
  assert (length sp <= 1)%nat as Hsp by (unfold sp; destruct (0 <? sql_len p)%nat; simpl; lia).
  destruct (holds_write b1 (s ++ sp) u) as (b2 & b3 & -> & E3 & Hb3 & Hl3); [rewrite !length_app; lia|done|].
  rewrite bind_Done, E3, bind_Done. rewrite lookup_app_l by lia.
  assert (u !! (length u - 1)%nat = Some c) as ->.
  { unfold u. rewrite length_app, lookup_app_r by (simpl; lia). simpl.
    by replace (length t + 1 - 1 - length t)%nat with 0%nat by lia. }
  cbn [outcome_of_option]. rewrite bind_Done.
  assert (joined s u = (s ++ sp) ++ u) as Hj.
  { unfold joined, sp. rewrite Hn. destruct s as [|z s]; [done|]. cbn [length Nat.ltb Nat.leb]. by rewrite <- !app_assoc. }
  rewrite <- length_app, Hj. exists b3. cbn zeta. split; [|split; [by eexists|done]].
  unfold pending. cbn [sql_buf sql_len]. rewrite Hl3, Hb3. split_and!; [done|done|by rewrite take_app_length|].
  rewrite !length_app. lia.
Qed.

(** *** Splitting at tabs *)

Lemma token_ok d f s : d ∉ f -> token d (f ++ d :: s) = (f, s).
Proof.
  induction f as [|c f IH]; intros Hf; cbn [app token]; [by rewrite Z.eqb_refl|].
  apply not_elem_of_cons in Hf as [Hc Hf]. destruct (Z.eqb_spec c d); [congruence|]. by rewrite IH.
Qed.

Lemma token_end d f : d ∉ f -> token d f = (f, []).
Proof.
  induction f as [|c f IH]; intros Hf; cbn [token]; [done|].
  apply not_elem_of_cons in Hf as [Hc Hf]. destruct (Z.eqb_spec c d); [congruence|]. by rewrite IH.
Qed.

Lemma strtok_skip n d s : strtok n d (d :: s) = strtok n d s.
Proof. destruct n; [done|]. cbn [strtok skip_delim]. by rewrite Z.eqb_refl. Qed.

Lemma strtok_tabbed_ok n fields :
  Forall (fun f => 9 ∉ f) fields -> (length fields <= n)%nat ->
  strtok n 9 (tabbed fields) = filter (fun f => f <> []) fields.
Proof.
  intros Hf. revert n. induction Hf as [|f fields Hf Hfs IH]; intros n Hn; [by destruct n|].
  destruct n as [|n]; [simpl in Hn; lia|]. cbn [length] in Hn. destruct f as [|c f].
  - rewrite filter_cons_False by (intros H; by apply H). destruct fields as [|g fields]; [done|].
    cbn [tabbed app]. rewrite strtok_skip. apply IH. simpl in *. lia.
  - rewrite filter_cons_True by done. apply not_elem_of_cons in Hf as Hcf. destruct Hcf as [Hc _].
    destruct fields as [|g fields].
    + cbn [tabbed strtok skip_delim]. destruct (Z.eqb_spec c 9); [congruence|].
      rewrite token_end by done. by destruct n.
    + change (tabbed ((c :: f) :: g :: fields)) with ((c :: f) ++ [9] ++ tabbed (g :: fields)).
      cbn [strtok skip_delim app]. destruct (Z.eqb_spec c 9); [congruence|].
      change (c :: f ++ 9 :: tabbed (g :: fields)) with ((c :: f) ++ 9 :: tabbed (g :: fields)).
      rewrite token_ok by done. rewrite IH by lia. done.
Qed.

(** ** Theorems *)

(** Output modes round trip through their names, and whatever is no name (and
    NULL) means box. *)
Theorem output_mode_roundtrip (m : OutputMode) (b s : list Z) :
  cli_parse_output_mode (Some (cli_get_output_mode_name m ++ [0])) = Done m /\
  cli_parse_output_mode None = Done OUTPUT_MODE_BOX /\
  (cstr b s -> s ∉ cli_get_output_mode_name <$> [OUTPUT_MODE_CSV; OUTPUT_MODE_LINE; OUTPUT_MODE_LIST] ->
   cli_parse_output_mode (Some b) = Done OUTPUT_MODE_BOX).
Proof.
  split; [by destruct m; vm_compute|]. split; [done|]. intros Hb Hs. unfold cli_parse_output_mode.
  rewrite !(streq_ok b s), !bind_Done by done. cbn in Hs.
  rewrite (bool_decide_eq_false_2 (s = zstr "csv")), (bool_decide_eq_false_2 (s = zstr "line")),
    (bool_decide_eq_false_2 (s = zstr "list")) by (intros ->; apply Hs; set_solver).
  by case_bool_decide.
Qed.

Lemma output_mode_roundtrip_witness :
  cli_parse_output_mode (Some (lit "json")) = Done OUTPUT_MODE_BOX.
Proof.
  apply (output_mode_roundtrip OUTPUT_MODE_CSV (lit "json") (zstr "json")).
  - apply lit_cstr. reflexivity.
  - apply (bool_decide_unpack _). by vm_compute.
Defined.

(** C26: how a statement and its reply travel. On a connection that takes writes,
    cli_execute_sql sends one request, "QUERY:", the statement and a newline, cut to
    4159 bytes (a statement above 4152 bytes loses its end and the newline). Whatever
    way a reply line (below 4095 bytes, without NUL, newline or carriage return) is
    cut into non-empty chunks, the client reads it to its newline and no further: the
    reply is handled as the string that was sent, without its newline, by
    [handle_response], nothing was printed before, and the chunks behind it are left
    for the next read. *)
Theorem execute_sql_reply (stk : Stack) (r : Console) (sql s msg : list Z) (chunks rest : list (list Z)) :
  cstr sql s -> connected (cli r) = true -> net_write_ok (net r) = true -> length (st_resp stk) = 4096%nat ->
  net_in (net r) = chunks ++ rest -> concat chunks = msg ++ [10] -> Forall (fun c => c <> []) chunks ->
  0 ∉ msg -> 10 ∉ msg -> 13 ∉ msg -> (length msg < 4095)%nat ->
  exists resp r', cli_execute_sql stk r sql = handle_response stk resp r' /\ cstr resp msg /\
    net_in (net r') = rest /\ sent r' = sent r ++ [take 4159 (zstr "QUERY:" ++ s ++ [10])] /\
    out r' = out r /\ err r' = err r /\ cli r' = cli r.
Proof.
  intros. destruct (execute_transport stk r sql s msg chunks rest) as (resp & Hr & E); [done..|].
  exists resp, (with_input (after_send r s) rest). by split_and!.
Qed.

Definition demo_stack : Stack :=
  mkStack (replicate 4096 7) (replicate 1024 7) (replicate 1024 0) (replicate 4096 0).

Definition demo_net (chunks : list (list Z)) : Net := mkNet (Some 3) (fun _ => true) true chunks ∅.

Definition online (chunks : list (list Z)) : Console :=
  mkConsole (set_socket cli_init 3 true) (demo_net chunks) [] [] [] [].

Lemma execute_sql_reply_witness :
  exists resp r', cli_execute_sql demo_stack (online [zstr "ERR"; zstr "OR no"; [10]; zstr "PONG"]) (lit "SELECT") =
      handle_response demo_stack resp r' /\ cstr resp (zstr "ERROR no") /\
    net_in (net r') = [zstr "PONG"] /\ sent r' = [zstr "QUERY:SELECT" ++ [10]] /\ out r' = [] /\ err r' = [].
Proof.
  destruct (execute_sql_reply demo_stack (online [zstr "ERR"; zstr "OR no"; [10]; zstr "PONG"]) (lit "SELECT")
    (zstr "SELECT") (zstr "ERROR no") [zstr "ERR"; zstr "OR no"; [10]] [zstr "PONG"])
    as (resp & r' & E & Hr & Hin & Hs & Ho & He & _).
  - apply lit_cstr. reflexivity.
  - reflexivity.
  - reflexivity.
  - by vm_compute.
  - reflexivity.
  - reflexivity.
  - repeat constructor; discriminate.
  - apply (bool_decide_unpack _). by vm_compute.
  - apply (bool_decide_unpack _). by vm_compute.
  - apply (bool_decide_unpack _). by vm_compute.
  - apply Nat.ltb_lt. by vm_compute.
  - exists resp, r'. split_and!; try assumption.
Defined.

(** A result row loses its empty columns. The client splits a row at tabs with
    strtok, so the fields it prints are the non-empty ones of the row sent, and the
    later ones stand under the wrong headers. *)
Theorem row_fields_nonempty (fields : list (list Z)) :
  Forall (fun f => 9 ∉ f) fields -> (length fields <= 64)%nat ->
  strtok 64 9 (tabbed fields) = filter (fun f => f <> []) fields.
Proof. apply strtok_tabbed_ok. Qed.

Lemma row_fields_nonempty_witness :
  strtok 64 9 (tabbed [zstr "1"; []; zstr "bob"]) = [zstr "1"; zstr "bob"].
Proof.
  rewrite (row_fields_nonempty [zstr "1"; []; zstr "bob"]).
  - reflexivity.
  - apply (bool_decide_unpack _). by vm_compute.
  - apply Nat.leb_le. reflexivity.
Defined.

(** *** Whole statements *)

Lemma say_say r a b : say (say r a) b = say r (a ++ b).
Proof. unfold say. cbn. by rewrite <- app_assoc. Qed.

(** Only the string in the buffer counts. *)
Lemma execute_holds stk r buf s :
  holds buf s -> 0 ∉ s -> cli_execute_sql stk r buf = cli_execute_sql stk r (s ++ [0]).
Proof.
  intros Hb Hs. unfold cli_execute_sql.
  rewrite (cstring_ok buf s), (cstring_ok (s ++ [0]) s); [done|split; [by exists []|done]|by split].
Qed.

(** The lines of a statement, joined by blanks. *)
Fixpoint with_blanks (ls : list (list Z)) : list Z :=
  match ls with
  | [] => []
  | [u] => u
  | u :: us => u ++ [32] ++ with_blanks us
  end.

(** What is typed: the lines, each with its newline. *)
Definition typed (ls : list (list Z)) : list Z := concat (map (fun u => u ++ [10]) ls).

(** A line fgets reads in one piece: not empty, no control characters, below 4095
    bytes. *)
Definition line_ok (u : list Z) : Prop := plain u /\ u <> [] /\ (length u < 4095)%nat.

(** Lines of which the last one, and no other, ends in a semicolon. *)
Fixpoint ends_statement (ls : list (list Z)) : Prop :=
  match ls with
  | [] => False
  | [u] => line_ok u /\ last u = Some 59
  | u :: us => line_ok u /\ last u <> Some 59 /\ ends_statement us
  end.

(** A statement the loop can hold, that is no meta-command. *)
Definition statement_lines (ls : list (list Z)) : Prop :=
  ends_statement ls /\ ls !! 0%nat ≫= head <> Some 46 /\ (length (with_blanks ls) + 1 < 2 * CLI_MAX_LINE)%nat.

Lemma with_blanks_cons u us : us <> [] -> with_blanks (u :: us) = u ++ [32] ++ with_blanks us.
Proof. by destruct us. Qed.

Lemma joined_joined s u w : u <> [] -> joined (joined s u) w = joined s (u ++ [32] ++ w).
Proof. intros Hu. unfold joined. destruct s as [|z s]; [by destruct u|]. cbn. by rewrite <- !app_assoc. Qed.

Lemma joined_no_zero s t : 0 ∉ s -> 0 ∉ t -> 0 ∉ joined s t.
Proof.
  intros Hs Ht. unfold joined. destruct s as [|z s]; [done|].
  by intros [?|[?%list_elem_of_singleton|?]%elem_of_app]%elem_of_app.
Qed.

(** One turn of the loop for a line of a statement. *)
Lemma interactive_line stk n fuel p r u rest :
  line_ok u ->
  interactive_lines stk (S n) fuel p r ((u ++ [10]) ++ rest) =
    let* '(p, r) := handle_line stk fuel p (say r (prompt p)) (u ++ [10]) in
    match p with
    | None => Done (0, r)
    | Some p => interactive_lines stk n fuel p r rest
    end.
Proof.
  intros (Hp & Hne & Hl). cbn [interactive_lines]. rewrite <- app_assoc. cbn [app].
  assert (fgets CLI_MAX_LINE (u ++ 10 :: rest) = Some (u ++ [10], rest)) as ->; [|done].
  unfold fgets. change (CLI_MAX_LINE - 1)%nat with 4095%nat.
  rewrite fgets_line_ok; [by destruct u| |done]. apply (plain_text_not u 10 Hp). right; left.
Qed.

(** The loop over the lines of one statement, from a buffer that holds [s]. *)
Lemma interactive_statement stk fuel ls p s r n rest :
  ends_statement ls -> pending p s -> (multiline p = true \/ ls !! 0%nat ≫= head <> Some 46) ->
  (length s + length (with_blanks ls) + 1 < 2 * CLI_MAX_LINE)%nat -> 0 ∉ s ->
  exists buf q, length buf = (2 * CLI_MAX_LINE)%nat /\
    interactive_lines stk (length ls + n) fuel p r (typed ls ++ rest) =
      let* '(_, r') := cli_execute_sql stk (say r q) (joined s (with_blanks ls) ++ [0]) in
      interactive_lines stk n fuel (mkPending false buf 0) r' rest.
Proof.
  revert p s r. induction ls as [|u ls IH]; intros p s r He Hp Hdot Hfit H0; [done|].
  assert (line_ok u) as Hu by (by destruct ls; apply He). destruct Hu as (Hpl & Hne & Hlu).
  destruct u as [|c t _] using rev_ind; [done|].
  assert (length s + length (t ++ [c]) + 1 < 2 * CLI_MAX_LINE)%nat as Hfit1.
  { destruct ls; [exact Hfit|]. rewrite with_blanks_cons in Hfit by done.
    rewrite (length_app (t ++ [c])) in Hfit. lia. }
  assert (multiline p = true \/ (t ++ [c]) !! 0%nat <> Some 46) as Hdot1.
  { destruct Hdot as [?|Hd]; [by left|right]. by destruct t. }
  destruct (handle_line_ok stk fuel p (say r (prompt p)) s t c Hp Hpl Hdot1 Hfit1) as (buf & Hp' & Hh & E).
  cbn zeta in Hp', E. cbn [length Nat.add typed map concat]. rewrite <- (app_assoc ((t ++ [c]) ++ [10])).
  rewrite interactive_line by done. rewrite E. change (concat (map (fun u => u ++ [10]) ls)) with (typed ls).
  destruct ls as [|v ls].
  - destruct He as [_ Hlast]. rewrite last_snoc in Hlast. injection Hlast as ->. cbn [Z.eqb Pos.eqb].
    exists buf, (prompt p). split; [apply Hp'|]. cbn [with_blanks length Nat.add typed map concat app].
    rewrite (execute_holds stk _ buf (joined s (t ++ [59]))); [|done|].
    + by destruct (cli_execute_sql stk (say r (prompt p)) (joined s (t ++ [59]) ++ [0])) as [[x r']| |].
    + apply joined_no_zero; [done|]. apply (plain_text_not _ 0 Hpl). by left.
  - destruct He as (_ & Hlast & He). rewrite last_snoc in Hlast.
    destruct (Z.eqb_spec c 59) as [->|_]; [done|]. rewrite bind_Done.
    assert (0 ∉ joined s (t ++ [c])) as Hj0.
    { apply joined_no_zero; [done|]. apply (plain_text_not _ 0 Hpl). by left. }
    destruct (IH _ (joined s (t ++ [c])) (say r (prompt p)) He Hp' (or_introl eq_refl)) as (buf' & q & Hb' & Eq); [|done|].
    { rewrite with_blanks_cons, !length_app in Hfit by done. cbn [length] in Hfit.
      unfold joined. destruct s; rewrite ?length_app; cbn [length] in *; lia. }
    exists buf', (prompt p ++ q). split; [exact Hb'|]. rewrite Eq, say_say.
    rewrite joined_joined, <- with_blanks_cons by (done || by destruct t). done.
Qed.

(** A session in terms of whole statements: each is executed after some text was
    printed for its prompts. *)
Fixpoint run_statements (stk : Stack) r (prompts : list (list Z)) (stmts : list (list (list Z)))
    : outcome (Z * Console) :=
  match prompts, stmts with
  | q :: prompts, ls :: stmts =>
      let* '(_, r) := cli_execute_sql stk (say r q) (with_blanks ls ++ [0]) in run_statements stk r prompts stmts
  | q :: _, [] => Done (0, say r q)
  | [], _ => Undef
  end.

Lemma interactive_statements stk fuel stmts n buf r :
  Forall statement_lines stmts -> (length (concat stmts) < n)%nat -> length buf = (2 * CLI_MAX_LINE)%nat ->
  exists prompts, length prompts = S (length stmts) /\
    interactive_lines stk n fuel (mkPending false buf 0) r (concat (map typed stmts)) =
      run_statements stk r prompts stmts.
Proof.
  intros Hok. revert n buf r. induction Hok as [|ls stmts (He & Hd & Hl) _ IH]; intros n buf r Hn Hb.
  - exists [prompt (mkPending false buf 0) ++ [10]]. split; [done|].
    destruct n as [|n]; [simpl in Hn; lia|]. cbn [map concat interactive_lines fgets run_statements].
    by rewrite say_say.
  - assert (pending (mkPending false buf 0) []) as Hp.
    { unfold pending. cbn [sql_buf sql_len length take]. split_and!; [done..|]. apply Nat.ltb_lt. by vm_compute. }
    cbn [concat] in Hn. rewrite length_app in Hn. replace n with (length ls + (n - length ls))%nat by lia.
    destruct (interactive_statement stk fuel ls _ [] r (n - length ls) (concat (map typed stmts)) He Hp)
      as (buf' & q & Hb' & E); [by right|exact Hl|apply not_elem_of_nil|].
    cbn [map concat]. rewrite E. cbn [joined].
    destruct (cli_execute_sql stk (say r q) (with_blanks ls ++ [0])) as [[x r']| |] eqn:Ex.
    + rewrite bind_Done. destruct (IH (n - length ls)%nat buf' r') as (prompts & Hpl & ->); [lia|done|].
      exists (q :: prompts). split; [simpl; lia|]. cbn [run_statements]. by rewrite Ex, bind_Done.
    + exists (q :: replicate (S (length stmts)) []). split; [cbn [length]; by rewrite length_replicate|].
      cbn [run_statements]. by rewrite Ex.
    + exists (q :: replicate (S (length stmts)) []). split; [cbn [length]; by rewrite length_replicate|].
      cbn [run_statements]. by rewrite Ex.
Qed.

Lemma typed_length stmts : (length (concat stmts) <= length (concat (map typed stmts)))%nat.
Proof.
  induction stmts as [|ls stmts IH]; [done|]. cbn [concat map]. rewrite !length_app.
  enough (length ls <= length (typed ls))%nat by lia. clear. induction ls as [|u ls IH]; [done|].
  unfold typed in *. cbn [map concat length]. rewrite !length_app. simpl. lia.
Qed.


#[local] Instance line_ok_dec u : Decision (line_ok u).
Proof. unfold line_ok. apply _. Defined.

#[local] Instance ends_statement_dec ls : Decision (ends_statement ls).
Proof. induction ls as [|u ls IH]; [apply _|]. destruct ls as [|v ls]; cbn [ends_statement] in *; apply _. Defined.

#[local] Instance statement_lines_dec ls : Decision (statement_lines ls).
Proof. unfold statement_lines. apply _. Defined.

Definition demo_statements : list (list (list Z)) := [[zstr "SELECT a"; zstr "FROM t;"]; [zstr "COMMIT;"]].


(** Meta-commands that are compared as whole strings. *)
Definition whole_commands : list (list Z) :=
  [zstr ".quit"; zstr ".exit"; zstr ".help"; zstr ".tables"; zstr ".timer on"; zstr ".timer off";
   zstr ".headers on"; zstr ".headers off"].

(** At the prompt the commands that take no word do not exist. The interactive
    loop passes the line with its newline, and the comparison is of whole strings:
    .quit, .exit, .help, .tables, .timer and .headers are reported as unknown, and
    the loop goes on; the only way out is the end of the input. *)
Theorem interactive_commands_unknown (stk : Stack) (fuel : nat) (p : Pending) (r : Console) (cmd : list Z) :
  cmd ∈ whole_commands -> multiline p = false -> (0 < fuel)%nat ->
  handle_line stk fuel p r (cmd ++ [10]) =
    Done (Some p, say r (zstr "Unknown command: " ++ cmd ++ [10; 10])).
Proof.
  intros Hc Hm Hf. destruct fuel as [|fuel]; [lia|]. destruct p as [ml sb n]. simpl in Hm. subst ml.
  unfold whole_commands in Hc. repeat (apply elem_of_cons in Hc as [->|Hc]; [by vm_compute|]).
  by apply elem_of_nil in Hc.
Qed.

Lemma interactive_commands_unknown_witness :
  handle_line demo_stack 5 (mkPending false (replicate 8192 0) 0) (online []) (zstr ".quit" ++ [10]) =
    Done (Some (mkPending false (replicate 8192 0) 0),
          say (online []) (zstr "Unknown command: .quit" ++ [10; 10])).
Proof.
  rewrite (interactive_commands_unknown demo_stack 5 (mkPending false (replicate 8192 0) 0) (online []) (zstr ".quit")).
  - reflexivity.
  - apply (bool_decide_unpack _). by vm_compute.
  - reflexivity.
  - apply Nat.ltb_lt. reflexivity.
Defined.

(** .null and .pager keep a pointer to an array of cli_handle_meta_command
    itself: whatever follows the command, when it returns null_string, or pager_cmd,
    is dangling. *)
Theorem meta_command_dangles (stk : Stack) (fuel : nat) (r : Console) (cmd s : list Z) :
  cstr cmd s -> (0 < fuel)%nat ->
  (zstr ".null" `prefix_of` s -> exists r', cli_handle_meta_command stk fuel r cmd = Done (0, r') /\
     null_string (cli r') = Dangling) /\
  (zstr ".pager" `prefix_of` s -> exists r', cli_handle_meta_command stk fuel r cmd = Done (0, r') /\
     pager_cmd (cli r') = Dangling).
Proof.
  intros Hc Hf. destruct fuel as [|fuel]; [lia|].
  assert (forall n, cstring (drop n cmd) = Done (drop n s) \/ (length s < n)%nat) as Hdrop.
  { intros n. destruct (decide (n <= length s)%nat); [left|right; lia]. by apply cstring_ok, cstr_drop. }
  split; intros [k ->]; cbn [cli_handle_meta_command]; unfold simple_command;
    rewrite !(streq_ok cmd _ _ Hc), !bind_Done by done;
    rewrite (bool_decide_eq_false_2 (_ = zstr ".quit")) by (intros [=]); cbv iota; rewrite !bind_Done;
    rewrite (bool_decide_eq_false_2 (_ = zstr ".exit")), (bool_decide_eq_false_2 (_ = zstr ".help")),
      (bool_decide_eq_false_2 (_ = zstr ".tables")) by (intros [=]);
    rewrite !(has_prefix_ok cmd _ _ Hc), !bind_Done by done;
    rewrite (bool_decide_eq_false_2 (zstr ".schema" `prefix_of` _)) by (intros [j [=]]);
    rewrite (bool_decide_eq_false_2 (zstr ".indexes" `prefix_of` _)) by (intros [j [=]]);
    rewrite (bool_decide_eq_false_2 (_ = zstr ".timer on")), (bool_decide_eq_false_2 (_ = zstr ".timer off"))
      by (intros [=]);
    rewrite (bool_decide_eq_false_2 (zstr ".mode" `prefix_of` _)) by (intros [j [=]]);
    rewrite (bool_decide_eq_false_2 (_ = zstr ".headers on")), (bool_decide_eq_false_2 (_ = zstr ".headers off"))
      by (intros [=]).
  - rewrite bool_decide_eq_true_2 by (by eexists).
    destruct (Hdrop 5%nat) as [-> |H]; [|rewrite length_app in H; simpl in H; lia].
    rewrite !bind_Done. eexists. by split.
  - rewrite (bool_decide_eq_false_2 (zstr ".null" `prefix_of` _)) by (intros [j [=]]).
    rewrite bool_decide_eq_true_2 by (by eexists).
    destruct (Hdrop 6%nat) as [-> |H]; [|rewrite length_app in H; simpl in H; lia].
    rewrite !bind_Done. eexists. by split.
Qed.

Lemma meta_command_dangles_witness :
  exists r', cli_handle_meta_command demo_stack 1 (online []) (lit ".null NULL") = Done (0, r') /\
    null_string (cli r') = Dangling.
Proof.
  apply (meta_command_dangles demo_stack 1 (online []) (lit ".null NULL") (zstr ".null NULL")).
  - apply lit_cstr. reflexivity.
  - apply Nat.ltb_lt. reflexivity.
  - exists (zstr " NULL"). reflexivity.
Defined.

(** The exit status of the client is 0 whatever happened: statements that failed,
    no connection, files that cannot be read. *)
Theorem cli_exit_status (stk : Stack) (fuel : nat) (isatty : bool) (socket : option (list Z)) (buf : list Z)
    (surroundings : Net) (argv : list (list Z)) (input : list Z) (status : Z) (r : Console) :
  cli_main stk fuel isatty socket buf surroundings argv input = Done (status, r) -> status = 0.
Proof.
  unfold cli_main. intros ([c r1] & _ & H)%bind_Done_inv. destruct (negb (c =? 0)); [congruence|].
  apply bind_Done_inv in H as (r2 & _ & H). congruence.
Qed.

(** No server listens. *)
Definition offline_net : Net := mkNet (Some 3) (fun _ => false) true [] ∅.

Lemma cli_exit_status_witness :
  exists r, cli_main demo_stack 1 false None (replicate 8192 0) offline_net
    [lit "-c"; lit "DROP TABLE users;"] [] = Done (0, r).
Proof.
  destruct (cli_main demo_stack 1 false None (replicate 8192 0) offline_net
    [lit "-c"; lit "DROP TABLE users;"] []) as [[c r]| |] eqn:E.
  - exists r. rewrite (cli_exit_status demo_stack 1 false None (replicate 8192 0) offline_net
      [lit "-c"; lit "DROP TABLE users;"] [] c r E). reflexivity.
  - exfalso. revert E. vm_compute. discriminate.
  - exfalso. revert E. vm_compute. discriminate.
Defined.
