(* ===== verification/ClientServer.v ===== *)
(** The client and the server together: a statement goes from the client's
    cli_execute_sql through the server's dialogue and parser and back. *)
From Stdlib Require Import ZArith Lia String.
From stdpp Require Import base numbers option list gmap.
From S2P Require Import Prelude CString Fields Double Lexer Ast Parser ParserSpec ParserTotal.
From S2P Require Server Cli.

(** The line the client sends for a statement. *)
Definition request_of (text : list Z) : list Z := zstr "QUERY:" ++ text ++ [10].

(** What one query makes the server send: the reply, None when the session gives
    anything else. *)
Definition server_side (fuel : nat) (stack request : list Z) : outcome (option (list Z)) :=
  let* '(_, replies) := Server.server_handle_client fuel stack [(request, false)] in
  Done (match replies with [reply] => Some reply | _ => None end).

(** The client's call, with the server behind the socket: the request the client
    sends is read by the server, whose reply arrives in the chunks [cut] makes. *)
Definition round_trip (fuel : nat) (stack : list Z) (cut : list Z -> list (list Z)) (stk : Cli.Stack)
    (r : Cli.Console) (sql : list Z) : outcome (Z * Cli.Console) :=
  let* s := Cli.cstring sql in
  let* reply := server_side fuel stack (take (Cli.CLI_MAX_LINE + 64 - 1) (request_of s)) in
  match reply with
  | Some reply => Cli.cli_execute_sql stk (Cli.with_input r (cut reply)) sql
  | None => Undef
  end.

Lemma request_fits text : (length text <= 4152)%nat ->
  take (Cli.CLI_MAX_LINE + 64 - 1) (request_of text) = request_of text.
Proof.
  intros Hl. apply take_ge. unfold request_of, Cli.CLI_MAX_LINE. rewrite !length_app. simpl. lia.
Qed.

Lemma server_side_query fuel stack text reply :
  len stack = Server.SERVER_BUFFER_SIZE -> (length text <= 4152)%nat ->
  Server.query_reply fuel (text ++ [10]) = Done reply ->
  server_side fuel stack (request_of text) = Done (Some reply).
Proof.
  intros Hs Hl Hq. unfold server_side. rewrite Server.handle_client_ok; [|done|].
  - change (request_of text) with (Server.query (text ++ [10])). rewrite Server.session_query, Hq. done.
  - apply Forall_cons. split; [|done]. unfold request_of, Server.SERVER_BUFFER_SIZE. cbn [fst].
    rewrite !length_app. simpl. lia.
Qed.

(** The client's part, for a reply of the server. *)
Lemma round_trip_ok fuel stack cut stk r sql text msg :
  cstr sql text -> (length text <= 4152)%nat -> len stack = Server.SERVER_BUFFER_SIZE ->
  Server.query_reply fuel (text ++ [10]) = Done (msg ++ [10]) ->
  (forall s, concat (cut s) = s /\ Forall (fun c => c <> []) (cut s)) ->
  Cli.connected (Cli.cli r) = true -> Cli.net_write_ok (Cli.net r) = true -> length (Cli.st_resp stk) = 4096%nat ->
  0 ∉ msg -> 10 ∉ msg -> 13 ∉ msg -> (length msg < 4095)%nat -> Cli.server_reply msg ->
  round_trip fuel stack cut stk r sql =
    Done (Cli.understood msg (Cli.with_input (Cli.after_send r text) [])).
Proof.
  intros Hc Hl Hs Hq Hcut Hup Hw Hst H0 H10 H13 Hlm Hm. unfold round_trip.
  rewrite (Cli.cstring_ok _ _ Hc), bind_Done, request_fits by done.
  rewrite (server_side_query fuel stack text (msg ++ [10])), bind_Done by done.
  destruct (Hcut (msg ++ [10])) as [Hcat Hne].
  by rewrite (Cli.execute_reply stk _ sql text msg (cut (msg ++ [10])) []) by (done || by rewrite app_nil_r).
Qed.

(** ** Theorems *)

(** C7: a statement reaches the server whole. For a statement in the printed form
    (ParserSpec), of at most 4152 bytes, that is read by the server in one piece: the
    client sends one request, the server's parser reads exactly that statement from
    it, and however the reply is cut on its way the client takes it as a success: it
    returns no error code and writes nothing to stderr. For CREATE and DROP of tables
    and indexes it returns 0 and prints "Query OK". What it prints for other
    statements is not stated: the server executes nothing and answers all of them
    "OK 0 rows", also an INSERT, for which specs/server-daemon wants "OK 1"; and the
    request has the prefix "QUERY:", which that document does not know. *)
Theorem client_server_statement (stmt : AstNode) (sql text stack : list Z) (q : Parser Lexer) (fuel : nat)
    (cut : list Z -> list (list Z)) (stk : Cli.Stack) (r : Cli.Console) :
  stmt_printable stmt = true -> feeds (parser_of text) (print_stmt stmt) q ->
  (4 * length (print_stmt stmt) <= fuel)%nat -> Server.rtrim (text ++ [10]) = text ->
  cstr sql text -> (length text <= 4152)%nat -> len stack = Server.SERVER_BUFFER_SIZE ->
  (forall s, concat (cut s) = s /\ Forall (fun c => c <> []) (cut s)) ->
  Cli.connected (Cli.cli r) = true -> Cli.net_write_ok (Cli.net r) = true -> length (Cli.st_resp stk) = 4096%nat ->
  exists code r' q', round_trip fuel stack cut stk r sql = Done (code, r') /\
    Cli.sent r' = Cli.sent r ++ [request_of text] /\
    parser_parse fuel (parser_of (Server.rtrim (drop 6 (request_of text)))) = Done (Some stmt, q') /\
    0 <= code /\ Cli.err r' = Cli.err r /\
    match stmt with
    | AST_CREATE_TABLE _ _ _ | AST_DROP_TABLE _ _ | AST_CREATE_INDEX _ _ _ _ | AST_DROP_INDEX _ =>
        code = 0 /\ Cli.out r' = Cli.out r ++ zstr "Query OK" ++ [10]
    | _ => True
    end.
Proof.
  intros Hp Hf Hfuel Ht Hc Hl Hs Hcut Hup Hw Hst.
  set (msg := if Server.is_ddl stmt then zstr "Query OK" else zstr "OK 0 rows").
  assert (Server.starts text (print_stmt stmt) q) as Hst' by (split; [done|]; by destruct stmt as [| | | | | | | |[]]).
  assert (parser_parse fuel (parser_of text) = Done (Some stmt, q)) as Hparse.
  { by apply (stmt_reads stmt Hp). }
  assert (Server.query_reply fuel (text ++ [10]) = Done (msg ++ [10])) as Hq.
  { rewrite Server.query_reply_parse by (done || by eapply Server.starts_no_error).
    by rewrite Hparse, bind_Done. }
  rewrite (round_trip_ok fuel stack cut stk r sql text msg) by
    (done || (unfold msg; destruct (Server.is_ddl stmt);
      first [by apply (bool_decide_unpack _); vm_compute | apply Nat.ltb_lt; by vm_compute
            | unfold Cli.server_reply; tauto])).
  change (drop 6 (request_of text)) with (text ++ [10]). rewrite Ht.
  rewrite <- (request_fits text) by done.
  exists 0, (snd (Cli.understood msg (Cli.with_input (Cli.after_send r text) []))), q.
  unfold msg. by destruct stmt; cbn [Server.is_ddl].
Qed.

Definition one_by_one (s : list Z) : list (list Z) := map (fun c => [c]) s.

Lemma one_by_one_cuts s : concat (one_by_one s) = s /\ Forall (fun c => c <> []) (one_by_one s).
Proof.
  unfold one_by_one. split; induction s as [|c s IH]; cbn; [done|by rewrite IH|constructor|by constructor].
Qed.

Definition drop_stmt : AstNode := AST_DROP_TABLE (zstr "users") true.
Definition drop_text : list Z := zstr "DROP TABLE IF EXISTS users;".

Lemma client_server_statement_witness :
  exists r', round_trip 200 (replicate 8192 0) one_by_one Cli.demo_stack (Cli.online [])
      (drop_text ++ [0]) = Done (0, r') /\ Cli.out r' = zstr "Query OK" ++ [10].
Proof.
  destruct (feeding (parser_of drop_text) (print_stmt drop_stmt)) as [q|] eqn:E.
  - destruct (client_server_statement drop_stmt (drop_text ++ [0]) drop_text (replicate 8192 0) q 200
      one_by_one Cli.demo_stack (Cli.online [])) as (code & r' & q' & Hr & _ & _ & _ & _ & Hcode & Ho).
    + vm_compute. reflexivity.
    + apply feeding_feeds. exact E.
    + apply Nat.leb_le. vm_compute. reflexivity.
    + vm_compute. reflexivity.
    + split; [by exists []|]. apply (bool_decide_unpack _). by vm_compute.
    + apply Nat.leb_le. vm_compute. reflexivity.
    + vm_compute. reflexivity.
    + apply one_by_one_cuts.
    + reflexivity.
    + reflexivity.
    + reflexivity.
    + exists r'. rewrite Hcode in Hr. split; [exact Hr|]. rewrite Ho. vm_compute. reflexivity.
  - exfalso. revert E. vm_compute. discriminate.
Defined.

(** C34: an error comes back. When the parser reads no statement from a text (of at
    most 4152 bytes, read by the server in one piece) and has an error message of at
    most 235 bytes without newlines, then however the reply is cut on its way, the
    client returns -1, prints nothing to stdout and writes one line to stderr that
    ends in exactly that message. (What stands before it, "Error: parse error: ",
    differs from the "ERROR:" of specs/cli-client and is not stated here, see
    [parse_error_prefix].) *)
Theorem client_reports_parse_error (sql text msg stack : list Z) (q : Parser Lexer) (fuel : nat)
    (cut : list Z -> list (list Z)) (stk : Cli.Stack) (r : Cli.Console) :
  has_error (parser_of text) = false -> parser_parse fuel (parser_of text) = Done (None, q) ->
  parser_error q = Some msg -> Cli.plain msg -> (length msg <= 235)%nat ->
  Server.rtrim (text ++ [10]) = text -> cstr sql text -> (length text <= 4152)%nat ->
  len stack = Server.SERVER_BUFFER_SIZE ->
  (forall s, concat (cut s) = s /\ Forall (fun c => c <> []) (cut s)) ->
  Cli.connected (Cli.cli r) = true -> Cli.net_write_ok (Cli.net r) = true -> length (Cli.st_resp stk) = 4096%nat ->
  exists r' before, round_trip fuel stack cut stk r sql = Done (-1, r') /\
    Cli.err r' = Cli.err r ++ before ++ msg ++ [10] /\ 10 ∉ before /\ Cli.out r' = Cli.out r.
Proof.
  intros He Hparse Herr Hmsg Hlm Ht Hc Hl Hs Hcut Hup Hw Hst.
  assert (Server.query_reply fuel (text ++ [10]) = Done ((zstr "ERROR parse error: " ++ msg) ++ [10])) as Hq.
  { rewrite Server.query_reply_parse by done. rewrite Hparse, bind_Done, Herr, <- app_assoc.
    by rewrite take_ge by (rewrite !length_app; simpl; lia). }
  assert (forall c, c ∈ [0; 10; 13] -> c ∉ zstr "ERROR parse error: " ++ msg) as Hn.
  { intros c Hin. rewrite not_elem_of_app. split; [|by apply Cli.plain_text_not].
    rewrite !elem_of_cons, elem_of_nil in Hin.
    destruct Hin as [->|[->|[->|[]]]]; apply (bool_decide_unpack _); by vm_compute. }
  rewrite (round_trip_ok fuel stack cut stk r sql text (zstr "ERROR parse error: " ++ msg)) by
    (done || (apply Hn; set_solver) || (rewrite length_app; simpl; lia) ||
     (right; right; by exists (zstr "parse error: " ++ msg))).
  unfold Cli.understood. rewrite !bool_decide_eq_false_2 by (intros [=]).
  eexists _, (zstr "Error: parse error: "). split_and!; [done|done| |done]. apply (bool_decide_unpack _). by vm_compute.
Qed.

Lemma client_reports_parse_error_witness :
  exists r' before, round_trip 200 (replicate 8192 0) one_by_one Cli.demo_stack (Cli.online [])
      (lit "SELECT * users;") = Done (-1, r') /\
    Cli.err r' = before ++ zstr "Expected FROM after SELECT columns" ++ [10] /\ 10 ∉ before.
Proof.
  destruct (parser_parse 200 (parser_of (zstr "SELECT * users;"))) as [[[stmt|] q]| |] eqn:E;
    [exfalso; revert E; vm_compute; discriminate| |exfalso; revert E; vm_compute; discriminate..].
  destruct (client_reports_parse_error (lit "SELECT * users;") (zstr "SELECT * users;")
    (zstr "Expected FROM after SELECT columns") (replicate 8192 0) q 200
      one_by_one Cli.demo_stack (Cli.online [])) as (r' & before & Hr & Ho & Hb & _).
  - vm_compute. reflexivity.
  - exact E.
  - revert E. vm_compute. intros [= <-]. reflexivity.
  - apply (bool_decide_unpack _). by vm_compute.
  - apply Nat.leb_le. vm_compute. reflexivity.
  - vm_compute. reflexivity.
  - apply lit_cstr. reflexivity.
  - apply Nat.leb_le. vm_compute. reflexivity.
  - vm_compute. reflexivity.
  - apply one_by_one_cuts.
  - reflexivity.
  - reflexivity.
  - reflexivity.
  - exists r', before. split; [exact Hr|]. split; [exact Ho|exact Hb].
Defined.

(** The line as the client writes it. *)
Example parse_error_prefix :
  match round_trip 200 (replicate 8192 0) one_by_one Cli.demo_stack (Cli.online []) (lit "SELECT * users;") with
  | Done (_, r') => Cli.err r' = zstr "Error: parse error: Expected FROM after SELECT columns" ++ [10]
  | _ => False
  end.
Proof. by vm_compute. Qed.
