(* ===== verification/CliFormat.v ===== *)
(** Model of src/cli/commands.c, and of the display functions of src/cli/cli.c: how
    results are laid out as boxes, CSV, lines and lists. *)
From Stdlib Require Import ZArith Lia String.
From stdpp Require Import base numbers option list gmap.
From S2P Require Import Prelude CString Fields Cli.

(** ** Loops that print *)

(** [for (i = start; i < start + n; i++)], with what each turn prints. *)
Fixpoint print_loop (n start : nat) (body : nat -> outcome (list Z)) : outcome (list Z) :=
  match n with
  | O => Done []
  | S n =>
      let* s := body start in
      let* rest := print_loop n (S start) body in
      Done (s ++ rest)
  end.

(** A cell is a C string or NULL; the data are rows * cols pointers. *)
Definition Cell : Type := option (list Z).

Definition cell (data : list Cell) (cols i j : nat) : outcome Cell := outcome_of_option (data !! (i * cols + j)%nat).

Definition shown (c : Cell) : list Z := default [] c.

(** ** cli.c *)

Definition cli_display_result (rows cols : nat) (data : list Cell) : outcome (list Z) :=
  print_loop rows 0 (fun i =>
    let* line := print_loop cols 0 (fun j =>
      let* c := cell data cols i j in
      Done ((if (0 <? j)%nat then [9] else []) ++ shown c)) in
    Done (line ++ [10])).

Definition cli_display_error (error : option (list Z)) : list Z :=
  match error with Some e => zstr "ERROR: " ++ e ++ [10] | None => [] end.

(** ** commands.c *)

Definition cli_execute_command (cmd : list Z) : Z := 0.

Section commands.
Variable stk : Stack.

Definition cli_execute_query (r : Console) (sql : list Z) : outcome (Z * Console) := cli_execute_sql stk r sql.
Definition cli_begin_transaction (r : Console) : outcome (Z * Console) := cli_execute_sql stk r (lit "BEGIN").
Definition cli_commit_transaction (r : Console) : outcome (Z * Console) := cli_execute_sql stk r (lit "COMMIT").
Definition cli_rollback_transaction (r : Console) : outcome (Z * Console) := cli_execute_sql stk r (lit "ROLLBACK").
End commands.

(** The width of column [j]: the loop over its cells, from [n] on. *)
Fixpoint column_width (rows i : nat) (data : list Cell) (cols j n : nat) : outcome nat :=
  match rows with
  | O => Done n
  | S rows =>
      let* c := cell data cols i j in
      let l := length (shown c) in
      column_width rows (S i) data cols j (if (n <? l)%nat then l else n)
  end.

(** The loop that fills the array of widths. *)
Fixpoint column_widths (n j : nat) (rows cols : nat) (data headers : list Cell) : outcome (list nat) :=
  match n with
  | O => Done []
  | S n =>
      let* h := outcome_of_option (headers !! j) in
      let* w := column_width rows 0 data cols j (length (shown h)) in
      let* ws := column_widths n (S j) rows cols data headers in
      Done (w :: ws)
  end.

(** "%-*s" *)
Definition left_justified (w : nat) (s : list Z) : list Z := s ++ replicate (w - length s) 32.

Definition box_rule (cols : nat) (widths : list nat) : outcome (list Z) :=
  let* s := print_loop cols 0 (fun j =>
    let* w := outcome_of_option (widths !! j) in Done (replicate (w + 2) 45 ++ [43])) in
  Done ([43] ++ s ++ [10]).

(** A line of cells, given the cell of each column. *)
Definition box_line (cols : nat) (widths : list nat) (cells : nat -> outcome Cell) : outcome (list Z) :=
  let* s := print_loop cols 0 (fun j =>
    let* w := outcome_of_option (widths !! j) in
    let* c := cells j in
    Done ([32] ++ left_justified w (shown c) ++ [32; 124])) in
  Done ([124] ++ s ++ [10]).

Definition cli_format_result_box (rows cols : nat) (data headers : list Cell) : outcome (list Z) :=
  if (rows =? 0)%nat then Done (zstr "No rows returned." ++ [10]) else
  let* widths := column_widths cols 0 rows cols data headers in
  let* rule := box_rule cols widths in
  let* head := box_line cols widths (fun j => outcome_of_option (headers !! j)) in
  let* body := print_loop rows 0 (fun i => box_line cols widths (fun j => cell data cols i j)) in
  Done (rule ++ head ++ rule ++ body ++ rule).

(** A quote in a quoted value is doubled. *)
Fixpoint csv_quote (s : list Z) : list Z :=
  match s with
  | [] => []
  | c :: s => (if c =? 34 then [34; 34] else [c]) ++ csv_quote s
  end.

Definition csv_value (c : Cell) : list Z :=
  match c with
  | None | Some [] => [34; 34]
  | Some val =>
      let needs_quotes := bool_decide (44 ∈ val) || bool_decide (34 ∈ val) || bool_decide (10 ∈ val) in
      if needs_quotes then [34] ++ csv_quote val ++ [34] else val
  end.

(** The headers are not used. *)
Definition cli_format_result_csv (rows cols : nat) (data headers : list Cell) : outcome (list Z) :=
  print_loop rows 0 (fun i =>
    let* line := print_loop cols 0 (fun j =>
      let* val := cell data cols i j in
      Done ((if (0 <? j)%nat then [44] else []) ++ csv_value val)) in
    Done (line ++ [10])).

Definition cli_format_result_line (rows cols : nat) (data headers : list Cell) : outcome (list Z) :=
  print_loop rows 0 (fun i =>
    let* line := print_loop cols 0 (fun j =>
      let* h := outcome_of_option (headers !! j) in
      let* c := cell data cols i j in
      Done (shown h ++ zstr " = " ++ shown c ++ [10])) in
    Done (line ++ (if (i <? rows - 1)%nat then [10] else []))).

Definition cli_format_result_list (rows cols : nat) (data headers : list Cell) : outcome (list Z) :=
  print_loop rows 0 (fun i =>
    let* line := print_loop cols 0 (fun j =>
      let* h := outcome_of_option (headers !! j) in
      let* c := cell data cols i j in
      Done ((if (0 <? j)%nat then [9] else []) ++ shown h ++ [9] ++ shown c)) in
    Done (line ++ [10])).

(** ** Specifications *)

(** A reader of CSV (RFC 4180, lines ended by a newline). *)
Inductive CsvState : Type := FieldStart | InPlain | InQuotes | QuoteSeen.

Fixpoint csv_read (st : CsvState) (field : list Z) (row : list (list Z)) (table : list (list (list Z)))
    (s : list Z) : option (list (list (list Z))) :=
  match s with
  | [] => match st, row with FieldStart, [] => Some table | _, _ => None end
  | c :: s =>
      match st with
      | FieldStart | InPlain =>
          if c =? 44 then csv_read FieldStart [] (row ++ [field]) table s
          else if c =? 10 then csv_read FieldStart [] [] (table ++ [row ++ [field]]) s
          else if (c =? 34) && match st with FieldStart => true | _ => false end
          then csv_read InQuotes [] row table s
          else csv_read InPlain (field ++ [c]) row table s
      | InQuotes =>
          if c =? 34 then csv_read QuoteSeen field row table s
          else csv_read InQuotes (field ++ [c]) row table s
      | QuoteSeen =>
          if c =? 34 then csv_read InQuotes (field ++ [34]) row table s
          else if c =? 44 then csv_read FieldStart [] (row ++ [field]) table s
          else if c =? 10 then csv_read FieldStart [] [] (table ++ [row ++ [field]]) s
          else None
      end
  end.

Definition csv_parse (s : list Z) : option (list (list (list Z))) := csv_read FieldStart [] [] [] s.

(** ** Lemmas *)

Lemma print_loop_ok n start body (lines : list (list Z)) :
  length lines = n -> (forall i l, lines !! i = Some l -> body (start + i)%nat = Done l) ->
  print_loop n start body = Done (concat lines).
Proof.
  revert start lines. induction n as [|n IH]; intros start [|l lines] Hl Hb; simplify_eq/=; [done|].
  assert (body start = Done l) as -> by (rewrite <- (Nat.add_0_r start); by apply Hb).
  rewrite bind_Done, (IH (S start) lines), bind_Done; [done|done|].
  intros i l' Hi. replace (S start + i)%nat with (start + S i)%nat by lia. by apply Hb.
Qed.

(** The cells of a table, row by row. *)
Lemma cell_ok (table : list (list Cell)) cols i j row c :
  Forall (fun row => length row = cols) table -> table !! i = Some row -> row !! j = Some c ->
  cell (concat table) cols i j = Done c.
Proof.
  intros Ht Hi Hj. unfold cell. revert i Hi. induction Ht as [|row' table Hr Ht IH]; intros [|i] Hi; simplify_eq/=.
  - rewrite lookup_app_l by (by eapply lookup_lt_Some). by rewrite Hj.
  - rewrite lookup_app_r by (apply lookup_lt_Some in Hj; nia).
    replace (length row' + i * length row' + j - length row')%nat with (i * length row' + j)%nat by lia. by apply IH.
Qed.

(** *** CSV *)

Lemma csv_quote_read s field row table rest :
  csv_read InQuotes field row table (csv_quote s ++ 34 :: rest) =
    csv_read QuoteSeen (field ++ s) row table rest.
Proof.
  revert field. induction s as [|c s IH]; intros field; cbn [csv_quote app csv_read].
  - by rewrite Z.eqb_refl, app_nil_r.
  - destruct (Z.eqb_spec c 34) as [->|Hc]; cbn [app csv_read].
    + rewrite !Z.eqb_refl, IH. by rewrite <- app_assoc.
    + rewrite (proj2 (Z.eqb_neq _ _) Hc), IH. by rewrite <- app_assoc.
Qed.

Lemma csv_plain_read s field row table rest :
  44 ∉ s -> 10 ∉ s ->
  csv_read InPlain field row table (s ++ rest) = csv_read InPlain (field ++ s) row table rest.
Proof.
  revert field. induction s as [|c s IH]; intros field H44 H10; cbn [app csv_read]; [by rewrite app_nil_r|].
  apply not_elem_of_cons in H44 as [Hc H44], H10 as [Hc' H10].
  destruct (Z.eqb_spec c 44); [congruence|]. destruct (Z.eqb_spec c 10); [congruence|].
  rewrite andb_false_r, IH by done. by rewrite <- app_assoc.
Qed.

(** A value, and the comma or newline behind it. *)
Lemma csv_value_read c row table d rest : d ∈ [44; 10] ->
  csv_read FieldStart [] row table (csv_value c ++ d :: rest) =
    if d =? 44 then csv_read FieldStart [] (row ++ [shown c]) table rest
    else csv_read FieldStart [] [] (table ++ [row ++ [shown c]]) rest.
Proof.
  intros Hd. assert (d = 44 \/ d = 10) as Hd' by (rewrite !elem_of_cons, elem_of_nil in Hd; tauto).
  destruct c as [[|c0 s]|]; [by destruct Hd' as [-> | ->]| |by destruct Hd' as [-> | ->]].
  set (v := c0 :: s).
  destruct (bool_decide (44 ∈ v) || bool_decide (34 ∈ v) || bool_decide (10 ∈ v)) eqn:E.
  - assert (csv_value (Some v) = 34 :: csv_quote v ++ [34]) as -> by (unfold v, csv_value in *; by rewrite E).
    cbn [app csv_read]. change (34 =? 44) with false. change (34 =? 10) with false. change (34 =? 34) with true.
    cbn [andb]. rewrite <- app_assoc. cbn [app]. rewrite csv_quote_read. cbn [csv_read app].
    by destruct Hd' as [-> | ->].
  - assert (csv_value (Some v) = v) as -> by (unfold v, csv_value in *; by rewrite E).
    apply orb_false_iff in E as [E E10]. apply orb_false_iff in E as [E44 E34].
    apply bool_decide_eq_false in E10, E44, E34. unfold v in *. cbn [app csv_read].
    apply not_elem_of_cons in E44 as [N44 E44], E34 as [N34 _], E10 as [N10 E10].
    destruct (Z.eqb_spec c0 44); [congruence|]. destruct (Z.eqb_spec c0 10); [congruence|].
    destruct (Z.eqb_spec c0 34); [congruence|]. cbn [andb app]. rewrite csv_plain_read by done. cbn [csv_read].
    by destruct Hd' as [-> | ->].
Qed.

(** The values of a row as the loop prints them. *)
Definition csv_items (cells : list Cell) (first : bool) : list (list Z) :=
  imap (fun j c => (if (0 <? (if first then j else S j))%nat then [44] else []) ++ csv_value c) cells.

Lemma csv_row_read cells row table rest c :
  csv_read FieldStart [] row table (csv_value c ++ concat (csv_items cells false) ++ 10 :: rest) =
    csv_read FieldStart [] [] (table ++ [row ++ map shown (c :: cells)]) rest.
Proof.
  revert c row. induction cells as [|c' cells IH]; intros c row.
  - cbn. by rewrite csv_value_read by set_solver.
  - change (csv_items (c' :: cells) false) with (([44] ++ csv_value c') :: csv_items cells false).
    cbn [concat]. rewrite <- !app_assoc. cbn [app]. rewrite csv_value_read by set_solver.
    change (44 =? 44) with true. cbv iota. rewrite IH. do 3 f_equal. by rewrite <- app_assoc.
Qed.

Definition csv_line (cells : list Cell) : list Z := concat (csv_items cells true) ++ [10].

Lemma csv_table_read (table : list (list Cell)) acc :
  Forall (fun row => row <> []) table ->
  csv_read FieldStart [] [] acc (concat (map csv_line table)) = Some (acc ++ map (map shown) table).
Proof.
  intros Ht. revert acc. induction Ht as [|row table Hr _ IH]; intros acc; [cbn; by rewrite app_nil_r|].
  destruct row as [|c cells]; [done|]. cbn [map concat]. unfold csv_line at 1.
  change (csv_items (c :: cells) true) with (csv_value c :: csv_items cells false).
  cbn [concat]. rewrite <- !app_assoc. cbn [app]. rewrite csv_row_read. cbn [app].
  rewrite IH. f_equal. by rewrite <- app_assoc.
Qed.

Lemma format_csv_ok (table : list (list Cell)) (headers : list Cell) cols :
  Forall (fun row => length row = cols) table ->
  cli_format_result_csv (length table) cols (concat table) headers = Done (concat (map csv_line table)).
Proof.
  intros Ht. unfold cli_format_result_csv. apply print_loop_ok; [by rewrite length_map|].
  intros i l Hi. rewrite Nat.add_0_l. change (map csv_line) with (fmap (M:=list) csv_line) in Hi.
  rewrite list_lookup_fmap in Hi. destruct (table !! i) as [row|] eqn:Er; [|done]. injection Hi as <-.
  rewrite (print_loop_ok cols 0 _ (csv_items row true)); [done| |].
  - unfold csv_items. rewrite length_imap. rewrite Forall_lookup in Ht. by apply (Ht i).
  - intros j x Hj. rewrite Nat.add_0_l. unfold csv_items in Hj. rewrite list_lookup_imap in Hj.
    destruct (row !! j) as [c|] eqn:Ec; [|done]. injection Hj as <-.
    by rewrite (cell_ok table cols i j row c Ht Er Ec).
Qed.

(** ** Theorems *)

(** C20: the CSV output is CSV, with one record per row of the result. Reading it
    back with the quoting rules of RFC 4180 and records that end in a newline gives
    exactly the rows, for all cell contents, commas, quotes and newlines included (an
    empty and a NULL cell both print as two quotes and read as the empty text). The
    headers are ignored: there is no header record, unlike the CSV Mode of
    design/cli-ux.md. *)
Theorem csv_roundtrip (table : list (list Cell)) (headers : list Cell) (cols : nat) :
  Forall (fun row => length row = cols) table -> (0 < cols)%nat ->
  exists s, cli_format_result_csv (length table) cols (concat table) headers = Done s /\
    csv_parse s = Some (map (map shown) table).
Proof.
  intros Ht Hc. exists (concat (map csv_line table)). split; [by apply format_csv_ok|].
  unfold csv_parse. rewrite csv_table_read; [done|]. eapply Forall_impl; [done|].
  intros [|c row] Hr; [simpl in Hr; lia|done].
Qed.

Definition demo_table : list (list Cell) :=
  [[Some (zstr "1"); Some (zstr "a,b")]; [Some []; None]; [Some [34; 120; 34]; Some [10]]].

Definition demo_headers : list Cell := [Some (zstr "id"); Some (zstr "name")].

Lemma csv_roundtrip_witness :
  exists s, cli_format_result_csv 3 2 (concat demo_table) demo_headers = Done s /\
    csv_parse s = Some [[zstr "1"; zstr "a,b"]; [[]; []]; [[34; 120; 34]; [10]]].
Proof.
  apply (csv_roundtrip demo_table demo_headers 2).
  - apply (bool_decide_unpack _). by vm_compute.
  - apply Nat.ltb_lt. reflexivity.
Defined.

(** *** Boxes *)

(** The picture of a table: a column is as wide as its longest text, a bar rules the
    columns off, a line shows every cell, filled up with blanks. *)
Definition cell_len (j : nat) (row : list Cell) : nat :=
  match row !! j with Some c => length (shown c) | None => 0%nat end.

Definition max_width (headers : list Cell) (table : list (list Cell)) (j : nat) : nat :=
  max_list_with (cell_len j) (headers :: table).

Definition bar (ws : list nat) : list Z := 43 :: concat (map (fun w => replicate (w + 2) 45 ++ [43]) ws).

Definition text_line (ws : list nat) (row : list Cell) : list Z :=
  124 :: concat (zip_with (fun w c => [32] ++ shown c ++ replicate (w - length (shown c)) 32 ++ [32; 124]) ws row).

Definition picture (headers : list Cell) (table : list (list Cell)) (ws : list nat) : list (list Z) :=
  [bar ws; text_line ws headers; bar ws] ++ map (text_line ws) table ++ [bar ws].

(** A text cut at its newlines. *)
Fixpoint lines_from (cur s : list Z) : list (list Z) :=
  match s with
  | [] => match cur with [] => [] | _ => [cur] end
  | c :: s => if c =? 10 then cur :: lines_from [] s else lines_from (cur ++ [c]) s
  end.

Definition lines_of (s : list Z) : list (list Z) := lines_from [] s.

Lemma lines_from_line cur l rest : 10 ∉ l -> lines_from cur (l ++ 10 :: rest) = (cur ++ l) :: lines_from [] rest.
Proof.
  revert cur. induction l as [|c l IH]; intros cur Hl; cbn [app lines_from].
  - by rewrite app_nil_r.
  - apply not_elem_of_cons in Hl as [Hc Hl]. destruct (Z.eqb_spec c 10); [congruence|].
    by rewrite IH, <- app_assoc.
Qed.

Lemma lines_of_concat ls : Forall (fun l => 10 ∉ l) ls -> lines_of (concat (map (fun l => l ++ [10]) ls)) = ls.
Proof.
  unfold lines_of. induction 1 as [|l ls Hl _ IH]; [done|]. cbn [map concat].
  rewrite <- app_assoc. cbn [app]. by rewrite lines_from_line, IH.
Qed.

Lemma max_list_with_ge {A} (f : A -> nat) l x : x ∈ l -> (f x <= max_list_with f l)%nat.
Proof. induction 1 as [x l|x y l _ IH]; simpl; lia. Qed.

(** The loops find the longest text. *)
Lemma column_width_ok (table : list (list Cell)) cols j n m i0 :
  Forall (fun row => length row = cols) table -> (j < cols)%nat -> (i0 + m = length table)%nat ->
  column_width m i0 (concat table) cols j n = Done (n `max` max_list_with (cell_len j) (drop i0 table))%nat.
Proof.
  intros Ht Hj. revert n i0. induction m as [|m IH]; intros n i0 Hm; cbn [column_width].
  - rewrite drop_ge by lia. cbn. by rewrite Nat.max_0_r.
  - destruct (lookup_lt_is_Some_2 table i0 ltac:(lia)) as [row Hr].
    assert (length row = cols) as Hrl by (rewrite Forall_lookup in Ht; by apply (Ht i0)).
    destruct (lookup_lt_is_Some_2 row j ltac:(lia)) as [c Hc].
    rewrite (cell_ok table cols i0 j row c Ht Hr Hc), bind_Done, IH by lia.
    rewrite (drop_S table row i0 Hr). cbn [max_list_with].
    assert (cell_len j row = length (shown c)) as -> by (unfold cell_len; by rewrite Hc).
    f_equal. destruct (Nat.ltb_spec n (length (shown c))); lia.
Qed.

Lemma column_widths_ok (table : list (list Cell)) headers cols n j0 :
  Forall (fun row => length row = cols) table -> length headers = cols -> (j0 + n = cols)%nat ->
  column_widths n j0 (length table) cols (concat table) headers = Done (map (max_width headers table) (seq j0 n)).
Proof.
  intros Ht Hh. revert j0. induction n as [|n IH]; intros j0 Hn; cbn [column_widths]; [done|].
  destruct (lookup_lt_is_Some_2 headers j0 ltac:(lia)) as [h Hhj]. rewrite Hhj. cbn [outcome_of_option].
  rewrite bind_Done, (column_width_ok table cols), bind_Done, IH, bind_Done by (done || lia).
  cbn [seq map]. do 2 f_equal. unfold max_width. cbn [max_list_with].
  assert (cell_len j0 headers = length (shown h)) as -> by (unfold cell_len; by rewrite Hhj). done.
Qed.

Lemma box_rule_ok ws : box_rule (length ws) ws = Done (bar ws ++ [10]).
Proof.
  unfold box_rule. rewrite (print_loop_ok _ _ _ (map (fun w => replicate (w + 2)%nat 45 ++ [43]) ws)).
  - rewrite bind_Done. unfold bar. by rewrite <- app_comm_cons.
  - apply length_map.
  - intros i p Hp. change (map ?f ws) with (f <$> ws) in Hp. rewrite list_lookup_fmap in Hp.
    destruct (ws !! i) eqn:E; [|done]. injection Hp as <-. by rewrite Nat.add_0_l, E.
Qed.

Lemma box_line_ok ws cells (row : list Cell) :
  length row = length ws -> (forall j c, row !! j = Some c -> cells j = Done c) ->
  box_line (length ws) ws cells = Done (text_line ws row ++ [10]).
Proof.
  intros Hr Hc. unfold box_line.
  rewrite (print_loop_ok _ _ _ (zip_with (fun w c =>
    [32] ++ shown c ++ replicate (w - length (shown c)) 32 ++ [32; 124]) ws row)).
  - rewrite bind_Done. unfold text_line. by rewrite <- app_comm_cons.
  - rewrite length_zip_with. lia.
  - intros i p Hp. rewrite lookup_zip_with in Hp. rewrite Nat.add_0_l.
    destruct (ws !! i) as [w|] eqn:Ew; [|done]. simpl in Hp. destruct (row !! i) as [c|] eqn:Ec; [|done].
    injection Hp as <-. cbn [outcome_of_option]. rewrite bind_Done, (Hc i c Ec), bind_Done.
    unfold left_justified. by rewrite <- !app_assoc.
Qed.

Lemma box_ok (table : list (list Cell)) (headers : list Cell) (cols : nat) :
  Forall (fun row => length row = cols) table -> length headers = cols -> table <> [] ->
  cli_format_result_box (length table) cols (concat table) headers =
    Done (concat (map (fun l => l ++ [10]) (picture headers table (map (max_width headers table) (seq 0 cols))))).
Proof.
  intros Ht Hh Hne. unfold cli_format_result_box.
  rewrite (proj2 (Nat.eqb_neq (length table) 0)) by (by destruct table).
  rewrite column_widths_ok, bind_Done by (done || lia). set (ws := map _ (seq 0 cols)).
  assert (length ws = cols) as Hl by (unfold ws; by rewrite length_map, length_seq).
  rewrite <- Hl. rewrite box_rule_ok, bind_Done.
  rewrite (box_line_ok ws _ headers), bind_Done by (lia || by intros j c ->). rewrite Hl.
  rewrite (print_loop_ok _ _ _ (map (fun l => l ++ [10]) (map (text_line ws) table))).
  - rewrite bind_Done. unfold picture. rewrite !map_app, !concat_app. cbn [map concat].
    rewrite !app_nil_r. by rewrite <- !app_assoc.
  - by rewrite !length_map.
  - intros i l Hi. rewrite Nat.add_0_l. rewrite map_map in Hi. change (map ?f table) with (f <$> table) in Hi.
    rewrite list_lookup_fmap in Hi. destruct (table !! i) as [row|] eqn:Er; [|done]. injection Hi as <-.
    pose proof (box_line_ok ws (fun j => cell (concat table) cols i j) row) as HB. rewrite Hl in HB. apply HB.
    + rewrite Forall_lookup in Ht. by apply (Ht i).
    + intros j c Hj. by apply (cell_ok table cols i j row).
Qed.

(** The picture is rectangular. *)
Definition line_width (ws : list nat) : nat := S (sum_list_with (fun w => w + 3) ws)%nat.

Lemma bar_width ws : length (bar ws) = line_width ws.
Proof.
  unfold bar, line_width. cbn [length]. f_equal. induction ws as [|w ws IH]; [done|]. cbn [map concat sum_list_with].
  rewrite !length_app, length_replicate, IH. simpl. lia.
Qed.

Lemma text_line_width headers table cols row :
  length row = cols -> row ∈ headers :: table ->
  length (text_line (map (max_width headers table) (seq 0 cols)) row) =
    line_width (map (max_width headers table) (seq 0 cols)).
Proof.
  intros Hr Hin. unfold text_line, line_width. cbn [length]. f_equal.
  assert (forall j c, row !! j = Some c -> (length (shown c) <= max_width headers table j)%nat) as Hfit.
  { intros j c Hc. apply list_elem_of_lookup_1 in Hin as [i Hi]. unfold max_width.
    assert (cell_len j row = length (shown c)) as <- by (unfold cell_len; by rewrite Hc).
    apply max_list_with_ge. by eapply list_elem_of_lookup_2. }
  clear Hin. assert (forall n k, (k + n = length row)%nat ->
    length (concat (zip_with (fun w c => [32] ++ shown c ++ replicate (w - length (shown c)) 32 ++ [32; 124])
      (map (max_width headers table) (seq k n)) (drop k row))) =
    sum_list_with (fun w => w + 3)%nat (map (max_width headers table) (seq k n))) as H; [|by apply (H cols 0%nat)].
  induction n as [|n IH]; intros k Hk; [done|]. cbn [seq map].
  destruct (lookup_lt_is_Some_2 row k ltac:(lia)) as [c Hc]. rewrite (drop_S row c k Hc). cbn [zip_with concat sum_list_with].
  rewrite length_app, IH by lia. pose proof (Hfit k c Hc) as Hw. revert Hw.
  generalize (max_width headers table k). intros w Hw. rewrite !length_app, length_replicate. cbn [length]. lia.
Qed.

Definition plain_cell (c : Cell) : Prop := 10 ∉ shown c.

Lemma bar_plain ws : 10 ∉ bar ws.
Proof.
  unfold bar. rewrite not_elem_of_cons. split; [done|]. induction ws as [|w ws IH]; [apply not_elem_of_nil|].
  cbn [map concat]. rewrite !not_elem_of_app. split; [split|done].
  - intros Hin%elem_of_replicate_inv. done.
  - by rewrite list_elem_of_singleton.
Qed.

Lemma text_line_plain ws row : Forall plain_cell row -> 10 ∉ text_line ws row.
Proof.
  intros Hr. unfold text_line. rewrite not_elem_of_cons. split; [done|]. revert ws.
  induction Hr as [|c row Hc _ IH]; intros [|w ws]; try apply not_elem_of_nil. cbn [zip_with concat].
  rewrite !not_elem_of_app. split_and!; [by rewrite list_elem_of_singleton|done| | |by apply IH].
  - intros Hin%elem_of_replicate_inv. done.
  - intros Hin. rewrite !elem_of_cons, elem_of_nil in Hin. lia.
Qed.

(** C29: a box shows the table. For any non-empty table whose cells and headers
    have no newline, the lines printed are a bar, the headers, a bar, one line per
    row and a bar; every line of texts shows each cell in full, behind a blank and
    followed by blanks up to the width of its column, which is the length in bytes
    of the longest text of that column, headers included; and all lines have the
    same length. *)
Theorem box_rectangular (table : list (list Cell)) (headers : list Cell) (cols : nat) :
  Forall (fun row => length row = cols) table -> length headers = cols -> table <> [] ->
  Forall plain_cell headers -> Forall (Forall plain_cell) table ->
  let ws := map (max_width headers table) (seq 0 cols) in
  exists s, cli_format_result_box (length table) cols (concat table) headers = Done s /\
    lines_of s = [bar ws; text_line ws headers; bar ws] ++ map (text_line ws) table ++ [bar ws] /\
    Forall (fun l => length l = line_width ws) (lines_of s).
Proof.
  intros Ht Hh Hne Hph Hpt ws. eexists. split; [by apply box_ok|]. fold ws.
  rewrite lines_of_concat.
  - split; [reflexivity|]. unfold picture. rewrite !Forall_app, Forall_map. split_and!.
    + repeat constructor; [apply bar_width|apply text_line_width; [done|left]|apply bar_width].
    + rewrite Forall_forall in Ht |- *. intros row Hin. apply text_line_width; [by apply Ht|by right].
    + repeat constructor. apply bar_width.
  - unfold picture. rewrite !Forall_app, Forall_map. split_and!.
    + repeat constructor; [apply bar_plain|by apply text_line_plain|apply bar_plain].
    + eapply Forall_impl; [exact Hpt|]. intros row. apply text_line_plain.
    + repeat constructor. apply bar_plain.
Qed.

Definition demo_people : list (list Cell) :=
  [[Some (zstr "1"); Some (zstr "Alice")]; [Some (zstr "12"); None]].

Lemma box_rectangular_witness :
  exists s, cli_format_result_box 2 2 (concat demo_people) demo_headers = Done s /\
    lines_of s = [zstr "+----+-------+"; zstr "| id | name  |"; zstr "+----+-------+";
                  zstr "| 1  | Alice |"; zstr "| 12 |       |"; zstr "+----+-------+"].
Proof.
  destruct (box_rectangular demo_people demo_headers 2) as (s & E & H & _).
  - apply (bool_decide_unpack _). by vm_compute.
  - reflexivity.
  - discriminate.
  - apply (bool_decide_unpack _). by vm_compute.
  - apply (bool_decide_unpack _). by vm_compute.
  - exists s. split; [exact E|exact H].
Defined.
